(* ===== verification/_CoqProject ===== *)
-Q . S2P
Prelude.v
Types.v
CheckedMath.v
Integrity.v
Platform.v
Resources.v
HostBackend.v
SharedBackend.v
FileBackend.v
CudaBackend.v
State.v
Sim.v
SimResources.v
Domain.v
Ledger.v
Pool.v
Lifecycle.v
Runtime.v
Handle.v
Facade.v
SimRuntime.v
Frames.v
RefSpec.v
Refcount.v
Clients.v
StateMachine.v
Allocation.v
Charges.v
Backing.v
Release.v
Ownership.v
Conservation.v
Isolation.v
Zeroing.v
Migration.v
Access.v
Contents.v
Exchange.v
Telemetry.v
Concurrency.v
Interleavings.v
Moving.v
Shell.v
Session.v
Tool.v
Traffic.v
Balance.v
Books.v
Examples.v
Programs.v
Pairs.v
Solo.v
Passing.v
Quotas.v
