(* ===== verification/Prelude.v ===== *)
(** * Unified Buffer: a verification development

    The library under src/ gives applications one handle type for memory in five
    domains (host, pinned host, CUDA device, shared memory, mapped file).  A
    [Runtime] allocates buffers from backends, counts the references to them,
    hands out leases, maps and views, enforces per-namespace quotas, reuses
    released backings through a pool, migrates buffers between domains, and
    exports and imports them; a command-line tool and a set of example programs work
    on such runtimes.  This development models the library, the tool and the examples
    and proves what makes them correct.

    ** The parts and the files that model them

    Each definition carries the name of the C++ function it translates (operations
    of [BufferHandle] are prefixed with [handle_], methods of the public class
    [Runtime] with [Runtime_], and the operations of a backend with its name).

    - Prelude: words, the state monad, lists, maps, tactics.
    - Types (core/types.hpp, error.hpp, result.hpp, identity.hpp,
      capabilities.hpp): enumerations, results, identities, capability masks.
    - CheckedMath (core/checked_math.hpp), Integrity (core/integrity.cpp).
    - Platform (backends/domain.hpp): memory, the class of everything the sources
      call but do not define (Win32, C runtime, CUDA, clocks), and the backend
      interface [IDomain] as a record of operations.
    - HostBackend, SharedBackend, FileBackend, CudaBackend (src/backends/): the
      five domains as values of [IDomain].
    - State (src/internal.hpp, config.hpp, runtime.hpp, export.hpp): the record
      [RuntimeImpl] with its control blocks, ledger, pool, backends, telemetry
      and the machine it runs on.
    - Ledger, Pool, Lifecycle, Runtime (src/runtime.cpp, src/export.cpp,
      src/core/copy_memory.cpp, src/platform.cpp): accounting, reuse pool, state
      machine, and the operations that use them.  [allocate_record], [finalize]
      and [migrate] are written as compositions of their stages, in source order.
    - Handle (src/buffer.cpp), Facade (class [Runtime], src/stats.cpp).
    - Resources: what a process holds of the operating system (heap blocks, kernel
      handles, views, device and pinned memory), triples over it, and the class
      [OsResources] of the documented effect of every system call on it.
    - Concurrency: the operations on one control block (the methods of a handle,
      migration and export, release and drop, finalize, local import,
      [finalize_by_id], the loop of [shutdown]) cut into their atomic accesses, and
      threads that interleave them.
    - Shell (cli/main.cpp): the line splitter, the commands, the table of handles,
      the interactive loop and [main].
    - Traffic (src/runtime.cpp, examples/concurrent.cpp): whole allocations and
      releases cut where the source leaves [ns_mtx_], [pool_mtx_] or [registry_mtx_],
      as the stages of a worker; workers that interleave; the loop of the example.
    - Examples (examples/common.hpp and one [Main] per program of one thread), Pairs
      (the two programs with two runtimes): the process with its runtime, its local
      objects and its output, the statements of the programs, and how they end.
    - Sim, SimRuntime, SimResources: a concrete platform, its resources and a
      runtime on it, on which the witnesses of the theorems are evaluated.

    ** Theorems, by file

    - CheckedMath, Integrity: alignment and overflow on 64-bit words against their
      mathematical meaning; the table-driven CRC-32C equals bitwise division, is
      incremental, and detects every corruption of a byte.
    - Domain: the type classes [DomainContract] and [CpuDomain], what the runtime
      may expect of a backend; instances for the backends; zeroing and copying are
      exact and never leave the committed span.
    - Ledger: reserved plus committed bytes never pass a quota, over every
      sequence of accounting operations; reservation is two-phase.
    - Pool: the idle pool respects both bounds and its counters are exact, over
      every sequence of pool operations; take, put and trim; size classes, with
      the termination of their loop.
    - RefSpec, Refcount, Clients: an abstract machine of reference counts and
      leases; every operation of the public API is a step of it, so that in every
      state clients can reach no referenced buffer is finalized, every
      unreferenced one is, writers exclude other lease holders and identities are
      unique.  The components are related to the abstract machine by [abs].
    - StateMachine: each operation changes the state of a buffer by at most one legal
      transition, to a state the operation fixes; the end of a lease or a map by at most
      two ([op_moves]).
    - Allocation, Charges, Zeroing, Release: what a successful allocation gives
      and charges, that a failed one charges nothing, that release returns the
      charges, that the zeroing policy is obeyed, that borrowed memory survives.
    - Migration, Access, Exchange: what a migration makes of the control blocks, in any
      state; handles of an old generation are refused; views and copies stay in bounds;
      imports are guarded.
    - Telemetry: the statistics report the ledger; the decision log is bounded; the
      counters stay machine words.
    - Backing, Ownership, Conservation: separation-style triples for the backends and
      for every runtime operation; in every state clients can reach, the process holds
      exactly the resources of the live buffers, of the idle pool and of the slots it
      has lost ([leaked]), live buffers are disjoint, and destroying all objects gives
      everything else back, whichever system calls fail on the way.  A slot is lost when
      a block of device memory comes out of the pool and cudaMemset or
      cudaDeviceSynchronize fails while it is zeroed (src/runtime.cpp:376-381); nothing
      else loses anything, and without device memory nothing is lost.  An operation may
      be run without owning some control
      blocks ([Hidden]), whose backings are then part of its frame.
    - Isolation: operations that leave a buffer alone do not touch its backing, and not
      a byte of its memory if that is private.  The platform with a backing put aside
      ([guarded_os] of Resources) keeps the laws of the platform, so that the theorems
      of Conservation hold beside it.  A migration gives the old block back at once,
      although maps and views keep their pointers to it.
    - Contents: a buffer in host or pinned memory is a byte array: whatever else the
      client runs, migrations included, its contents are what the granted copies into
      it make of a list of bytes, and a granted copy out delivers them.  A migration to
      such memory moves the bytes (from device memory where cudaMemcpy does what it is
      documented to do, [cuda_copies]), and one that fails leaves them.
    - Interleavings: under every interleaving of threads each backing that a buffer is
      bound to is given up at most once and writers exclude; for the commands that make references from
      references no object dangles and the last drop disposes; without
      [Runtime::invalidate], which locks a mutex that it holds (src/runtime.cpp:479),
      there is neither deadlock nor divergence, and with it there is; what the remaining
      commands can break; a release that is not interrupted is the sequential one.
    - Moving: maps, copies and migrations among threads: the map count is the number of
      maps; a copy under a write or exclusive lease has the backing to itself, one
      without can be overtaken by a migration, and so can an export.
    - Session, Tool: whatever lines the tool reads, its table is the registry of its
      runtime, the identities it prints are the ones it reads, and at the end nothing
      is held but lost slots.  [At] is their invariant, with a frame for what others hold.
    - Balance, Books: between the critical sections of any number of threads that
      allocate and release unpooled buffers, each cell of the ledger is its first value
      plus the claims of the stages the threads are in; when they are done, which they
      inevitably are, the books balance, and examples/concurrent.cpp passes.  The
      requests are for memory whose zeroing makes no CUDA call ([without_cuda]): when the
      zeroing of a fresh device block fails, the source leaves its bytes charged
      (src/runtime.cpp:379).
    - Programs, Pairs: whatever path an example program takes, destroying its locals
      and its runtimes gives everything back, lost slots apart.
    - Solo, Passing, Quotas: what a program that is alone on its runtime can rely on
      (a handle to host memory that is ready; the books of Books between its calls),
      rules to run it statement by statement, and with them that the programs
      basic_host, views, stale_handle and quota pass their own checks.

    ** Modelling choices

    - An operation is a function [RuntimeImpl -> A * RuntimeImpl] (the monad [M]);
      [Result<T>] is a value, so failures keep the state they leave.  Clients'
      operations interleave in any order ([sys_step]); one operation is one step.
      Concurrency.v takes the steps apart: an access to an atomic, or a region
      under a mutex with nothing else inside, is one step of [thread_step], memory
      is sequentially consistent, and a thread that waits for a mutex has no step.
    - In Concurrency.v what backends and the ledger answer to a map, an export or a
      migration is an argument of the command, so that the theorems hold for every
      answer.
    - In Traffic.v a step is one critical section, one atomic access or one call of a
      backend; the increments of the telemetry counters, which the source does not
      synchronize, are taken as parts of these steps.
    - A local variable of an example is its position among the locals; a [return] ends
      the program early, and in either case the locals are destroyed in the reverse
      order of their declaration and then the runtime.  Two runtimes share the machine
      and the output; the one that acts passes both on ([follow]).
    - A resource is held by the process as a multiset; [m_holds] is a predicate of
      the platform, constrained by the laws of [OsResources] alone.  These say of each
      call what it acquires and gives back, and of none of the CUDA calls that it
      succeeds.  [leaked] of [RuntimeImpl] is a history variable: no operation reads it,
      and the only one that writes it records there the backing that the source drops.  A call that writes
      memory must show that it writes to what is held, or to what the application may
      write ([os_writable]; everything, in an [Unguarded] platform).
    - [std::shared_ptr<Control>] is an index into a store that never shrinks;
      [refs], which decides about finalization, is the counter of the source.
    - [std::shared_ptr<void> state] of a backing is owned by one place at a time in
      the source; it is the object itself, and its destructor is run where the
      source drops it.
    - Words are integers; every place where the source can wrap says [u64] or
      [u32].  [int] counters ([refs], leases, [map_count]) are unbounded: 2^31
      live references to one buffer are out of scope.
    - Hash maps are finite maps; where the source iterates over one, the order is
      an arbitrary but fixed one, and the theorems do not depend on it.
    - The size-class loop runs with 64 rounds of fuel; [size_class_for_correct]
      shows that it ends within them for every request the validation lets
      through.  Every other recursion is structural.

    ** Not modelled

    benchmarks/ and tests/ (programs over the public API); theorems about the thread
    interleavings of the pooled branches of allocation and release (their steps are in
    Traffic); threads that work on the ledger while a migration does; weaker memory orders than sequential consistency; undefined behaviour of the
    C++ standard (memory is a total map; an uninitialized member the tool prints is
    an argument); [cuda_support::memcpy_cross], which nothing calls.  The contents of
    a segment seen through two mappings belong to the operating system and are not
    specified, so of the examples with two runtimes it is proved what they give back
    and not what they read. *)
From stdpp Require Export base tactics option list numbers gmap strings pretty.
From Stdlib Require Export ZArith Lia.

#[global] Set Default Goal Selector "!".

Declare Scope ub_scope.
Delimit Scope ub_scope with ub.
#[global] Open Scope Z_scope.
#[global] Open Scope ub_scope.

(** ** Machine words

    Unsigned words are integers in [0, 2^w); every wrap-around of the source is
    an explicit [u64] or [u32]. *)
Definition two64 : Z := 18446744073709551616.
Definition two63 : Z := 9223372036854775808.
Definition two62 : Z := 4611686018427387904.
Definition two49 : Z := 562949953421312.
Definition two48 : Z := 281474976710656.
Definition two32 : Z := 4294967296.
Definition u64 (z : Z) : Z := z mod two64.
Definition u32 (z : Z) : Z := z mod two32.

(** Membership of the word range. *)
Definition is_u64 (z : Z) : Prop := 0 ≤ z < two64.
Definition is_u32 (z : Z) : Prop := 0 ≤ z < two32.

(** Bitwise complement of a 32-bit and of a 64-bit word. *)
Definition not32 (z : Z) : Z := two32 - 1 - z.
Definition not64 (z : Z) : Z := two64 - 1 - z.

(** ** The state monad

    A stateful operation of the source is a function from the state before to
    its return value and the state after.  Failures are values (as in the
    source, where [Result<T>] is returned), so the state they leave is kept. *)
Definition M (S A : Type) : Type := S → A * S.

Definition ret {S A} (a : A) : M S A := λ s, (a, s).
Definition bind {S A B} (m : M S A) (k : A → M S B) : M S B :=
  λ s, let '(a, s') := m s in k a s'.
Definition get {S} : M S S := λ s, (s, s).
Definition gets {S A} (f : S → A) : M S A := λ s, (f s, s).
Definition modify {S} (f : S → S) : M S unit := λ s, (tt, f s).

Notation "'let!' x := m 'in' k" := (bind m (λ x, k))
  (at level 10, x pattern, m at level 100, k at level 200,
   format "'[v' 'let!'  x  :=  m  'in' '/' k ']'") : ub_scope.
Notation "m ;;; k" := (bind m (λ _, k))
  (at level 199, right associativity) : ub_scope.

(** [iterM f l]: the range-for loop [for (x : l) f(x)]. *)
Fixpoint iterM {S A} (f : A → M S unit) (l : list A) : M S unit :=
  match l with
  | [] => ret tt
  | x :: l' => f x ;;; iterM f l'
  end.

(** ** Tables of tables

    [std::unordered_map<K1, std::unordered_map<K2, uint64_t>>] with the
    default-inserting [operator[]]: reading an absent cell gives 0. *)
Definition cell {K1 K2 : Type} `{Countable K1} `{Countable K2}
    (t : gmap K1 (gmap K2 Z)) (i : K1) (j : K2) : Z :=
  match t !! i with
  | Some row => default 0 (row !! j)
  | None => 0
  end.
Definition set_cell {K1 K2 : Type} `{Countable K1} `{Countable K2}
    (t : gmap K1 (gmap K2 Z)) (i : K1) (j : K2) (v : Z) : gmap K1 (gmap K2 Z) :=
  <[i := <[j := v]> (default ∅ (t !! i))]> t.

(** Every value the computation can return satisfies [Q]. *)
Definition yields {S A} (Q : A → Prop) (m : M S A) : Prop := ∀ s, Q (m s).1.

(** Saturating subtraction, [x >= y ? x - y : 0] in the source. *)
Definition sat_sub (x y : Z) : Z := if y <=? x then x - y else 0.

(** Sum of a measure over a list and over the values of a map. *)
Definition sum_list {A} (f : A → Z) (l : list A) : Z := foldr (λ a acc, f a + acc) 0 l.
Definition sum_map {K A : Type} `{Countable K} (f : A → Z) (m : gmap K A) : Z :=
  map_fold (λ _ a acc, f a + acc) 0 m.

(** The concatenation of [f k a] over the entries of a map, in some order. *)
Definition map_bind {K A R : Type} `{Countable K} (f : K → A → list R) (m : gmap K A) : list R :=
  map_to_list m ≫= λ ka, f ka.1 ka.2.

(** * Lemmas *)

Lemma u64_small z : is_u64 z → u64 z = z.
Proof. unfold is_u64, u64. intros. by apply Z.mod_small. Qed.
Lemma u32_small z : is_u32 z → u32 z = z.
Proof. unfold is_u32, u32. intros. by apply Z.mod_small. Qed.
Lemma u64_range z : is_u64 (u64 z).
Proof. unfold is_u64, u64, two64. apply Z.mod_pos_bound. lia. Qed.
Lemma u32_range z : is_u32 (u32 z).
Proof. unfold is_u32, u32, two32. apply Z.mod_pos_bound. lia. Qed.

Create HintDb ub discriminated.
#[export] Hint Resolve u64_range u32_range : ub.

Lemma bind_ret_l {S A B} (a : A) (k : A → M S B) : bind (ret a) k = k a.
Proof. done. Qed.
Lemma bind_run {S A B} (m : M S A) (k : A → M S B) s : bind m k s = k (m s).1 (m s).2.
Proof. unfold bind. by destruct (m s). Qed.
Lemma yields_bind {S A B} (Q : B → Prop) (m : M S A) (k : A → M S B) :
  (∀ a, yields Q (k a)) → yields Q (bind m k).
Proof. intros Hk s. rewrite bind_run. apply Hk. Qed.
Lemma yields_ret {S A} (Q : A → Prop) (a : A) : Q a → yields (S:=S) Q (ret a).
Proof. by intros HQ s. Qed.
Lemma bind_bind {S A B C} (m : M S A) (k : A → M S B) (k' : B → M S C) s :
  bind (bind m k) k' s = bind m (λ a, bind (k a) k') s.
Proof. unfold bind. by destruct (m s). Qed.

Lemma iterM_app {S A} (f : A → M S unit) l1 l2 s :
  iterM f (l1 ++ l2) s = (iterM f l1 ;;; iterM f l2) s.
Proof.
  revert s. induction l1 as [|x l1 IH]; intros s; [done|].
  cbn [app iterM]. rewrite bind_bind. unfold bind at 1.
  destruct (f x s) as [[] s'] eqn:E. rewrite IH. unfold bind. by rewrite E.
Qed.

(** Loop-invariant rule for [iterM]. *)
Lemma iterM_inv {S A} (f : A → M S unit) (l : list A) (P : S → Prop) s :
  P s → (∀ x s', x ∈ l → P s' → P (f x s').2) → P (iterM f l s).2.
Proof.
  revert s. induction l as [|x l IH]; intros s HP Hstep; [done|].
  simpl. unfold bind. destruct (f x s) as [[] s'] eqn:E. apply IH.
  - replace s' with (f x s).2 by by rewrite E. apply Hstep; [set_solver|done].
  - intros y s'' Hy. apply Hstep. set_solver.
Qed.

Section cells.
Context {K1 K2 : Type} `{Countable K1} `{Countable K2}.
Implicit Types t : gmap K1 (gmap K2 Z).

Lemma cell_empty i j : cell (∅ : gmap K1 (gmap K2 Z)) i j = 0.
Proof. unfold cell. by rewrite lookup_empty. Qed.
Lemma cell_set t i j v : cell (set_cell t i j v) i j = v.
Proof. unfold cell, set_cell. by rewrite !lookup_insert_eq. Qed.
Lemma cell_set_ne t i j v i' j' :
  (i, j) ≠ (i', j') → cell (set_cell t i j v) i' j' = cell t i' j'.
Proof.
  intros Hne. unfold cell, set_cell. destruct (decide (i = i')) as [->|Hi].
  - rewrite lookup_insert_eq, lookup_insert_ne by congruence.
    by destruct (t !! i').
  - by rewrite lookup_insert_ne.
Qed.
Lemma cell_set_dec t i j v i' j' :
  cell (set_cell t i j v) i' j' = if decide ((i, j) = (i', j')) then v else cell t i' j'.
Proof.
  case_decide as E; [injection E as <- <-; apply cell_set | by apply cell_set_ne].
Qed.
End cells.

Lemma sat_sub_le x y : 0 ≤ y → 0 ≤ x → 0 ≤ sat_sub x y ≤ x.
Proof. unfold sat_sub. destruct (y <=? x) eqn:E; lia. Qed.
Lemma sat_sub_exact x y : y ≤ x → sat_sub x y = x - y.
Proof. unfold sat_sub. destruct (y <=? x) eqn:E; lia. Qed.

Lemma sum_list_app {A} (f : A → Z) l1 l2 :
  sum_list f (l1 ++ l2) = sum_list f l1 + sum_list f l2.
Proof. unfold sum_list. induction l1; simpl in *; lia. Qed.
Lemma sum_list_nonneg {A} (f : A → Z) l :
  (∀ a, a ∈ l → 0 ≤ f a) → 0 ≤ sum_list f l.
Proof.
  unfold sum_list. induction l as [|a l IH]; simpl; intros Hf; [lia|].
  pose proof (Hf a ltac:(set_solver)). specialize (IH ltac:(set_solver)). lia.
Qed.
Lemma sum_list_const {A} (l : list A) : sum_list (λ _, 1) l = Z.of_nat (length l).
Proof. unfold sum_list. induction l; simpl in *; lia. Qed.

Lemma sum_list_perm {A} (f : A → Z) l l' : l ≡ₚ l' → sum_list f l = sum_list f l'.
Proof. unfold sum_list. induction 1; simpl in *; lia. Qed.
Lemma sum_list_insert {A} (f : A → Z) (l : list A) i x y :
  l !! i = Some x → sum_list f (<[i := y]> l) = sum_list f l - f x + f y.
Proof.
  revert i. induction l as [|z l IH]; intros [|i]; simpl; try done.
  - intros [= ->]. unfold sum_list. simpl. lia.
  - intros Hi. specialize (IH i Hi). unfold sum_list in *. simpl. lia.
Qed.
(** The element [i] changes, and the measure outside of it does not. *)
Lemma sum_list_update {A} (f f' : A → Z) (l : list A) i x y :
  l !! i = Some x → (∀ j z, j ≠ i → l !! j = Some z → f' z = f z) →
  sum_list f' (<[i := y]> l) = sum_list f l - f x + f' y.
Proof.
  unfold sum_list. revert i. induction l as [|z l IH]; intros [|i] Hi Hf; simpl in *; try done.
  - injection Hi as ->.
    assert (foldr (λ a acc, f' a + acc) 0 l = foldr (λ a acc, f a + acc) 0 l) as ->; [|lia].
    assert (∀ j z, l !! j = Some z → f' z = f z) as Hf' by (intros j z Hz; by apply (Hf (S j))).
    clear IH Hf. induction l as [|z l IH]; simpl; [done|].
    rewrite IH by (intros j u Hu; by apply (Hf' (S j))). by rewrite (Hf' 0%nat z).
  - rewrite (IH i Hi) by (intros j u Hj Hu; apply (Hf (S j)); [congruence|done]).
    rewrite (Hf 0%nat z) by done. lia.
Qed.
Lemma sum_list_le {A} (f : A → Z) (l : list A) b :
  (∀ i x, l !! i = Some x → f x ≤ b) → sum_list f l ≤ Z.of_nat (length l) * b.
Proof.
  unfold sum_list. induction l as [|z l IH]; intros Hf; simpl foldr; simpl length; [lia|].
  pose proof (Hf 0%nat z eq_refl). specialize (IH (λ i x Hx, Hf (S i) x Hx)). lia.
Qed.
Lemma sum_list_member {A} (f : A → Z) (l : list A) :
  (∀ i x, l !! i = Some x → 0 ≤ f x) →
  0 ≤ sum_list f l ∧ ∀ i x, l !! i = Some x → f x ≤ sum_list f l.
Proof.
  unfold sum_list. induction l as [|z l IH]; intros Hf; simpl; [done|].
  pose proof (Hf 0%nat z eq_refl). destruct IH as [H1 H2]; [intros i x Hx; by apply (Hf (S i))|].
  split; [lia|]. intros [|i] x Hi; simpl in Hi; [injection Hi as ->; lia|]. specialize (H2 i x Hi). lia.
Qed.
Lemma sum_list_fmap {A B} (f : B → Z) (g : A → B) (l : list A) :
  sum_list f (g <$> l) = sum_list (λ a, f (g a)) l.
Proof. unfold sum_list. induction l as [|a l IH]; [done|]. rewrite fmap_cons. cbn [foldr]. by rewrite IH. Qed.
Lemma sum_list_zero {A} (f : A → Z) (l : list A) : (∀ a, f a = 0) → sum_list f l = 0.
Proof. unfold sum_list. intros Hf. induction l; simpl; rewrite ?Hf; lia. Qed.
Lemma sum_list_delete {A} (f : A → Z) (l : list A) i x :
  l !! i = Some x → sum_list f (delete i l) = sum_list f l - f x.
Proof.
  revert i. induction l as [|z l IH]; intros [|i]; simpl; try done.
  - intros [= ->]. unfold sum_list. simpl. lia.
  - intros Hi. specialize (IH i Hi). unfold sum_list in *. simpl. lia.
Qed.
Lemma sum_list_replicate {A} (f : A → Z) n x : f x = 0 → sum_list f (replicate n x) = 0.
Proof. intros Hx. unfold sum_list. induction n; simpl; lia. Qed.
Lemma sum_list_elem {A} (f : A → Z) (l : list A) i x :
  (∀ y, 0 ≤ f y) → l !! i = Some x → f x ≤ sum_list f l.
Proof.
  intros Hf. revert i. induction l as [|z l IH]; intros [|i]; simpl; try done.
  - intros [= ->]. pose proof (sum_list_nonneg f l ltac:(auto)). unfold sum_list in *. simpl. lia.
  - intros Hi. specialize (IH i Hi). specialize (Hf z). unfold sum_list in *. simpl. lia.
Qed.
(** An element that contributes is there when the sum is positive. *)
Lemma sum_list_pos {A} (f : A → Z) (l : list A) :
  0 < sum_list f l → ∃ i x, l !! i = Some x ∧ 0 < f x.
Proof.
  induction l as [|z l IH]; unfold sum_list; simpl; [lia|]. intros H.
  destruct (decide (0 < f z)) as [Hz|Hz]; [by exists 0%nat, z|].
  destruct IH as (i & x & Hi & Hx); [unfold sum_list; lia|]. by exists (S i), x.
Qed.
(** Two elements of a list of non-negative measures. *)
Lemma sum_list_two {A} (f : A → Z) (l : list A) i j x y :
  (∀ a, 0 ≤ f a) → i ≠ j → l !! i = Some x → l !! j = Some y → f x + f y ≤ sum_list f l.
Proof.
  intros Hf Hij Hi Hj. pose proof (sum_list_delete f l i x Hi).
  assert (∃ j', delete i l !! j' = Some y) as [j' Hj'].
  { destruct (decide (j < i)%nat).
    - exists j. by rewrite list_lookup_delete_lt.
    - exists (pred j). rewrite list_lookup_delete_ge by lia. by replace (S (pred j)) with j by lia. }
  pose proof (sum_list_elem f _ _ _ Hf Hj'). lia.
Qed.
Lemma sum_list_add {A} (f g : A → Z) (l : list A) :
  sum_list (λ a, f a + g a) l = sum_list f l + sum_list g l.
Proof. unfold sum_list. induction l; simpl in *; lia. Qed.
Lemma sum_list_snoc {A} (f : A → Z) l x : sum_list f (l ++ [x]) = sum_list f l + f x.
Proof. unfold sum_list. induction l; simpl; lia. Qed.
Lemma sum_map_list {K A : Type} `{Countable K} (f : A → Z) (m : gmap K A) :
  sum_map f m = sum_list (λ ka, f ka.2) (map_to_list m).
Proof.
  unfold sum_map, sum_list. rewrite map_fold_foldr.
  induction (map_to_list m) as [|[k a] l IH]; simpl; [done|by rewrite IH].
Qed.

Section alter.
Context {K A : Type} `{Countable K}.
Implicit Types m : gmap K A.

Lemma alter_is_Some (f : A → A) m i j : is_Some (alter f i m !! j) ↔ is_Some (m !! j).
Proof.
  rewrite lookup_alter. case_decide; subst; [|done]. rewrite fmap_is_Some. done.
Qed.
Lemma alter_insert_Some (f : A → A) m i a : m !! i = Some a → alter f i m = <[i := f a]> m.
Proof.
  intros Hi. apply map_eq. intros j. rewrite lookup_alter, lookup_insert.
  case_decide; subst; [by rewrite Hi|done].
Qed.
Lemma alter_None (f : A → A) m i : m !! i = None → alter f i m = m.
Proof.
  intros Hi. apply map_eq. intros j. rewrite lookup_alter. case_decide; subst; [by rewrite Hi|done].
Qed.
Lemma size_alter (f : A → A) m i : size (alter f i m) = size m.
Proof.
  destruct (m !! i) as [a|] eqn:Hi.
  - rewrite (alter_insert_Some f m i a Hi). apply map_size_insert_Some. by eexists.
  - by rewrite alter_None.
Qed.
Lemma alter_same m i : alter (λ a, a) i m = m.
Proof.
  apply map_eq. intros j. rewrite lookup_alter. case_decide; subst; [|done]. by destruct (m !! j).
Qed.
End alter.

Section sums.
Context {K A : Type} `{Countable K} (f : A → Z).

Lemma sum_map_empty : sum_map f (∅ : gmap K A) = 0.
Proof. apply map_fold_empty. Qed.
Lemma sum_map_insert (m : gmap K A) k a :
  m !! k = None → sum_map f (<[k:=a]> m) = f a + sum_map f m.
Proof.
  intros Hk. unfold sum_map. rewrite map_fold_insert_L; [done| |done].
  intros. lia.
Qed.
Lemma sum_map_delete (m : gmap K A) k a :
  m !! k = Some a → sum_map f m = f a + sum_map f (delete k m).
Proof.
  intros Hk. rewrite <- (insert_delete_id m k a Hk) at 1.
  apply sum_map_insert, lookup_delete_eq.
Qed.
Lemma sum_map_update (m : gmap K A) k a b :
  m !! k = Some a → sum_map f (<[k:=b]> m) = sum_map f m - f a + f b.
Proof.
  intros Hk. rewrite (sum_map_delete m k a Hk).
  rewrite (sum_map_delete (<[k:=b]> m) k b) by apply lookup_insert_eq.
  rewrite delete_insert_eq. lia.
Qed.
Lemma sum_map_nonneg (m : gmap K A) :
  (∀ k a, m !! k = Some a → 0 ≤ f a) → 0 ≤ sum_map f m.
Proof.
  induction m as [|k a m Hk IH] using map_ind; intros Hf.
  - rewrite sum_map_empty. lia.
  - rewrite sum_map_insert by done. pose proof (Hf k a (lookup_insert_eq _ _ _)).
    assert (0 ≤ sum_map f m); [|lia]. apply IH. intros k' a' Hk'.
    apply (Hf k'). rewrite lookup_insert_ne; congruence.
Qed.
Lemma sum_map_ge (m : gmap K A) k a :
  (∀ k a, m !! k = Some a → 0 ≤ f a) → m !! k = Some a → f a ≤ sum_map f m.
Proof.
  intros Hf Hk. rewrite (sum_map_delete m k a Hk).
  assert (0 ≤ sum_map f (delete k m)); [|lia]. apply sum_map_nonneg. intros k' a'.
  rewrite lookup_delete_Some. intros [_ H']. by apply (Hf k').
Qed.
End sums.

Section map_binds.
Context {K A R : Type} `{Countable K} (f : K → A → list R).
Implicit Types m : gmap K A.

Lemma map_bind_empty : map_bind f (∅ : gmap K A) = [].
Proof. unfold map_bind. by rewrite map_to_list_empty. Qed.
Lemma map_bind_insert m k a : m !! k = None → map_bind f (<[k:=a]> m) ≡ₚ f k a ++ map_bind f m.
Proof. intros Hk. unfold map_bind. by rewrite map_to_list_insert by done. Qed.
Lemma map_bind_delete m k a : m !! k = Some a → map_bind f m ≡ₚ f k a ++ map_bind f (delete k m).
Proof.
  intros Hk. rewrite <- (insert_delete_id m k a Hk) at 1. apply map_bind_insert, lookup_delete_eq.
Qed.
Lemma map_bind_update m k a b :
  m !! k = Some a → map_bind f (<[k:=b]> m) ++ f k a ≡ₚ f k b ++ map_bind f m.
Proof.
  intros Hk. rewrite (map_bind_delete (<[k:=b]> m) k b) by apply lookup_insert_eq.
  rewrite delete_insert_eq, (map_bind_delete m k a Hk), <- app_assoc.
  apply Permutation_app_head, Permutation_app_comm.
Qed.
Lemma map_bind_nil m : (∀ k a, m !! k = Some a → f k a = []) → map_bind f m = [].
Proof.
  intros Hf. unfold map_bind. assert (∀ ka, ka ∈ map_to_list m → f ka.1 ka.2 = []) as Hl.
  { intros [k a] Hin. by apply Hf, elem_of_map_to_list. }
  induction (map_to_list m) as [|ka l IH]; [done|]. cbn [mbind list_bind].
  rewrite Hl by by left. apply IH. intros x Hx. apply Hl. by right.
Qed.
Lemma map_bind_alter (g : A → A) k m :
  (∀ a, f k (g a) = f k a) → map_bind f (alter g k m) ≡ₚ map_bind f m.
Proof.
  intros Hg. destruct (m !! k) as [a|] eqn:Hk; [|by rewrite alter_None].
  rewrite (alter_insert_Some g m k a Hk), (map_bind_delete (<[k:=g a]> m) k (g a)) by apply lookup_insert_eq.
  by rewrite delete_insert_eq, (map_bind_delete m k a Hk), Hg.
Qed.
End map_binds.
Lemma map_bind_ext {K A R : Type} `{Countable K} (f g : K → A → list R) (m : gmap K A) :
  (∀ k a, m !! k = Some a → f k a = g k a) → map_bind f m = map_bind g m.
Proof.
  intros Hf. unfold map_bind. assert (∀ ka, ka ∈ map_to_list m → f ka.1 ka.2 = g ka.1 ka.2) as Hl.
  { intros [k a] Hin. by apply Hf, elem_of_map_to_list. }
  induction (map_to_list m) as [|ka l IH]; [done|]. cbn [mbind list_bind].
  rewrite Hl by by left. f_equal. apply IH. intros x Hx. apply Hl. by right.
Qed.

(** ** Tactics *)

(** Walk down a computation to the values it returns. *)
Ltac yields_tac :=
  repeat match goal with
  | |- yields _ (bind _ _) => apply yields_bind; intros ?
  | |- yields _ (ret _) => apply yields_ret
  | |- yields _ (match ?x with _ => _ end) => destruct x
  | |- yields _ (if ?x then _ else _) => destruct x
  | |- yields _ (let x := ?v in _) => cbv zeta
  end.

(** Open a monadic computation: expose the binds and the primitive steps. *)
Ltac run_step :=
  unfold bind, ret, get, gets, modify in *; cbn beta iota in *.
(** Case on the scrutinee of the innermost match of the goal. *)
Ltac case_step :=
  match goal with
  | |- context [match ?x with _ => _ end] =>
      lazymatch x with
      | context [match _ with _ => _ end] => fail
      | _ => let E := fresh "E" in destruct x eqn:E
      end
  end.
(** Turn boolean comparisons in the hypotheses into propositions. *)
Ltac bool_prop :=
  repeat match goal with
  | H : andb _ _ = true |- _ => apply andb_prop in H; destruct H
  | H : orb _ _ = false |- _ => apply orb_false_elim in H; destruct H
  | H : orb _ _ = true |- _ => apply orb_prop in H
  | H : negb _ = true |- _ => apply negb_true_iff in H
  | H : negb _ = false |- _ => apply negb_false_iff in H
  | H : (_ =? _) = true |- _ => apply Z.eqb_eq in H
  | H : (_ =? _) = false |- _ => apply Z.eqb_neq in H
  | H : (_ <? _) = true |- _ => apply Z.ltb_lt in H
  | H : (_ <? _) = false |- _ => apply Z.ltb_ge in H
  | H : (_ <=? _) = true |- _ => apply Z.leb_le in H
  | H : (_ <=? _) = false |- _ => apply Z.leb_gt in H
  | H : bool_decide _ = true |- _ => apply bool_decide_eq_true in H
  | H : bool_decide _ = false |- _ => apply bool_decide_eq_false in H
  end.

(** ** Frame reasoning

    A computation [preserves] a preorder on states when it can only move along it.
    The rules follow the syntax of the monad. *)

Definition preserves {S A} (R : S → S → Prop) (m : M S A) : Prop := ∀ s, R s (m s).2.

Section rules.
Context {S : Type} (R : S → S → Prop) `{!PreOrder R}.

Lemma preserves_ret {A} (a : A) : preserves R (ret a).
Proof. intros s. simpl. reflexivity. Qed.
Lemma preserves_bind {A B} (m : M S A) (k : A → M S B) :
  preserves R m → (∀ a, preserves R (k a)) → preserves R (bind m k).
Proof.
  intros Hm Hk s. unfold bind. specialize (Hm s). destruct (m s) as [a s'].
  etransitivity; [exact Hm|apply Hk].
Qed.
Lemma preserves_get : preserves R get.
Proof. intros s. simpl. reflexivity. Qed.
Lemma preserves_gets {A} (f : S → A) : preserves R (gets f).
Proof. intros s. simpl. reflexivity. Qed.
Lemma preserves_iterM {A} (f : A → M S unit) l :
  (∀ x, preserves R (f x)) → preserves R (iterM f l).
Proof.
  intros Hf. induction l as [|x l IH]; simpl; [apply preserves_ret|].
  apply preserves_bind; [apply Hf|done].
Qed.
End rules.

Create HintDb frames discriminated.

(** Walk down a computation; leaves are closed by the [frames] hints. *)
Ltac preserves_step :=
  match goal with
  | |- preserves _ (ret _) => apply preserves_ret, _
  | |- preserves _ get => apply preserves_get, _
  | |- preserves _ (gets _) => apply preserves_gets, _
  | |- preserves _ (bind _ _) => apply preserves_bind; [apply _| |intros ?]
  | |- preserves _ (iterM _ _) => apply preserves_iterM; [apply _|intros ?]
  | |- preserves _ (match ?x with _ => _ end) => destruct x
  | |- preserves _ (if ?x then _ else _) => destruct x
  | |- preserves _ (let '(_, _) := ?x in _) => destruct x
  | |- preserves _ ((λ _, _) _) => cbv beta
  | |- preserves _ (let x := ?v in _) => cbv zeta
  end.
Ltac preserves_tac :=
  cbv zeta; repeat first [solve [eauto 2 with frames] | preserves_step].
