(* ===== verification/Types.v ===== *)
(** The value types of [include/unified_buffer/core]: the enumerations of
    types.hpp, error.hpp and capabilities.hpp with their [to_string], the
    [Error] and [Result] types of error.hpp and result.hpp, the buffer identity
    of identity.hpp and the capability set of capabilities.hpp.

    Each enumeration lives in a module of its own, as the scoped enums of the
    source do ([MemoryDomain.HOST] is [MemoryDomain::HOST]). *)
From S2P Require Import Prelude.

(** types.hpp, [enum class MemoryDomain]. *)
Module MemoryDomain.
Inductive MemoryDomain : Set :=
  | HOST | PINNED_HOST | DEVICE | SHARED_HOST | MMAP_STORAGE.

#[global] Instance MemoryDomain_eq_dec : EqDecision MemoryDomain.
Proof. solve_decision. Defined.

(** The underlying integer of an enumerator. *)
Definition MemoryDomain_index (x : MemoryDomain) : Z :=
  match x with
  | HOST => 0 | PINNED_HOST => 1 | DEVICE => 2 | SHARED_HOST => 3
  | MMAP_STORAGE => 4
  end.

Definition MemoryDomain_to_string (x : MemoryDomain) : string :=
  match x with
  | HOST => "HOST" | PINNED_HOST => "PINNED_HOST" | DEVICE => "DEVICE"
  | SHARED_HOST => "SHARED_HOST" | MMAP_STORAGE => "MMAP_STORAGE"
  end.

Definition MemoryDomain_all : list MemoryDomain :=
  [HOST; PINNED_HOST; DEVICE; SHARED_HOST; MMAP_STORAGE].

Lemma MemoryDomain_all_complete x : x ∈ MemoryDomain_all.
Proof. destruct x; set_solver. Qed.
Lemma MemoryDomain_index_inj x y : MemoryDomain_index x = MemoryDomain_index y → x = y.
Proof. destruct x, y; (reflexivity || discriminate). Qed.
#[global] Instance MemoryDomain_countable : Countable MemoryDomain.
Proof.
  refine (inj_countable MemoryDomain_index (λ z, List.find (λ x, MemoryDomain_index x =? z) MemoryDomain_all) _).
  intros []; reflexivity.
Defined.
End MemoryDomain.
Abbreviation MemoryDomain := MemoryDomain.MemoryDomain.

(** types.hpp, [enum class BackendId]. *)
Module BackendId.
Inductive BackendId : Set :=
  | HOST_MALLOC | CUDA | WIN_SHARED_FILE | FILE_BACKED.

#[global] Instance BackendId_eq_dec : EqDecision BackendId.
Proof. solve_decision. Defined.

(** The underlying integer of an enumerator. *)
Definition BackendId_index (x : BackendId) : Z :=
  match x with
  | HOST_MALLOC => 0 | CUDA => 1 | WIN_SHARED_FILE => 2 | FILE_BACKED => 3
  end.

Definition BackendId_to_string (x : BackendId) : string :=
  match x with
  | HOST_MALLOC => "HOST_MALLOC" | CUDA => "CUDA"
  | WIN_SHARED_FILE => "WIN_SHARED_FILE" | FILE_BACKED => "FILE_BACKED"
  end.

Definition BackendId_all : list BackendId :=
  [HOST_MALLOC; CUDA; WIN_SHARED_FILE; FILE_BACKED].

Lemma BackendId_all_complete x : x ∈ BackendId_all.
Proof. destruct x; set_solver. Qed.
Lemma BackendId_index_inj x y : BackendId_index x = BackendId_index y → x = y.
Proof. destruct x, y; (reflexivity || discriminate). Qed.
#[global] Instance BackendId_countable : Countable BackendId.
Proof.
  refine (inj_countable BackendId_index (λ z, List.find (λ x, BackendId_index x =? z) BackendId_all) _).
  intros []; reflexivity.
Defined.
End BackendId.
Abbreviation BackendId := BackendId.BackendId.

(** types.hpp, [enum class AccessMode]. *)
Module AccessMode.
Inductive AccessMode : Set :=
  | READ | WRITE | READ_WRITE.

#[global] Instance AccessMode_eq_dec : EqDecision AccessMode.
Proof. solve_decision. Defined.

(** The underlying integer of an enumerator. *)
Definition AccessMode_index (x : AccessMode) : Z :=
  match x with
  | READ => 0 | WRITE => 1 | READ_WRITE => 2
  end.

Definition AccessMode_to_string (x : AccessMode) : string :=
  match x with
  | READ => "READ" | WRITE => "WRITE" | READ_WRITE => "READ_WRITE"
  end.

Definition AccessMode_all : list AccessMode :=
  [READ; WRITE; READ_WRITE].

Lemma AccessMode_all_complete x : x ∈ AccessMode_all.
Proof. destruct x; set_solver. Qed.
Lemma AccessMode_index_inj x y : AccessMode_index x = AccessMode_index y → x = y.
Proof. destruct x, y; (reflexivity || discriminate). Qed.
#[global] Instance AccessMode_countable : Countable AccessMode.
Proof.
  refine (inj_countable AccessMode_index (λ z, List.find (λ x, AccessMode_index x =? z) AccessMode_all) _).
  intros []; reflexivity.
Defined.
End AccessMode.
Abbreviation AccessMode := AccessMode.AccessMode.

(** types.hpp, [enum class BufferState]: the lifecycle states. *)
Module BufferState.
Inductive BufferState : Set :=
  | DECLARED | RESERVED | ALLOCATED | MAPPED | IN_USE
  | EXPORTING | EXPORTED | IMPORTING | IMPORTED | COPYING
  | MIGRATING | RELEASING | RELEASED | FAILED | QUARANTINED
  | INVALID.

#[global] Instance BufferState_eq_dec : EqDecision BufferState.
Proof. solve_decision. Defined.

(** The underlying integer of an enumerator. *)
Definition BufferState_index (x : BufferState) : Z :=
  match x with
  | DECLARED => 0 | RESERVED => 1 | ALLOCATED => 2 | MAPPED => 3 | IN_USE => 4
  | EXPORTING => 5 | EXPORTED => 6 | IMPORTING => 7 | IMPORTED => 8 | COPYING => 9
  | MIGRATING => 10 | RELEASING => 11 | RELEASED => 12 | FAILED => 13
  | QUARANTINED => 14 | INVALID => 15
  end.

Definition BufferState_to_string (x : BufferState) : string :=
  match x with
  | DECLARED => "DECLARED" | RESERVED => "RESERVED" | ALLOCATED => "ALLOCATED"
  | MAPPED => "MAPPED" | IN_USE => "IN_USE" | EXPORTING => "EXPORTING"
  | EXPORTED => "EXPORTED" | IMPORTING => "IMPORTING" | IMPORTED => "IMPORTED"
  | COPYING => "COPYING" | MIGRATING => "MIGRATING" | RELEASING => "RELEASING"
  | RELEASED => "RELEASED" | FAILED => "FAILED" | QUARANTINED => "QUARANTINED"
  | INVALID => "INVALID"
  end.

Definition BufferState_all : list BufferState :=
  [DECLARED; RESERVED; ALLOCATED; MAPPED; IN_USE; EXPORTING; EXPORTED; IMPORTING;
   IMPORTED; COPYING; MIGRATING; RELEASING; RELEASED; FAILED; QUARANTINED; INVALID].

Lemma BufferState_all_complete x : x ∈ BufferState_all.
Proof. destruct x; set_solver. Qed.
Lemma BufferState_index_inj x y : BufferState_index x = BufferState_index y → x = y.
Proof. destruct x, y; (reflexivity || discriminate). Qed.
#[global] Instance BufferState_countable : Countable BufferState.
Proof.
  refine (inj_countable BufferState_index (λ z, List.find (λ x, BufferState_index x =? z) BufferState_all) _).
  intros []; reflexivity.
Defined.
End BufferState.
Abbreviation BufferState := BufferState.BufferState.

(** types.hpp, [enum class Ownership]. *)
Module Ownership.
Inductive Ownership : Set :=
  | RUNTIME | BORROWED | ADOPTED | IMPORTED | SHARED.

#[global] Instance Ownership_eq_dec : EqDecision Ownership.
Proof. solve_decision. Defined.

(** The underlying integer of an enumerator. *)
Definition Ownership_index (x : Ownership) : Z :=
  match x with
  | RUNTIME => 0 | BORROWED => 1 | ADOPTED => 2 | IMPORTED => 3 | SHARED => 4
  end.

Definition Ownership_to_string (x : Ownership) : string :=
  match x with
  | RUNTIME => "RUNTIME" | BORROWED => "BORROWED" | ADOPTED => "ADOPTED"
  | IMPORTED => "IMPORTED" | SHARED => "SHARED"
  end.

Definition Ownership_all : list Ownership :=
  [RUNTIME; BORROWED; ADOPTED; IMPORTED; SHARED].

Lemma Ownership_all_complete x : x ∈ Ownership_all.
Proof. destruct x; set_solver. Qed.
Lemma Ownership_index_inj x y : Ownership_index x = Ownership_index y → x = y.
Proof. destruct x, y; (reflexivity || discriminate). Qed.
#[global] Instance Ownership_countable : Countable Ownership.
Proof.
  refine (inj_countable Ownership_index (λ z, List.find (λ x, Ownership_index x =? z) Ownership_all) _).
  intros []; reflexivity.
Defined.
End Ownership.
Abbreviation Ownership := Ownership.Ownership.

(** types.hpp, [enum class ZeroingPolicy]. *)
Module ZeroingPolicy.
Inductive ZeroingPolicy : Set :=
  | NEVER | ON_ALLOCATE | ON_RELEASE | ON_CROSS_OWNER_REUSE | ALWAYS.

#[global] Instance ZeroingPolicy_eq_dec : EqDecision ZeroingPolicy.
Proof. solve_decision. Defined.

(** The underlying integer of an enumerator. *)
Definition ZeroingPolicy_index (x : ZeroingPolicy) : Z :=
  match x with
  | NEVER => 0 | ON_ALLOCATE => 1 | ON_RELEASE => 2 | ON_CROSS_OWNER_REUSE => 3
  | ALWAYS => 4
  end.

Definition ZeroingPolicy_to_string (x : ZeroingPolicy) : string :=
  match x with
  | NEVER => "NEVER" | ON_ALLOCATE => "ON_ALLOCATE" | ON_RELEASE => "ON_RELEASE"
  | ON_CROSS_OWNER_REUSE => "ON_CROSS_OWNER_REUSE" | ALWAYS => "ALWAYS"
  end.

Definition ZeroingPolicy_all : list ZeroingPolicy :=
  [NEVER; ON_ALLOCATE; ON_RELEASE; ON_CROSS_OWNER_REUSE; ALWAYS].

Lemma ZeroingPolicy_all_complete x : x ∈ ZeroingPolicy_all.
Proof. destruct x; set_solver. Qed.
Lemma ZeroingPolicy_index_inj x y : ZeroingPolicy_index x = ZeroingPolicy_index y → x = y.
Proof. destruct x, y; (reflexivity || discriminate). Qed.
#[global] Instance ZeroingPolicy_countable : Countable ZeroingPolicy.
Proof.
  refine (inj_countable ZeroingPolicy_index (λ z, List.find (λ x, ZeroingPolicy_index x =? z) ZeroingPolicy_all) _).
  intros []; reflexivity.
Defined.
End ZeroingPolicy.
Abbreviation ZeroingPolicy := ZeroingPolicy.ZeroingPolicy.

(** buffer.hpp, [enum class LeaseKind]. *)
Module LeaseKind.
Inductive LeaseKind : Set :=
  | READ | WRITE | EXCLUSIVE.

#[global] Instance LeaseKind_eq_dec : EqDecision LeaseKind.
Proof. solve_decision. Defined.

(** The underlying integer of an enumerator. *)
Definition LeaseKind_index (x : LeaseKind) : Z :=
  match x with
  | READ => 0 | WRITE => 1 | EXCLUSIVE => 2
  end.

Definition LeaseKind_all : list LeaseKind :=
  [READ; WRITE; EXCLUSIVE].

Lemma LeaseKind_all_complete x : x ∈ LeaseKind_all.
Proof. destruct x; set_solver. Qed.
Lemma LeaseKind_index_inj x y : LeaseKind_index x = LeaseKind_index y → x = y.
Proof. destruct x, y; (reflexivity || discriminate). Qed.
#[global] Instance LeaseKind_countable : Countable LeaseKind.
Proof.
  refine (inj_countable LeaseKind_index (λ z, List.find (λ x, LeaseKind_index x =? z) LeaseKind_all) _).
  intros []; reflexivity.
Defined.
End LeaseKind.
Abbreviation LeaseKind := LeaseKind.LeaseKind.

(** runtime.hpp, [enum class ExternalOwnership]. *)
Module ExternalOwnership.
Inductive ExternalOwnership : Set :=
  | BORROW | ADOPT | SHARED.

#[global] Instance ExternalOwnership_eq_dec : EqDecision ExternalOwnership.
Proof. solve_decision. Defined.

(** The underlying integer of an enumerator. *)
Definition ExternalOwnership_index (x : ExternalOwnership) : Z :=
  match x with
  | BORROW => 0 | ADOPT => 1 | SHARED => 2
  end.

Definition ExternalOwnership_all : list ExternalOwnership :=
  [BORROW; ADOPT; SHARED].

Lemma ExternalOwnership_all_complete x : x ∈ ExternalOwnership_all.
Proof. destruct x; set_solver. Qed.
Lemma ExternalOwnership_index_inj x y : ExternalOwnership_index x = ExternalOwnership_index y → x = y.
Proof. destruct x, y; (reflexivity || discriminate). Qed.
#[global] Instance ExternalOwnership_countable : Countable ExternalOwnership.
Proof.
  refine (inj_countable ExternalOwnership_index (λ z, List.find (λ x, ExternalOwnership_index x =? z) ExternalOwnership_all) _).
  intros []; reflexivity.
Defined.
End ExternalOwnership.
Abbreviation ExternalOwnership := ExternalOwnership.ExternalOwnership.

(** error.hpp, [enum class ErrorCode]. *)
Module ErrorCode.
Inductive ErrorCode : Set :=
  | ok | invalid_argument | out_of_capacity | quota_exceeded | unsupported_domain
  | unsupported_capability | stale_handle | stale_generation | lease_conflict | mapping_failure
  | backend_failure | device_unavailable | invalid_device | alignment_error | bounds_error
  | integrity_failure | import_failure | export_failure | permission_failure | timeout
  | resource_busy | lifecycle_violation | overflow | not_found | already_exists
  | closed | state_invalid | unknown.

#[global] Instance ErrorCode_eq_dec : EqDecision ErrorCode.
Proof. solve_decision. Defined.

(** The underlying integer of an enumerator. *)
Definition ErrorCode_index (x : ErrorCode) : Z :=
  match x with
  | ok => 0 | invalid_argument => 1 | out_of_capacity => 2 | quota_exceeded => 3
  | unsupported_domain => 4 | unsupported_capability => 5 | stale_handle => 6
  | stale_generation => 7 | lease_conflict => 8 | mapping_failure => 9
  | backend_failure => 10 | device_unavailable => 11 | invalid_device => 12
  | alignment_error => 13 | bounds_error => 14 | integrity_failure => 15
  | import_failure => 16 | export_failure => 17 | permission_failure => 18
  | timeout => 19 | resource_busy => 20 | lifecycle_violation => 21
  | overflow => 22 | not_found => 23 | already_exists => 24 | closed => 25
  | state_invalid => 26 | unknown => 27
  end.

Definition ErrorCode_to_string (x : ErrorCode) : string :=
  match x with
  | ok => "ok" | invalid_argument => "invalid_argument"
  | out_of_capacity => "out_of_capacity" | quota_exceeded => "quota_exceeded"
  | unsupported_domain => "unsupported_domain"
  | unsupported_capability => "unsupported_capability"
  | stale_handle => "stale_handle" | stale_generation => "stale_generation"
  | lease_conflict => "lease_conflict" | mapping_failure => "mapping_failure"
  | backend_failure => "backend_failure"
  | device_unavailable => "device_unavailable" | invalid_device => "invalid_device"
  | alignment_error => "alignment_error" | bounds_error => "bounds_error"
  | integrity_failure => "integrity_failure" | import_failure => "import_failure"
  | export_failure => "export_failure" | permission_failure => "permission_failure"
  | timeout => "timeout" | resource_busy => "resource_busy"
  | lifecycle_violation => "lifecycle_violation" | overflow => "overflow"
  | not_found => "not_found" | already_exists => "already_exists"
  | closed => "closed" | state_invalid => "state_invalid" | unknown => "unknown"
  end.

Definition ErrorCode_all : list ErrorCode :=
  [ok; invalid_argument; out_of_capacity; quota_exceeded; unsupported_domain;
   unsupported_capability; stale_handle; stale_generation; lease_conflict;
   mapping_failure; backend_failure; device_unavailable; invalid_device;
   alignment_error; bounds_error; integrity_failure; import_failure; export_failure;
   permission_failure; timeout; resource_busy; lifecycle_violation; overflow;
   not_found; already_exists; closed; state_invalid; unknown].

Lemma ErrorCode_all_complete x : x ∈ ErrorCode_all.
Proof. destruct x; set_solver. Qed.
Lemma ErrorCode_index_inj x y : ErrorCode_index x = ErrorCode_index y → x = y.
Proof. destruct x, y; (reflexivity || discriminate). Qed.
#[global] Instance ErrorCode_countable : Countable ErrorCode.
Proof.
  refine (inj_countable ErrorCode_index (λ z, List.find (λ x, ErrorCode_index x =? z) ErrorCode_all) _).
  intros []; reflexivity.
Defined.
End ErrorCode.
Abbreviation ErrorCode := ErrorCode.ErrorCode.

(** capabilities.hpp, [enum class Capability]. *)
Module Capability.
Inductive Capability : Set :=
  | HOST_READABLE | HOST_WRITABLE | DEVICE_READABLE | DEVICE_WRITABLE | CPU_MAPPABLE
  | DEVICE_MAPPABLE | EXPORTABLE | IMPORTABLE | SHAREABLE_ACROSS_PROCESS | SHAREABLE_ACROSS_DEVICE
  | PERSISTENT | PINNED | COHERENT | ASYNC_COPYABLE | PAGEABLE
  | DIRECTLY_DMA_CAPABLE | SUPPORTS_SUBALLOCATION | SUPPORTS_EXTERNAL_HANDLE | SUPPORTS_ZERO_COPY | SUPPORTS_EXPLICIT_FLUSH
  | SUPPORTS_EXPLICIT_INVALIDATE | COUNT.

#[global] Instance Capability_eq_dec : EqDecision Capability.
Proof. solve_decision. Defined.

(** The underlying integer of an enumerator. *)
Definition Capability_index (x : Capability) : Z :=
  match x with
  | HOST_READABLE => 0 | HOST_WRITABLE => 1 | DEVICE_READABLE => 2
  | DEVICE_WRITABLE => 3 | CPU_MAPPABLE => 4 | DEVICE_MAPPABLE => 5
  | EXPORTABLE => 6 | IMPORTABLE => 7 | SHAREABLE_ACROSS_PROCESS => 8
  | SHAREABLE_ACROSS_DEVICE => 9 | PERSISTENT => 10 | PINNED => 11 | COHERENT => 12
  | ASYNC_COPYABLE => 13 | PAGEABLE => 14 | DIRECTLY_DMA_CAPABLE => 15
  | SUPPORTS_SUBALLOCATION => 16 | SUPPORTS_EXTERNAL_HANDLE => 17
  | SUPPORTS_ZERO_COPY => 18 | SUPPORTS_EXPLICIT_FLUSH => 19
  | SUPPORTS_EXPLICIT_INVALIDATE => 20 | COUNT => 21
  end.

Definition Capability_to_string (x : Capability) : string :=
  match x with
  | HOST_READABLE => "HOST_READABLE" | HOST_WRITABLE => "HOST_WRITABLE"
  | DEVICE_READABLE => "DEVICE_READABLE" | DEVICE_WRITABLE => "DEVICE_WRITABLE"
  | CPU_MAPPABLE => "CPU_MAPPABLE" | DEVICE_MAPPABLE => "DEVICE_MAPPABLE"
  | EXPORTABLE => "EXPORTABLE" | IMPORTABLE => "IMPORTABLE"
  | SHAREABLE_ACROSS_PROCESS => "SHAREABLE_ACROSS_PROCESS"
  | SHAREABLE_ACROSS_DEVICE => "SHAREABLE_ACROSS_DEVICE"
  | PERSISTENT => "PERSISTENT" | PINNED => "PINNED" | COHERENT => "COHERENT"
  | ASYNC_COPYABLE => "ASYNC_COPYABLE" | PAGEABLE => "PAGEABLE"
  | DIRECTLY_DMA_CAPABLE => "DIRECTLY_DMA_CAPABLE"
  | SUPPORTS_SUBALLOCATION => "SUPPORTS_SUBALLOCATION"
  | SUPPORTS_EXTERNAL_HANDLE => "SUPPORTS_EXTERNAL_HANDLE"
  | SUPPORTS_ZERO_COPY => "SUPPORTS_ZERO_COPY"
  | SUPPORTS_EXPLICIT_FLUSH => "SUPPORTS_EXPLICIT_FLUSH"
  | SUPPORTS_EXPLICIT_INVALIDATE => "SUPPORTS_EXPLICIT_INVALIDATE"
  | COUNT => "COUNT"
  end.

Definition Capability_all : list Capability :=
  [HOST_READABLE; HOST_WRITABLE; DEVICE_READABLE; DEVICE_WRITABLE; CPU_MAPPABLE;
   DEVICE_MAPPABLE; EXPORTABLE; IMPORTABLE; SHAREABLE_ACROSS_PROCESS;
   SHAREABLE_ACROSS_DEVICE; PERSISTENT; PINNED; COHERENT; ASYNC_COPYABLE; PAGEABLE;
   DIRECTLY_DMA_CAPABLE; SUPPORTS_SUBALLOCATION; SUPPORTS_EXTERNAL_HANDLE;
   SUPPORTS_ZERO_COPY; SUPPORTS_EXPLICIT_FLUSH; SUPPORTS_EXPLICIT_INVALIDATE; COUNT].

Lemma Capability_all_complete x : x ∈ Capability_all.
Proof. destruct x; set_solver. Qed.
Lemma Capability_index_inj x y : Capability_index x = Capability_index y → x = y.
Proof. destruct x, y; (reflexivity || discriminate). Qed.
#[global] Instance Capability_countable : Countable Capability.
Proof.
  refine (inj_countable Capability_index (λ z, List.find (λ x, Capability_index x =? z) Capability_all) _).
  intros []; reflexivity.
Defined.
End Capability.
Abbreviation Capability := Capability.Capability.

(** ** Errors and results *)

(** error.hpp, [struct Error]: a category and a diagnostic text. *)
Record Error : Set := mkError { code : ErrorCode; message : string }.

(** result.hpp, [Result<T>]: a value or an error; never both. *)
Inductive Result (A : Type) : Type :=
  | Ok (v : A)
  | Fail (e : Error).
Arguments Ok {A} v.
Arguments Fail {A} e.

Definition Status : Type := Result unit.
Definition ok_status : Status := Ok tt.

(** [Result::ok()]. *)
Definition is_ok {A} (r : Result A) : bool :=
  match r with Ok _ => true | Fail _ => false end.
(** [Result::error()]: the error member of a success is the default [Error]. *)
Definition error {A} (r : Result A) : ErrorCode :=
  match r with Ok _ => ErrorCode.unknown | Fail e => code e end.
Definition value_or {A} (r : Result A) (fallback : A) : A :=
  match r with Ok v => v | Fail _ => fallback end.
(** [return Error(code, text)]. *)
Definition fail {A} (c : ErrorCode) (m : string) : Result A := Fail (mkError c m).
(** [return Error(r.error())]: the category is kept, the text is dropped. *)
Definition rethrow {A} (e : Error) : Result A := Fail (mkError (code e) "").

(** ** Identity *)

(** identity.hpp, [struct BufferId]: a 128-bit identity. *)
Record BufferId : Set := mkBufferId { hi : Z; lo : Z }.
#[global] Instance BufferId_eq_dec : EqDecision BufferId.
Proof. solve_decision. Defined.
#[global] Instance BufferId_countable : Countable BufferId.
Proof.
  refine (inj_countable' (λ i, (hi i, lo i)) (λ p, mkBufferId p.1 p.2) _).
  by intros [].
Defined.

Definition BufferId_eqb (a b : BufferId) : bool := (hi a =? hi b) && (lo a =? lo b).
Definition BufferId_ltb (a b : BufferId) : bool :=
  (hi a <? hi b) || ((hi a =? hi b) && (lo a <? lo b)).
Definition BufferId_null (a : BufferId) : bool := (hi a =? 0) && (lo a =? 0).
Definition BufferId_zero : BufferId := mkBufferId 0 0.

(** [std::hash<BufferId>]: splitmix-style mixing in 64-bit arithmetic. *)
Definition BufferId_hash (id : BufferId) : Z :=
  let x := Z.lxor (hi id)
             (u64 (u64 (u64 (lo id + 0x9e3779b97f4a7c15) + u64 (Z.shiftl (hi id) 6))
                   + Z.shiftr (hi id) 2)) in
  let x := u64 (Z.lxor x (Z.shiftr x 30) * 0xbf58476d1ce4e5b9) in
  let x := u64 (Z.lxor x (Z.shiftr x 27) * 0x94d049bb133111eb) in
  Z.lxor x (Z.shiftr x 31).

Definition BufferGeneration : Set := Z.
Definition NamespaceId : Set := Z.
Definition kDefaultNamespace : Z := 1.

(** types.hpp, [struct DeviceId]. *)
Record DeviceId : Set := mkDeviceId { dev_backend : BackendId; dev_index : Z }.
#[global] Instance DeviceId_eq_dec : EqDecision DeviceId.
Proof. solve_decision. Defined.
#[global] Instance DeviceId_countable : Countable DeviceId.
Proof.
  refine (inj_countable' (λ d, (dev_backend d, dev_index d)) (λ p, mkDeviceId p.1 p.2) _).
  by intros [].
Defined.
Definition DeviceId_default : DeviceId := mkDeviceId BackendId.HOST_MALLOC (-1).

(** types.hpp, [struct AllocationFlags]. *)
Record AllocationFlags : Set := mkAllocationFlags {
  zero_on_alloc : bool; pooled_flag : bool; exportable : bool; numa_hint : Z }.
Definition AllocationFlags_default : AllocationFlags := mkAllocationFlags true true false 0.

(** ** Capability sets (capabilities.hpp, [class Capabilities]) *)
Module Capabilities.
Definition bit (c : Capability) : Z := Z.shiftl 1 (Capability.Capability_index c).
Definition empty : Z := 0.
Definition set (c : Capability) (mask_ : Z) : Z := Z.lor mask_ (bit c).
Definition clear (c : Capability) (mask_ : Z) : Z := Z.land mask_ (not64 (bit c)).
Definition has (mask_ : Z) (c : Capability) : bool := negb (Z.land mask_ (bit c) =? 0).
Definition has_all (mask_ : Z) (cs : list Capability) : bool := forallb (has mask_) cs.
(** The loop over [0 <= i < COUNT]; [static_cast<Capability>(i)] is the i-th
    enumerator. *)
Definition enabled (mask_ : Z) : list Capability :=
  List.filter (λ c, negb (Capability.Capability_index c =? Capability.Capability_index Capability.COUNT)
                 && has mask_ c) Capability.Capability_all.
Definition of_list (cs : list Capability) : Z := foldl (λ m c, set c m) empty cs.
End Capabilities.

(** * Lemmas *)

Lemma Capability_index_range c :
  c ≠ Capability.COUNT → 0 ≤ Capability.Capability_index c < 64.
Proof. destruct c; simpl; done || lia. Qed.
Lemma bit_testbit c n :
  0 ≤ n → Z.testbit (Capabilities.bit c) n = (Capability.Capability_index c =? n).
Proof.
  intros Hn. unfold Capabilities.bit.
  assert (0 ≤ Capability.Capability_index c) as Hc by (destruct c; simpl; lia).
  rewrite Z.shiftl_1_l. by apply Z.pow2_bits_eqb.
Qed.
(** Membership is one bit of the mask. *)
Lemma has_testbit m c : Capabilities.has m c = Z.testbit m (Capability.Capability_index c).
Proof.
  unfold Capabilities.has. assert (0 ≤ Capability.Capability_index c) as Hc by (destruct c; simpl; lia).
  destruct (Z.testbit m (Capability.Capability_index c)) eqn:E.
  - apply negb_true_iff, Z.eqb_neq. intros Hz.
    assert (Z.testbit (Z.land m (Capabilities.bit c)) (Capability.Capability_index c) = true) as Hb.
    { by rewrite Z.land_spec, E, bit_testbit, Z.eqb_refl. }
    by rewrite Hz, Z.bits_0 in Hb.
  - apply negb_false_iff, Z.eqb_eq, Z.bits_inj'. intros n Hn.
    rewrite Z.land_spec, Z.bits_0, bit_testbit by done.
    destruct (_ =? n) eqn:En; [|by rewrite andb_false_r].
    apply Z.eqb_eq in En. subst n. by rewrite E.
Qed.
Lemma index_eqb c d :
  (Capability.Capability_index c =? Capability.Capability_index d) = bool_decide (c = d).
Proof.
  destruct (decide (c = d)) as [->|Hne].
  - by rewrite Z.eqb_refl, bool_decide_eq_true_2.
  - rewrite bool_decide_eq_false_2 by done. apply Z.eqb_neq.
    intros Heq. by apply Hne, Capability.Capability_index_inj.
Qed.

Lemma has_empty c : Capabilities.has Capabilities.empty c = false.
Proof. rewrite has_testbit. apply Z.bits_0. Qed.
Lemma has_set m d c :
  Capabilities.has (Capabilities.set d m) c = Capabilities.has m c || bool_decide (d = c).
Proof.
  assert (0 ≤ Capability.Capability_index c) as Hc by (destruct c; simpl; lia).
  rewrite !has_testbit. unfold Capabilities.set. rewrite Z.lor_spec, bit_testbit by done.
  by rewrite index_eqb.
Qed.
Lemma has_clear m d c :
  c ≠ Capability.COUNT →
  Capabilities.has (Capabilities.clear d m) c = Capabilities.has m c && bool_decide (d ≠ c).
Proof.
  intros Hc. pose proof (Capability_index_range c Hc) as Hr.
  rewrite !has_testbit. unfold Capabilities.clear. rewrite Z.land_spec. f_equal.
  destruct (decide (d = Capability.COUNT)) as [->|Hd].
  - rewrite bool_decide_eq_true_2 by done. revert Hc. by destruct c.
  - pose proof (Capability_index_range d Hd) as Hrd.
    assert (not64 (Capabilities.bit d) = Z.ldiff (Z.ones 64) (Capabilities.bit d)) as ->.
    { unfold not64. change (two64 - 1) with (Z.ones 64). apply Z.sub_nocarry_ldiff.
      apply Z.bits_inj'. intros n Hn. rewrite Z.ldiff_spec, Z.bits_0, bit_testbit by done.
      destruct (_ =? n) eqn:En; [|done]. apply Z.eqb_eq in En. subst n.
      by rewrite Z.ones_spec_low. }
    rewrite Z.ldiff_spec, bit_testbit, Z.ones_spec_low, index_eqb by lia. simpl.
    by destruct (decide (d = c)); [rewrite bool_decide_eq_true_2, bool_decide_eq_false_2 by naive_solver
                                  |rewrite bool_decide_eq_false_2, bool_decide_eq_true_2 by done].
Qed.
Lemma has_of_list_from cs m c :
  Capabilities.has (foldl (λ m c, Capabilities.set c m) m cs) c = true
  ↔ Capabilities.has m c = true ∨ c ∈ cs.
Proof.
  revert m. induction cs as [|d cs IH]; intros m; simpl.
  - rewrite elem_of_nil. naive_solver.
  - rewrite IH, has_set, orb_true_iff, bool_decide_eq_true, elem_of_cons. naive_solver.
Qed.
Lemma has_of_list cs c : Capabilities.has (Capabilities.of_list cs) c = true ↔ c ∈ cs.
Proof. unfold Capabilities.of_list. rewrite has_of_list_from, has_empty. naive_solver. Qed.

(** * Properties *)

(** A capability set behaves as a set of capabilities: building it from a list
    and asking [has] is membership in the list, [set] adds and [clear] removes
    exactly one capability, and [enabled] lists the members. *)
Theorem capability_set_correct (cs : list Capability) (c d : Capability) :
  c ≠ Capability.COUNT →
  let m := Capabilities.of_list cs in
  (Capabilities.has m c = true ↔ c ∈ cs)
  ∧ (Capabilities.has (Capabilities.set d m) c = true ↔ c ∈ d :: cs)
  ∧ (Capabilities.has (Capabilities.clear d m) c = true ↔ c ∈ cs ∧ c ≠ d)
  ∧ (c ∈ Capabilities.enabled m ↔ c ∈ cs).
Proof.
  intros Hc m. pose proof (has_of_list cs c) as Hm. fold m in Hm. split_and!; [done|..].
  - rewrite has_set, orb_true_iff, Hm, bool_decide_eq_true, elem_of_cons. naive_solver.
  - rewrite has_clear, andb_true_iff, Hm, bool_decide_eq_true by done. naive_solver.
  - unfold Capabilities.enabled. rewrite list_elem_of_In, List.filter_In, <- list_elem_of_In.
    rewrite andb_true_iff, Hm, index_eqb, negb_true_iff, bool_decide_eq_false.
    pose proof (Capability.Capability_all_complete c). naive_solver.
Qed.

Lemma capability_set_correct_witness :
  Capability.PINNED ∈ Capabilities.enabled (Capabilities.of_list [Capability.PINNED; Capability.COHERENT]).
Proof.
  apply (capability_set_correct [Capability.PINNED; Capability.COHERENT] Capability.PINNED Capability.PINNED);
    [discriminate|]. constructor.
Defined.
