(* ===== verification/CheckedMath.v ===== *)
(** core/checked_math.hpp: the overflow-safe size arithmetic every metadata path
    goes through.  [size_t] values are integers in [0, 2^64).  The out-parameter
    of [add_overflow] and [mul_overflow] becomes part of the result: [None] is
    the [true] (overflow) return, which leaves the out-parameter unwritten. *)
From S2P Require Import Prelude Types.

Definition kMaxSizeT : Z := two64 - 1.

Definition add_overflow (a b : Z) : option Z :=
  if u64 (kMaxSizeT - a) <? b then None else Some (u64 (a + b)).

Definition mul_overflow (a b : Z) : option Z :=
  if (a =? 0) || (b =? 0) then Some 0
  else if kMaxSizeT / b <? a then None
  else Some (u64 (a * b)).

(** [(a & (a - 1)) != 0] is the source's test for "not a power of two". *)
Definition not_power_of_two (a : Z) : bool := negb (Z.land a (u64 (a - 1)) =? 0).

Definition align_up (value alignment : Z) : option Z :=
  if alignment =? 0 then None
  else if not_power_of_two alignment then None
  else let mask := u64 (alignment - 1) in
       if u64 (kMaxSizeT - mask) <? value then None
       else Some (Z.land (u64 (value + mask)) (not64 mask)).

Definition is_aligned (value alignment : Z) : bool :=
  if alignment =? 0 then false
  else if not_power_of_two alignment then false
  else Z.land value (u64 (alignment - 1)) =? 0.

Definition align_down (value alignment : Z) : Z :=
  if alignment =? 0 then value
  else Z.land value (not64 (u64 (alignment - 1))).

Definition range_in_bounds (offset length total : Z) : bool :=
  match add_overflow offset length with
  | None => false
  | Some end_ => end_ <=? total
  end.

(** * Lemmas *)

Definition power_of_two (a : Z) : Prop := ∃ k, 0 ≤ k ∧ a = 2 ^ k.

Lemma two64_pow : two64 = 2 ^ 64.
Proof. reflexivity. Qed.

Lemma land_pred_zero a : 0 < a → Z.land a (a - 1) = 0 ↔ power_of_two a.
Proof.
  intros Ha. split.
  - intros Hl. exists (Z.log2 a). split; [apply Z.log2_nonneg|].
    destruct (Z.log2_spec a Ha) as [H1 H2].
    destruct (decide (a = 2 ^ Z.log2 a)) as [|Hne]; [done|exfalso].
    assert (Z.log2 (a - 1) = Z.log2 a) as Hlog.
    { apply Z.log2_unique; [apply Z.log2_nonneg|]. lia. }
    assert (Z.testbit (Z.land a (a - 1)) (Z.log2 a) = true) as Hb.
    { rewrite Z.land_spec, Z.bit_log2 by done. rewrite <- Hlog. simpl.
      apply Z.bit_log2. assert (1 < a); [|lia].
      destruct (decide (a = 1)) as [->|]; [by compute in Hne|lia]. }
    by rewrite Hl, Z.bits_0 in Hb.
  - intros (k & Hk & ->). replace (2 ^ k - 1) with (Z.ones k) by (rewrite Z.ones_equiv; lia).
    rewrite Z.land_ones by done. apply Z_mod_same_full.
Qed.

Lemma not_power_of_two_spec a :
  0 < a < two64 → not_power_of_two a = false ↔ power_of_two a.
Proof.
  intros Ha. unfold not_power_of_two. rewrite u64_small by (unfold is_u64; lia).
  rewrite negb_false_iff, Z.eqb_eq. apply land_pred_zero. lia.
Qed.

Lemma power_of_two_bounded a :
  power_of_two a → a < two64 → ∃ k, 0 ≤ k < 64 ∧ a = 2 ^ k.
Proof.
  intros (k & Hk & ->) Hlt. exists k. split; [|done].
  rewrite two64_pow in Hlt. apply Z.pow_lt_mono_r_iff in Hlt; lia.
Qed.

(** Masking off the low bits of a word rounds it down to the alignment. *)
Lemma land_not_mask x k :
  is_u64 x → 0 ≤ k < 64 → Z.land x (not64 (2 ^ k - 1)) = 2 ^ k * (x / 2 ^ k).
Proof.
  intros Hx Hk.
  assert (Hnm : not64 (2 ^ k - 1) = Z.shiftl (Z.ones (64 - k)) k).
  { unfold not64. rewrite Z.shiftl_mul_pow2, Z.ones_equiv, two64_pow by lia.
    replace (2 ^ 64) with (2 ^ (64 - k) * 2 ^ k) by (rewrite <- Z.pow_add_r by lia; f_equal; lia).
    nia. }
  rewrite Hnm. replace (2 ^ k * (x / 2 ^ k)) with (Z.shiftl (Z.shiftr x k) k)
    by (rewrite Z.shiftl_mul_pow2, Z.shiftr_div_pow2; lia).
  apply Z.bits_inj'. intros n Hn. rewrite Z.land_spec.
  destruct (decide (n < k)) as [Hlt|Hge].
  - rewrite !Z.shiftl_spec_low by lia. by rewrite andb_false_r.
  - rewrite !Z.shiftl_spec by lia. rewrite Z.shiftr_spec by lia.
    replace (n - k + k) with n by lia.
    destruct (decide (n < 64)) as [Hlt|Hge'].
    + rewrite Z.ones_spec_low by lia. by rewrite andb_true_r.
    + rewrite Z.ones_spec_high by lia. rewrite andb_false_r.
      destruct (decide (x = 0)) as [->|]; [by rewrite Z.bits_0|].
      symmetry. apply Z.bits_above_log2; unfold is_u64 in Hx; [lia|].
      enough (Z.log2 x < 64) by lia. apply Z.log2_lt_pow2; [lia|].
      rewrite <- two64_pow. lia.
Qed.

Lemma land_mask x k : 0 ≤ k → Z.land x (2 ^ k - 1) = x mod 2 ^ k.
Proof.
  intros. replace (2 ^ k - 1) with (Z.ones k) by (rewrite Z.ones_equiv; lia).
  by apply Z.land_ones.
Qed.

(** [x] is the least multiple of [a] that is at least [v]. *)
Definition least_multiple_above (a v x : Z) : Prop :=
  (a | x) ∧ v ≤ x ∧ ∀ y, (a | y) → v ≤ y → x ≤ y.

Lemma round_up_least a v : 0 < a → least_multiple_above a v (a * ((v + (a - 1)) / a)).
Proof.
  intros Ha. pose proof (Z.mul_div_le (v + (a - 1)) a Ha).
  pose proof (Z.mul_succ_div_gt (v + (a - 1)) a Ha). split_and!.
  - apply Z.divide_factor_l.
  - nia.
  - intros y [q ->] Hy. rewrite (Z.mul_comm q a).
    apply Z.mul_le_mono_nonneg_l; [lia|].
    apply Z.lt_succ_r, Z.div_lt_upper_bound; nia.
Qed.

Lemma pow2_lt_two64 k : 0 ≤ k < 64 → 0 < 2 ^ k < two64.
Proof.
  intros. rewrite two64_pow. split; [apply Z.pow_pos_nonneg; lia|].
  apply Z.pow_lt_mono_r; lia.
Qed.

Lemma add_overflow_eq a b :
  is_u64 a → is_u64 b → add_overflow a b = if decide (a + b < two64) then Some (a + b) else None.
Proof.
  intros Ha Hb. unfold add_overflow, kMaxSizeT, is_u64 in *.
  rewrite (u64_small (two64 - 1 - a)) by (unfold is_u64; lia).
  destruct (_ <? b) eqn:E; case_decide; try lia; [done|].
  rewrite u64_small by (unfold is_u64; lia). done.
Qed.

Lemma range_in_bounds_spec o l t :
  is_u64 o → is_u64 l → is_u64 t → range_in_bounds o l t = true ↔ o + l ≤ t.
Proof.
  intros. unfold range_in_bounds. rewrite add_overflow_eq by done.
  unfold is_u64 in *. case_decide; [lia|]. split; [done|lia].
Qed.

(** Whatever the length, an accepted range from the start ends within the total. *)
Lemma range_in_bounds_le l t : is_u64 t → range_in_bounds 0 l t = true → l ≤ t.
Proof.
  intros Ht. unfold is_u64 in Ht. destruct (decide (0 ≤ l < two64)) as [Hl|Hl].
  - intros H. apply range_in_bounds_spec in H; unfold is_u64; lia.
  - unfold range_in_bounds, add_overflow, kMaxSizeT.
    rewrite (u64_small (_ - 0)) by (unfold is_u64, two64; lia). destruct (_ <? _) eqn:E; bool_prop; [done|]. lia.
Qed.

(** The result of [align_up] for a power-of-two alignment. *)
Lemma align_up_pow2 v k :
  is_u64 v → 0 ≤ k < 64 →
  align_up v (2 ^ k) =
    if decide (v + (2 ^ k - 1) < two64) then Some (2 ^ k * ((v + (2 ^ k - 1)) / 2 ^ k)) else None.
Proof.
  intros Hv Hk. pose proof (pow2_lt_two64 k Hk). unfold align_up.
  destruct (2 ^ k =? 0) eqn:E; [lia|]. clear E.
  rewrite (proj2 (not_power_of_two_spec (2 ^ k) ltac:(lia))) by (exists k; lia).
  rewrite (u64_small (2 ^ k - 1)) by (unfold is_u64; lia).
  unfold kMaxSizeT, is_u64 in *. rewrite (u64_small (two64 - 1 - _)) by (unfold is_u64; lia).
  destruct (_ <? v) eqn:E; case_decide; try lia; [done|].
  rewrite (u64_small (v + _)) by (unfold is_u64; lia).
  rewrite land_not_mask by (unfold is_u64; lia). done.
Qed.

Lemma align_up_facts v a x :
  is_u64 v → is_u64 a → align_up v a = Some x →
  power_of_two a ∧ least_multiple_above a v x ∧ is_u64 x.
Proof.
  intros Hv Ha Hx. assert (a ≠ 0) as Ha0 by (intros ->; done).
  assert (not_power_of_two a = false) as Hp.
  { unfold align_up in Hx. destruct (a =? 0); [done|]. by destruct (not_power_of_two a). }
  apply not_power_of_two_spec in Hp; [|unfold is_u64 in *; lia].
  split; [done|]. destruct (power_of_two_bounded a Hp) as (k & Hk & ->).
  { unfold is_u64 in *. lia. }
  rewrite align_up_pow2 in Hx by done. case_decide as Hd; [|done]. simplify_eq.
  pose proof (pow2_lt_two64 k Hk). split; [apply round_up_least; lia|].
  pose proof (round_up_least (2 ^ k) v ltac:(lia)) as (_ & Hle & _).
  pose proof (Z.mul_div_le (v + (2 ^ k - 1)) (2 ^ k) ltac:(lia)).
  unfold is_u64 in *. lia.
Qed.
#[export] Hint Resolve pow2_lt_two64 : ub.

(** * Properties *)

(** C40: [align_up] is exact on all words: it returns a value only for a power-of-two
    alignment, and then the least multiple of the alignment that is at least the
    value; it refuses only when the alignment is no power of two or that multiple
    does not fit a [size_t]. *)
Theorem align_up_correct v a :
  is_u64 v → is_u64 a →
  match align_up v a with
  | Some x => power_of_two a ∧ least_multiple_above a v x ∧ x < two64
  | None => ¬ power_of_two a ∨ ∀ x, least_multiple_above a v x → two64 ≤ x
  end.
Proof.
  intros Hv Ha. destruct (align_up v a) as [x|] eqn:E.
  { destruct (align_up_facts v a x Hv Ha E) as (? & ? & ?). unfold is_u64 in *. naive_solver. }
  destruct (decide (a = 0)) as [->|Ha0].
  { left. intros (k & Hk & Hz). pose proof (Z.pow_pos_nonneg 2 k). lia. }
  destruct (not_power_of_two a) eqn:Hp.
  { left. intros Hc. apply not_power_of_two_spec in Hc; [congruence|unfold is_u64 in *; lia]. }
  apply not_power_of_two_spec in Hp; [|unfold is_u64 in *; lia]. right.
  destruct (power_of_two_bounded a Hp) as (k & Hk & ->); [unfold is_u64 in *; lia|].
  rewrite align_up_pow2 in E by done. case_decide as Hd; [done|].
  intros x ([q ->] & Hle & _). rewrite two64_pow in *.
  replace (2 ^ 64) with (2 ^ (64 - k) * 2 ^ k) in * by (rewrite <- Z.pow_add_r by lia; f_equal; lia).
  pose proof (pow2_lt_two64 k Hk). apply Z.mul_le_mono_nonneg_r; [lia|].
  apply Z.lt_pred_le. apply Z.mul_lt_mono_pos_r with (2 ^ k); [lia|]. lia.
Qed.

(** Overflow-safe addition and multiplication: the result is the mathematical
    one whenever that fits a [size_t], and overflow is reported exactly otherwise;
    a range check never wraps around. *)
Theorem overflow_reported_exactly (a b total : Z) :
  is_u64 a → is_u64 b → is_u64 total →
  add_overflow a b = (if decide (a + b < two64) then Some (a + b) else None)
  ∧ mul_overflow a b = (if decide (a * b < two64) then Some (a * b) else None)
  ∧ (range_in_bounds a b total = true ↔ a + b ≤ total).
Proof.
  intros Ha Hb Ht. split_and!; [by apply add_overflow_eq| |by apply range_in_bounds_spec].
  unfold mul_overflow, kMaxSizeT, is_u64 in *.
  destruct (a =? 0) eqn:Ea; bool_prop; [subst; by rewrite decide_True by lia|].
  destruct (b =? 0) eqn:Eb; bool_prop; [subst; rewrite decide_True by lia; f_equal; lia|].
  cbn [orb]. pose proof (Z.mul_div_le (two64 - 1) b ltac:(lia)).
  pose proof (Z.mul_succ_div_gt (two64 - 1) b ltac:(lia)).
  destruct (_ <? a) eqn:E; bool_prop; case_decide as Hd; [nia|done| |nia].
  rewrite u64_small; [done|]. unfold is_u64. nia.
Qed.

(** For a power-of-two alignment, [align_down] gives the greatest multiple of
    the alignment that is at most the value, and [is_aligned] holds exactly for
    the multiples. *)
Theorem align_down_correct (v a : Z) :
  is_u64 v → is_u64 a → power_of_two a →
  (a | align_down v a) ∧ align_down v a ≤ v < align_down v a + a
  ∧ (is_aligned v a = true ↔ (a | v)).
Proof.
  intros Hv Ha Hp. destruct (power_of_two_bounded a Hp) as (k & Hk & ->); [unfold is_u64 in *; lia|].
  pose proof (pow2_lt_two64 k Hk) as Hr. unfold align_down, is_aligned.
  assert ((2 ^ k =? 0) = false) as -> by (apply Z.eqb_neq; lia).
  rewrite (proj2 (not_power_of_two_spec (2 ^ k) ltac:(lia)) Hp).
  rewrite (u64_small (2 ^ k - 1)) by (unfold is_u64; lia).
  rewrite land_not_mask, land_mask by (done || lia). split_and!.
  - apply Z.divide_factor_l.
  - apply Z.mul_div_le. lia.
  - pose proof (Z.mul_succ_div_gt v (2 ^ k)). lia.
  - rewrite Z.eqb_eq. apply Z.mod_divide. lia.
Qed.

Lemma small_word z : 0 <= z <= 18446744073709551615 → is_u64 z.
Proof. unfold is_u64, two64. lia. Qed.

Lemma align_up_correct_witness : align_up 5000 64 = Some 5056 ∧ least_multiple_above 64 5000 5056.
Proof.
  pose proof (align_up_correct 5000 64 (small_word 5000 ltac:(lia)) (small_word 64 ltac:(lia))) as H.
  split; [reflexivity|]. exact (proj1 (proj2 H)).
Defined.
Lemma overflow_reported_exactly_witness :
  mul_overflow 4294967296 4294967296 = None ∧ add_overflow 18446744073709551615 1 = None.
Proof.
  split.
  - refine (proj1 (proj2 (overflow_reported_exactly 4294967296 4294967296 0 _ _ _)));
      apply small_word; lia.
  - refine (proj1 (overflow_reported_exactly 18446744073709551615 1 0 _ _ _));
      apply small_word; lia.
Defined.
Lemma align_down_correct_witness : is_aligned 4992 64 = true.
Proof.
  assert (power_of_two 64) as Hp by (by exists 6).
  destruct (align_down_correct 4992 64 (small_word 4992 ltac:(lia)) (small_word 64 ltac:(lia)) Hp)
    as (_ & _ & _ & H).
  apply H. by exists 78.
Defined.
