(* ===== verification/Integrity.v ===== *)
(** core/integrity.hpp and src/core/integrity.cpp: the table-driven CRC-32C, and
    the little-endian object representation its callers feed to it.  Bytes are
    integers in [0, 256); a buffer of bytes is a list. *)
From S2P Require Import Prelude Types.

(** Reversed Castagnoli polynomial. *)
Definition kCrc32cPoly : Z := 0x82F63B78.

(** One round of the inner loop of the table initialiser. *)
Definition crc_round (c : Z) : Z :=
  if Z.land c 1 =? 0 then Z.shiftr c 1 else Z.lxor kCrc32cPoly (Z.shiftr c 1).
Definition crc_entry (i : Z) : Z := Nat.iter 8 crc_round i.
(** [static const auto tbl]. *)
Definition crc_table : list Z := crc_entry <$> seqZ 0 256.

(** The loop body: [crc = tbl[(crc ^ p[i]) & 0xFF] ^ (crc >> 8)]. *)
Definition crc_byte (crc b : Z) : Z :=
  Z.lxor (nth (Z.to_nat (Z.land (Z.lxor crc b) 0xFF)) crc_table 0) (Z.shiftr crc 8).

Definition crc32c (data : list Z) (seed : Z) : Z := not32 (foldl crc_byte (not32 seed) data).

Definition crc32c_self_test : bool :=
  crc32c [49; 50; 51; 52; 53; 54; 55; 56; 57] 0 =? 0xE3069283.

(** The [n] bytes of an unsigned object of [n] bytes on the (little-endian)
    targets of the library. *)
Fixpoint le_bytes (n : nat) (z : Z) : list Z :=
  match n with
  | O => []
  | S n' => Z.land z 0xFF :: le_bytes n' (Z.shiftr z 8)
  end.

(** Reference: the bit-serial CRC that the table abbreviates. *)
Definition crc_byte_serial (crc b : Z) : Z := Nat.iter 8 crc_round (Z.lxor crc b).
Definition crc32c_serial (data : list Z) (seed : Z) : Z :=
  not32 (foldl crc_byte_serial (not32 seed) data).

Definition is_byte (b : Z) : Prop := 0 ≤ b < 256.

(** * Lemmas *)

Lemma not32_involutive z : not32 (not32 z) = z.
Proof. unfold not32. lia. Qed.
Lemma not32_range z : is_u32 z → is_u32 (not32 z).
Proof. unfold is_u32, not32. lia. Qed.
#[export] Hint Resolve not32_range : ub.

Lemma lxor_bound n a b : 0 < n → 0 ≤ a < 2 ^ n → 0 ≤ b < 2 ^ n → 0 ≤ Z.lxor a b < 2 ^ n.
Proof.
  intros Hn Ha Hb. assert (0 ≤ Z.lxor a b) as Hp by (apply Z.lxor_nonneg; lia).
  split; [done|]. destruct (decide (Z.lxor a b = 0)) as [->|Hz]; [lia|].
  apply Z.log2_lt_pow2; [lia|]. pose proof (Z.log2_lxor a b ltac:(lia) ltac:(lia)).
  assert (∀ c, 0 ≤ c < 2 ^ n → Z.log2 c < n) as Hc.
  { intros c Hc. destruct (decide (c = 0)) as [->|]; [done|]. apply Z.log2_lt_pow2; lia. }
  pose proof (Hc a Ha). pose proof (Hc b Hb). lia.
Qed.
Lemma lxor_u32 a b : is_u32 a → is_u32 b → is_u32 (Z.lxor a b).
Proof. unfold is_u32. change two32 with (2 ^ 32). intros. by apply lxor_bound. Qed.
Lemma shiftr_u32 a n : is_u32 a → 0 ≤ n → is_u32 (Z.shiftr a n).
Proof.
  unfold is_u32. intros Ha Hn. rewrite Z.shiftr_div_pow2 by done.
  pose proof (Z.pow_pos_nonneg 2 n). split; [apply Z.div_pos; lia|].
  apply Z.le_lt_trans with a; [|lia]. apply Z.div_le_upper_bound; nia.
Qed.
#[export] Hint Resolve lxor_u32 shiftr_u32 : ub.

Lemma land_1_odd c : (Z.land c 1 =? 0) = negb (Z.odd c).
Proof.
  change 1 with (Z.ones 1). rewrite Z.land_ones by lia. change (2 ^ 1) with 2.
  rewrite Zmod_odd. by destruct (Z.odd c).
Qed.

Lemma crc_round_alt c :
  crc_round c = Z.lxor (if Z.odd c then kCrc32cPoly else 0) (Z.shiftr c 1).
Proof. unfold crc_round. rewrite land_1_odd. by destruct (Z.odd c). Qed.

Lemma crc_round_u32 c : is_u32 c → is_u32 (crc_round c).
Proof.
  intros Hc. rewrite crc_round_alt. apply lxor_u32; [|by apply shiftr_u32].
  destruct (Z.odd c); unfold is_u32, kCrc32cPoly, two32; lia.
Qed.
Lemma crc_rounds_u32 n c : is_u32 c → is_u32 (Nat.iter n crc_round c).
Proof. intros. induction n; simpl; [done|]. by apply crc_round_u32. Qed.
#[export] Hint Resolve crc_round_u32 crc_rounds_u32 : ub.

(** The shift register is linear over xor. *)
Lemma crc_round_lxor a b : crc_round (Z.lxor a b) = Z.lxor (crc_round a) (crc_round b).
Proof.
  rewrite !crc_round_alt, Z.shiftr_lxor, <- !Z.bit0_odd, Z.lxor_spec.
  destruct (Z.testbit a 0), (Z.testbit b 0); simpl;
    apply Z.bits_inj'; intros n Hn; rewrite !Z.lxor_spec, ?Z.bits_0;
    destruct (Z.testbit kCrc32cPoly n), (Z.testbit (Z.shiftr a 1) n),
      (Z.testbit (Z.shiftr b 1) n); done.
Qed.
Lemma crc_rounds_lxor n a b :
  Nat.iter n crc_round (Z.lxor a b) = Z.lxor (Nat.iter n crc_round a) (Nat.iter n crc_round b).
Proof. induction n as [|n IH]; [done|]. simpl. by rewrite IH, crc_round_lxor. Qed.

(** Zero low bits shift out unchanged. *)
Lemma crc_rounds_shiftl n h : Nat.iter n crc_round (Z.shiftl h (Z.of_nat n)) = h.
Proof.
  revert h. induction n as [|n IH]; intros h; [apply Z.shiftl_0_r|].
  rewrite Nat.iter_succ_r. rewrite <- (IH h) at 2. f_equal.
  rewrite crc_round_alt, <- Z.bit0_odd, Z.shiftl_spec_low by lia.
  rewrite Z.lxor_0_l, Z.shiftr_shiftl_l by lia. f_equal. lia.
Qed.

Lemma split_low_byte c : c = Z.lxor (Z.land c 0xFF) (Z.shiftl (Z.shiftr c 8) 8).
Proof.
  change 0xFF with (Z.ones 8). apply Z.bits_inj'. intros n Hn.
  rewrite Z.lxor_spec, Z.land_spec. destruct (decide (n < 8)).
  - rewrite Z.ones_spec_low, Z.shiftl_spec_low by lia.
    by rewrite andb_true_r, xorb_false_r.
  - rewrite Z.ones_spec_high, Z.shiftl_spec, Z.shiftr_spec by lia.
    replace (n - 8 + 8) with n by lia. by rewrite andb_false_r.
Qed.

Lemma crc_table_entry i : is_byte i → nth (Z.to_nat i) crc_table 0 = crc_entry i.
Proof.
  intros Hi. unfold crc_table, is_byte in *. apply nth_lookup_Some.
  rewrite list_lookup_fmap, lookup_seqZ_lt by lia. simpl. f_equal. f_equal. lia.
Qed.

Lemma land_byte z : is_byte (Z.land z 0xFF).
Proof.
  unfold is_byte. change 0xFF with (Z.ones 8). rewrite Z.land_ones by lia.
  apply Z.mod_pos_bound. lia.
Qed.
#[export] Hint Resolve land_byte : ub.

Lemma byte_shiftr b : is_byte b → Z.shiftr b 8 = 0.
Proof. intros. rewrite Z.shiftr_div_pow2 by lia. apply Z.div_small. done. Qed.

(** The table step is eight rounds of the shift register. *)
Lemma crc_byte_serial_eq crc b : is_byte b → crc_byte crc b = crc_byte_serial crc b.
Proof.
  intros Hb. unfold crc_byte, crc_byte_serial.
  rewrite crc_table_entry by auto with ub.
  rewrite (split_low_byte (Z.lxor crc b)) at 2.
  rewrite crc_rounds_lxor, (crc_rounds_shiftl 8).
  by rewrite Z.shiftr_lxor, (byte_shiftr b), Z.lxor_0_r.
Qed.

Lemma foldl_crc_serial data crc :
  Forall is_byte data → foldl crc_byte crc data = foldl crc_byte_serial crc data.
Proof.
  intros Hd. revert crc. induction Hd as [|b data Hb _ IH]; intros crc; [done|].
  simpl. by rewrite crc_byte_serial_eq.
Qed.

Lemma is_byte_u32 b : is_byte b → is_u32 b.
Proof. unfold is_byte, is_u32, two32. lia. Qed.
#[export] Hint Resolve is_byte_u32 : ub.

Lemma foldl_crc_u32 data crc :
  Forall is_byte data → is_u32 crc → is_u32 (foldl crc_byte crc data).
Proof.
  intros Hd. revert crc. induction Hd as [|b data Hb _ IH]; intros crc Hc; [done|].
  simpl. apply IH. rewrite crc_byte_serial_eq by done.
  unfold crc_byte_serial. auto with ub.
Qed.

(** The top bit of the polynomial makes a round injective on words: bit 31 of
    the result is bit 0 of the argument. *)
Lemma u32_bit31 c : is_u32 c → Z.testbit (Z.shiftr c 1) 31 = false.
Proof.
  intros Hc. rewrite Z.shiftr_spec by lia.
  destruct (decide (c = 0)) as [->|]; [by rewrite Z.bits_0|].
  unfold is_u32 in Hc. apply Z.bits_above_log2; [lia|].
  change two32 with (2 ^ 32) in Hc. apply Z.log2_lt_pow2; lia.
Qed.
Lemma crc_round_bit31 c : is_u32 c → Z.testbit (crc_round c) 31 = Z.odd c.
Proof.
  intros Hc. rewrite crc_round_alt, Z.lxor_spec, u32_bit31 by done.
  by destruct (Z.odd c).
Qed.
Lemma lxor_cancel_l a b c : Z.lxor a b = Z.lxor a c → b = c.
Proof.
  intros H. apply (f_equal (Z.lxor a)) in H.
  by rewrite <- !Z.lxor_assoc, Z.lxor_nilpotent, !Z.lxor_0_l in H.
Qed.
Lemma crc_round_inj a b : is_u32 a → is_u32 b → crc_round a = crc_round b → a = b.
Proof.
  intros Ha Hb Heq. assert (Z.odd a = Z.odd b) as Ho.
  { rewrite <- (crc_round_bit31 a), <- (crc_round_bit31 b) by done. by rewrite Heq. }
  rewrite !crc_round_alt, Ho in Heq. apply lxor_cancel_l in Heq.
  rewrite (Z.div2_odd a), (Z.div2_odd b), !Z.div2_spec, Heq, Ho. done.
Qed.
Lemma crc_rounds_inj n a b :
  is_u32 a → is_u32 b → Nat.iter n crc_round a = Nat.iter n crc_round b → a = b.
Proof.
  intros Ha Hb. induction n as [|n IH]; [done|]. simpl. intros H.
  apply IH, crc_round_inj; auto with ub.
Qed.

Lemma crc_byte_inj_crc c1 c2 b :
  is_u32 c1 → is_u32 c2 → is_byte b → crc_byte c1 b = crc_byte c2 b → c1 = c2.
Proof.
  intros ?? Hb. rewrite !crc_byte_serial_eq by done. intros Heq.
  apply crc_rounds_inj in Heq; [|auto with ub..].
  rewrite !(Z.lxor_comm _ b) in Heq. by apply lxor_cancel_l in Heq.
Qed.
Lemma crc_byte_inj_byte c b1 b2 :
  is_u32 c → is_byte b1 → is_byte b2 → crc_byte c b1 = crc_byte c b2 → b1 = b2.
Proof.
  intros ???. rewrite !crc_byte_serial_eq by done. intros Heq.
  apply crc_rounds_inj in Heq; [|auto with ub..]. by apply lxor_cancel_l in Heq.
Qed.
Lemma foldl_crc_inj data c1 c2 :
  Forall is_byte data → is_u32 c1 → is_u32 c2 →
  foldl crc_byte c1 data = foldl crc_byte c2 data → c1 = c2.
Proof.
  intros Hd. revert c1 c2. induction Hd as [|b data Hb _ IH]; intros c1 c2 H1 H2 Heq; [done|].
  simpl in Heq. apply IH in Heq; [by eapply crc_byte_inj_crc| |];
    rewrite crc_byte_serial_eq by done; unfold crc_byte_serial; auto with ub.
Qed.
Lemma not32_inj a b : not32 a = not32 b → a = b.
Proof. unfold not32. lia. Qed.

Lemma le_bytes_bytes n z : Forall is_byte (le_bytes n z).
Proof. revert z. induction n; intros z; simpl; constructor; auto with ub. Qed.
Lemma length_le_bytes n z : length (le_bytes n z) = n.
Proof. revert z. induction n; intros z; simpl; auto. Qed.
#[export] Hint Resolve le_bytes_bytes : ub.

(** * Properties *)

(** C39: the table-driven CRC-32C computes the bit-serial CRC-32C of the same
    bytes, for every seed. *)
Theorem crc32c_table_correct data seed :
  Forall is_byte data → crc32c data seed = crc32c_serial data seed.
Proof. intros. unfold crc32c, crc32c_serial. by rewrite foldl_crc_serial. Qed.

Example crc32c_table_correct_witness :
  crc32c [49; 50; 51; 52; 53; 54; 55; 56; 57] 0
  = crc32c_serial [49; 50; 51; 52; 53; 54; 55; 56; 57] 0.
Proof. apply crc32c_table_correct. repeat constructor; unfold is_byte; lia. Defined.

(** Seeding continues a checksum: the CRC of a concatenation is the CRC of
    the second part seeded with the CRC of the first, a 32-bit word, and the
    self test against the published check value holds. *)
Theorem crc32c_incremental d1 d2 seed :
  Forall is_byte d1 → Forall is_byte d2 → is_u32 seed →
  crc32c (d1 ++ d2) seed = crc32c d2 (crc32c d1 seed)
  ∧ is_u32 (crc32c (d1 ++ d2) seed) ∧ crc32c_self_test = true.
Proof.
  intros Hd1 Hd2 Hs. unfold crc32c. rewrite foldl_app, not32_involutive.
  split_and!; [done| |by vm_compute].
  apply not32_range. by repeat (apply foldl_crc_u32; auto with ub).
Qed.

Example crc32c_incremental_witness :
  crc32c ([1; 2] ++ [255]) 7 = crc32c [255] (crc32c [1; 2] 7)
  ∧ is_u32 (crc32c ([1; 2] ++ [255]) 7) ∧ crc32c_self_test = true.
Proof.
  apply crc32c_incremental; [repeat constructor; unfold is_byte; lia..|].
  unfold is_u32, two32. lia.
Defined.

(** A CRC-32C detects every corruption confined to one byte: two data
    blocks that differ in exactly one byte have different checksums. *)
Theorem crc32c_detects_byte_corruption pre b1 b2 post seed :
  Forall is_byte (pre ++ post) → is_byte b1 → is_byte b2 → is_u32 seed → b1 ≠ b2 →
  crc32c (pre ++ b1 :: post) seed ≠ crc32c (pre ++ b2 :: post) seed.
Proof.
  intros Hd Hb1 Hb2 Hs Hne Heq. apply Hne. apply Forall_app in Hd as [Hpre Hpost].
  unfold crc32c in Heq. apply not32_inj in Heq. rewrite !foldl_app in Heq. simpl in Heq.
  assert (is_u32 (foldl crc_byte (not32 seed) pre)) as Hc by (apply foldl_crc_u32; auto with ub).
  apply foldl_crc_inj in Heq; [by eapply crc_byte_inj_byte|done| |];
    rewrite crc_byte_serial_eq by done; unfold crc_byte_serial; auto with ub.
Qed.

Example crc32c_detects_byte_corruption_witness :
  crc32c ([1; 2] ++ 3 :: [4]) 0 ≠ crc32c ([1; 2] ++ 19 :: [4]) 0.
Proof.
  apply crc32c_detects_byte_corruption; unfold is_byte, is_u32, two32; try lia.
  repeat constructor; unfold is_byte; lia.
Defined.
