(* ===== verification/Platform.v ===== *)
(** The machine the library runs on, and the backend interface of
    backends/domain.hpp.

    - Memory is a total map from addresses to bytes with the C library's
      [memset], [memcpy] and [memmove].
    - [Platform] collects what the sources call but do not define: the MSVC
      aligned heap, the Win32 file-mapping API, the CUDA runtime and the clocks.
      Each is a parameter of the model, over an opaque operating-system state;
      [win32] and [has_cuda] are the build switches [_WIN32] and
      [UNIFIED_BUFFER_HAS_CUDA].
    - [NativeAllocation], [CapacityInfo] and [IDomain] are the types of
      domain.hpp; [IDomain] is a record of operations (the virtual methods). *)
From S2P Require Import Prelude Types.

(** ** Memory *)

Definition Memory : Type := Z → Z.

(** [p <= a < p + len]. *)
Definition in_range (p len a : Z) : bool := (p <=? a) && (a <? p + len).
Definition memset (p v len : Z) (m : Memory) : Memory :=
  λ a, if in_range p len a then v else m a.
Definition memmove (dst src len : Z) (m : Memory) : Memory :=
  λ a, if in_range dst len a then m (src + (a - dst)) else m a.
(** [memcpy] is only used on disjoint blocks, where it is [memmove]. *)
Definition memcpy (dst src len : Z) (m : Memory) : Memory := memmove dst src len m.
(** The [len] bytes at [p]. *)
Definition bytes_at (m : Memory) (p len : Z) : list Z := m <$> seqZ p len.

(** ** The platform *)

Inductive cudaMemcpyKind : Set :=
  cudaMemcpyHostToDevice | cudaMemcpyDeviceToHost | cudaMemcpyDeviceToDevice.
Definition cudaSuccess : Z := 0.
Definition INVALID_HANDLE_VALUE : Z := two64 - 1.

(** [cudaDeviceProp], the fields the sources read. *)
Record cudaDeviceProp : Set := mkDeviceProp {
  prop_name : string; prop_major : Z; prop_minor : Z; prop_multiProcessorCount : Z }.

Class Platform : Type := {
  World : Type;
  win32 : bool;
  has_cuda : bool;
  (* the address of the RuntimeImpl object, printed into local export handles *)
  this_address : Z;
  (* clocks *)
  system_clock_ms : M (World * Memory) Z;
  steady_clock_ticks : M (World * Memory) Z;
  (* MSVC C runtime and Win32: pointers and handles are integers, 0 is null *)
  aligned_malloc : Z → Z → M (World * Memory) Z;
  aligned_free : Z → M (World * Memory) unit;
  GlobalMemoryStatusEx : M (World * Memory) (option Z);
  CreateFileMappingA : Z → Z → Z → option string → M (World * Memory) Z;
  OpenFileMappingA : string → M (World * Memory) Z;
  MapViewOfFile : Z → Z → M (World * Memory) Z;
  UnmapViewOfFile : Z → M (World * Memory) unit;
  CloseHandle : Z → M (World * Memory) unit;
  CreateFileA_always : string → M (World * Memory) Z;
  CreateFileA_existing : string → M (World * Memory) Z;
  SetFilePointerEx : Z → Z → M (World * Memory) bool;
  SetEndOfFile : Z → M (World * Memory) bool;
  GetFileSizeEx : Z → M (World * Memory) (option Z);
  FlushViewOfFile : Z → Z → M (World * Memory) bool;
  FlushFileBuffers : Z → M (World * Memory) bool;
  GetTempPathA : M (World * Memory) (option string);
  getenv_TMPDIR : M (World * Memory) (option string);
  (* CUDA runtime: the first component is the cudaError_t *)
  cudaGetDeviceCount : M (World * Memory) (Z * Z);
  cudaGetDevice : M (World * Memory) (Z * Z);
  cudaSetDevice : Z → M (World * Memory) Z;
  cudaMalloc : Z → M (World * Memory) (Z * Z);
  cudaFree : Z → M (World * Memory) Z;
  cudaHostAlloc : Z → M (World * Memory) (Z * Z);
  cudaFreeHost : Z → M (World * Memory) Z;
  cudaMemset : Z → Z → Z → M (World * Memory) Z;
  cudaMemcpy : Z → Z → Z → cudaMemcpyKind → M (World * Memory) Z;
  cudaDeviceSynchronize : M (World * Memory) Z;
  cudaPointerGetAttributes : Z → M (World * Memory) Z;
  cudaMemGetInfo : M (World * Memory) (Z * Z * Z);
  cudaGetDeviceProperties : Z → M (World * Memory) (Z * cudaDeviceProp);
  cudaDriverGetVersion : M (World * Memory) (Z * Z);
  cudaGetErrorString : Z → string
}.

Section machine.
Context {P : Platform}.

(** The state outside the runtime object: the operating system, the memory and
    the function-local statics of the backends. *)
Record Machine : Type := mkMachine {
  os : World;
  mem : Memory;
  static_unique_counter : Z;        (* shared_memory_backend.cpp, unique_counter *)
  static_name_seed : option Z;      (* shared_memory_backend.cpp, make_unique_name *)
  static_file_counter : Z;          (* file_backend.cpp, file_counter *)
  static_cuda_ok : option bool      (* cuda_backend.cpp, cuda_support::available *)
}.

Definition syscall {A} (f : M (World * Memory) A) : M Machine A := λ m,
  let '(a, (w, h)) := f (os m, mem m) in
  (a, mkMachine w h (static_unique_counter m) (static_name_seed m)
        (static_file_counter m) (static_cuda_ok m)).

Definition set_mem (f : Memory → Memory) (m : Machine) : Machine :=
  mkMachine (os m) (f (mem m)) (static_unique_counter m) (static_name_seed m)
    (static_file_counter m) (static_cuda_ok m).
Definition set_unique_counter (n : Z) (m : Machine) : Machine :=
  mkMachine (os m) (mem m) n (static_name_seed m) (static_file_counter m) (static_cuda_ok m).
Definition set_name_seed (s : option Z) (m : Machine) : Machine :=
  mkMachine (os m) (mem m) (static_unique_counter m) s (static_file_counter m) (static_cuda_ok m).
Definition set_file_counter (n : Z) (m : Machine) : Machine :=
  mkMachine (os m) (mem m) (static_unique_counter m) (static_name_seed m) n (static_cuda_ok m).
Definition set_cuda_ok (b : option bool) (m : Machine) : Machine :=
  mkMachine (os m) (mem m) (static_unique_counter m) (static_name_seed m) (static_file_counter m) b.

End machine.

(** ** domain.hpp *)

(** The backend-owned object behind [NativeAllocation::state]: [SharedState] of
    the shared-memory backend or [FileState] of the file backend (Win32 layout).
    Ownership is unique wherever the runtime drops it, so the [shared_ptr] is
    the object itself; its destructor is run by the backends explicitly. *)
Inductive BackendState : Set :=
  | SharedState (size file_map view : Z) (name : string)
  | FileState (size : Z) (path : string) (file mapping view : Z).

Record NativeAllocation : Set := mkNativeAllocation {
  na_pointer : Z; na_host_map : Z; na_size : Z; na_committed : Z; na_alignment : Z;
  na_device : DeviceId; na_domain : MemoryDomain; na_backend : BackendId;
  na_state : option BackendState }.
(** [NativeAllocation{}]. *)
Definition NativeAllocation_default : NativeAllocation :=
  mkNativeAllocation 0 0 0 0 0 DeviceId_default MemoryDomain.HOST BackendId.HOST_MALLOC None.

(** What a defaulted move leaves behind: scalars are copied, only the
    [shared_ptr] is emptied. *)
Definition na_moved_from (a : NativeAllocation) : NativeAllocation :=
  mkNativeAllocation (na_pointer a) (na_host_map a) (na_size a) (na_committed a)
    (na_alignment a) (na_device a) (na_domain a) (na_backend a) None.

(** [a.host_map ? a.host_map : a.pointer]. *)
Definition na_base (a : NativeAllocation) : Z :=
  if na_host_map a =? 0 then na_pointer a else na_host_map a.

(** [offset > a.committed || len > a.committed - offset]: the bounds test every
    backend operation starts with. *)
Definition out_of_span (a : NativeAllocation) (offset len : Z) : bool :=
  (na_committed a <? offset) || (u64 (na_committed a - offset) <? len).

(** domain.hpp, [struct CapacityInfo]; the fields no backend fills stay 0. *)
Record CapacityInfo : Set := mkCapacityInfo {
  total_capacity : Z; ci_reserved : Z; ci_committed : Z; ci_allocated : Z; ci_pooled : Z;
  ci_idle_pooled : Z; ci_mapped : Z; ci_pending : Z; ci_reclaimable_pooled : Z;
  ci_free : Z; ci_peak : Z; ci_allocation_count : Z }.
Definition CapacityInfo_of (total free : Z) : CapacityInfo :=
  mkCapacityInfo total 0 0 0 0 0 0 0 0 free 0 0.

(** domain.hpp, [class IDomain]: the virtual methods, as a record of operations.
    [free] takes its argument by reference and resets it. *)
Module IDomain.
Section idomain.
Context {P : Platform}.
Record IDomain : Type := mkIDomain {
  backend : BackendId;
  domain : MemoryDomain;
  capabilities : Z;
  allocate : Z → Z → M Machine (Result NativeAllocation);
  free : NativeAllocation → M Machine (Result Z * NativeAllocation);
  zero : NativeAllocation → Z → Z → M Machine Status;
  synchronize : NativeAllocation → M Machine Status;
  flush : NativeAllocation → M Machine Status;
  verify : NativeAllocation → Z → Z → M Machine Status;
  map : NativeAllocation → AccessMode → M Machine (Result Z);
  unmap : NativeAllocation → Z → M Machine Status;
  copy_in_domain : NativeAllocation → Z → NativeAllocation → Z → Z → M Machine Status;
  capacity : M Machine (Result CapacityInfo);
  preferred_alignment : Result Z;
  default_alignment : Result Z;
  export_handle : NativeAllocation → M Machine (Result string);
  import_handle : string → Z → Z → M Machine (Result NativeAllocation);
  destroy : M Machine unit
}.
End idomain.
(** The default implementations of the two handle methods. *)
Definition export_handle_default `{P : Platform} (_ : NativeAllocation)
    : M Machine (Result string) :=
  ret (fail ErrorCode.unsupported_capability "domain: no external handle").
Definition import_handle_default `{P : Platform} (_ : string) (_ _ : Z)
    : M Machine (Result NativeAllocation) :=
  ret (fail ErrorCode.unsupported_capability "domain: cannot import handle").
End IDomain.
Abbreviation IDomain := IDomain.IDomain.

(** * Lemmas *)

Lemma in_range_spec p len a : in_range p len a = true ↔ p ≤ a < p + len.
Proof. unfold in_range. rewrite andb_true_iff, Z.leb_le, Z.ltb_lt. done. Qed.
Lemma in_range_false p len a : in_range p len a = false ↔ ¬ (p ≤ a < p + len).
Proof. rewrite <- in_range_spec. by destruct (in_range p len a). Qed.

Lemma memset_in p v len m a : p ≤ a < p + len → memset p v len m a = v.
Proof. intros. unfold memset. by rewrite (proj2 (in_range_spec p len a)). Qed.
Lemma memset_out p v len m a : ¬ (p ≤ a < p + len) → memset p v len m a = m a.
Proof. intros. unfold memset. by rewrite (proj2 (in_range_false p len a)). Qed.
Lemma memmove_in d s len m a : d ≤ a < d + len → memmove d s len m a = m (s + (a - d)).
Proof. intros. unfold memmove. by rewrite (proj2 (in_range_spec d len a)). Qed.
Lemma memmove_out d s len m a : ¬ (d ≤ a < d + len) → memmove d s len m a = m a.
Proof. intros. unfold memmove. by rewrite (proj2 (in_range_false d len a)). Qed.

Lemma bytes_at_ext m1 m2 p len :
  (∀ a, p ≤ a < p + len → m1 a = m2 a) → bytes_at m1 p len = bytes_at m2 p len.
Proof.
  intros Hm. unfold bytes_at. apply list_fmap_ext. intros i a Ha.
  apply lookup_seqZ in Ha. apply Hm. lia.
Qed.
Lemma bytes_at_shift m p q len :
  bytes_at m p len = (λ i, m (p + (i - q))) <$> seqZ q len.
Proof.
  unfold bytes_at, seqZ. rewrite <- !list_fmap_compose.
  apply list_fmap_ext. intros i x _. simpl. f_equal. lia.
Qed.
(** A move makes the destination block equal the old source block. *)
Lemma bytes_at_memmove m d s len : bytes_at (memmove d s len m) d len = bytes_at m s len.
Proof.
  rewrite (bytes_at_shift m s d). apply list_fmap_ext. intros i a Ha.
  apply lookup_seqZ in Ha. apply memmove_in. lia.
Qed.
Lemma bytes_at_memset m p v len : bytes_at (memset p v len m) p len = replicate (Z.to_nat len) v.
Proof.
  unfold bytes_at. apply list_eq. intros i. rewrite list_lookup_fmap.
  destruct (decide (i < Z.to_nat len)%nat) as [Hi|Hi].
  - rewrite lookup_replicate_2, lookup_seqZ_lt by lia. simpl. f_equal.
    apply memset_in. lia.
  - rewrite lookup_seqZ_ge by lia. symmetry. apply lookup_ge_None.
    rewrite length_replicate. lia.
Qed.

Lemma out_of_span_spec a o l :
  is_u64 (na_committed a) → is_u64 o → is_u64 l →
  out_of_span a o l = false ↔ o + l ≤ na_committed a.
Proof.
  intros Hc Ho Hl. unfold out_of_span, is_u64 in *. rewrite orb_false_iff, Z.ltb_ge.
  split.
  - intros [H1 H2]. rewrite u64_small in H2 by (unfold is_u64; lia).
    apply Z.ltb_ge in H2. lia.
  - intros H. split; [lia|]. rewrite u64_small by (unfold is_u64; lia). apply Z.ltb_ge. lia.
Qed.
