(* ===== verification/Resources.v ===== *)
(** What the library obtains from the operating system and must give back: heap
    blocks, kernel handles, mapped views, device and pinned memory.

    [OsResources] is the interface of the platform for ownership: [os_holds rs w]
    says that, in the operating-system state [w], the process holds exactly the
    resources [rs] (a multiset: there is no rule to forget one).  Its laws are the
    documented behaviour of each call.  [triple] is the specification format built
    on it: a computation that is given [pre] returns with [post], whatever else is
    held.  [guarded_os] puts resources aside and watches over their memory. *)
From S2P Require Import Prelude Types Platform.

Inductive Resource : Set :=
  | RHeap (p n : Z)      (* _aligned_malloc *)
  | RHandle (h : Z)      (* a file or a file mapping, until CloseHandle *)
  | RView (p n : Z)      (* MapViewOfFile, until UnmapViewOfFile *)
  | RDevice (p n : Z)    (* cudaMalloc *)
  | RPinned (p n : Z).   (* cudaHostAlloc *)

#[global] Instance Resource_eq_dec : EqDecision Resource.
Proof. solve_decision. Defined.

(** The address range of a resource that is memory. *)
Definition extent (r : Resource) : option (Z * Z) :=
  match r with
  | RHeap p n | RView p n | RDevice p n | RPinned p n => Some (p, n)
  | RHandle _ => None
  end.
Definition apart (r1 r2 : Resource) : Prop :=
  match extent r1, extent r2 with
  | Some (p, n), Some (q, k) => p + n ≤ q ∨ q + k ≤ p
  | _, _ => True
  end.

(** The addresses of a resource.  Private memory is written by the process alone (a
    view may have others of the same segment beside it). *)
Definition within (r : Resource) (a : Z) : Prop :=
  match extent r with Some (p, n) => p ≤ a < p + n | None => False end.
Definition private (r : Resource) : bool :=
  match r with RHeap _ _ | RDevice _ _ | RPinned _ _ => true | RHandle _ | RView _ _ => false end.
Definition undisturbed (rs : list Resource) (m m' : Memory) : Prop :=
  ∀ r a, r ∈ rs → private r = true → within r a → m' a = m a.
#[export] Instance undisturbed_preorder rs : PreOrder (undisturbed rs).
Proof.
  split; [by intros m r a _ _ _|]. intros m1 m2 m3 H1 H2 r a Hr Hp Ha.
  by rewrite (H2 r a), (H1 r a).
Qed.
Lemma undisturbed_fewer rs rs' m m' : rs ⊆ rs' → undisturbed rs' m m' → undisturbed rs m m'.
Proof. intros Hs Hu r a Hr. by apply Hu, Hs. Qed.
Lemma apart_within r1 r2 a : apart r1 r2 → within r1 a → within r2 a → False.
Proof.
  unfold apart, within. destruct (extent r1) as [[p n]|], (extent r2) as [[q k]|]; try done. lia.
Qed.

(** The value of an acquiring call, as the resource it stands for: a null pointer or
    handle is a failure. *)
Definition unless_null (mk : Z → Resource) (p : Z) : list Resource :=
  if p =? 0 then [] else [mk p].
Definition unless_invalid (h : Z) : list Resource :=
  if h =? INVALID_HANDLE_VALUE then [] else [RHandle h].
Definition if_success (mk : Z → Resource) (r : Z * Z) : list Resource :=
  if r.1 =? cudaSuccess then [mk r.2] else [].

(** ** Specifications *)

Section triples.
Context {S : Type} (H : list Resource → S → Prop).

(** From any state where [pre] is held beside a frame, [m] returns a value that
    satisfies [Φ], holding [post] of it beside the same frame. *)
Definition triple {A} (pre : list Resource) (m : M S A) (Φ : A → Prop)
    (post : A → list Resource) : Prop :=
  ∀ fr s, H (pre ++ fr) s → Φ (m s).1 ∧ H (post (m s).1 ++ fr) (m s).2.

(** Holding is not affected. *)
Definition inert_on (s s' : S) : Prop := ∀ rs, H rs s → H rs s'.
#[export] Instance inert_on_preorder : PreOrder inert_on.
Proof. split; [by intros s rs|]. intros s1 s2 s3 H12 H23 rs Hrs. by apply H23, H12. Qed.

Lemma triple_ret {A} (a : A) pre (Φ : A → Prop) post :
  Φ a → pre = post a → triple pre (ret a) Φ post.
Proof. by intros Ha -> fr s Hs. Qed.
Lemma triple_bind {A B} pre (m : M S A) Φ mid (k : A → M S B) Ψ post :
  triple pre m Φ mid → (∀ a, Φ a → triple (mid a) (k a) Ψ post) → triple pre (bind m k) Ψ post.
Proof.
  intros Hm Hk fr s Hs. rewrite bind_run. destruct (Hm fr s Hs) as [Ha Hs'].
  exact (Hk _ Ha fr _ Hs').
Qed.
Lemma triple_inert {A} pre (m : M S A) : preserves inert_on m → triple pre m (λ _, True) (λ _, pre).
Proof. intros Hm fr s Hs. split; [done|]. by apply Hm. Qed.
(** A computation in front that holds nothing and gives nothing back. *)
Lemma triple_inert_bind {A B} pre (m : M S A) (k : A → M S B) Ψ post :
  preserves inert_on m → (∀ a, triple pre (k a) Ψ post) → triple pre (bind m k) Ψ post.
Proof. intros Hm Hk. eapply triple_bind; [by apply triple_inert|]. intros a _. apply Hk. Qed.

Context `{!Proper ((≡ₚ) ==> (=) ==> iff) H}.

Lemma triple_frame {A} pre (m : M S A) Φ post fr :
  triple pre m Φ post → triple (pre ++ fr) m Φ (λ a, post a ++ fr).
Proof.
  intros Hm fr' s Hs. rewrite <- app_assoc in Hs. destruct (Hm _ s Hs) as [Ha Hs'].
  split; [done|]. by rewrite <- app_assoc.
Qed.
(** One step of a computation, with what it does not need set aside. *)
Lemma triple_step {A B} pre fr (m : M S A) Φ mid (k : A → M S B) Ψ post :
  triple pre m Φ mid → (∀ a, Φ a → triple (mid a ++ fr) (k a) Ψ post) →
  triple (pre ++ fr) (bind m k) Ψ post.
Proof. intros Hm Hk. eapply triple_bind; [by apply triple_frame|exact Hk]. Qed.
Lemma triple_perm {A} pre pre' (m : M S A) Φ post :
  pre ≡ₚ pre' → triple pre' m Φ post → triple pre m Φ post.
Proof. intros Hp Hm fr s Hs. apply Hm. by rewrite <- Hp. Qed.
Lemma triple_conseq {A} pre (m : M S A) (Φ Φ' : A → Prop) post post' :
  triple pre m Φ post → (∀ a, Φ a → Φ' a ∧ post a ≡ₚ post' a) → triple pre m Φ' post'.
Proof.
  intros Hm Hpost fr s Hs. destruct (Hm fr s Hs) as [Ha Hs']. destruct (Hpost _ Ha) as [Ha' Hp].
  split; [done|]. by rewrite <- Hp.
Qed.
End triples.

(** ** The operating system *)

(** The calls that neither obtain nor give back a resource. *)
Inductive inert_call `{P : Platform} : ∀ A : Type, M (World * Memory) A → Prop :=
  | inert_clock : inert_call Z system_clock_ms
  | inert_ticks : inert_call Z steady_clock_ticks
  | inert_memory_status : inert_call (option Z) GlobalMemoryStatusEx
  | inert_seek h n : inert_call bool (SetFilePointerEx h n)
  | inert_eof h : inert_call bool (SetEndOfFile h)
  | inert_file_size h : inert_call (option Z) (GetFileSizeEx h)
  | inert_flush_view p n : inert_call bool (FlushViewOfFile p n)
  | inert_flush_file h : inert_call bool (FlushFileBuffers h)
  | inert_temp_path : inert_call (option string) GetTempPathA
  | inert_tmpdir : inert_call (option string) getenv_TMPDIR
  | inert_device_count : inert_call (Z * Z) cudaGetDeviceCount
  | inert_get_device : inert_call (Z * Z) cudaGetDevice
  | inert_set_device d : inert_call Z (cudaSetDevice d)
  | inert_sync : inert_call Z cudaDeviceSynchronize
  | inert_pointer_attributes p : inert_call Z (cudaPointerGetAttributes p)
  | inert_mem_info : inert_call (Z * Z * Z) cudaMemGetInfo
  | inert_properties d : inert_call (Z * cudaDeviceProp) (cudaGetDeviceProperties d)
  | inert_driver_version : inert_call (Z * Z) cudaDriverGetVersion.

(** The calls that write no memory but their own, with what each is given. *)
Inductive quiet_call `{P : Platform} : list Resource → ∀ A : Type, M (World * Memory) A → Prop :=
  | quiet_malloc n al : quiet_call [] Z (aligned_malloc n al)
  | quiet_create_mapping f hi lo nm : quiet_call [] Z (CreateFileMappingA f hi lo nm)
  | quiet_open_mapping nm : quiet_call [] Z (OpenFileMappingA nm)
  | quiet_map_view h n : quiet_call [] Z (MapViewOfFile h n)
  | quiet_create_file nm : quiet_call [] Z (CreateFileA_always nm)
  | quiet_open_file nm : quiet_call [] Z (CreateFileA_existing nm)
  | quiet_cuda_malloc n : quiet_call [] (Z * Z) (cudaMalloc n)
  | quiet_cuda_host_alloc n : quiet_call [] (Z * Z) (cudaHostAlloc n)
  | quiet_free p n : quiet_call [RHeap p n] unit (aligned_free p)
  | quiet_close h : quiet_call [RHandle h] unit (CloseHandle h)
  | quiet_unmap p n : quiet_call [RView p n] unit (UnmapViewOfFile p)
  | quiet_cuda_free p n : quiet_call [RDevice p n] Z (cudaFree p)
  | quiet_cuda_free_host p n : quiet_call [RPinned p n] Z (cudaFreeHost p)
  | quiet_inert A f : inert_call A f → quiet_call [] A f.

Class OsResources (P : Platform) : Type := {
  os_holds : list Resource → World * Memory → Prop;
  os_holds_proper :: Proper ((≡ₚ) ==> (=) ==> iff) os_holds;
  (* the contents of what is held carry no ownership, nor do those of the memory that
     the application may write; held memory does not overlap *)
  os_writable : Z → Prop;
  os_memory rs w h h' :
    (∀ a, h' a ≠ h a → os_writable a ∨ ∃ r, r ∈ rs ∧ within r a) →
    os_holds rs (w, h) → os_holds rs (w, h');
  os_cuda_memset p v n rs w :
    (∀ a, p ≤ a < p + n → os_writable a ∨ ∃ r, r ∈ rs ∧ within r a) → os_holds rs w →
    let w' := (cudaMemset p v n w).2 in os_holds rs w' ∧ ∀ a, ¬ (p ≤ a < p + n) → w'.2 a = w.2 a;
  os_cuda_memcpy d s n k rs w :
    (∀ a, d ≤ a < d + n → os_writable a ∨ ∃ r, r ∈ rs ∧ within r a) → os_holds rs w →
    let w' := (cudaMemcpy d s n k w).2 in os_holds rs w' ∧ ∀ a, ¬ (d ≤ a < d + n) → w'.2 a = w.2 a;
  os_apart r1 r2 rs w : os_holds (r1 :: r2 :: rs) w → apart r1 r2;
  os_inert A f : inert_call A f → preserves (inert_on os_holds) f;
  os_quiet pre A f fr w : quiet_call pre A f → os_holds (pre ++ fr) w → undisturbed fr w.2 (f w).2.2;
  (* obtaining *)
  os_malloc n al : triple os_holds [] (aligned_malloc n al) (λ _, True)
    (unless_null (λ p, RHeap p n));
  os_create_mapping f hi lo nm : triple os_holds [] (CreateFileMappingA f hi lo nm) (λ _, True)
    (unless_null RHandle);
  os_open_mapping nm : triple os_holds [] (OpenFileMappingA nm) (λ _, True) (unless_null RHandle);
  os_map_view h n : triple os_holds [] (MapViewOfFile h n) (λ _, True)
    (unless_null (λ p, RView p n));
  os_create_file nm : triple os_holds [] (CreateFileA_always nm) (λ h, h ≠ 0) unless_invalid;
  os_open_file nm : triple os_holds [] (CreateFileA_existing nm) (λ h, h ≠ 0) unless_invalid;
  os_cuda_malloc n : triple os_holds [] (cudaMalloc n) (λ r, r.1 = cudaSuccess → r.2 ≠ 0)
    (if_success (λ p, RDevice p n));
  os_cuda_host_alloc n : triple os_holds [] (cudaHostAlloc n) (λ r, r.1 = cudaSuccess → r.2 ≠ 0)
    (if_success (λ p, RPinned p n));
  (* giving back; an error code of cudaFree reports an earlier asynchronous failure *)
  os_free p n : triple os_holds [RHeap p n] (aligned_free p) (λ _, True) (λ _, []);
  os_close h : triple os_holds [RHandle h] (CloseHandle h) (λ _, True) (λ _, []);
  os_unmap p n : triple os_holds [RView p n] (UnmapViewOfFile p) (λ _, True) (λ _, []);
  os_cuda_free p n : triple os_holds [RDevice p n] (cudaFree p) (λ _, True) (λ _, []);
  os_cuda_free_host p n : triple os_holds [RPinned p n] (cudaFreeHost p) (λ _, True) (λ _, [])
}.

(** Nothing is guarded: no write to memory takes a resource from the process. *)
Class Unguarded {P : Platform} (O : OsResources P) : Prop := all_writable : ∀ a, os_writable a.

(** ** The machine *)

Section machine.
Context {P : Platform} {O : OsResources P}.

Definition m_holds (rs : list Resource) (m : Machine) : Prop := os_holds rs (os m, mem m).
#[export] Instance m_holds_proper : Proper ((≡ₚ) ==> (=) ==> iff) m_holds.
Proof. intros rs rs' Hp m m' <-. unfold m_holds. by rewrite Hp. Qed.
Lemma m_holds_perm rs rs' m : rs ≡ₚ rs' → m_holds rs m → m_holds rs' m.
Proof. by intros ->. Qed.

Lemma syscall_run {A} (f : M (World * Memory) A) m :
  (syscall f m).1 = (f (os m, mem m)).1
  ∧ (os (syscall f m).2, mem (syscall f m).2) = (f (os m, mem m)).2.
Proof. unfold syscall. by destruct (f (os m, mem m)) as [a [w h]]. Qed.
Lemma triple_syscall {A} pre (f : M (World * Memory) A) Φ post :
  triple os_holds pre f Φ post → triple m_holds pre (syscall f) Φ post.
Proof.
  intros Hf fr m Hm. destruct (Hf fr _ Hm) as [Ha Hs]. destruct (syscall_run f m) as [-> Hst].
  split; [done|]. unfold m_holds. by rewrite Hst.
Qed.
Lemma inert_syscall A f : inert_call A f → preserves (inert_on m_holds) (syscall f).
Proof.
  intros Hf m rs Hm. destruct (syscall_run f m) as [_ Hst]. unfold m_holds. rewrite Hst.
  by apply (os_inert A f Hf).
Qed.

(** *** Writing *)

Definition may_write (rs : list Resource) (p n : Z) : Prop :=
  ∀ a, p ≤ a < p + n → os_writable a ∨ ∃ r, r ∈ rs ∧ within r a.
Lemma may_write_extent r rs p n q k :
  r ∈ rs → extent r = Some (p, n) → p ≤ q → q + k ≤ p + n → may_write rs q k.
Proof. intros Hr He Hp Hn a Ha. right. exists r. unfold within. rewrite He. split; [done|lia]. Qed.
Lemma held_apart r r' rs m : m_holds (r :: rs) m → r' ∈ rs → apart r r'.
Proof.
  intros Hm Hr. apply elem_of_Permutation in Hr as [rest Hp]. apply (os_apart r r' rest (os m, mem m)).
  revert Hm. apply m_holds_perm. by rewrite Hp.
Qed.
(** A computation that keeps what is held and writes to [[p, p + n)] alone. *)
Definition writes_to {A} (f : M Machine A) (p n : Z) : Prop :=
  ∀ rs m, may_write rs p n → m_holds rs m → m_holds rs (f m).2.
(** Writes to the memory of a resource in hand. *)
Lemma triple_writes {A} (f : M Machine A) r rest p n q k :
  writes_to f q k → extent r = Some (p, n) → p ≤ q → q + k ≤ p + n →
  triple m_holds (r :: rest) f (λ _, True) (λ _, r :: rest).
Proof.
  intros Hf Hr Hp Hk fr m Hm. split; [done|]. apply Hf; [|done].
  apply (may_write_extent r _ p n); [by left|done..].
Qed.
Lemma writes_free {A} (f : M Machine A) p n :
  writes_to f p n → (∀ a, p ≤ a < p + n → os_writable a) → preserves (inert_on m_holds) f.
Proof. intros Hf Hw m rs. apply Hf. intros a Ha. left. by apply Hw. Qed.
Lemma writes_inert {A} (f : M Machine A) p n : preserves (inert_on m_holds) f → writes_to f p n.
Proof. intros Hf rs m _. apply Hf. Qed.
Lemma writes_bind {A B} (f : M Machine A) (k : A → M Machine B) p n :
  writes_to f p n → (∀ a, writes_to (k a) p n) → writes_to (bind f k) p n.
Proof. intros Hf Hk rs m Hw Hm. rewrite bind_run. apply Hk; [done|]. by apply Hf. Qed.
Lemma writes_set_mem g p n :
  (∀ h a, ¬ (p ≤ a < p + n) → g h a = h a) → writes_to (modify (set_mem g)) p n.
Proof.
  intros Hg rs m Hw. apply os_memory. intros a Ha. apply Hw.
  destruct (decide (p ≤ a < p + n)); [done|]. by destruct Ha; apply Hg.
Qed.
Lemma writes_cuda_memset p v n : writes_to (syscall (cudaMemset p v n)) p n.
Proof.
  intros rs m Hw Hm. destruct (syscall_run (cudaMemset p v n) m) as [_ Hst]. unfold m_holds.
  rewrite Hst. by apply (os_cuda_memset _ _ _ _ _ Hw Hm).
Qed.
Lemma writes_cuda_memcpy d s n k : writes_to (syscall (cudaMemcpy d s n k)) d n.
Proof.
  intros rs m Hw Hm. destruct (syscall_run (cudaMemcpy d s n k) m) as [_ Hst]. unfold m_holds.
  rewrite Hst. by apply (os_cuda_memcpy _ _ _ _ _ _ Hw Hm).
Qed.
(** The application writes to its own memory. *)
Lemma inert_set_mem `{!Unguarded O} f : preserves (inert_on m_holds) (modify (set_mem f)).
Proof. intros m rs. apply os_memory. intros a _. left. apply all_writable. Qed.
(** Writing a static variable of a backend. *)
Lemma inert_static f :
  (∀ m, os (f m) = os m ∧ mem (f m) = mem m) → preserves (inert_on m_holds) (modify f).
Proof. intros Hf m rs Hm. unfold m_holds. simpl. by rewrite (proj1 (Hf m)), (proj2 (Hf m)). Qed.
End machine.

#[export] Hint Resolve inert_syscall : frames.
#[export] Hint Extern 1 (preserves (inert_on m_holds) (modify _)) =>
  apply inert_static; done : frames.
#[export] Hint Constructors inert_call : frames.

(** ** A guard *)

(** The same system, seen by a computation that is not given [g]: [g] is held aside,
    and the private memory of it stays what it was in [m0].  It keeps every law, so
    what is proved of a computation from the laws holds beside any such frame. *)
Section guard.
Context {P : Platform} {O : OsResources P} (g : list Resource) (m0 : Memory).

Definition guarded_holds (rs : list Resource) (w : World * Memory) : Prop :=
  os_holds (g ++ rs) w ∧ undisturbed g m0 w.2.
#[local] Instance guarded_holds_proper : Proper ((≡ₚ) ==> (=) ==> iff) guarded_holds.
Proof. intros rs rs' Hp w w' <-. unfold guarded_holds. by rewrite Hp. Qed.
Definition guarded_writable (a : Z) : Prop := os_writable a ∧ ∀ r, r ∈ g → ¬ within r a.

Lemma guarded_triple {A} pre (f : M (World * Memory) A) Φ post :
  quiet_call pre A f → triple os_holds pre f Φ post → triple guarded_holds pre f Φ post.
Proof.
  intros Hq Hf fr w [Hw Hu]. rewrite Permutation_app_swap_app in Hw. destruct (Hf _ w Hw) as [Ha Hs].
  split; [done|]. unfold guarded_holds. rewrite Permutation_app_swap_app. split; [done|].
  etrans; [exact Hu|]. eapply undisturbed_fewer; [|by eapply os_quiet]. set_solver.
Qed.
Lemma guarded_may_write rs a :
  (guarded_writable a ∨ ∃ r, r ∈ rs ∧ within r a) → os_writable a ∨ ∃ r, r ∈ g ++ rs ∧ within r a.
Proof. intros [[Ha _]|(r & Hr & Ha)]; [by left|]. right. exists r. split; [set_solver|done]. Qed.
(** What may be written is not guarded. *)
Lemma guarded_apart rs w r a :
  guarded_holds rs w → (guarded_writable a ∨ ∃ r, r ∈ rs ∧ within r a) → r ∈ g → ¬ within r a.
Proof.
  intros [Hw _] [[_ Hn]|(r' & Hr' & Ha')] Hr Ha; [by eapply Hn|].
  apply elem_of_Permutation in Hr as [g' Hg]. apply elem_of_Permutation in Hr' as [rs' Hrs].
  eapply (apart_within r r' a); [|done..]. apply (os_apart r r' (g' ++ rs') w).
  rewrite Hg, Hrs in Hw. cbn [app] in Hw. by rewrite <- Permutation_middle in Hw.
Qed.
Lemma guarded_write rs w w' :
  (∀ a, w'.2 a ≠ w.2 a → guarded_writable a ∨ ∃ r, r ∈ rs ∧ within r a) →
  guarded_holds rs w → os_holds (g ++ rs) w' → guarded_holds rs w'.
Proof.
  intros Hch Hw Hw'. split; [done|]. etrans; [apply Hw|]. intros r a Hr _ Ha.
  destruct (decide (w'.2 a = w.2 a)) as [|Hne]; [done|]. exfalso.
  by eapply (guarded_apart rs w r a Hw); [apply Hch|..].
Qed.
Lemma guarded_region rs w w' p n :
  (∀ a, p ≤ a < p + n → guarded_writable a ∨ ∃ r, r ∈ rs ∧ within r a) → guarded_holds rs w →
  os_holds (g ++ rs) w' ∧ (∀ a, ¬ (p ≤ a < p + n) → w'.2 a = w.2 a) →
  guarded_holds rs w' ∧ ∀ a, ¬ (p ≤ a < p + n) → w'.2 a = w.2 a.
Proof.
  intros Hw Hh [H1 H2]. split; [|done]. eapply guarded_write; [|done..]. intros a Ha. apply Hw.
  destruct (decide (p ≤ a < p + n)); [done|]. by rewrite H2 in Ha.
Qed.

Definition guarded_os : OsResources P.
Proof.
  refine {| os_holds := guarded_holds; os_writable := guarded_writable |};
    try (intros; apply guarded_triple; [constructor|]).
  - intros rs w h h' Hch Hw. apply (guarded_write rs (w, h)); [exact Hch|exact Hw|].
    eapply os_memory; [|apply Hw]. intros a Ha. by apply guarded_may_write, Hch.
  - intros p v n rs w Hw Hh. apply (guarded_region rs w _ p n Hw Hh), os_cuda_memset; [|apply Hh].
    intros a Ha. by apply guarded_may_write, Hw.
  - intros d s n k rs w Hw Hh. apply (guarded_region rs w _ d n Hw Hh), os_cuda_memcpy; [|apply Hh].
    intros a Ha. by apply guarded_may_write, Hw.
  - intros r1 r2 rs w [Hw _]. apply (os_apart r1 r2 (g ++ rs) w). revert Hw.
    by rewrite <- 2!Permutation_middle.
  - intros A f Hf w rs Hw. eapply (guarded_triple [] f (λ _, True) (λ _, [])); [by apply quiet_inert| |exact Hw].
    by apply triple_inert, os_inert.
  - intros pre A f fr w Hq [Hw _]. rewrite Permutation_app_swap_app in Hw.
    eapply undisturbed_fewer; [|by eapply os_quiet]. set_solver.
  - apply os_malloc.
  - apply os_create_mapping.
  - apply os_open_mapping.
  - apply os_map_view.
  - apply os_create_file.
  - apply os_open_file.
  - apply os_cuda_malloc.
  - apply os_cuda_host_alloc.
  - apply os_free.
  - apply os_close.
  - apply os_unmap.
  - apply os_cuda_free.
  - apply os_cuda_free_host.
Defined.
End guard.
