(* ===== verification/HostBackend.v ===== *)
(** backends/host_backend.hpp and src/backends/host_backend.cpp: the aligned
    host-memory domain, as an [IDomain]. *)
From S2P Require Import Prelude Types Platform.

Section host.
Context {P : Platform}.

(** [class HostDomain]: the data members. *)
Record HostDomain : Type := mkHostDomain {
  host_cap_hint : Z; host_total_bytes : Z; host_caps : Z }.

Definition system_physical_bytes : M Machine Z :=
  if win32 then
    let! ms := syscall GlobalMemoryStatusEx in
    match ms with Some total => ret total | None => ret 0 end
  else ret 0.

Definition host_init_capabilities : Z :=
  Capabilities.of_list [Capability.HOST_READABLE; Capability.HOST_WRITABLE;
    Capability.CPU_MAPPABLE; Capability.PAGEABLE; Capability.EXPORTABLE;
    Capability.IMPORTABLE; Capability.PERSISTENT; Capability.COHERENT;
    Capability.SUPPORTS_SUBALLOCATION].

(** The constructor; 1 TiB when neither a hint nor the system gives a size. *)
Definition HostDomain_new (capacity_hint : Z) : M Machine HostDomain :=
  let! total := (if capacity_hint =? 0 then system_physical_bytes else ret capacity_hint) in
  let total := if total =? 0 then Z.shiftl 1 40 else total in
  ret (mkHostDomain capacity_hint total host_init_capabilities).

(** [sizeof] of a pointer on the 64-bit targets. *)
Definition sizeof_ptr : Z := 8.

Definition host_allocate (bytes alignment : Z) : M Machine (Result NativeAllocation) :=
  if bytes =? 0 then ret (fail ErrorCode.invalid_argument "host allocation: zero size") else
  let alignment := if alignment <? sizeof_ptr then sizeof_ptr else alignment in
  if negb (Z.land alignment (u64 (alignment - 1)) =? 0)
  then ret (fail ErrorCode.alignment_error "host allocation: alignment not power-of-two") else
  let! p := syscall (aligned_malloc bytes alignment) in
  if p =? 0
  then ret (fail ErrorCode.out_of_capacity "host allocation: _aligned_malloc failed") else
  ret (Ok (mkNativeAllocation p p bytes bytes alignment
             (mkDeviceId BackendId.HOST_MALLOC (-1)) MemoryDomain.HOST
             BackendId.HOST_MALLOC None)).

Definition host_free (a : NativeAllocation) : M Machine (Result Z * NativeAllocation) :=
  if na_pointer a =? 0
  then ret (fail ErrorCode.invalid_argument "host free: null pointer", a) else
  syscall (aligned_free (na_pointer a)) ;;;
  ret (Ok (na_committed a), NativeAllocation_default).

Definition host_zero (a : NativeAllocation) (offset len : Z) : M Machine Status :=
  if out_of_span a offset len
  then ret (fail ErrorCode.bounds_error "host zero: out of bounds") else
  modify (set_mem (memset (na_base a + offset) 0 len)) ;;;
  ret ok_status.

Definition host_synchronize (_ : NativeAllocation) : M Machine Status := ret ok_status.
Definition host_flush (_ : NativeAllocation) : M Machine Status := ret ok_status.

Definition host_verify (a : NativeAllocation) (offset len : Z) : M Machine Status :=
  if (na_pointer a =? 0) && (na_host_map a =? 0)
  then ret (fail ErrorCode.state_invalid "host verify: no backing")
  else if out_of_span a offset len
  then ret (fail ErrorCode.bounds_error "host verify: out of bounds")
  else (* one volatile read of the first byte; no effect *) ret ok_status.

Definition host_map (a : NativeAllocation) (_ : AccessMode) : M Machine (Result Z) :=
  ret (Ok (na_base a)).
Definition host_unmap (_ : NativeAllocation) (_ : Z) : M Machine Status := ret ok_status.

Definition host_copy_in_domain (dst : NativeAllocation) (dst_off : Z)
    (src : NativeAllocation) (src_off len : Z) : M Machine Status :=
  if out_of_span dst dst_off len
  then ret (fail ErrorCode.bounds_error "host copy_in_domain: dst out of bounds")
  else if out_of_span src src_off len
  then ret (fail ErrorCode.bounds_error "host copy_in_domain: src out of bounds") else
  modify (set_mem (memmove (na_base dst + dst_off) (na_base src + src_off) len)) ;;;
  ret ok_status.

Definition host_capacity (h : HostDomain) : M Machine (Result CapacityInfo) :=
  ret (Ok (CapacityInfo_of (host_total_bytes h) 0)).
Definition host_preferred_alignment : Result Z := Ok 64.
Definition host_default_alignment : Result Z := Ok sizeof_ptr.

(** The object seen through its [IDomain] interface. *)
Definition host_domain (h : HostDomain) : IDomain :=
  IDomain.mkIDomain BackendId.HOST_MALLOC MemoryDomain.HOST (host_caps h)
    host_allocate host_free host_zero host_synchronize host_flush host_verify host_map
    host_unmap host_copy_in_domain (host_capacity h) host_preferred_alignment
    host_default_alignment IDomain.export_handle_default IDomain.import_handle_default
    (ret tt).

End host.
