(* ===== verification/SharedBackend.v ===== *)
(** backends/shared_memory_backend.hpp and src/backends/shared_memory_backend.cpp:
    the interprocess shared-memory domain.  On Win32 it is built on file-mapping
    objects; every other build compiles the stubs that report the domain as
    unsupported. *)
From Stdlib Require Import Ascii.
From S2P Require Import Prelude Types Platform.

(** [s.find_first_of("\\/") != npos]. *)
Fixpoint has_separator (s : string) : bool :=
  match s with
  | EmptyString => false
  | String c s' => Ascii.eqb c "\"%char || Ascii.eqb c "/"%char || has_separator s'
  end.

Section shared.
Context {P : Platform}.

(** [class SharedMemoryDomain]: the data members. *)
Record SharedMemoryDomain : Type := mkSharedMemoryDomain { shared_cap_ : Z; shared_caps : Z }.

Definition shared_init : Z :=
  Capabilities.of_list [Capability.HOST_READABLE; Capability.HOST_WRITABLE;
    Capability.CPU_MAPPABLE; Capability.EXPORTABLE; Capability.IMPORTABLE;
    Capability.SHAREABLE_ACROSS_PROCESS; Capability.COHERENT].
Definition SharedMemoryDomain_new (cap : Z) : SharedMemoryDomain :=
  mkSharedMemoryDomain cap shared_init.

(** [unique_counter()]: a function-local atomic, post-incremented. *)
Definition unique_counter : M Machine Z :=
  let! c := gets static_unique_counter in
  modify (set_unique_counter (u64 (c + 1))) ;;; ret c.

(** [make_unique_name()]: the seed is read from the steady clock once. *)
Definition make_unique_name : M Machine string :=
  let! s := gets static_name_seed in
  let! seed := (match s with
                | Some seed => ret seed
                | None => let! t := syscall steady_clock_ticks in
                          modify (set_name_seed (Some (u64 t))) ;;; ret (u64 t)
                end) in
  let! c1 := unique_counter in
  let! c2 := unique_counter in
  ret ("UnifiedBuffer_" +:+ pretty (Z.lxor seed c1) +:+ "_" +:+ pretty c2)%string.

(** [SharedState::~SharedState]. *)
Definition shared_state_dtor (st : option BackendState) : M Machine unit :=
  match st with
  | Some (SharedState _ file_map view _) =>
      (if view =? 0 then ret tt else syscall (UnmapViewOfFile view)) ;;;
      (if file_map =? 0 then ret tt else syscall (CloseHandle file_map))
  | _ => ret tt
  end.

Definition shared_allocate (bytes alignment : Z) : M Machine (Result NativeAllocation) :=
  if negb win32 then
    ret (fail ErrorCode.unsupported_domain "shared memory: POSIX backend not compiled on this host")
  else if bytes =? 0 then ret (fail ErrorCode.invalid_argument "shared alloc: zero size") else
  let! name := make_unique_name in
  let! h := syscall (CreateFileMappingA INVALID_HANDLE_VALUE 0 (u32 bytes) (Some name)) in
  if h =? 0
  then ret (fail ErrorCode.out_of_capacity "shared alloc: CreateFileMapping failed") else
  let! view := syscall (MapViewOfFile h bytes) in
  if view =? 0 then
    syscall (CloseHandle h) ;;;
    ret (fail ErrorCode.mapping_failure "shared alloc: MapViewOfFile failed")
  else
  ret (Ok (mkNativeAllocation view view bytes bytes (if alignment =? 0 then 64 else alignment)
             (mkDeviceId BackendId.WIN_SHARED_FILE (-1)) MemoryDomain.SHARED_HOST
             BackendId.WIN_SHARED_FILE (Some (SharedState bytes h view name)))).

(** The non-Win32 [free] resets its argument before it reads the size back. *)
Definition shared_free (a : NativeAllocation) : M Machine (Result Z * NativeAllocation) :=
  if negb win32 then ret (Ok (na_committed NativeAllocation_default), NativeAllocation_default)
  else if na_pointer a =? 0
  then ret (fail ErrorCode.invalid_argument "shared free: null", a) else
  shared_state_dtor (na_state a) ;;;
  ret (Ok (na_committed a), NativeAllocation_default).

Definition shared_export_handle (a : NativeAllocation) : M Machine (Result string) :=
  if negb win32
  then ret (fail ErrorCode.unsupported_capability "shared export: unsupported") else
  match na_state a with
  | Some (SharedState _ _ _ name) => ret (Ok name)
  | _ => ret (fail ErrorCode.state_invalid "shared export: no state")
  end.

Definition shared_import_handle (name : string) (size alignment : Z)
    : M Machine (Result NativeAllocation) :=
  if negb win32
  then ret (fail ErrorCode.unsupported_capability "shared import: unsupported")
  else if String.eqb name ""
  then ret (fail ErrorCode.import_failure "shared import: empty name")
  else if 512 <? Z.of_nat (String.length name)
  then ret (fail ErrorCode.import_failure "shared import: name too long")
  else if has_separator name
  then ret (fail ErrorCode.import_failure "shared import: illegal name") else
  let! h := syscall (OpenFileMappingA name) in
  if h =? 0
  then ret (fail ErrorCode.import_failure "shared import: OpenFileMapping failed") else
  let! view := syscall (MapViewOfFile h size) in
  if view =? 0 then
    syscall (CloseHandle h) ;;;
    ret (fail ErrorCode.mapping_failure "shared import: MapViewOfFile failed")
  else
  ret (Ok (mkNativeAllocation view view size size (if alignment =? 0 then 64 else alignment)
             DeviceId_default MemoryDomain.SHARED_HOST BackendId.WIN_SHARED_FILE
             (Some (SharedState size h view name)))).

Definition shared_zero (a : NativeAllocation) (offset len : Z) : M Machine Status :=
  if out_of_span a offset len
  then ret (fail ErrorCode.bounds_error "shared zero: out of bounds") else
  modify (set_mem (memset (na_host_map a + offset) 0 len)) ;;;
  ret ok_status.
Definition shared_synchronize (_ : NativeAllocation) : M Machine Status := ret ok_status.
Definition shared_flush (_ : NativeAllocation) : M Machine Status := ret ok_status.
Definition shared_verify (a : NativeAllocation) (offset len : Z) : M Machine Status :=
  if na_pointer a =? 0
  then ret (fail ErrorCode.state_invalid "shared verify: no backing")
  else if out_of_span a offset len
  then ret (fail ErrorCode.bounds_error "shared verify: out of bounds")
  else ret ok_status.
Definition shared_map (a : NativeAllocation) (_ : AccessMode) : M Machine (Result Z) :=
  ret (Ok (na_host_map a)).
Definition shared_unmap (_ : NativeAllocation) (_ : Z) : M Machine Status := ret ok_status.
Definition shared_copy_in_domain (dst : NativeAllocation) (dst_off : Z)
    (src : NativeAllocation) (src_off len : Z) : M Machine Status :=
  if out_of_span dst dst_off len
  then ret (fail ErrorCode.bounds_error "shared copy: dst oob")
  else if out_of_span src src_off len
  then ret (fail ErrorCode.bounds_error "shared copy: src oob") else
  modify (set_mem (memmove (na_host_map dst + dst_off) (na_host_map src + src_off) len)) ;;;
  ret ok_status.
Definition shared_capacity (s : SharedMemoryDomain) : M Machine (Result CapacityInfo) :=
  ret (Ok (CapacityInfo_of (shared_cap_ s) 0)).
Definition shared_preferred_alignment : Result Z := Ok 4096.
Definition shared_default_alignment : Result Z := Ok 64.

Definition shared_domain (s : SharedMemoryDomain) : IDomain :=
  IDomain.mkIDomain BackendId.WIN_SHARED_FILE MemoryDomain.SHARED_HOST (shared_caps s)
    shared_allocate shared_free shared_zero shared_synchronize shared_flush shared_verify
    shared_map shared_unmap shared_copy_in_domain (shared_capacity s)
    shared_preferred_alignment shared_default_alignment shared_export_handle
    shared_import_handle (ret tt).

End shared.
