(* ===== verification/FileBackend.v ===== *)
(** backends/file_backend.hpp and src/backends/file_backend.cpp: the file-backed
    mapped domain.  As for shared memory, the non-Win32 build compiles stubs. *)
From S2P Require Import Prelude Types Platform.

(** [s.find(sub) != npos]. *)
Definition str_contains (sub s : string) : bool :=
  match String.index 0 sub s with Some _ => true | None => false end.

(** [path.rfind(base, 0) == 0]. *)
Definition path_is_beneath (base path : string) : bool := String.prefix base path.

Section file.
Context {P : Platform}.

(** [class FileBackedDomain]: the data members. *)
Record FileBackedDomain : Type := mkFileBackedDomain {
  file_cap_ : Z; base_dir_ : string; file_caps : Z }.

Definition file_capabilities : Z :=
  Capabilities.of_list [Capability.HOST_READABLE; Capability.HOST_WRITABLE;
    Capability.CPU_MAPPABLE; Capability.EXPORTABLE; Capability.IMPORTABLE;
    Capability.PERSISTENT; Capability.SUPPORTS_EXPLICIT_FLUSH;
    Capability.SUPPORTS_EXPLICIT_INVALIDATE].

(** The constructor and [init()]. *)
Definition FileBackedDomain_new (cap : Z) (base_dir : string) : M Machine FileBackedDomain :=
  let! dir :=
    (if String.eqb base_dir "" then
       if win32 then
         let! tmp := syscall GetTempPathA in
         match tmp with Some t => ret t | None => ret "."%string end
       else
         let! t := syscall getenv_TMPDIR in
         match t with Some t => ret t | None => ret "/tmp"%string end
     else ret base_dir) in
  ret (mkFileBackedDomain cap dir file_capabilities).

(** [file_counter()]: a function-local atomic, post-incremented. *)
Definition file_counter : M Machine Z :=
  let! c := gets static_file_counter in
  modify (set_file_counter (u64 (c + 1))) ;;; ret c.

(** [FileState::~FileState]. *)
Definition file_state_dtor (st : option BackendState) : M Machine unit :=
  match st with
  | Some (FileState _ _ file mapping view) =>
      (if view =? 0 then ret tt else syscall (UnmapViewOfFile view)) ;;;
      (if mapping =? 0 then ret tt else syscall (CloseHandle mapping)) ;;;
      (if file =? 0 then ret tt else syscall (CloseHandle file))
  | _ => ret tt
  end.

Definition file_allocate (d : FileBackedDomain) (bytes alignment : Z)
    : M Machine (Result NativeAllocation) :=
  if negb win32 then
    ret (fail ErrorCode.unsupported_domain "file-backend: POSIX backend not compiled on this host")
  else if bytes =? 0 then ret (fail ErrorCode.invalid_argument "file alloc: zero size") else
  let! n := file_counter in
  let path := (base_dir_ d +:+ "\ubf_" +:+ pretty n +:+ ".bin")%string in
  let! f := syscall (CreateFileA_always path) in
  if f =? INVALID_HANDLE_VALUE
  then ret (fail ErrorCode.backend_failure "file alloc: CreateFile failed") else
  let! seek := syscall (SetFilePointerEx f bytes) in
  if negb seek then
    syscall (CloseHandle f) ;;; ret (fail ErrorCode.backend_failure "file alloc: seek failed") else
  let! eof := syscall (SetEndOfFile f) in
  if negb eof then
    syscall (CloseHandle f) ;;;
    ret (fail ErrorCode.out_of_capacity "file alloc: truncate failed") else
  let! m := syscall (CreateFileMappingA f 0 0 None) in
  if m =? 0 then
    syscall (CloseHandle f) ;;;
    ret (fail ErrorCode.mapping_failure "file alloc: CreateFileMapping failed") else
  let! view := syscall (MapViewOfFile m bytes) in
  if view =? 0 then
    syscall (CloseHandle m) ;;; syscall (CloseHandle f) ;;;
    ret (fail ErrorCode.mapping_failure "file alloc: MapViewOfFile failed") else
  ret (Ok (mkNativeAllocation view view bytes bytes (if alignment =? 0 then 64 else alignment)
             (mkDeviceId BackendId.FILE_BACKED (-1)) MemoryDomain.MMAP_STORAGE
             BackendId.FILE_BACKED (Some (FileState bytes path f m view)))).

Definition file_free (a : NativeAllocation) : M Machine (Result Z * NativeAllocation) :=
  if negb win32 then ret (Ok (na_committed NativeAllocation_default), NativeAllocation_default)
  else if na_pointer a =? 0
  then ret (fail ErrorCode.invalid_argument "file free: null", a) else
  file_state_dtor (na_state a) ;;;
  ret (Ok (na_committed a), NativeAllocation_default).

Definition file_export_handle (a : NativeAllocation) : M Machine (Result string) :=
  if negb win32
  then ret (fail ErrorCode.unsupported_capability "file export: unsupported") else
  match na_state a with
  | Some (FileState _ path _ _ _) => ret (Ok path)
  | _ => ret (fail ErrorCode.state_invalid "file export: no state")
  end.

(** The guards of [import_handle], before any file is opened: [None] accepts. *)
Definition file_import_rejects (d : FileBackedDomain) (path : string) : option Error :=
  if String.eqb path ""
  then Some (mkError ErrorCode.import_failure "file import: empty path")
  else if 1024 <? Z.of_nat (String.length path)
  then Some (mkError ErrorCode.import_failure "file import: path too long")
  else if str_contains "\..\" path || str_contains ".." path
  then Some (mkError ErrorCode.import_failure "file import: traversal rejected")
  else if negb (path_is_beneath (base_dir_ d) path)
  then Some (mkError ErrorCode.import_failure "file import: outside base dir")
  else None.

Definition file_import_handle (d : FileBackedDomain) (path : string) (size alignment : Z)
    : M Machine (Result NativeAllocation) :=
  if negb win32
  then ret (fail ErrorCode.unsupported_capability "file import: unsupported") else
  match file_import_rejects d path with
  | Some e => ret (Fail e)
  | None =>
  let! f := syscall (CreateFileA_existing path) in
  if f =? INVALID_HANDLE_VALUE
  then ret (fail ErrorCode.import_failure "file import: open failed") else
  let! fs := syscall (GetFileSizeEx f) in
  match fs with
  | None => syscall (CloseHandle f) ;;;
            ret (fail ErrorCode.import_failure "file import: stat failed")
  | Some fsize =>
  if u64 fsize <? size then
    syscall (CloseHandle f) ;;;
    ret (fail ErrorCode.import_failure "file import: file too small") else
  let! m := syscall (CreateFileMappingA f 0 0 None) in
  if m =? 0 then
    syscall (CloseHandle f) ;;;
    ret (fail ErrorCode.mapping_failure "file import: mapping failed") else
  let! view := syscall (MapViewOfFile m size) in
  if view =? 0 then
    syscall (CloseHandle m) ;;; syscall (CloseHandle f) ;;;
    ret (fail ErrorCode.mapping_failure "file import: map view failed") else
  ret (Ok (mkNativeAllocation view view size size (if alignment =? 0 then 64 else alignment)
             DeviceId_default MemoryDomain.MMAP_STORAGE BackendId.FILE_BACKED
             (Some (FileState size path f m view))))
  end end.

Definition file_zero (a : NativeAllocation) (offset len : Z) : M Machine Status :=
  if out_of_span a offset len then ret (fail ErrorCode.bounds_error "file zero: oob") else
  modify (set_mem (memset (na_host_map a + offset) 0 len)) ;;;
  ret ok_status.
Definition file_synchronize (_ : NativeAllocation) : M Machine Status := ret ok_status.
Definition file_flush (a : NativeAllocation) : M Machine Status :=
  if negb win32 then ret ok_status else
  let! v := (if na_host_map a =? 0 then ret true
             else syscall (FlushViewOfFile (na_host_map a) 0)) in
  if negb v then ret (fail ErrorCode.backend_failure "file flush: FlushViewOfFile failed") else
  let! b := (match na_state a with
             | Some (FileState _ _ file _ _) =>
                 if file =? 0 then ret true else syscall (FlushFileBuffers file)
             | _ => ret true
             end) in
  if negb b then ret (fail ErrorCode.backend_failure "file flush: FlushFileBuffers failed") else
  ret ok_status.
Definition file_verify (a : NativeAllocation) (offset len : Z) : M Machine Status :=
  if na_pointer a =? 0 then ret (fail ErrorCode.state_invalid "file verify: no backing")
  else if out_of_span a offset len
  then ret (fail ErrorCode.bounds_error "file verify: oob")
  else ret ok_status.
Definition file_map (a : NativeAllocation) (_ : AccessMode) : M Machine (Result Z) :=
  ret (Ok (na_host_map a)).
Definition file_unmap (_ : NativeAllocation) (_ : Z) : M Machine Status := ret ok_status.
Definition file_copy_in_domain (dst : NativeAllocation) (dst_off : Z)
    (src : NativeAllocation) (src_off len : Z) : M Machine Status :=
  if out_of_span dst dst_off len then ret (fail ErrorCode.bounds_error "file copy: dst oob")
  else if out_of_span src src_off len
  then ret (fail ErrorCode.bounds_error "file copy: src oob") else
  modify (set_mem (memmove (na_host_map dst + dst_off) (na_host_map src + src_off) len)) ;;;
  ret ok_status.
Definition file_capacity (d : FileBackedDomain) : M Machine (Result CapacityInfo) :=
  ret (Ok (CapacityInfo_of (file_cap_ d) 0)).
Definition file_preferred_alignment : Result Z := Ok 4096.
Definition file_default_alignment : Result Z := Ok 64.

Definition file_domain (d : FileBackedDomain) : IDomain :=
  IDomain.mkIDomain BackendId.FILE_BACKED MemoryDomain.MMAP_STORAGE (file_caps d)
    (file_allocate d) file_free file_zero file_synchronize file_flush file_verify file_map
    file_unmap file_copy_in_domain (file_capacity d) file_preferred_alignment
    file_default_alignment file_export_handle (file_import_handle d) (ret tt).

End file.
