(* ===== verification/CudaBackend.v ===== *)
(** backends/cuda_backend.hpp and src/backends/cuda_backend.cpp: the device and
    the pinned-host domains, over the CUDA runtime of [Platform].  The file is
    compiled only when [has_cuda] holds; the runtime guards its use. *)
From S2P Require Import Prelude Types Platform.

Section cuda.
Context {P : Platform}.

(** [Error(c, std::string(op) + cudaGetErrorString(e))]. *)
Definition cuda_fail {A} (c : ErrorCode) (op : string) (e : Z) : Result A :=
  fail c (op +:+ cudaGetErrorString e)%string.

(** ** namespace cuda_support *)

(** [available()]: a function-local static, initialised on the first call. *)
Definition cuda_available : M Machine bool :=
  let! c := gets static_cuda_ok in
  match c with
  | Some b => ret b
  | None =>
      let! r := syscall cudaGetDeviceCount in
      let b := (r.1 =? cudaSuccess) && (0 <? r.2) in
      modify (set_cuda_ok (Some b)) ;;; ret b
  end.

Definition cuda_device_count : M Machine Z :=
  let! r := syscall cudaGetDeviceCount in
  ret (if r.1 =? cudaSuccess then r.2 else 0).

(** [struct CudaDeviceInfo]. *)
Record CudaDeviceInfo : Set := mkCudaDeviceInfo {
  cdi_index : Z; cdi_name : string; cdi_compute_major : Z; cdi_compute_minor : Z;
  cdi_runtime_version : Z; cdi_driver_version : Z; cdi_total_memory : Z;
  cdi_free_memory : Z; cdi_multiprocessor_count : Z }.

Definition cuda_device_info (index : Z) : M Machine (Result CudaDeviceInfo) :=
  if index <? 0 then ret (fail ErrorCode.invalid_device "negative device index") else
  let! r := syscall (cudaGetDeviceProperties index) in
  if negb (r.1 =? cudaSuccess)
  then ret (fail ErrorCode.device_unavailable "cudaGetDeviceProperties failed") else
  let prop := r.2 in
  let! d := syscall cudaDriverGetVersion in
  let! mi := syscall cudaMemGetInfo in
  let mem_ok := mi.1.1 =? cudaSuccess in
  ret (Ok (mkCudaDeviceInfo index (prop_name prop) (prop_major prop) (prop_minor prop)
             (prop_major prop * 1000 + prop_minor prop * 10)
             (if d.1 =? cudaSuccess then d.2 else 0)
             (if mem_ok then mi.2 else 0) (if mem_ok then mi.1.2 else 0)
             (prop_multiProcessorCount prop))).

Definition cuda_device_total_memory (_ : Z) : M Machine (Result Z) :=
  let! mi := syscall cudaMemGetInfo in
  if negb (mi.1.1 =? cudaSuccess)
  then ret (fail ErrorCode.backend_failure "cudaMemGetInfo failed")
  else ret (Ok mi.2).
Definition cuda_device_free_memory (_ : Z) : M Machine (Result Z) :=
  let! mi := syscall cudaMemGetInfo in
  if negb (mi.1.1 =? cudaSuccess)
  then ret (fail ErrorCode.backend_failure "cudaMemGetInfo failed")
  else ret (Ok mi.1.2).

Definition cuda_device_sync : M Machine Status :=
  let! e := syscall cudaDeviceSynchronize in
  if negb (e =? cudaSuccess)
  then ret (cuda_fail ErrorCode.backend_failure "cudaDeviceSynchronize: " e)
  else ret ok_status.

(** ** CudaDeviceDomain *)
Record CudaDeviceDomain : Type := mkCudaDeviceDomain {
  cuda_dev_caps : Z; active_device : Z; cuda_dev_count : Z }.

Definition cuda_device_capabilities : Z :=
  Capabilities.of_list [Capability.DIRECTLY_DMA_CAPABLE; Capability.HOST_READABLE;
    Capability.HOST_WRITABLE; Capability.DEVICE_READABLE; Capability.DEVICE_WRITABLE;
    Capability.ASYNC_COPYABLE; Capability.SUPPORTS_EXTERNAL_HANDLE].

Definition CudaDeviceDomain_new : M Machine CudaDeviceDomain :=
  let! n := cuda_device_count in
  let! dev := (if 0 <? n then
                 let! r := syscall cudaGetDevice in
                 ret (if r.1 =? cudaSuccess then r.2 else 0)
               else ret 0) in
  ret (mkCudaDeviceDomain cuda_device_capabilities dev n).

Definition cuda_device_destroy (d : CudaDeviceDomain) : M Machine unit :=
  if 0 <? cuda_dev_count d
  then let! _ := syscall cudaDeviceSynchronize in ret tt
  else ret tt.

Definition cuda_device_allocate (d : CudaDeviceDomain) (bytes alignment : Z)
    : M Machine (Result NativeAllocation) :=
  let! av := cuda_available in
  if negb av then ret (fail ErrorCode.device_unavailable "no CUDA device")
  else if bytes =? 0
  then ret (fail ErrorCode.invalid_argument "device allocation: zero size")
  else if 4096 <? alignment
  then ret (fail ErrorCode.alignment_error "device allocation: alignment too large")
  else if negb (alignment =? 0) && negb (Z.land alignment (u64 (alignment - 1)) =? 0)
  then ret (fail ErrorCode.alignment_error "device allocation: alignment not power-of-two") else
  let! sd := syscall (cudaSetDevice (active_device d)) in
  if negb (sd =? cudaSuccess)
  then ret (fail ErrorCode.backend_failure "cudaSetDevice failed") else
  let! r := syscall (cudaMalloc bytes) in
  if negb (r.1 =? cudaSuccess)
  then ret (cuda_fail ErrorCode.out_of_capacity "cudaMalloc: " r.1) else
  ret (Ok (mkNativeAllocation r.2 0 bytes bytes (if alignment =? 0 then 256 else alignment)
             (mkDeviceId BackendId.CUDA (active_device d)) MemoryDomain.DEVICE
             BackendId.CUDA None)).

Definition cuda_device_free (a : NativeAllocation) : M Machine (Result Z * NativeAllocation) :=
  if na_pointer a =? 0
  then ret (fail ErrorCode.invalid_argument "device free: null pointer", a) else
  let! e := syscall (cudaFree (na_pointer a)) in
  if negb (e =? cudaSuccess)
  then ret (cuda_fail ErrorCode.backend_failure "cudaFree: " e, a) else
  ret (Ok (na_committed a), NativeAllocation_default).

Definition cuda_device_zero (a : NativeAllocation) (offset len : Z) : M Machine Status :=
  if na_pointer a =? 0
  then ret (fail ErrorCode.state_invalid "device zero: no backing")
  else if out_of_span a offset len
  then ret (fail ErrorCode.bounds_error "device zero: out of bounds") else
  let! e := syscall (cudaMemset (na_pointer a + offset) 0 len) in
  if negb (e =? cudaSuccess)
  then ret (cuda_fail ErrorCode.backend_failure "cudaMemset: " e) else
  let! s := syscall cudaDeviceSynchronize in
  if negb (s =? cudaSuccess)
  then ret (fail ErrorCode.backend_failure "device zero sync failed")
  else ret ok_status.

Definition cuda_device_synchronize (_ : NativeAllocation) : M Machine Status := cuda_device_sync.
Definition cuda_device_flush (_ : NativeAllocation) : M Machine Status := cuda_device_sync.

Definition cuda_device_verify (a : NativeAllocation) (offset len : Z) : M Machine Status :=
  if na_pointer a =? 0
  then ret (fail ErrorCode.state_invalid "device verify: no backing")
  else if out_of_span a offset len
  then ret (fail ErrorCode.bounds_error "device verify: out of bounds") else
  let! e := syscall (cudaPointerGetAttributes (na_pointer a)) in
  if negb (e =? cudaSuccess)
  then ret (cuda_fail ErrorCode.integrity_failure "device verify: not a valid pointer: " e) else
  if 0 <? len then
    let! e := syscall (cudaMemcpy (na_pointer a + offset) (na_pointer a + offset) len
                         cudaMemcpyDeviceToDevice) in
    if negb (e =? cudaSuccess)
    then ret (cuda_fail ErrorCode.integrity_failure "device verify self-copy: " e)
    else ret ok_status
  else ret ok_status.

Definition cuda_device_map (_ : NativeAllocation) (_ : AccessMode) : M Machine (Result Z) :=
  ret (fail ErrorCode.unsupported_capability "device memory is not CPU-mappable").
Definition cuda_device_unmap (_ : NativeAllocation) (_ : Z) : M Machine Status :=
  ret (fail ErrorCode.unsupported_capability "device memory is not CPU-mappable").

Definition cuda_device_copy_in_domain (dst : NativeAllocation) (dst_off : Z)
    (src : NativeAllocation) (src_off len : Z) : M Machine Status :=
  if (na_pointer dst =? 0) || (na_pointer src =? 0)
  then ret (fail ErrorCode.state_invalid "device copy_in_domain: missing backing")
  else if out_of_span dst dst_off len
  then ret (fail ErrorCode.bounds_error "device copy_in_domain: dst out of bounds")
  else if out_of_span src src_off len
  then ret (fail ErrorCode.bounds_error "device copy_in_domain: src out of bounds") else
  let! e := syscall (cudaMemcpy (na_pointer dst + dst_off) (na_pointer src + src_off) len
                       cudaMemcpyDeviceToDevice) in
  if negb (e =? cudaSuccess)
  then ret (cuda_fail ErrorCode.backend_failure "cudaMemcpy D2D: " e) else
  let! s := syscall cudaDeviceSynchronize in
  if negb (s =? cudaSuccess) then ret (fail ErrorCode.backend_failure "D2D sync failed")
  else ret ok_status.

Definition cuda_device_capacity : M Machine (Result CapacityInfo) :=
  let! mi := syscall cudaMemGetInfo in
  ret (Ok (if mi.1.1 =? cudaSuccess then CapacityInfo_of mi.2 mi.1.2 else CapacityInfo_of 0 0)).

Definition cuda_device_domain (d : CudaDeviceDomain) : IDomain :=
  IDomain.mkIDomain BackendId.CUDA MemoryDomain.DEVICE (cuda_dev_caps d)
    (cuda_device_allocate d) cuda_device_free cuda_device_zero cuda_device_synchronize
    cuda_device_flush cuda_device_verify cuda_device_map cuda_device_unmap
    cuda_device_copy_in_domain cuda_device_capacity (Ok 256) (Ok 256)
    IDomain.export_handle_default IDomain.import_handle_default (cuda_device_destroy d).

(** ** CudaPinnedDomain *)
Definition cuda_pinned_capabilities : Z :=
  Capabilities.of_list [Capability.HOST_READABLE; Capability.HOST_WRITABLE;
    Capability.CPU_MAPPABLE; Capability.PINNED; Capability.DIRECTLY_DMA_CAPABLE;
    Capability.ASYNC_COPYABLE].

Definition cuda_pinned_allocate (bytes alignment : Z) : M Machine (Result NativeAllocation) :=
  let! av := cuda_available in
  if negb av then ret (fail ErrorCode.device_unavailable "no CUDA device")
  else if bytes =? 0
  then ret (fail ErrorCode.invalid_argument "pinned allocation: zero size") else
  let! r := syscall (cudaHostAlloc bytes) in
  if negb (r.1 =? cudaSuccess)
  then ret (cuda_fail ErrorCode.out_of_capacity "cudaHostAlloc: " r.1) else
  ret (Ok (mkNativeAllocation r.2 r.2 bytes bytes (if alignment =? 0 then 256 else alignment)
             (mkDeviceId BackendId.CUDA 0) MemoryDomain.PINNED_HOST BackendId.CUDA None)).

Definition cuda_pinned_free (a : NativeAllocation) : M Machine (Result Z * NativeAllocation) :=
  if na_pointer a =? 0
  then ret (fail ErrorCode.invalid_argument "pinned free: null pointer", a) else
  let! e := syscall (cudaFreeHost (na_pointer a)) in
  if negb (e =? cudaSuccess)
  then ret (cuda_fail ErrorCode.backend_failure "cudaFreeHost: " e, a) else
  ret (Ok (na_committed a), NativeAllocation_default).

Definition cuda_pinned_zero (a : NativeAllocation) (offset len : Z) : M Machine Status :=
  if out_of_span a offset len
  then ret (fail ErrorCode.bounds_error "pinned zero: out of bounds") else
  modify (set_mem (memset (na_host_map a + offset) 0 len)) ;;;
  ret ok_status.
Definition cuda_pinned_synchronize (_ : NativeAllocation) : M Machine Status := cuda_device_sync.
Definition cuda_pinned_flush (_ : NativeAllocation) : M Machine Status := cuda_device_sync.
Definition cuda_pinned_verify (a : NativeAllocation) (offset len : Z) : M Machine Status :=
  if na_pointer a =? 0
  then ret (fail ErrorCode.state_invalid "pinned verify: no backing")
  else if out_of_span a offset len
  then ret (fail ErrorCode.bounds_error "pinned verify: out of bounds")
  else ret ok_status.
Definition cuda_pinned_map (a : NativeAllocation) (_ : AccessMode) : M Machine (Result Z) :=
  ret (Ok (na_host_map a)).
Definition cuda_pinned_unmap (_ : NativeAllocation) (_ : Z) : M Machine Status := ret ok_status.
Definition cuda_pinned_copy_in_domain (dst : NativeAllocation) (dst_off : Z)
    (src : NativeAllocation) (src_off len : Z) : M Machine Status :=
  if out_of_span dst dst_off len
  then ret (fail ErrorCode.bounds_error "pinned copy_in_domain: dst out of bounds")
  else if out_of_span src src_off len
  then ret (fail ErrorCode.bounds_error "pinned copy_in_domain: src out of bounds") else
  modify (set_mem (memmove (na_host_map dst + dst_off) (na_host_map src + src_off) len)) ;;;
  ret ok_status.
Definition cuda_pinned_capacity : M Machine (Result CapacityInfo) :=
  let! mi := syscall cudaMemGetInfo in
  ret (Ok (CapacityInfo_of (if mi.1.1 =? cudaSuccess then mi.2 else 0) 0)).
Definition cuda_pinned_destroy : M Machine unit :=
  let! _ := syscall cudaDeviceSynchronize in ret tt.

Definition cuda_pinned_domain : IDomain :=
  IDomain.mkIDomain BackendId.CUDA MemoryDomain.PINNED_HOST cuda_pinned_capabilities
    cuda_pinned_allocate cuda_pinned_free cuda_pinned_zero cuda_pinned_synchronize
    cuda_pinned_flush cuda_pinned_verify cuda_pinned_map cuda_pinned_unmap
    cuda_pinned_copy_in_domain cuda_pinned_capacity (Ok 256) (Ok 64)
    IDomain.export_handle_default IDomain.import_handle_default cuda_pinned_destroy.

End cuda.
