(* ===== verification/State.v ===== *)
(** The data of the runtime: the configuration and request types of config.hpp,
    runtime.hpp and export.hpp, the metadata types of src/internal.hpp, and the
    state of [RuntimeImpl] with its elementary accessors.

    The members of [RuntimeImpl] guarded by one mutex form one record
    ([Ledger] under [ns_mtx_], [Pool] under [pool_mtx_]).  [shared_ptr<Control>]
    is a reference into a store of control blocks, so the registry and every
    handle of a buffer alias one [Control]. *)
From S2P Require Import Prelude Types Platform.

(** ** config.hpp *)

Record PoolConfig : Set := mkPoolConfig {
  pool_enabled : bool; max_idle_bytes : Z; max_objects : Z; size_classes : list Z;
  min_class_size : Z; max_class_size : Z }.
Definition PoolConfig_default : PoolConfig :=
  mkPoolConfig true (256 * 1024 * 1024) 4096 [] 4096 (256 * 1024 * 1024).

Record NamespaceConfig : Set := mkNamespaceConfig {
  ns_name : string; host_quota : Z; pinned_quota : Z; device_quota : Z; shared_quota : Z;
  file_quota : Z; allocation_count_quota : Z; zeroing : ZeroingPolicy;
  allow_export : bool; allow_import : bool; priority : Z }.
Definition NamespaceConfig_default : NamespaceConfig :=
  mkNamespaceConfig "" 0 0 0 0 0 0 ZeroingPolicy.ON_CROSS_OWNER_REUSE true true 0.
Definition set_ns_name (n : string) (c : NamespaceConfig) : NamespaceConfig :=
  mkNamespaceConfig n (host_quota c) (pinned_quota c) (device_quota c) (shared_quota c)
    (file_quota c) (allocation_count_quota c) (zeroing c) (allow_export c) (allow_import c)
    (priority c).

Record RuntimeConfig : Set := mkRuntimeConfig {
  cfg_name : string; enable_host : bool; enable_shared : bool; enable_file : bool;
  enable_pool : bool; cfg_pool : PoolConfig; cfg_namespaces : list NamespaceConfig;
  host_capacity_hint : Z; host_cap : Z; pinned_cap : Z; device_cap : Z; shared_cap : Z;
  file_cap : Z }.
Definition RuntimeConfig_default : RuntimeConfig :=
  mkRuntimeConfig "unified_buffer" true true true true PoolConfig_default [] 0 0 0 0 0 0.

(** ** runtime.hpp and export.hpp *)

Record AllocationRequest : Set := mkAllocationRequest {
  req_ns : Z; req_domain : MemoryDomain; req_device : DeviceId; req_size : Z;
  req_alignment : Z; req_access : AccessMode; req_flags : AllocationFlags;
  req_label : string; req_zeroing : option ZeroingPolicy }.

Record ExternalMemoryDesc : Set := mkExternalMemoryDesc {
  ext_pointer : Z; ext_size : Z; ext_alignment : Z; ext_domain : MemoryDomain;
  ext_device : DeviceId; ext_ownership : ExternalOwnership }.

Definition kExportFormatVersion : Z := 1.
Record ExportDescriptor : Set := mkExportDescriptor {
  d_format_version : Z; d_buffer_id : BufferId; d_generation : Z; d_ns : Z;
  d_backend : BackendId; d_domain : MemoryDomain; d_device : DeviceId; d_size : Z;
  d_alignment : Z; d_access : AccessMode; d_handle_kind : string; d_handle : string;
  d_integrity_crc : Z; d_exportable : bool; d_writable : bool; d_policy_version : Z;
  d_label : string }.

(** ** internal.hpp *)

(** [struct Record]. *)
Record BufferRecord : Set := mkBufferRecord {
  rec_id : BufferId; rec_generation : Z; rec_ns : Z; rec_domain : MemoryDomain;
  rec_backend : BackendId; rec_device : DeviceId; rec_size : Z; rec_committed : Z;
  rec_alignment : Z; rec_flags : AllocationFlags; rec_access : AccessMode;
  rec_pool_eligible : bool; rec_ownership : Ownership; rec_state : BufferState;
  rec_backing : NativeAllocation; rec_pooled : bool; rec_exported : bool;
  rec_map_count : Z; rec_created_epoch : Z; rec_label : string; rec_meta_crc : Z }.
Definition BufferRecord_default : BufferRecord :=
  mkBufferRecord BufferId_zero 0 kDefaultNamespace MemoryDomain.HOST BackendId.HOST_MALLOC
    DeviceId_default 0 0 0 AllocationFlags_default AccessMode.READ_WRITE false
    Ownership.RUNTIME BufferState.DECLARED NativeAllocation_default false false 0 0 "" 0.

(** Assignment to one member of a record. *)
Definition set_rec_state (x : BufferState) (r : BufferRecord) : BufferRecord :=
  mkBufferRecord (rec_id r) (rec_generation r) (rec_ns r) (rec_domain r) (rec_backend r)
    (rec_device r) (rec_size r) (rec_committed r) (rec_alignment r) (rec_flags r) (rec_access r)
    (rec_pool_eligible r) (rec_ownership r) x (rec_backing r) (rec_pooled r)
    (rec_exported r) (rec_map_count r) (rec_created_epoch r) (rec_label r) (rec_meta_crc r).
Definition set_rec_backing (x : NativeAllocation) (r : BufferRecord) : BufferRecord :=
  mkBufferRecord (rec_id r) (rec_generation r) (rec_ns r) (rec_domain r) (rec_backend r)
    (rec_device r) (rec_size r) (rec_committed r) (rec_alignment r) (rec_flags r) (rec_access r)
    (rec_pool_eligible r) (rec_ownership r) (rec_state r) x (rec_pooled r)
    (rec_exported r) (rec_map_count r) (rec_created_epoch r) (rec_label r) (rec_meta_crc r).
Definition set_rec_ownership (x : Ownership) (r : BufferRecord) : BufferRecord :=
  mkBufferRecord (rec_id r) (rec_generation r) (rec_ns r) (rec_domain r) (rec_backend r)
    (rec_device r) (rec_size r) (rec_committed r) (rec_alignment r) (rec_flags r) (rec_access r)
    (rec_pool_eligible r) x (rec_state r) (rec_backing r) (rec_pooled r)
    (rec_exported r) (rec_map_count r) (rec_created_epoch r) (rec_label r) (rec_meta_crc r).
Definition set_rec_map_count (x : Z) (r : BufferRecord) : BufferRecord :=
  mkBufferRecord (rec_id r) (rec_generation r) (rec_ns r) (rec_domain r) (rec_backend r)
    (rec_device r) (rec_size r) (rec_committed r) (rec_alignment r) (rec_flags r) (rec_access r)
    (rec_pool_eligible r) (rec_ownership r) (rec_state r) (rec_backing r) (rec_pooled r)
    (rec_exported r) x (rec_created_epoch r) (rec_label r) (rec_meta_crc r).
Definition set_rec_meta_crc (x : Z) (r : BufferRecord) : BufferRecord :=
  mkBufferRecord (rec_id r) (rec_generation r) (rec_ns r) (rec_domain r) (rec_backend r)
    (rec_device r) (rec_size r) (rec_committed r) (rec_alignment r) (rec_flags r) (rec_access r)
    (rec_pool_eligible r) (rec_ownership r) (rec_state r) (rec_backing r) (rec_pooled r)
    (rec_exported r) (rec_map_count r) (rec_created_epoch r) (rec_label r) x.

(** [struct Control]. *)
Record Control : Set := mkControl {
  rec : BufferRecord; refs : Z; finalized : bool; read_leases : Z; write_leases : Z;
  exclusive_leases : Z; ctl_pool_eligible : bool }.
Definition Control_new (r : BufferRecord) : Control :=
  mkControl r 0 false 0 0 0 (rec_pool_eligible r).
Definition set_rec (f : BufferRecord → BufferRecord) (c : Control) : Control :=
  mkControl (f (rec c)) (refs c) (finalized c) (read_leases c) (write_leases c)
    (exclusive_leases c) (ctl_pool_eligible c).
Definition set_refs (n : Z) (c : Control) : Control :=
  mkControl (rec c) n (finalized c) (read_leases c) (write_leases c)
    (exclusive_leases c) (ctl_pool_eligible c).
Definition set_finalized (b : bool) (c : Control) : Control :=
  mkControl (rec c) (refs c) b (read_leases c) (write_leases c)
    (exclusive_leases c) (ctl_pool_eligible c).
Definition set_leases (r w x : Z) (c : Control) : Control :=
  mkControl (rec c) (refs c) (finalized c) r w x (ctl_pool_eligible c).

(** [struct PoolSlot] and [struct PoolKey]. *)
Record PoolSlot : Set := mkPoolSlot {
  slot_backing : NativeAllocation; slot_original_id : BufferId; slot_last_owner : Z;
  slot_zeroed : bool }.
Record PoolKey : Set := mkPoolKey {
  key_domain : MemoryDomain; key_backend : BackendId; key_device : DeviceId;
  key_size_class : Z; key_alignment : Z; key_exportable : bool }.
#[global] Instance PoolKey_eq_dec : EqDecision PoolKey.
Proof. solve_decision. Defined.
#[global] Instance PoolKey_countable : Countable PoolKey.
Proof.
  refine (inj_countable'
    (λ k, (key_domain k, key_backend k, key_device k, key_size_class k, key_alignment k,
           key_exportable k))
    (λ p, match p with (a, b, c, d, e, f) => mkPoolKey a b c d e f end) _).
  by intros [].
Defined.

(** [struct RuntimeImpl::Telemetry]: the members that the operations increment,
    each a [uint64_t].  The record is the function from its member names. *)
Inductive Counter : Set :=
  | active_buffers | total_allocations | total_frees | failed_allocations
  | bytes_requested | bytes_committed | peak_bytes | host_bytes | pinned_host_bytes
  | device_bytes | shared_host_bytes | file_backed_bytes | reservations
  | reservation_failures | pool_hits | pool_misses | pool_evictions | pooled_bytes
  | idle_pooled_bytes | export_count | import_count | copy_count | bytes_copied
  | migration_count | zero_count | integrity_checks | integrity_failures
  | stale_handle_rejections | stale_generation_rejections | quota_rejections
  | lease_conflicts | outstanding_allocations | map_count | unmap_count.
#[global] Instance Counter_eq_dec : EqDecision Counter.
Proof. solve_decision. Defined.
Definition Telemetry : Set := Counter → Z.
Definition set_counter (c : Counter) (v : Z) (t : Telemetry) : Telemetry :=
  λ c', if decide (c = c') then v else t c'.

(** Namespace accounting: the members guarded by [ns_mtx_]. *)
Record Ledger : Set := mkLedger {
  nss_ : gmap Z NamespaceConfig;
  ns_committed_ : gmap Z (gmap MemoryDomain Z);
  ns_reserved_ : gmap Z (gmap MemoryDomain Z);
  ns_allocated_ : gmap Z (gmap MemoryDomain Z);
  pool_idle_by_domain_ : gmap MemoryDomain Z;
  ns_allocs_ : gmap Z Z;
  peak_committed_ : Z }.

(** The reuse pool: the members guarded by [pool_mtx_]. *)
Record Pool : Set := mkPool {
  pool_ : gmap PoolKey (list PoolSlot);
  pool_idle_bytes_ : Z;
  pool_object_count_ : Z }.

(** A backing that the program has lost track of: no record, slot or variable refers
    to it any more, and nothing will free it. *)
Definition Loss : Set := MemoryDomain * NativeAllocation.

Section state.
Context {P : Platform}.

Record Backends : Type := mkBackends {
  host_ : option IDomain; cuda_device_ : option IDomain; cuda_pinned_ : option IDomain;
  shared_ : option IDomain; file_ : option IDomain }.

(** [class RuntimeImpl]: the data members, with the store of control blocks and
    the machine the process runs on.  [leaked] is not a member: it is a history
    variable, which no operation reads, of the backings that were lost. *)
Record RuntimeImpl : Type := mkRuntimeImpl {
  cfg : RuntimeConfig;
  closed_ : bool;
  registry_ : gmap BufferId nat;
  controls : gmap nat Control;
  pool : Pool;
  backends : Backends;
  ledger : Ledger;
  id_counter_ : Z;
  id_seed_ : Z;
  epoch_ : Z;
  telem_ : Telemetry;
  dec_ : list (string * string);
  device_cuda_ : Z;
  leaked : list Loss;
  machine : Machine }.

Definition set_closed (x : bool) (s : RuntimeImpl) : RuntimeImpl :=
  mkRuntimeImpl (cfg s) x (registry_ s) (controls s) (pool s) (backends s) (ledger s)
    (id_counter_ s) (id_seed_ s) (epoch_ s) (telem_ s) (dec_ s) (device_cuda_ s) (leaked s)
    (machine s).
Definition set_registry (x : gmap BufferId nat) (s : RuntimeImpl) : RuntimeImpl :=
  mkRuntimeImpl (cfg s) (closed_ s) x (controls s) (pool s) (backends s) (ledger s)
    (id_counter_ s) (id_seed_ s) (epoch_ s) (telem_ s) (dec_ s) (device_cuda_ s) (leaked s)
    (machine s).
Definition set_controls (x : gmap nat Control) (s : RuntimeImpl) : RuntimeImpl :=
  mkRuntimeImpl (cfg s) (closed_ s) (registry_ s) x (pool s) (backends s) (ledger s)
    (id_counter_ s) (id_seed_ s) (epoch_ s) (telem_ s) (dec_ s) (device_cuda_ s) (leaked s)
    (machine s).
Definition set_pool (x : Pool) (s : RuntimeImpl) : RuntimeImpl :=
  mkRuntimeImpl (cfg s) (closed_ s) (registry_ s) (controls s) x (backends s) (ledger s)
    (id_counter_ s) (id_seed_ s) (epoch_ s) (telem_ s) (dec_ s) (device_cuda_ s) (leaked s)
    (machine s).
Definition set_backends (x : Backends) (s : RuntimeImpl) : RuntimeImpl :=
  mkRuntimeImpl (cfg s) (closed_ s) (registry_ s) (controls s) (pool s) x (ledger s)
    (id_counter_ s) (id_seed_ s) (epoch_ s) (telem_ s) (dec_ s) (device_cuda_ s) (leaked s)
    (machine s).
Definition set_ledger (x : Ledger) (s : RuntimeImpl) : RuntimeImpl :=
  mkRuntimeImpl (cfg s) (closed_ s) (registry_ s) (controls s) (pool s) (backends s) x
    (id_counter_ s) (id_seed_ s) (epoch_ s) (telem_ s) (dec_ s) (device_cuda_ s) (leaked s)
    (machine s).
Definition set_id_counter (x : Z) (s : RuntimeImpl) : RuntimeImpl :=
  mkRuntimeImpl (cfg s) (closed_ s) (registry_ s) (controls s) (pool s) (backends s) (ledger s)
    x (id_seed_ s) (epoch_ s) (telem_ s) (dec_ s) (device_cuda_ s) (leaked s)
    (machine s).
Definition set_telem (x : Telemetry) (s : RuntimeImpl) : RuntimeImpl :=
  mkRuntimeImpl (cfg s) (closed_ s) (registry_ s) (controls s) (pool s) (backends s) (ledger s)
    (id_counter_ s) (id_seed_ s) (epoch_ s) x (dec_ s) (device_cuda_ s) (leaked s)
    (machine s).
Definition set_dec (x : list (string * string)) (s : RuntimeImpl) : RuntimeImpl :=
  mkRuntimeImpl (cfg s) (closed_ s) (registry_ s) (controls s) (pool s) (backends s) (ledger s)
    (id_counter_ s) (id_seed_ s) (epoch_ s) (telem_ s) x (device_cuda_ s) (leaked s)
    (machine s).
Definition set_machine (x : Machine) (s : RuntimeImpl) : RuntimeImpl :=
  mkRuntimeImpl (cfg s) (closed_ s) (registry_ s) (controls s) (pool s) (backends s) (ledger s)
    (id_counter_ s) (id_seed_ s) (epoch_ s) (telem_ s) (dec_ s) (device_cuda_ s) (leaked s) x.

(** The last reference to a backing goes away without it being freed. *)
Definition lose (d : MemoryDomain) (a : NativeAllocation) : M RuntimeImpl unit :=
  modify (λ s,
    mkRuntimeImpl (cfg s) (closed_ s) (registry_ s) (controls s) (pool s) (backends s) (ledger s)
      (id_counter_ s) (id_seed_ s) (epoch_ s) (telem_ s) (dec_ s) (device_cuda_ s)
      ((d, a) :: leaked s) (machine s)).

(** Run a backend or system operation. *)
Definition on_machine {A} (f : M Machine A) : M RuntimeImpl A := λ s,
  let '(a, m) := f (machine s) in (a, set_machine m s).

(** [telem_.c += n] and [++telem_.c]. *)
Definition tick_by (c : Counter) (n : Z) : M RuntimeImpl unit :=
  modify (λ s, set_telem (set_counter c (u64 (telem_ s c + n)) (telem_ s)) s).
Definition tick (c : Counter) : M RuntimeImpl unit := tick_by c 1.

(** [note()]: the bounded decision log. *)
Definition note (event detail : string) : M RuntimeImpl unit :=
  modify (λ s,
    let d := if (4096 <? Z.of_nat (length (dec_ s))) then tail (dec_ s) else dec_ s in
    set_dec (d ++ [(event, detail)]) s).
Definition decisions (s : RuntimeImpl) : list (string * string) := dec_ s.

(** Dereferencing a [shared_ptr<Control>]; a control block lives as long as some
    reference to it, so the store never shrinks. *)
Definition Control_null : Control := Control_new BufferRecord_default.
Definition ctl_at (s : RuntimeImpl) (c : nat) : Control := default Control_null (controls s !! c).
Definition upd_ctl (c : nat) (f : Control → Control) : M RuntimeImpl unit :=
  modify (λ s, set_controls (alter f c (controls s)) s).
Definition get_ctl (c : nat) : M RuntimeImpl Control := gets (λ s, ctl_at s c).

(** [now_epoch_ms()]. *)
Definition now_epoch_ms : M RuntimeImpl Z :=
  let! t := on_machine (syscall system_clock_ms) in ret (u64 t).

(** [RuntimeImpl::domain]. *)
Definition domain (s : RuntimeImpl) (d : MemoryDomain) : option IDomain :=
  match d with
  | MemoryDomain.HOST => host_ (backends s)
  | MemoryDomain.PINNED_HOST => cuda_pinned_ (backends s)
  | MemoryDomain.DEVICE => cuda_device_ (backends s)
  | MemoryDomain.SHARED_HOST => shared_ (backends s)
  | MemoryDomain.MMAP_STORAGE => file_ (backends s)
  end.
Definition domain_enabled (s : RuntimeImpl) (d : MemoryDomain) : bool :=
  match domain s d with Some _ => true | None => false end.
Definition domain_caps (s : RuntimeImpl) (d : MemoryDomain) : Z :=
  match domain s d with Some dom => IDomain.capabilities dom | None => Capabilities.empty end.

(** [RuntimeImpl::config_cap]. *)
Definition config_cap (c : RuntimeConfig) (d : MemoryDomain) : Z :=
  match d with
  | MemoryDomain.HOST => host_cap c
  | MemoryDomain.PINNED_HOST => pinned_cap c
  | MemoryDomain.DEVICE => device_cap c
  | MemoryDomain.SHARED_HOST => shared_cap c
  | MemoryDomain.MMAP_STORAGE => file_cap c
  end.

(** [RuntimeImpl::capacity_for] and [cap_for]; 0 stands for "no cap". *)
Definition capacity_for (d : MemoryDomain) : M RuntimeImpl (Result Z) :=
  let! s := get in
  match domain s d with
  | None => ret (fail ErrorCode.unsupported_domain
                   ("capability query: " +:+ MemoryDomain.MemoryDomain_to_string d +:+ " disabled"))
  | Some dom =>
      let! cap := on_machine (IDomain.capacity dom) in
      match cap with
      | Fail e => ret (rethrow e)
      | Ok ci =>
          let total := total_capacity ci in
          let configured := config_cap (cfg s) d in
          if configured =? 0 then ret (Ok total)
          else ret (Ok (Z.min configured (if total =? 0 then configured else total)))
      end
  end.
Definition cap_for (d : MemoryDomain) : M RuntimeImpl Z :=
  let! cap := capacity_for d in ret (value_or cap 0).

(** [RuntimeImpl::next_id]. *)
Definition next_id : M RuntimeImpl BufferId :=
  let! s := get in
  modify (set_id_counter (u64 (id_counter_ s + 1))) ;;;
  ret (mkBufferId (Z.lxor (id_seed_ s) (Z.land (epoch_ s) 0xFFFFFFFF)) (id_counter_ s)).

End state.
