(* ===== verification/Sim.v ===== *)
(** A concrete platform, on which the definitions of the library compute: every
    system call is a total function of a small operating-system state, and each
    allocation or mapping gets a block of its own.  It is the instance at which
    witnesses evaluate; no theorem depends on it. *)
From S2P Require Import Prelude Types Platform Resources State.

(** Blocks are [sim_stride] bytes apart, so a request for more is refused;
    [sim_held] lists what the process holds and [sim_freed] the released blocks and
    handles, latest first. *)
Record SimWorld : Set := mkSimWorld {
  sim_next : Z; sim_held : list Resource; sim_freed : list Z; sim_names : gmap string Z;
  sim_clock : Z; sim_fail_alloc : bool; sim_fail_memset : bool }.
Definition sim_stride : Z := 1125899906842624.

(** A new address or handle, for a resource of [bytes] bytes. *)
Definition sim_fresh (mk : Z → Resource) (bytes : Z) : M (SimWorld * Memory) Z := λ '(w, h),
  if sim_fail_alloc w || (sim_stride <? bytes) then (0, (w, h)) else
  (sim_next w,
   (mkSimWorld (sim_next w + sim_stride) (mk (sim_next w) :: sim_held w) (sim_freed w)
      (sim_names w) (sim_clock w) (sim_fail_alloc w) (sim_fail_memset w), h)).
(** Drop the first resource that [test] selects. *)
Fixpoint drop_first (test : Resource → bool) (l : list Resource) : list Resource :=
  match l with
  | [] => []
  | r :: l' => if test r then l' else r :: drop_first test l'
  end.
Definition sim_release (test : Resource → bool) (p : Z) : M (SimWorld * Memory) unit := λ '(w, h),
  (tt, (mkSimWorld (sim_next w) (drop_first test (sim_held w)) (p :: sim_freed w) (sim_names w)
          (sim_clock w) (sim_fail_alloc w) (sim_fail_memset w), h)).
Definition sim_name (n : string) (p : Z) : M (SimWorld * Memory) unit := λ '(w, h),
  (tt, (mkSimWorld (sim_next w) (sim_held w) (sim_freed w) (<[n := p]> (sim_names w))
          (sim_clock w) (sim_fail_alloc w) (sim_fail_memset w), h)).
Definition sim_find (n : string) : M (SimWorld * Memory) (option Z) := λ '(w, h),
  (sim_names w !! n, (w, h)).
Definition sim_tick : M (SimWorld * Memory) Z := λ '(w, h),
  (sim_clock w, (mkSimWorld (sim_next w) (sim_held w) (sim_freed w) (sim_names w)
                   (sim_clock w + 1) (sim_fail_alloc w) (sim_fail_memset w), h)).
Definition sim_memop (f : Memory → Memory) : M (SimWorld * Memory) Z := λ '(w, h),
  if sim_fail_memset w then (1, (w, h)) else (0, (w, f h)).

(** The resources a pointer or a handle stands for. *)
Definition is_heap (p : Z) (r : Resource) : bool :=
  match r with RHeap q _ => p =? q | _ => false end.
Definition is_handle (h : Z) (r : Resource) : bool :=
  match r with RHandle q => h =? q | _ => false end.
Definition is_view (p : Z) (r : Resource) : bool :=
  match r with RView q _ => p =? q | _ => false end.
Definition is_device (p : Z) (r : Resource) : bool :=
  match r with RDevice q _ => p =? q | _ => false end.
Definition is_pinned (p : Z) (r : Resource) : bool :=
  match r with RPinned q _ => p =? q | _ => false end.

(** A handle on the named object, if it exists. *)
Definition sim_open (n : string) (absent : Z) : M (SimWorld * Memory) Z :=
  let! o := sim_find n in
  match o with Some _ => sim_fresh RHandle 0 | None => ret absent end.

#[export] Instance sim_platform : Platform := {|
  World := SimWorld;
  win32 := true;
  has_cuda := true;
  this_address := 140737488355328;
  system_clock_ms := sim_tick;
  steady_clock_ticks := sim_tick;
  aligned_malloc bytes _ := sim_fresh (λ p, RHeap p bytes) bytes;
  aligned_free p := sim_release (is_heap p) p;
  GlobalMemoryStatusEx := ret (Some 17179869184);
  CreateFileMappingA _ _ _ name :=
    let! p := sim_fresh RHandle 0 in
    (match name with Some n => sim_name n p | None => ret tt end) ;;; ret p;
  OpenFileMappingA n := sim_open n 0;
  MapViewOfFile _ n := sim_fresh (λ p, RView p n) n;
  UnmapViewOfFile p := sim_release (is_view p) p;
  CloseHandle h := sim_release (is_handle h) h;
  CreateFileA_always path :=
    let! p := sim_fresh RHandle 0 in
    if p =? 0 then ret INVALID_HANDLE_VALUE else sim_name path p ;;; ret p;
  CreateFileA_existing path :=
    let! p := sim_open path 0 in
    ret (if p =? 0 then INVALID_HANDLE_VALUE else p);
  SetFilePointerEx _ _ := ret true;
  SetEndOfFile _ := ret true;
  GetFileSizeEx _ := ret (Some two48);
  FlushViewOfFile _ _ := ret true;
  FlushFileBuffers _ := ret true;
  GetTempPathA := ret (Some "C:\Temp"%string);
  getenv_TMPDIR := ret None;
  cudaGetDeviceCount := ret (cudaSuccess, 1);
  cudaGetDevice := ret (cudaSuccess, 0);
  cudaSetDevice _ := ret cudaSuccess;
  cudaMalloc bytes :=
    let! p := sim_fresh (λ p, RDevice p bytes) bytes in ret (if p =? 0 then 2 else cudaSuccess, p);
  cudaFree p := sim_release (is_device p) p ;;; ret cudaSuccess;
  cudaHostAlloc bytes :=
    let! p := sim_fresh (λ p, RPinned p bytes) bytes in ret (if p =? 0 then 2 else cudaSuccess, p);
  cudaFreeHost p := sim_release (is_pinned p) p ;;; ret cudaSuccess;
  cudaMemset p v n := sim_memop (memset p v n);
  cudaMemcpy d s n _ := sim_memop (memmove d s n);
  cudaDeviceSynchronize := ret cudaSuccess;
  cudaPointerGetAttributes _ := ret cudaSuccess;
  cudaMemGetInfo := ret (cudaSuccess, 8589934592, 8589934592);
  cudaGetDeviceProperties _ := ret (cudaSuccess, mkDeviceProp "sim" 8 6 28);
  cudaDriverGetVersion := ret (cudaSuccess, 12000);
  cudaGetErrorString _ := "sim error"%string
|}.

(** The state at process start: blocks begin at [sim_stride], memory holds 0xAA. *)
Definition sim_world : SimWorld := mkSimWorld sim_stride [] [] ∅ 1000 false false.
Definition sim_machine : Machine := mkMachine sim_world (λ _, 170) 0 None 0 None.

(** A bare runtime with a default namespace and no backend attached. *)
Definition sim_ledger (def : NamespaceConfig) : Ledger :=
  mkLedger {[ kDefaultNamespace := def ]} ∅ ∅ ∅ ∅ ∅ 0.
Definition sim_bare (c : RuntimeConfig) (def : NamespaceConfig) : RuntimeImpl :=
  mkRuntimeImpl c false ∅ ∅ (mkPool ∅ 0 0) (mkBackends None None None None None)
    (sim_ledger def) 1 7 1000 (λ _, 0) [] 0 [] sim_machine.
