(* ===== verification/SimResources.v ===== *)
(** The concrete platform keeps the laws of [OsResources]: it is an instance at which
    the ownership theorems apply. *)
From S2P Require Import Prelude Types Platform Resources State Sim.

Definition res_addr (r : Resource) : Z :=
  match r with RHeap p _ | RView p _ | RDevice p _ | RPinned p _ => p | RHandle h => h end.
Definition res_size (r : Resource) : Z :=
  match r with RHeap _ n | RView _ n | RDevice _ n | RPinned _ n => n | RHandle _ => 0 end.

(** Every resource has an address of its own, a multiple of the stride below the next
    one, and fits into the stride. *)
Definition sim_placed (next : Z) (r : Resource) : Prop :=
  (sim_stride | res_addr r) ∧ 0 < res_addr r < next ∧ res_size r ≤ sim_stride.
Record sim_ok (w : SimWorld) : Prop := {
  ok_next : 0 < sim_next w ∧ (sim_stride | sim_next w);
  ok_placed : Forall (sim_placed (sim_next w)) (sim_held w);
  ok_unique : NoDup (res_addr <$> sim_held w) }.
Definition sim_holds (rs : list Resource) (wh : SimWorld * Memory) : Prop :=
  rs ≡ₚ sim_held wh.1 ∧ sim_ok wh.1.
#[export] Instance sim_holds_proper : Proper ((≡ₚ) ==> (=) ==> iff) sim_holds.
Proof. intros rs rs' Hp w w' <-. unfold sim_holds. by rewrite Hp. Qed.

Lemma placed_apart next r1 r2 :
  sim_placed next r1 → sim_placed next r2 → res_addr r1 ≠ res_addr r2 → apart r1 r2.
Proof.
  intros ([i Hi] & _ & H1) ([j Hj] & _ & H2) Hne. unfold apart, sim_stride in *.
  destruct r1, r2; simpl in *; try done; nia.
Qed.
Lemma placed_mono next next' r : next ≤ next' → sim_placed next r → sim_placed next' r.
Proof. intros Hn (? & ? & ?). split_and!; [done|lia..]. Qed.

Lemma sim_holds_apart r1 r2 rs w : sim_holds (r1 :: r2 :: rs) w → apart r1 r2.
Proof.
  intros [Hp [_ Hpl Hu]]. rewrite <- Hp in Hpl, Hu. apply Forall_cons in Hpl as [H1 Hpl].
  apply Forall_cons in Hpl as [H2 _]. cbn [fmap list_fmap] in Hu. apply NoDup_cons in Hu as [Hne _].
  eapply placed_apart; [exact H1|exact H2|]. intros Heq. apply Hne. rewrite Heq. by left.
Qed.

(** ** Obtaining *)

Lemma sim_fresh_triple mk n :
  (∀ p, res_addr (mk p) = p) → (∀ p, res_size (mk p) ≤ n ∨ res_size (mk p) ≤ 0) →
  triple sim_holds [] (sim_fresh mk n)
    (λ p, p ≠ INVALID_HANDLE_VALUE) (unless_null mk).
Proof.
  intros Ha Hn fr [w h] [Hp [[H2 H2'] H3 H4]]. unfold sim_fresh. cbn [app fst] in *.
  destruct (_ || _) eqn:E; cbn [fst snd].
  { split; [done|]. by split. }
  bool_prop. split.
  { destruct H2' as [i ->]. unfold sim_stride, INVALID_HANDLE_VALUE, two64. lia. }
  unfold unless_null. destruct (_ =? 0) eqn:E0; bool_prop; [lia|].
  split; [by cbn [app fst sim_held]; rewrite Hp|]. constructor; cbn [sim_next sim_held fst].
  - unfold sim_stride in *. split; [lia|]. by apply Z.divide_add_r; [|exists 1].
  - constructor; [|eapply Forall_impl; [exact H3|]; intros r; apply placed_mono; unfold sim_stride; lia].
    unfold sim_placed. rewrite Ha. split_and!; [done|unfold sim_stride in *; lia..|].
    destruct (Hn (sim_next w)); unfold sim_stride in *; lia.
  - cbn [fmap list_fmap]. rewrite Ha. constructor; [|done]. intros Hin.
    apply list_elem_of_fmap in Hin as (r & Hr & Hin). rewrite Forall_forall in H3.
    destruct (H3 r Hin) as (_ & ? & _). lia.
Qed.

(** ** Giving back *)

Lemma drop_first_perm test l x fr :
  l ≡ₚ x :: fr → test x = true → (∀ y, y ∈ l → test y = true → y = x) → drop_first test l ≡ₚ fr.
Proof.
  revert fr. induction l as [|y l IH]; intros fr Hp Hx Hu.
  - by apply Permutation_nil_cons in Hp.
  - simpl. destruct (test y) eqn:Hy.
    + assert (y = x) as -> by (apply Hu; [by left|done]). by apply Permutation_cons_inv in Hp.
    + assert (y ∈ x :: fr) as Hin by (rewrite <- Hp; by left).
      apply elem_of_cons in Hin as [->|Hin]; [congruence|].
      apply elem_of_Permutation in Hin as [fr' Hfr]. rewrite Hfr. constructor. apply IH; [|done|].
      * apply (Permutation_cons_inv (a := y)). rewrite Hp, Hfr. apply Permutation_swap.
      * intros z Hz. apply Hu. by right.
Qed.
Lemma addr_unique w r r' :
  sim_ok w → r ∈ sim_held w → r' ∈ sim_held w → res_addr r = res_addr r' → r = r'.
Proof.
  intros [_ _ Hu] Hr Hr' Heq. apply list_elem_of_lookup in Hr as [i Hi].
  apply list_elem_of_lookup in Hr' as [j Hj].
  assert (i = j) as ->; [|congruence]. eapply (NoDup_lookup _ i j (res_addr r) Hu);
    rewrite list_lookup_fmap; [by rewrite Hi|by rewrite Hj, Heq].
Qed.
Lemma sim_release_triple test r :
  test r = true → (∀ r', test r' = true → res_addr r' = res_addr r) →
  triple sim_holds [r] (sim_release test (res_addr r)) (λ _, True) (λ _, []).
Proof.
  intros Hr Ht fr [w h] [Hp Hok]. cbn [fst app] in Hp. split; [done|].
  assert (r ∈ sim_held w) as Hin by (rewrite <- Hp; by left).
  assert (drop_first test (sim_held w) ≡ₚ fr) as Hdrop.
  { apply (drop_first_perm test _ r); [done|done|]. intros y Hy Hty.
    eapply addr_unique; [done..|]. by apply Ht. }
  split; cbn [app fst snd sim_release sim_held]; [done|]. destruct Hok as [H2 H3 H4].
  rewrite <- Hp in H3, H4. cbn [fmap list_fmap] in H4.
  apply Forall_cons in H3 as [_ H3]. apply NoDup_cons in H4 as [_ H4].
  constructor; cbn [sim_next sim_held]; [done|by rewrite Hdrop..].
Qed.

(** ** The instance *)

(** A call after which the process holds the same. *)
Lemma sim_inert {A} (f : M (SimWorld * Memory) A) :
  (∀ w h, let w' := (f (w, h)).2.1 in
     sim_held w' = sim_held w ∧ sim_next w' = sim_next w) →
  preserves (inert_on sim_holds) f.
Proof.
  intros Hf [w h] rs [Hp [H2 H3 H4]]. destruct (Hf w h) as [E1 E2].
  split; [by rewrite E1|]. constructor; by rewrite ?E1, ?E2.
Qed.
Lemma sim_inert_name n p : preserves (inert_on sim_holds) (sim_name n p).
Proof. by apply sim_inert. Qed.
Lemma sim_inert_find n : preserves (inert_on sim_holds) (sim_find n).
Proof. by apply sim_inert. Qed.
#[local] Hint Resolve sim_inert_name sim_inert_find : frames.

Lemma sim_handle_triple :
  triple sim_holds [] (sim_fresh RHandle 0) (λ p, p ≠ INVALID_HANDLE_VALUE) (unless_null RHandle).
Proof. apply sim_fresh_triple; [done|]. by right. Qed.
Lemma sim_block_triple mk n :
  (∀ p, res_addr (mk p) = p) → (∀ p, res_size (mk p) = n) →
  triple sim_holds [] (sim_fresh mk n) (λ p, p ≠ INVALID_HANDLE_VALUE) (unless_null mk).
Proof. intros Ha Hn. apply sim_fresh_triple; [done|]. intros p. left. by rewrite Hn. Qed.
Lemma sim_open_triple n :
  triple sim_holds [] (sim_open n 0) (λ p, p ≠ INVALID_HANDLE_VALUE) (unless_null RHandle).
Proof.
  unfold sim_open. apply triple_inert_bind; [eauto with frames|]. intros [x|]; [apply sim_handle_triple|].
  by apply triple_ret.
Qed.

(** A fresh file handle, or the invalid one. *)
Lemma unless_invalid_null p fr :
  p ≠ INVALID_HANDLE_VALUE → p ≠ 0 → unless_null RHandle p ++ fr = unless_invalid p ++ fr.
Proof.
  intros H1 H2. unfold unless_null, unless_invalid.
  by rewrite (proj2 (Z.eqb_neq _ _) H1), (proj2 (Z.eqb_neq _ _) H2).
Qed.
Lemma sim_cuda_triple mk n :
  (∀ p, res_addr (mk p) = p) → (∀ p, res_size (mk p) = n) →
  triple sim_holds []
    (let! p := sim_fresh mk n in ret (if p =? 0 then 2 else cudaSuccess, p))
    (λ r, r.1 = cudaSuccess → r.2 ≠ 0) (if_success mk).
Proof.
  intros Ha Hn. eapply triple_bind; [by apply sim_block_triple|]. intros p _.
  unfold unless_null, if_success. destruct (p =? 0) eqn:E; bool_prop; by apply triple_ret.
Qed.

(** No call but the two writing ones touches memory. *)
Lemma sim_quiet pre A (f : M (SimWorld * Memory) A) w h :
  quiet_call (P:=sim_platform) pre A f → (f (w, h)).2.2 = h.
Proof.
  intros [n al|f' hi lo [nm|]|nm|k n|nm|nm|n|n|p n|k|p n|p n|p n|A' f' Hf]; cbn;
    unfold sim_open, sim_find, sim_name, sim_fresh, sim_release; rewrite ?bind_run; cbn [fst snd gets ret modify];
    try (by repeat case_match; simplify_eq/=).
  by destruct Hf.
Qed.

#[export] Instance sim_resources : OsResources sim_platform.
Proof.
  refine {| os_holds := sim_holds; os_writable := λ _, True |}.
  - intros rs w h h' _ [Hp Hok]. by split.
  - intros p v n rs [w h] _ Hw. cbn. unfold sim_memop. destruct (sim_fail_memset w); [done|].
    split; [exact Hw|]. intros a Ha. by apply memset_out.
  - intros d s n k rs [w h] _ Hw. cbn. unfold sim_memop. destruct (sim_fail_memset w); [done|].
    split; [exact Hw|]. intros a Ha. by apply memmove_out.
  - apply sim_holds_apart.
  - intros A f Hf. destruct Hf; by apply sim_inert.
  - intros pre A f fr [w h] Hq _. intros r a _ _ _. by apply (f_equal (λ m, m a) (sim_quiet pre A f w h Hq)).
  - intros n al. eapply (triple_conseq sim_holds); [apply (sim_block_triple (λ p, RHeap p n) n); done|]. done.
  - intros f hi lo nm. simpl. eapply triple_bind; [apply sim_handle_triple|]. intros p _.
    apply triple_inert_bind; [destruct nm; preserves_tac|]. intros ?. by apply triple_ret.
  - intros nm. eapply (triple_conseq sim_holds); [apply sim_open_triple|]. done.
  - intros h n. eapply (triple_conseq sim_holds); [apply (sim_block_triple (λ p, RView p n) n); done|]. done.
  - intros nm. simpl. eapply triple_bind; [apply sim_handle_triple|]. intros p Hp. cbv beta in Hp.
    unfold unless_null. destruct (p =? 0) eqn:E; [by apply triple_ret|].
    apply triple_inert_bind; [eauto with frames|]. intros ?. bool_prop. apply triple_ret; [done|].
    unfold unless_invalid. by rewrite (proj2 (Z.eqb_neq _ _) Hp).
  - intros nm. simpl. eapply triple_bind; [apply sim_open_triple|]. intros p Hp. cbv beta in Hp.
    unfold unless_null. destruct (p =? 0) eqn:E; [by apply triple_ret|]. bool_prop.
    apply triple_ret; [done|]. unfold unless_invalid. by rewrite (proj2 (Z.eqb_neq _ _) Hp).
  - intros n. by apply (sim_cuda_triple (λ p, RDevice p n)).
  - intros n. by apply (sim_cuda_triple (λ p, RPinned p n)).
  - intros p n. apply (sim_release_triple _ (RHeap p n)); simpl; [lia|]. intros []; simpl; lia || done.
  - intros h. apply (sim_release_triple _ (RHandle h)); simpl; [lia|]. intros []; simpl; lia || done.
  - intros p n. apply (sim_release_triple _ (RView p n)); simpl; [lia|]. intros []; simpl; lia || done.
  - intros p n. simpl. eapply triple_bind; [apply (sim_release_triple _ (RDevice p n)); simpl; [lia|]|].
    + intros []; simpl; lia || done.
    + intros ? _. by apply triple_ret.
  - intros p n. simpl. eapply triple_bind; [apply (sim_release_triple _ (RPinned p n)); simpl; [lia|]|].
    + intros []; simpl; lia || done.
    + intros ? _. by apply triple_ret.
Defined.

(** The process starts with nothing. *)
Lemma sim_start_holds : m_holds [] sim_machine.
Proof.
  split; [done|]. constructor; cbn; [unfold sim_stride; split; [lia|by exists 1]|constructor|constructor].
Qed.
#[export] Instance sim_unguarded : Unguarded sim_resources.
Proof. by intros a. Qed.
