(* ===== verification/Domain.v ===== *)
(** What a memory domain promises to the runtime (backends/domain.hpp), as type
    classes over the [IDomain] record, and the proofs that the five domains of
    the backends keep the promise.  The runtime's theorems use only the classes. *)
From S2P Require Import Prelude Types CheckedMath Platform HostBackend SharedBackend.
From S2P Require Import FileBackend CudaBackend State Sim.

(** Every path of a monadic computation, with its result. *)
Ltac paths :=
  repeat match goal with
  | |- context [bind _ _ _] => rewrite bind_run
  | |- context [(ret _ _).1] => progress cbn [ret fst snd]
  | |- context [(ret _ _).2] => progress cbn [ret fst snd]
  | |- context [(if ?b then _ else _) _] => destruct b eqn:?
  end.

(** The paths of an allocation: failures are discharged, the success remains. *)
Ltac allocate_cases :=
  cbv zeta; repeat match goal with
  | |- (bind _ _ _).1 = _ → _ => rewrite bind_run
  | |- (ret _ _).1 = _ → _ => let H := fresh in intros H; cbn [ret fst] in H
  | |- ((if ?b then _ else _) _).1 = _ → _ => destruct b eqn:?
  end; simplify_eq/=; bool_prop.
Ltac allocate_paths := allocate_cases; done.

Section contract.
Context {P : Platform}.

(** The contract every domain keeps: a successful allocation commits exactly the
    requested bytes and carries the domain's tags; a successful free empties its
    argument, a failed one leaves it; no access outside of the committed span is
    attempted. *)
Class DomainContract (dom : IDomain) : Prop := {
  dc_allocate n al m x :
    (IDomain.allocate dom n al m).1 = Ok x →
    na_committed x = n ∧ na_size x = n ∧ na_domain x = IDomain.domain dom
    ∧ na_backend x = IDomain.backend dom ∧ n ≠ 0;
  dc_free a m :
    (IDomain.free dom a m).1.2 =
      if is_ok (IDomain.free dom a m).1.1 then NativeAllocation_default else a;
  dc_zero_bounds a o n m :
    out_of_span a o n = true →
    is_ok (IDomain.zero dom a o n m).1 = false ∧ (IDomain.zero dom a o n m).2 = m;
  dc_verify_bounds a o n m :
    out_of_span a o n = true →
    is_ok (IDomain.verify dom a o n m).1 = false ∧ (IDomain.verify dom a o n m).2 = m;
  dc_copy_bounds d od s os n m :
    out_of_span d od n = true ∨ out_of_span s os n = true →
    is_ok (IDomain.copy_in_domain dom d od s os n m).1 = false
    ∧ (IDomain.copy_in_domain dom d od s os n m).2 = m;
  dc_preferred : ∃ k, 0 ≤ k ≤ 12 ∧ IDomain.preferred_alignment dom = Ok (2 ^ k) }.

(** A domain whose memory the CPU addresses directly: within the span, zeroing and
    copying are [memset] and [memmove] on the mapped block. *)
Class CpuDomain (dom : IDomain) : Prop := {
  cd_zero a o n m :
    na_host_map a ≠ 0 → out_of_span a o n = false →
    IDomain.zero dom a o n m = (ok_status, set_mem (memset (na_host_map a + o) 0 n) m);
  cd_copy d od s os n m :
    na_host_map d ≠ 0 → na_host_map s ≠ 0 →
    out_of_span d od n = false → out_of_span s os n = false →
    IDomain.copy_in_domain dom d od s os n m
    = (ok_status, set_mem (memmove (na_host_map d + od) (na_host_map s + os) n) m);
  cd_map a access m : na_host_map a ≠ 0 → IDomain.map dom a access m = (Ok (na_host_map a), m) }.

Lemma na_base_map a : na_host_map a ≠ 0 → na_base a = na_host_map a.
Proof. intros Ha. unfold na_base. destruct (_ =? 0) eqn:E; bool_prop; done. Qed.

#[export] Instance host_contract h : DomainContract (host_domain h).
Proof.
  constructor; simpl.
  - intros n al m x. unfold host_allocate. allocate_paths.
  - intros a m. unfold host_free. by paths.
  - intros a o n m Hs. unfold host_zero. by rewrite Hs.
  - intros a o n m Hs. unfold host_verify. rewrite Hs. by destruct (_ && _).
  - intros d od s os n m Hs. unfold host_copy_in_domain.
    destruct (out_of_span d od n); [done|]. destruct Hs as [Hs|Hs]; [done|]; by rewrite Hs.
  - by exists 6.
Qed.
#[export] Instance host_cpu h : CpuDomain (host_domain h).
Proof.
  constructor; simpl.
  - intros a o n m Ha Hs. unfold host_zero. by rewrite Hs, na_base_map.
  - intros d od s os n m Hd Hs Hsd Hss. unfold host_copy_in_domain. by rewrite Hsd, Hss, !na_base_map.
  - intros a acc m Ha. unfold host_map. by rewrite na_base_map.
Qed.

#[export] Instance shared_contract s : DomainContract (shared_domain s).
Proof.
  constructor; simpl.
  - intros n al m x. unfold shared_allocate. allocate_paths.
  - intros a m. unfold shared_free. by paths.
  - intros a o n m Hs. unfold shared_zero. by rewrite Hs.
  - intros a o n m Hs. unfold shared_verify. rewrite Hs. by destruct (_ =? 0).
  - intros d od x os n m Hs. unfold shared_copy_in_domain.
    destruct (out_of_span d od n); [done|]. destruct Hs as [Hs|Hs]; [done|]; by rewrite Hs.
  - by exists 12.
Qed.
#[export] Instance shared_cpu s : CpuDomain (shared_domain s).
Proof.
  constructor; simpl.
  - intros a o n m Ha Hs. unfold shared_zero. by rewrite Hs.
  - intros d od x os n m Hd Hs Hsd Hss. unfold shared_copy_in_domain. by rewrite Hsd, Hss.
  - done.
Qed.

#[export] Instance file_contract d : DomainContract (file_domain d).
Proof.
  constructor; simpl.
  - intros n al m x. unfold file_allocate. allocate_paths.
  - intros a m. unfold file_free. by paths.
  - intros a o n m Hs. unfold file_zero. by rewrite Hs.
  - intros a o n m Hs. unfold file_verify. rewrite Hs. by destruct (_ =? 0).
  - intros x od s os n m Hs. unfold file_copy_in_domain.
    destruct (out_of_span x od n); [done|]. destruct Hs as [Hs|Hs]; [done|]; by rewrite Hs.
  - by exists 12.
Qed.
#[export] Instance file_cpu d : CpuDomain (file_domain d).
Proof.
  constructor; simpl.
  - intros a o n m Ha Hs. unfold file_zero. by rewrite Hs.
  - intros x od s os n m Hd Hs Hsd Hss. unfold file_copy_in_domain. by rewrite Hsd, Hss.
  - done.
Qed.

#[export] Instance cuda_device_contract d : DomainContract (cuda_device_domain d).
Proof.
  constructor; simpl.
  - intros n al m x. unfold cuda_device_allocate. allocate_paths.
  - intros a m. unfold cuda_device_free. by paths.
  - intros a o n m Hs. unfold cuda_device_zero. rewrite Hs. by destruct (_ =? 0).
  - intros a o n m Hs. unfold cuda_device_verify. rewrite Hs. by destruct (_ =? 0).
  - intros x od s os n m Hs. unfold cuda_device_copy_in_domain. destruct (_ || _); [done|].
    destruct (out_of_span x od n); [done|]. destruct Hs as [Hs|Hs]; [done|]; by rewrite Hs.
  - by exists 8.
Qed.

#[export] Instance cuda_pinned_contract : DomainContract cuda_pinned_domain.
Proof.
  constructor; simpl.
  - intros n al m x. unfold cuda_pinned_allocate. allocate_paths.
  - intros a m. unfold cuda_pinned_free. by paths.
  - intros a o n m Hs. unfold cuda_pinned_zero. by rewrite Hs.
  - intros a o n m Hs. unfold cuda_pinned_verify. rewrite Hs. by destruct (_ =? 0).
  - intros x od s os n m Hs. unfold cuda_pinned_copy_in_domain.
    destruct (out_of_span x od n); [done|]. destruct Hs as [Hs|Hs]; [done|]; by rewrite Hs.
  - by exists 8.
Qed.
#[export] Instance cuda_pinned_cpu : CpuDomain cuda_pinned_domain.
Proof.
  constructor; simpl.
  - intros a o n m Ha Hs. unfold cuda_pinned_zero. by rewrite Hs.
  - intros x od s os n m Hd Hs Hsd Hss. unfold cuda_pinned_copy_in_domain. by rewrite Hsd, Hss.
  - done.
Qed.
End contract.

(** * Properties *)

Section domain_properties.
Context {P : Platform} (dom : IDomain) `{!DomainContract dom, !CpuDomain dom}.

(** Zeroing is exact on every CPU-addressable domain. A range inside the
    committed span is zeroed and no byte outside of it changes; a range that
    leaves the span is refused before any memory is touched. *)
Theorem domain_zero_exact (a : NativeAllocation) (o n : Z) (m : Machine) :
  na_host_map a ≠ 0 → is_u64 (na_committed a) → is_u64 o → is_u64 n →
  let m' := (IDomain.zero dom a o n m).2 in
  (o + n ≤ na_committed a →
     is_ok (IDomain.zero dom a o n m).1 = true
     ∧ ∀ p, mem m' p = if decide (na_host_map a + o ≤ p < na_host_map a + o + n) then 0 else mem m p)
  ∧ (na_committed a < o + n → is_ok (IDomain.zero dom a o n m).1 = false ∧ m' = m).
Proof.
  intros Ha Hc Ho Hn. cbv zeta. pose proof (out_of_span_spec a o n Hc Ho Hn) as Hspan. split.
  - intros Hin. apply Hspan in Hin. rewrite (cd_zero a o n m Ha Hin). split; [done|]. intros p.
    simpl. case_decide; [by apply memset_in|by apply memset_out].
  - intros Hout. apply dc_zero_bounds. destruct (out_of_span a o n); [done|].
    assert (o + n ≤ na_committed a) by by apply Hspan. lia.
Qed.

(** A copy inside a CPU-addressable domain transfers exactly the source range as
    it was before the copy (overlapping blocks included) and changes nothing
    outside of the destination range; if either range leaves its span it is
    refused and no memory is touched. *)
Theorem domain_copy_exact (d s : NativeAllocation) (od os n : Z) (m : Machine) :
  na_host_map d ≠ 0 → na_host_map s ≠ 0 → is_u64 (na_committed d) → is_u64 (na_committed s) →
  is_u64 od → is_u64 os → is_u64 n →
  let r := IDomain.copy_in_domain dom d od s os n m in
  (od + n ≤ na_committed d ∧ os + n ≤ na_committed s →
     is_ok r.1 = true
     ∧ bytes_at (mem r.2) (na_host_map d + od) n = bytes_at (mem m) (na_host_map s + os) n
     ∧ ∀ p, ¬ (na_host_map d + od ≤ p < na_host_map d + od + n) → mem r.2 p = mem m p)
  ∧ (na_committed d < od + n ∨ na_committed s < os + n → is_ok r.1 = false ∧ r.2 = m).
Proof.
  intros Hd Hs Hcd Hcs Hod Hos Hn. cbv zeta.
  pose proof (out_of_span_spec d od n Hcd Hod Hn) as H1.
  pose proof (out_of_span_spec s os n Hcs Hos Hn) as H2. split.
  - intros [Hin1 Hin2]. rewrite (cd_copy d od s os n m Hd Hs); [|by apply H1|by apply H2].
    split_and!; [done|apply bytes_at_memmove|]. intros p Hp. by apply memmove_out.
  - intros Hout. apply dc_copy_bounds.
    destruct (out_of_span d od n); [by left|]. destruct (out_of_span s os n); [by right|].
    assert (od + n ≤ na_committed d) by by apply H1. assert (os + n ≤ na_committed s) by by apply H2.
    lia.
Qed.
End domain_properties.

Definition sim_block (p n : Z) : NativeAllocation :=
  mkNativeAllocation p p n n 64 DeviceId_default MemoryDomain.HOST BackendId.HOST_MALLOC None.
Lemma sim_word z : 0 ≤ z ≤ 1000000 → is_u64 z.
Proof. unfold is_u64, two64. lia. Qed.

Lemma domain_zero_exact_witness :
  let m' := (IDomain.zero (host_domain (mkHostDomain 0 0 0)) (sim_block 4096 64) 16 8 sim_machine).2 in
  mem m' 4112 = 0 ∧ mem m' 4111 = 170.
Proof.
  destruct (domain_zero_exact (host_domain (mkHostDomain 0 0 0)) (sim_block 4096 64) 16 8 sim_machine)
    as [H _]; [done|apply sim_word; simpl; lia..|].
  destruct H as [_ H]; [simpl; lia|]. split; [exact (H 4112)|exact (H 4111)].
Defined.
Lemma domain_copy_exact_witness :
  let r := IDomain.copy_in_domain (host_domain (mkHostDomain 0 0 0)) (sim_block 4096 64) 60
             (sim_block 8192 64) 0 8 sim_machine in
  is_ok r.1 = false ∧ r.2 = sim_machine.
Proof.
  refine (proj2 (domain_copy_exact (host_domain (mkHostDomain 0 0 0)) (sim_block 4096 64)
                   (sim_block 8192 64) 60 0 8 sim_machine _ _ _ _ _ _ _) _);
    [done|done|apply sim_word; simpl; lia..|]. simpl. lia.
Defined.
