(* ===== verification/Ledger.v ===== *)
(** Namespace accounting of [RuntimeImpl] (src/runtime.cpp): namespaces, quotas,
    reservations, commitments and the allocation count.  Every operation runs
    under [ns_mtx_], so a sequence of operations is any interleaving of callers.

    Reading a cell through [operator[]] default-inserts a zero in the source;
    the tables here are read without inserting, which no reader can tell. *)
From S2P Require Import Prelude Types Platform State Sim.

Definition set_nss (x : gmap Z NamespaceConfig) (l : Ledger) : Ledger :=
  mkLedger x (ns_committed_ l) (ns_reserved_ l) (ns_allocated_ l) (pool_idle_by_domain_ l)
    (ns_allocs_ l) (peak_committed_ l).
Definition set_committed (ns : Z) (d : MemoryDomain) (v : Z) (l : Ledger) : Ledger :=
  mkLedger (nss_ l) (set_cell (ns_committed_ l) ns d v) (ns_reserved_ l) (ns_allocated_ l)
    (pool_idle_by_domain_ l) (ns_allocs_ l) (peak_committed_ l).
Definition set_reserved (ns : Z) (d : MemoryDomain) (v : Z) (l : Ledger) : Ledger :=
  mkLedger (nss_ l) (ns_committed_ l) (set_cell (ns_reserved_ l) ns d v) (ns_allocated_ l)
    (pool_idle_by_domain_ l) (ns_allocs_ l) (peak_committed_ l).
Definition set_allocated (ns : Z) (d : MemoryDomain) (v : Z) (l : Ledger) : Ledger :=
  mkLedger (nss_ l) (ns_committed_ l) (ns_reserved_ l) (set_cell (ns_allocated_ l) ns d v)
    (pool_idle_by_domain_ l) (ns_allocs_ l) (peak_committed_ l).
Definition set_idle (d : MemoryDomain) (v : Z) (l : Ledger) : Ledger :=
  mkLedger (nss_ l) (ns_committed_ l) (ns_reserved_ l) (ns_allocated_ l)
    (<[d := v]> (pool_idle_by_domain_ l)) (ns_allocs_ l) (peak_committed_ l).
Definition set_allocs (ns : Z) (v : Z) (l : Ledger) : Ledger :=
  mkLedger (nss_ l) (ns_committed_ l) (ns_reserved_ l) (ns_allocated_ l)
    (pool_idle_by_domain_ l) (<[ns := v]> (ns_allocs_ l)) (peak_committed_ l).
Definition set_peak (v : Z) (l : Ledger) : Ledger :=
  mkLedger (nss_ l) (ns_committed_ l) (ns_reserved_ l) (ns_allocated_ l)
    (pool_idle_by_domain_ l) (ns_allocs_ l) v.

Definition committed (l : Ledger) (ns : Z) (d : MemoryDomain) : Z := cell (ns_committed_ l) ns d.
Definition reserved (l : Ledger) (ns : Z) (d : MemoryDomain) : Z := cell (ns_reserved_ l) ns d.
Definition allocated (l : Ledger) (ns : Z) (d : MemoryDomain) : Z := cell (ns_allocated_ l) ns d.
Definition pool_idle (l : Ledger) (d : MemoryDomain) : Z :=
  default 0 (pool_idle_by_domain_ l !! d).
Definition allocs (l : Ledger) (ns : Z) : Z := default 0 (ns_allocs_ l !! ns).

(** The per-domain quota member of a namespace configuration. *)
Definition quota_of (c : NamespaceConfig) (d : MemoryDomain) : Z :=
  match d with
  | MemoryDomain.HOST => host_quota c
  | MemoryDomain.PINNED_HOST => pinned_quota c
  | MemoryDomain.DEVICE => device_quota c
  | MemoryDomain.SHARED_HOST => shared_quota c
  | MemoryDomain.MMAP_STORAGE => file_quota c
  end.
Definition domain_quota (l : Ledger) (ns : Z) (d : MemoryDomain) : Z :=
  match nss_ l !! ns with None => 0 | Some c => quota_of c d end.

(** [create_namespace]: ids are handed out in order of creation. *)
Definition add_namespace (cfg_in : NamespaceConfig) (l : Ledger) : Ledger :=
  let id := Z.of_nat (size (nss_ l)) + 1 in
  let c := if String.eqb (ns_name cfg_in) "" then set_ns_name ("ns-" +:+ pretty id) cfg_in
           else cfg_in in
  set_nss (<[id := c]> (nss_ l)) l.

Definition update_peak (c : Z) (l : Ledger) : Ledger :=
  if peak_committed_ l <? c then set_peak c l else l.

Section ledger.
Context {P : Platform}.

Definition modify_ledger (f : Ledger → Ledger) : M RuntimeImpl unit :=
  modify (λ s, set_ledger (f (ledger s)) s).

Definition create_namespace (cfg_in : NamespaceConfig) : M RuntimeImpl Status :=
  modify_ledger (add_namespace cfg_in) ;;; ret ok_status.

Definition namespace_info (s : RuntimeImpl) (id : Z) : option NamespaceConfig :=
  nss_ (ledger s) !! id.

Definition reserve_amount (ns : Z) (d : MemoryDomain) (bytes : Z) : M RuntimeImpl Status :=
  if bytes =? 0 then ret ok_status else
  let! cap := cap_for d in
  let! s := get in
  let comm := committed (ledger s) ns d in
  let res := reserved (ledger s) ns d in
  if negb (cap =? 0) && (cap <? u64 (comm + res + bytes))
  then ret (fail ErrorCode.out_of_capacity "reserve: domain capacity exceeded") else
  let quota := domain_quota (ledger s) ns d in
  if negb (quota =? 0) && (quota <? u64 (comm + res + bytes))
  then tick quota_rejections ;;; ret (fail ErrorCode.quota_exceeded "reserve: quota exceeded")
  else
  modify_ledger (set_reserved ns d (u64 (res + bytes))) ;;; ret ok_status.

Definition commit_amount (ns : Z) (d : MemoryDomain) (bytes : Z) : M RuntimeImpl Status :=
  let! s := get in
  let res := reserved (ledger s) ns d in
  let comm := committed (ledger s) ns d in
  let alloc := allocated (ledger s) ns d in
  if res <? bytes then ret (fail ErrorCode.state_invalid "commit: reservation mismatch") else
  modify_ledger (set_reserved ns d (res - bytes)) ;;;
  modify_ledger (set_committed ns d (u64 (comm + bytes))) ;;;
  modify_ledger (set_allocated ns d (u64 (alloc + bytes))) ;;;
  modify_ledger (update_peak (u64 (u64 (comm + bytes) + u64 (alloc + bytes)))) ;;;
  ret ok_status.

Definition unreserve_amount (ns : Z) (d : MemoryDomain) (bytes : Z) : M RuntimeImpl unit :=
  modify_ledger (λ l, set_reserved ns d (sat_sub (reserved l ns d) bytes) l).

Definition checkout_amount (ns : Z) (d : MemoryDomain) (bytes : Z) : M RuntimeImpl unit :=
  modify_ledger (λ l, set_allocated ns d (u64 (allocated l ns d + bytes)) l) ;;;
  modify_ledger (λ l, set_idle d (sat_sub (pool_idle l d) bytes) l).

Definition release_amount (ns : Z) (d : MemoryDomain) (bytes : Z) (pooled : bool)
    : M RuntimeImpl unit :=
  modify_ledger (λ l, set_allocated ns d (sat_sub (allocated l ns d) bytes) l) ;;;
  if pooled
  then modify_ledger (λ l, set_idle d (u64 (pool_idle l d + bytes)) l)
  else modify_ledger (λ l, set_committed ns d (sat_sub (committed l ns d) bytes) l).

Definition free_accounting (ns : Z) (d : MemoryDomain) (bytes : Z) : M RuntimeImpl unit :=
  modify_ledger (λ l, set_allocated ns d (sat_sub (allocated l ns d) bytes) l) ;;;
  modify_ledger (λ l, set_committed ns d (sat_sub (committed l ns d) bytes) l).

Definition reserve_count (ns : Z) : M RuntimeImpl Status :=
  let! s := get in
  let c := allocs (ledger s) ns in
  let quota := match nss_ (ledger s) !! ns with
               | Some nc => allocation_count_quota nc
               | None => 0
               end in
  if negb (quota =? 0) && (quota <=? c) then
    tick quota_rejections ;;;
    ret (fail ErrorCode.quota_exceeded "allocation count quota exceeded")
  else modify_ledger (set_allocs ns (u64 (c + 1))) ;;; ret ok_status.

Definition release_count (ns : Z) : M RuntimeImpl unit :=
  modify_ledger (λ l, let c := allocs l ns in if 0 <? c then set_allocs ns (c - 1) l else l).

(** ** Sequences of accounting operations *)

Inductive LedgerOp : Set :=
  | OpReserve (ns : Z) (d : MemoryDomain) (bytes : Z)
  | OpCommit (ns : Z) (d : MemoryDomain) (bytes : Z)
  | OpUnreserve (ns : Z) (d : MemoryDomain) (bytes : Z)
  | OpCheckout (ns : Z) (d : MemoryDomain) (bytes : Z)
  | OpRelease (ns : Z) (d : MemoryDomain) (bytes : Z) (pooled : bool)
  | OpFree (ns : Z) (d : MemoryDomain) (bytes : Z)
  | OpReserveCount (ns : Z)
  | OpReleaseCount (ns : Z)
  | OpCreateNamespace (c : NamespaceConfig).

Definition run_op (o : LedgerOp) : M RuntimeImpl unit :=
  match o with
  | OpReserve ns d b => let! _ := reserve_amount ns d b in ret tt
  | OpCommit ns d b => let! _ := commit_amount ns d b in ret tt
  | OpUnreserve ns d b => unreserve_amount ns d b
  | OpCheckout ns d b => checkout_amount ns d b
  | OpRelease ns d b p => release_amount ns d b p
  | OpFree ns d b => free_accounting ns d b
  | OpReserveCount ns => let! _ := reserve_count ns in ret tt
  | OpReleaseCount ns => release_count ns
  | OpCreateNamespace c => let! _ := create_namespace c in ret tt
  end.
Definition run_ops : list LedgerOp → M RuntimeImpl unit := iterM run_op.

(** The byte amount of an operation. *)
Definition op_bytes (o : LedgerOp) : Z :=
  match o with
  | OpReserve _ _ b | OpCommit _ _ b | OpUnreserve _ _ b | OpCheckout _ _ b
  | OpRelease _ _ b _ | OpFree _ _ b => b
  | _ => 0
  end.

End ledger.

(** * Lemmas *)

Section ledger_lemmas.
Context {P : Platform}.
Implicit Types (s : RuntimeImpl) (l : Ledger).

Lemma on_machine_frame {A} (f : M Machine A) s :
  ∃ a m, on_machine f s = (a, set_machine m s).
Proof. unfold on_machine. destruct (f (machine s)) as [a m]. by exists a, m. Qed.

(** A capacity query only touches the machine. *)
Lemma cap_for_frame d s : ∃ cap m, cap_for d s = (cap, set_machine m s).
Proof.
  unfold cap_for, capacity_for, bind, get, ret. destruct (domain s d) as [dom|].
  - destruct (on_machine_frame (IDomain.capacity dom) s) as (r & m & ->).
    destruct r as [ci|e]; [|by eexists _, m].
    destruct (_ =? 0); by eexists _, m.
  - eexists _, (machine s). by destruct s.
Qed.

Lemma committed_set_committed ns d v l ns' d' :
  committed (set_committed ns d v l) ns' d' =
    if decide ((ns, d) = (ns', d')) then v else committed l ns' d'.
Proof. apply cell_set_dec. Qed.
Lemma reserved_set_reserved ns d v l ns' d' :
  reserved (set_reserved ns d v l) ns' d' =
    if decide ((ns, d) = (ns', d')) then v else reserved l ns' d'.
Proof. apply cell_set_dec. Qed.
Lemma allocated_set_allocated ns d v l ns' d' :
  allocated (set_allocated ns d v l) ns' d' =
    if decide ((ns, d) = (ns', d')) then v else allocated l ns' d'.
Proof. apply cell_set_dec. Qed.

(** [update_peak] and the other setters leave the tables alone. *)
Lemma committed_update_peak c l ns d : committed (update_peak c l) ns d = committed l ns d.
Proof. unfold update_peak. by destruct (_ <? _). Qed.
Lemma reserved_update_peak c l ns d : reserved (update_peak c l) ns d = reserved l ns d.
Proof. unfold update_peak. by destruct (_ <? _). Qed.
Lemma allocated_update_peak c l ns d : allocated (update_peak c l) ns d = allocated l ns d.
Proof. unfold update_peak. by destruct (_ <? _). Qed.
Lemma nss_update_peak c l : nss_ (update_peak c l) = nss_ l.
Proof. unfold update_peak. by destruct (_ <? _). Qed.

Lemma committed_set_reserved ns d v l ns' d' :
  committed (set_reserved ns d v l) ns' d' = committed l ns' d'.
Proof. done. Qed.
Lemma committed_set_allocated ns d v l ns' d' :
  committed (set_allocated ns d v l) ns' d' = committed l ns' d'.
Proof. done. Qed.
Lemma reserved_set_committed ns d v l ns' d' :
  reserved (set_committed ns d v l) ns' d' = reserved l ns' d'.
Proof. done. Qed.
Lemma reserved_set_allocated ns d v l ns' d' :
  reserved (set_allocated ns d v l) ns' d' = reserved l ns' d'.
Proof. done. Qed.
Lemma allocated_set_committed ns d v l ns' d' :
  allocated (set_committed ns d v l) ns' d' = allocated l ns' d'.
Proof. done. Qed.
Lemma allocated_set_reserved ns d v l ns' d' :
  allocated (set_reserved ns d v l) ns' d' = allocated l ns' d'.
Proof. done. Qed.
Lemma committed_set_idle d v l ns' d' : committed (set_idle d v l) ns' d' = committed l ns' d'.
Proof. done. Qed.
Lemma reserved_set_idle d v l ns' d' : reserved (set_idle d v l) ns' d' = reserved l ns' d'.
Proof. done. Qed.
Lemma allocated_set_idle d v l ns' d' : allocated (set_idle d v l) ns' d' = allocated l ns' d'.
Proof. done. Qed.
Lemma committed_set_allocs n v l ns' d' : committed (set_allocs n v l) ns' d' = committed l ns' d'.
Proof. done. Qed.
Lemma reserved_set_allocs n v l ns' d' : reserved (set_allocs n v l) ns' d' = reserved l ns' d'.
Proof. done. Qed.
Lemma allocated_set_allocs n v l ns' d' : allocated (set_allocs n v l) ns' d' = allocated l ns' d'.
Proof. done. Qed.

End ledger_lemmas.

Create Rewrite HintDb ledger.
#[export] Hint Rewrite @committed_set_committed @reserved_set_reserved
  @allocated_set_allocated @committed_update_peak @reserved_update_peak
  @allocated_update_peak @nss_update_peak @committed_set_reserved @committed_set_allocated
  @reserved_set_committed @reserved_set_allocated @allocated_set_committed
  @allocated_set_reserved @committed_set_idle @reserved_set_idle @allocated_set_idle
  @committed_set_allocs @reserved_set_allocs @allocated_set_allocs : ledger.

(** Case on whether two cells coincide, after reading every updated table. *)
Ltac ledger_cells :=
  autorewrite with ledger; repeat (case_decide; simplify_eq; autorewrite with ledger).

Section ledger_facts.
Context {P : Platform}.
Implicit Types (s : RuntimeImpl) (l : Ledger).

(** What a reservation does, as one equation: the capacity query, the two limit
    checks, and the new reservation. *)
Lemma reserve_amount_run ns d bytes s :
  bytes ≠ 0 →
  ∃ cap m, cap_for d s = (cap, set_machine m s) ∧
  let need := u64 (committed (ledger s) ns d + reserved (ledger s) ns d + bytes) in
  let quota := domain_quota (ledger s) ns d in
  reserve_amount ns d bytes s =
    if negb (cap =? 0) && (cap <? need)
    then (fail ErrorCode.out_of_capacity "reserve: domain capacity exceeded", set_machine m s)
    else if negb (quota =? 0) && (quota <? need)
    then (fail ErrorCode.quota_exceeded "reserve: quota exceeded",
          (tick quota_rejections (set_machine m s)).2)
    else (ok_status,
          set_ledger (set_reserved ns d (u64 (reserved (ledger s) ns d + bytes)) (ledger s))
            (set_machine m s)).
Proof.
  intros Hb. destruct (cap_for_frame d s) as (cap & m & Hcap). exists cap, m.
  split; [done|]. unfold reserve_amount. rewrite (proj2 (Z.eqb_neq _ _) Hb).
  unfold bind at 1. rewrite Hcap. unfold bind, get, ret, modify_ledger, modify. simpl.
  destruct (_ && _); [done|]. by destruct (_ && _).
Qed.

(** Namespace ids are dense: 1, 2, ..., n. *)
Definition namespaces_dense (l : Ledger) : Prop :=
  ∀ i, is_Some (nss_ l !! i) ↔ 1 ≤ i ≤ Z.of_nat (size (nss_ l)).

Lemma namespaces_fresh l :
  namespaces_dense l → nss_ l !! (Z.of_nat (size (nss_ l)) + 1) = None.
Proof.
  intros Hd. apply eq_None_not_Some. rewrite (Hd _). lia.
Qed.

Lemma add_namespace_dense c l : namespaces_dense l → namespaces_dense (add_namespace c l).
Proof.
  intros Hd. pose proof (namespaces_fresh l Hd) as Hf. unfold add_namespace.
  set (c' := if String.eqb _ _ then _ else _). clearbody c'.
  intros i. simpl. rewrite map_size_insert_None by done.
  destruct (decide (i = Z.of_nat (size (nss_ l)) + 1)) as [->|Hne].
  - rewrite lookup_insert_eq. split; [lia|by eexists].
  - rewrite lookup_insert_ne by done. rewrite (Hd i). lia.
Qed.

Lemma add_namespace_lookup c l ns nc :
  namespaces_dense l → nss_ l !! ns = Some nc → nss_ (add_namespace c l) !! ns = Some nc.
Proof.
  intros Hd Hns. unfold add_namespace. simpl. rewrite lookup_insert_ne; [done|].
  intros Heq. pose proof (namespaces_fresh l Hd). congruence.
Qed.

(** The quota of one (namespace, domain) cell is respected. *)
Record within_quota (ns : Z) (d : MemoryDomain) (q : Z) (l : Ledger) : Prop := {
  wq_dense : namespaces_dense l;
  wq_quota : domain_quota l ns d = q ∧ is_Some (nss_ l !! ns);
  wq_comm : 0 ≤ committed l ns d;
  wq_res : 0 ≤ reserved l ns d;
  wq_sum : committed l ns d + reserved l ns d ≤ q }.

Lemma within_quota_intro ns d q l l' :
  within_quota ns d q l → nss_ l' = nss_ l →
  0 ≤ committed l' ns d → 0 ≤ reserved l' ns d →
  committed l' ns d + reserved l' ns d ≤ q →
  within_quota ns d q l'.
Proof.
  intros [Hd Hq _ _ _] Hn ???. constructor; auto.
  - unfold namespaces_dense in *. by rewrite Hn.
  - unfold domain_quota in *. by rewrite Hn.
Qed.

Lemma domain_quota_add c l ns d :
  namespaces_dense l → is_Some (nss_ l !! ns) →
  domain_quota (add_namespace c l) ns d = domain_quota l ns d.
Proof.
  intros Hd [nc Hn]. unfold domain_quota. by rewrite (add_namespace_lookup c l ns nc), Hn.
Qed.

Lemma reserve_within_quota ns d q ns' d' b s :
  0 < q < two63 → 0 ≤ b ≤ two62 →
  within_quota ns d q (ledger s) →
  within_quota ns d q (ledger (reserve_amount ns' d' b s).2).
Proof.
  intros Hq Hb Hwq. destruct (decide (b = 0)) as [->|Hb0]; [done|].
  destruct (reserve_amount_run ns' d' b s Hb0) as (cap & m & _ & ->).
  destruct (_ && _); [done|]. destruct (_ && _) eqn:E; [done|]. simpl.
  destruct Hwq as [Hd [Hq' Hs] Hc Hr Hsum].
  assert (u64 (reserved (ledger s) ns d + b) = reserved (ledger s) ns d + b) as Hu.
  { apply u64_small. unfold is_u64, two64, two63, two62 in *. lia. }
  apply (within_quota_intro ns d q (ledger s)); [by constructor|done|..]; ledger_cells; try lia.
  - rewrite Hu. rewrite u64_small in E by (unfold is_u64, two64, two63, two62 in *; lia).
    apply andb_false_iff in E as [E|E]; bool_prop; lia.
Qed.

Lemma commit_within_quota ns d q ns' d' b s :
  0 < q < two63 → 0 ≤ b ≤ two62 →
  within_quota ns d q (ledger s) →
  within_quota ns d q (ledger (commit_amount ns' d' b s).2).
Proof.
  intros Hq Hb Hwq. unfold commit_amount, bind, get, ret, modify_ledger, modify.
  destruct (_ <? b) eqn:E; [done|]. simpl. pose proof Hwq as [Hd Hquota Hc Hr Hsum].
  apply (within_quota_intro ns d q (ledger s)); [done|..].
  - by rewrite nss_update_peak.
  - ledger_cells; [|lia]. apply u64_range.
  - ledger_cells; bool_prop; lia.
  - ledger_cells; bool_prop; [|lia].
    rewrite u64_small by (unfold is_u64, two64, two63, two62 in *; lia). lia.
Qed.

Lemma run_op_within_quota ns d q o s :
  0 < q < two63 → 0 ≤ op_bytes o ≤ two62 →
  within_quota ns d q (ledger s) → within_quota ns d q (ledger (run_op o s).2).
Proof.
  intros Hq Hb Hwq. pose proof Hwq as [Hd [Hquota Hsome] Hc Hr Hsum].
  destruct o as [ns' d' b|ns' d' b|ns' d' b|ns' d' b|ns' d' b p|ns' d' b|ns'|ns'|c];
    simpl in Hb; unfold run_op.
  - pose proof (reserve_within_quota ns d q ns' d' b s Hq Hb Hwq).
    unfold bind. by destruct (reserve_amount ns' d' b s).
  - pose proof (commit_within_quota ns d q ns' d' b s Hq Hb Hwq).
    unfold bind. by destruct (commit_amount ns' d' b s).
  - simpl. pose proof (sat_sub_le (reserved (ledger s) ns d) b).
    apply (within_quota_intro ns d q (ledger s)); [done..| | |]; ledger_cells; lia.
  - apply (within_quota_intro ns d q (ledger s)); [done..| | |]; simpl; ledger_cells; lia.
  - pose proof (sat_sub_le (committed (ledger s) ns d) b).
    unfold release_amount, bind, modify_ledger, modify.
    destruct p; apply (within_quota_intro ns d q (ledger s)); simpl; ledger_cells; done || lia.
  - pose proof (sat_sub_le (committed (ledger s) ns d) b).
    apply (within_quota_intro ns d q (ledger s)); [done..| | |]; simpl; ledger_cells; lia.
  - unfold reserve_count, bind, get, ret. destruct (_ && _); [done|]. simpl.
    apply (within_quota_intro ns d q (ledger s)); simpl; ledger_cells; done || lia.
  - unfold release_count, modify_ledger, modify. simpl. destruct (_ <? _); [|done].
    apply (within_quota_intro ns d q (ledger s)); simpl; ledger_cells; done || lia.
  - simpl. constructor; simpl; [by apply add_namespace_dense| |done..].
    rewrite domain_quota_add by done. split; [done|]. destruct Hsome as [nc Hn].
    eexists. by apply add_namespace_lookup.
Qed.

Lemma run_ops_within_quota ns d q ops s :
  0 < q < two63 → Forall (λ o, 0 ≤ op_bytes o ≤ two62) ops →
  within_quota ns d q (ledger s) → within_quota ns d q (ledger (run_ops ops s).2).
Proof.
  intros Hq Hops Hwq. apply (iterM_inv run_op ops (λ s, within_quota ns d q (ledger s))); [done|].
  intros o s' Ho. rewrite Forall_forall in Hops. by apply run_op_within_quota, Hops.
Qed.

End ledger_facts.

Section ledger_more.
Context {P : Platform}.
Implicit Types (s : RuntimeImpl) (l : Ledger).

(** The reservation cell grows by exactly the reserved amount; nothing else in
    the ledger changes. *)
Lemma reserve_ok_ledger ns d b s :
  is_u64 (reserved (ledger s) ns d + b) →
  is_ok (reserve_amount ns d b s).1 = true →
  ∀ ns' d',
  let l' := ledger (reserve_amount ns d b s).2 in
  reserved l' ns' d' = reserved (ledger s) ns' d' + (if decide ((ns, d) = (ns', d')) then b else 0)
  ∧ committed l' ns' d' = committed (ledger s) ns' d'
  ∧ allocated l' ns' d' = allocated (ledger s) ns' d'.
Proof.
  intros Hu Hok ns' d'. destruct (decide (b = 0)) as [->|Hb].
  { change (reserve_amount ns d 0 s) with (ok_status, s). simpl.
    case_decide; split_and!; lia || done. }
  destruct (reserve_amount_run ns d b s Hb) as (cap & m & _ & Hrun). revert Hok. cbv zeta.
  rewrite Hrun. destruct (_ && _); [done|]. destruct (_ && _); [done|]. intros _. simpl.
  rewrite u64_small by done. ledger_cells; split_and!; lia || done.
Qed.

Lemma commit_ok_ledger ns d b s :
  is_u64 (committed (ledger s) ns d + b) → is_u64 (allocated (ledger s) ns d + b) →
  b ≤ reserved (ledger s) ns d →
  is_ok (commit_amount ns d b s).1 = true
  ∧ ∀ ns' d', let l' := ledger (commit_amount ns d b s).2 in
  let delta := if decide ((ns, d) = (ns', d')) then b else 0 in
  reserved l' ns' d' = reserved (ledger s) ns' d' - delta
  ∧ committed l' ns' d' = committed (ledger s) ns' d' + delta
  ∧ allocated l' ns' d' = allocated (ledger s) ns' d' + delta.
Proof.
  intros Hc Ha Hb. unfold commit_amount, bind, get, ret, modify_ledger, modify.
  destruct (_ <? b) eqn:E; [bool_prop; lia|]. split; [done|]. intros ns' d'. simpl.
  rewrite (u64_small (committed _ _ _ + b)), (u64_small (allocated _ _ _ + b)) by done.
  ledger_cells; split_and!; lia || done.
Qed.

Lemma unreserve_ledger ns d b s ns' d' :
  b ≤ reserved (ledger s) ns d →
  let l' := ledger (unreserve_amount ns d b s).2 in
  reserved l' ns' d' = reserved (ledger s) ns' d' - (if decide ((ns, d) = (ns', d')) then b else 0)
  ∧ committed l' ns' d' = committed (ledger s) ns' d'
  ∧ allocated l' ns' d' = allocated (ledger s) ns' d'.
Proof.
  intros Hb. simpl. ledger_cells; rewrite ?sat_sub_exact by done; split_and!; lia || done.
Qed.

End ledger_more.

(** * Properties *)

Section ledger_properties.
Context {P : Platform}.

(** C23: a namespace never holds more than its byte quota in a domain: whatever
    sequence of accounting operations is run (by any interleaving of callers,
    new namespaces included), committed plus reserved bytes stay within the
    quota that was configured for the cell. *)
Theorem quota_never_exceeded (ns : Z) (d : MemoryDomain) (q : Z) (ops : list LedgerOp)
    (s : RuntimeImpl) :
  0 < q < two63 → Forall (λ o, 0 ≤ op_bytes o ≤ two62) ops →
  within_quota ns d q (ledger s) →
  let l' := ledger (run_ops ops s).2 in
  committed l' ns d + reserved l' ns d ≤ q ∧ domain_quota l' ns d = q
  ∧ 0 ≤ committed l' ns d ∧ 0 ≤ reserved l' ns d.
Proof.
  intros Hq Hops Hwq. destruct (run_ops_within_quota ns d q ops s Hq Hops Hwq) as [_ [? _] ???].
  done.
Qed.

(** Two-phase reservation. A granted reservation followed by its commit moves
    the bytes from "reserved" to "committed" and "allocated"; followed by its
    rollback it leaves every cell of the ledger as it was. No other cell moves. *)
Theorem reservation_two_phase (ns : Z) (d : MemoryDomain) (b : Z) (s : RuntimeImpl) :
  0 ≤ b → 0 ≤ reserved (ledger s) ns d → is_u64 (reserved (ledger s) ns d + b) →
  is_u64 (committed (ledger s) ns d + b) → is_u64 (allocated (ledger s) ns d + b) →
  is_ok (reserve_amount ns d b s).1 = true →
  (∀ ns' d', let l' := ledger ((reserve_amount ns d b ;;; commit_amount ns d b) s).2 in
     let delta := if decide ((ns, d) = (ns', d')) then b else 0 in
     reserved l' ns' d' = reserved (ledger s) ns' d'
     ∧ committed l' ns' d' = committed (ledger s) ns' d' + delta
     ∧ allocated l' ns' d' = allocated (ledger s) ns' d' + delta)
  ∧ (∀ ns' d', let l' := ledger ((reserve_amount ns d b ;;; unreserve_amount ns d b) s).2 in
     reserved l' ns' d' = reserved (ledger s) ns' d'
     ∧ committed l' ns' d' = committed (ledger s) ns' d'
     ∧ allocated l' ns' d' = allocated (ledger s) ns' d').
Proof.
  intros Hb Hr0 Hr Hc Ha Hok. pose proof (reserve_ok_ledger ns d b s Hr Hok) as Hres.
  unfold bind. destruct (reserve_amount ns d b s) as [r s1]. simpl in Hres.
  destruct (Hres ns d) as (Hr1 & Hc1 & Ha1). rewrite decide_True in Hr1 by done.
  split; intros ns' d'; destruct (Hres ns' d') as (Hr2 & Hc2 & Ha2).
  - destruct (commit_ok_ledger ns d b s1) as (_ & Hcom); [congruence|congruence|lia|].
    destruct (Hcom ns' d') as (-> & -> & ->). rewrite Hr2, Hc2, Ha2. split_and!; lia.
  - destruct (unreserve_ledger ns d b s1 ns' d') as (-> & -> & ->); [lia|].
    rewrite Hr2. split_and!; lia || done.
Qed.

(** A reservation is refused exactly when it would pass the domain capacity
    ([out_of_capacity]) or, the capacity sufficing, the namespace quota
    ([quota_exceeded], counted in [quota_rejections]); a refusal leaves the
    ledger untouched. *)
Theorem reserve_amount_outcome (ns : Z) (d : MemoryDomain) (b : Z) (s : RuntimeImpl) :
  b ≠ 0 →
  let need := committed (ledger s) ns d + reserved (ledger s) ns d + b in
  is_u64 need →
  let cap := (cap_for d s).1 in
  let quota := domain_quota (ledger s) ns d in
  let r := (reserve_amount ns d b s).1 in
  let s' := (reserve_amount ns d b s).2 in
  (error r = ErrorCode.out_of_capacity ↔ cap ≠ 0 ∧ cap < need)
  ∧ (error r = ErrorCode.quota_exceeded ↔ ¬ (cap ≠ 0 ∧ cap < need) ∧ quota ≠ 0 ∧ quota < need)
  ∧ (is_ok r = false → ledger s' = ledger s)
  ∧ (error r = ErrorCode.quota_exceeded →
       telem_ s' quota_rejections = u64 (telem_ s quota_rejections + 1)).
Proof.
  intros Hb need Hn. destruct (reserve_amount_run ns d b s Hb) as (cap & m & Hcap & Hrun).
  rewrite Hcap. cbv zeta. cbn [fst]. rewrite Hrun. fold need.
  rewrite (u64_small need) by done. generalize (domain_quota (ledger s) ns d) as quota.
  intros quota.
  assert (negb (cap =? 0) && (cap <? need) = true ↔ cap ≠ 0 ∧ cap < need) as H1.
  { rewrite andb_true_iff, negb_true_iff, Z.eqb_neq, Z.ltb_lt. done. }
  assert (negb (quota =? 0) && (quota <? need) = true ↔ quota ≠ 0 ∧ quota < need) as H2.
  { rewrite andb_true_iff, negb_true_iff, Z.eqb_neq, Z.ltb_lt. done. }
  rewrite <- H1, <- H2.
  destruct (negb (cap =? 0) && _); [by simpl; naive_solver|].
  destruct (negb (quota =? 0) && _); simpl; naive_solver.
Qed.

(** The reported peak is not the committed peak: the first commit of [b] bytes
    raises [peak_committed_] to [2 * b], since the code adds the allocated bytes
    to the committed bytes that already contain them. *)
Theorem peak_counts_committed_twice (ns : Z) (d : MemoryDomain) (b : Z) (s : RuntimeImpl) :
  committed (ledger s) ns d = 0 → allocated (ledger s) ns d = 0 →
  0 ≤ b < two63 → b ≤ reserved (ledger s) ns d → peak_committed_ (ledger s) < 2 * b →
  let l' := ledger (commit_amount ns d b s).2 in
  committed l' ns d = b ∧ peak_committed_ l' = 2 * b.
Proof.
  intros Hc Ha Hb Hr Hp. unfold commit_amount, bind, get, ret, modify_ledger, modify.
  destruct (_ <? b) eqn:E; [bool_prop; lia|]. simpl. rewrite Hc, Ha, !Z.add_0_l.
  rewrite (u64_small b), (u64_small (b + b)) by (unfold is_u64, two63, two64 in *; lia).
  split; [by ledger_cells|]. unfold update_peak. simpl.
  destruct (_ <? b + b) eqn:E2; bool_prop; simpl; lia.
Qed.

End ledger_properties.

(** A ledger with one quota: 8192 host bytes for the default namespace. *)
Definition sim_quota_ns : NamespaceConfig :=
  mkNamespaceConfig "default" 8192 0 0 0 0 2 ZeroingPolicy.ON_CROSS_OWNER_REUSE true true 0.
Definition sim_quota_state : RuntimeImpl := sim_bare RuntimeConfig_default sim_quota_ns.

Lemma sim_quota_within : within_quota kDefaultNamespace MemoryDomain.HOST 8192 (ledger sim_quota_state).
Proof.
  constructor; [|vm_compute; split; [done|by eexists]|by vm_compute..].
  intros i. simpl. rewrite map_size_singleton. rewrite lookup_singleton_is_Some.
  unfold kDefaultNamespace. lia.
Qed.

Lemma quota_never_exceeded_witness :
  let ops := [OpReserve 1 MemoryDomain.HOST 4096; OpCommit 1 MemoryDomain.HOST 4096;
              OpReserve 1 MemoryDomain.HOST 8192; OpReserve 1 MemoryDomain.HOST 4096] in
  let l' := ledger (run_ops ops sim_quota_state).2 in
  committed l' 1 MemoryDomain.HOST + reserved l' 1 MemoryDomain.HOST ≤ 8192
  ∧ domain_quota l' 1 MemoryDomain.HOST = 8192
  ∧ 0 ≤ committed l' 1 MemoryDomain.HOST ∧ 0 ≤ reserved l' 1 MemoryDomain.HOST.
Proof.
  apply (quota_never_exceeded 1 MemoryDomain.HOST 8192);
    [unfold two63; lia| |apply sim_quota_within].
  repeat constructor; unfold two62; simpl; lia.
Defined.

Lemma reservation_two_phase_witness :
  let s := sim_quota_state in
  committed (ledger ((reserve_amount 1 MemoryDomain.HOST 4096 ;;;
                      commit_amount 1 MemoryDomain.HOST 4096) s).2) 1 MemoryDomain.HOST = 4096
  ∧ reserved (ledger ((reserve_amount 1 MemoryDomain.HOST 4096 ;;;
                       unreserve_amount 1 MemoryDomain.HOST 4096) s).2) 1 MemoryDomain.HOST = 0.
Proof.
  destruct (reservation_two_phase 1 MemoryDomain.HOST 4096 sim_quota_state) as [H1 H2];
    [by vm_compute..|].
  split; [apply (H1 1 MemoryDomain.HOST)|apply (H2 1 MemoryDomain.HOST)].
Defined.

Lemma reserve_amount_outcome_witness :
  error (reserve_amount 1 MemoryDomain.HOST 9000 sim_quota_state).1 = ErrorCode.quota_exceeded.
Proof.
  destruct (reserve_amount_outcome 1 MemoryDomain.HOST 9000 sim_quota_state) as (_ & [_ H] & _);
    [done|by vm_compute|].
  apply H. vm_compute. split; [naive_solver|done].
Defined.

Lemma peak_counts_committed_twice_witness :
  let s := (reserve_amount 1 MemoryDomain.HOST 4096 sim_quota_state).2 in
  peak_committed_ (ledger (commit_amount 1 MemoryDomain.HOST 4096 s).2) = 2 * 4096.
Proof.
  apply (peak_counts_committed_twice 1 MemoryDomain.HOST 4096
           (reserve_amount 1 MemoryDomain.HOST 4096 sim_quota_state).2);
    by vm_compute.
Defined.
