(* ===== verification/Pool.v ===== *)
(** The bounded reuse pool of [RuntimeImpl] (src/runtime.cpp): size classes,
    pool keys, and the take, put and trim operations run under [pool_mtx_]. *)
From S2P Require Import Prelude Types Platform SharedBackend FileBackend State Sim Ledger.

(** ** Size classes *)

(** [while (cls < bytes && cls < max) cls <<= 1]: [None] when [fuel] rounds did
    not finish.  Sixty-four doublings clear every bit of a word, so a loop still
    running after 64 rounds never stops. *)
Fixpoint size_class_loop (fuel : nat) (cls bytes max : Z) : option Z :=
  if (cls <? bytes) && (cls <? max) then
    match fuel with
    | O => None
    | S fuel' => size_class_loop fuel' (u64 (Z.shiftl cls 1)) bytes max
    end
  else Some cls.
Definition pool_min (c : PoolConfig) : Z :=
  if min_class_size c =? 0 then 4096 else min_class_size c.
Definition pool_max (c : PoolConfig) : Z :=
  if max_class_size c =? 0 then 256 * 1024 * 1024 else max_class_size c.
Definition size_class_opt (c : PoolConfig) (bytes : Z) : option Z :=
  size_class_loop 64 (pool_min c) bytes (pool_max c).
(** [size_class_for]; requests are at most 2^48 bytes, where the loop ends. *)
Definition size_class_for (c : PoolConfig) (bytes : Z) : Z := default 0 (size_class_opt c bytes).

Definition make_pool_key (c : RuntimeConfig) (r : BufferRecord) : PoolKey :=
  mkPoolKey (rec_domain r) (rec_backend r) (rec_device r)
    (size_class_for (cfg_pool c) (rec_size r))
    (if rec_alignment r =? 0 then 1 else rec_alignment r)
    (exportable (rec_flags r)).

(** [cfg.enable_pool && cfg.pool.enabled]. *)
Definition pooling_on (c : RuntimeConfig) : bool := enable_pool c && pool_enabled (cfg_pool c).

(** [PoolKeyHash], over the [std::hash] of [int] and of [uint64_t], which the language
    leaves to the implementation. *)
Definition PoolKeyHash (hash_int hash_u64 : Z → Z) (k : PoolKey) : Z :=
  let h := hash_int (MemoryDomain.MemoryDomain_index (key_domain k)) in
  let h := u64 (u64 (h * 31) + hash_int (BackendId.BackendId_index (key_backend k))) in
  let h := u64 (u64 (h * 31) + hash_int (dev_index (key_device k))) in
  let h := u64 (u64 (h * 31) + hash_int (BackendId.BackendId_index (dev_backend (key_device k)))) in
  let h := u64 (u64 (h * 31) + hash_u64 (key_size_class k)) in
  let h := u64 (u64 (h * 31) + hash_u64 (key_alignment k)) in
  u64 (u64 (h * 31) + hash_int (if key_exportable k then 1 else 0)).

(** ** Buckets *)

Definition slot_bytes (sl : PoolSlot) : Z := na_committed (slot_backing sl).

(** The first slot of a bucket with at least [need] bytes, and the bucket without
    it: the search loop of [pool_take] with its [erase]. *)
Fixpoint take_first (need : Z) (dq : list PoolSlot) : option (PoolSlot * list PoolSlot) :=
  match dq with
  | [] => None
  | sl :: dq' =>
      if need <=? slot_bytes sl then Some (sl, dq')
      else match take_first need dq' with
           | Some (found, rest) => Some (found, sl :: rest)
           | None => None
           end
  end.

Definition bucket (p : Pool) (k : PoolKey) : list PoolSlot := default [] (pool_ p !! k).

Section pool.
Context {P : Platform}.

Definition pool_take (key : PoolKey) (owner : Z) (min_committed : Z)
    : M RuntimeImpl (option PoolSlot) :=
  let! s := get in
  let p := pool s in
  match pool_ p !! key with
  | None => ret None
  | Some dq =>
      match take_first min_committed dq with
      | None => ret None
      | Some (slot, rest) =>
          modify (set_pool (mkPool (<[key := rest]> (pool_ p))
                    (sat_sub (pool_idle_bytes_ p) (slot_bytes slot))
                    (if 0 <? pool_object_count_ p then pool_object_count_ p - 1
                     else pool_object_count_ p))) ;;;
          tick pool_hits ;;;
          ret (Some slot)
      end
  end.

(** The destructor of the object owned through [NativeAllocation::state]. *)
Definition drop_state (a : NativeAllocation) : M Machine unit :=
  shared_state_dtor (na_state a) ;;; file_state_dtor (na_state a).

(** [dom->free(a)] with its result ignored, and then the destruction of [a]. *)
Definition discard_with (dom : IDomain) (a : NativeAllocation) : M RuntimeImpl unit :=
  let! r := on_machine (IDomain.free dom a) in
  on_machine (drop_state r.2).
(** [if (dom) dom->free(a)] for [dom = domain(d)], and the destruction of [a]. *)
Definition discard_backing (d : MemoryDomain) (a : NativeAllocation) : M RuntimeImpl unit :=
  let! s := get in
  match domain s d with
  | Some dom => discard_with dom a
  | None => on_machine (drop_state a)
  end.

Definition pool_put (key : PoolKey) (slot : PoolSlot) : M RuntimeImpl bool :=
  let! s := get in
  let p := pool s in
  let pc := cfg_pool (cfg s) in
  let sz := slot_bytes slot in
  if (max_objects pc <=? pool_object_count_ p)
     || (max_idle_bytes pc <? u64 (pool_idle_bytes_ p + sz)) then
    tick pool_evictions ;;;
    discard_backing (key_domain key) (slot_backing slot) ;;;
    ret false
  else
    modify (set_pool (mkPool (<[key := bucket p key ++ [slot]]> (pool_ p))
              (u64 (pool_idle_bytes_ p + sz)) (u64 (pool_object_count_ p + 1)))) ;;;
    ret true.

Definition pool_size (s : RuntimeImpl) : Result Z :=
  Ok (u64 (sum_map (λ dq, Z.of_nat (length dq)) (pool_ (pool s)))).
Definition pool_bytes (s : RuntimeImpl) : Result Z := Ok (pool_idle_bytes_ (pool s)).

(** One round of the inner loop of [pool_trim] on the front slot of a bucket. *)
Definition pool_trim_slot (key : PoolKey) (slot : PoolSlot) : M RuntimeImpl unit :=
  discard_backing (key_domain key) (slot_backing slot) ;;;
  free_accounting (slot_last_owner slot) (key_domain key) (slot_bytes slot) ;;;
  modify (λ s, let p := pool s in
    set_pool (mkPool (<[key := tail (bucket p key)]> (pool_ p))
               (sat_sub (pool_idle_bytes_ p) (slot_bytes slot))
               (if 0 <? pool_object_count_ p then pool_object_count_ p - 1
                else pool_object_count_ p)) s).
Definition pool_trim_bucket (kd : PoolKey * list PoolSlot) : M RuntimeImpl unit :=
  iterM (pool_trim_slot kd.1) kd.2.
(** The outer loop visits the buckets in an unspecified order. *)
Definition pool_trim_over (entries : list (PoolKey * list PoolSlot)) : M RuntimeImpl Status :=
  iterM pool_trim_bucket entries ;;; ret ok_status.
Definition pool_trim : M RuntimeImpl Status :=
  let! s := get in pool_trim_over (map_to_list (pool_ (pool s))).
Definition pool_trim_to_zero : M RuntimeImpl unit := let! _ := pool_trim in ret tt.

End pool.

(** * Lemmas *)

(** ** Size classes *)

(** The least [min * 2^k] that is at least [bytes] or at least [max]. *)
Definition least_class (min bytes max cls : Z) : Prop :=
  ∃ k, 0 ≤ k ∧ cls = min * 2 ^ k ∧ (bytes ≤ cls ∨ max ≤ cls)
       ∧ ∀ j, 0 ≤ j < k → min * 2 ^ j < bytes ∧ min * 2 ^ j < max.

Lemma size_class_loop_spec fuel cls bytes max :
  0 < cls → bytes ≤ two63 → bytes ≤ cls * 2 ^ Z.of_nat fuel →
  ∃ k, 0 ≤ k ∧ size_class_loop fuel cls bytes max = Some (cls * 2 ^ k)
       ∧ (bytes ≤ cls * 2 ^ k ∨ max ≤ cls * 2 ^ k)
       ∧ ∀ j, 0 ≤ j < k → cls * 2 ^ j < bytes ∧ cls * 2 ^ j < max.
Proof.
  revert cls. induction fuel as [|fuel IH]; intros cls Hcls Hb Hfuel; simpl;
    destruct ((cls <? bytes) && (cls <? max)) eqn:E.
  1: { bool_prop. change (Z.of_nat 0) with 0 in Hfuel. lia. }
  1, 3: exists 0; rewrite Z.mul_1_r; split_and!; [lia|done| |lia];
    apply andb_false_iff in E as [E|E]; bool_prop; auto.
  bool_prop.
  assert (u64 (Z.shiftl cls 1) = cls * 2) as ->.
  { rewrite Z.shiftl_mul_pow2 by lia. apply u64_small. unfold is_u64, two64, two63 in *. lia. }
  destruct (IH (cls * 2)) as (k & Hk & Heq & Hend & Hmin); [lia|done| |].
  { rewrite Nat2Z.inj_succ, Z.pow_succ_r in Hfuel by lia. lia. }
  assert (cls * 2 * 2 ^ k = cls * 2 ^ (k + 1)) as Hp by (rewrite Z.pow_add_r by lia; lia).
  exists (k + 1). rewrite <- Hp. split_and!; [lia|done|done|].
  intros j Hj. destruct (decide (j = 0)) as [->|Hj0]; [rewrite Z.mul_1_r; done|].
  specialize (Hmin (j - 1) ltac:(lia)).
  assert (cls * 2 * 2 ^ (j - 1) = cls * 2 ^ j) as Hq; [|by rewrite Hq in Hmin].
  replace j with ((j - 1) + 1) at 2 by lia. rewrite Z.pow_add_r by lia. lia.
Qed.

(** ** Buckets *)

Definition bucket_bytes (dq : list PoolSlot) : Z := sum_list slot_bytes dq.

Lemma take_first_Some need dq sl rest :
  take_first need dq = Some (sl, rest) →
  ∃ l1 l2, dq = l1 ++ sl :: l2 ∧ rest = l1 ++ l2 ∧ need ≤ slot_bytes sl
           ∧ Forall (λ x, slot_bytes x < need) l1.
Proof.
  revert sl rest. induction dq as [|x dq IH]; intros sl rest; simpl; [done|].
  destruct (_ <=? _) eqn:E; bool_prop.
  - intros [= <- <-]. by exists [], dq.
  - destruct (take_first need dq) as [[found r]|]; [|done]. intros [= <- <-].
    destruct (IH _ _ eq_refl) as (l1 & l2 & -> & -> & Hn & Hl).
    exists (x :: l1), l2. split_and!; [done..|]. constructor; [lia|done].
Qed.
Lemma take_first_None need dq :
  take_first need dq = None ↔ Forall (λ x, slot_bytes x < need) dq.
Proof.
  induction dq as [|x dq IH]; simpl; [by split|]. rewrite Forall_cons, <- IH.
  destruct (_ <=? _) eqn:E; bool_prop; [split; [done|lia]|].
  destruct (take_first need dq) as [[]|]; naive_solver.
Qed.
Lemma take_first_app need dq sl :
  Forall (λ x, slot_bytes x < need) dq → need ≤ slot_bytes sl →
  take_first need (dq ++ [sl]) = Some (sl, dq).
Proof.
  intros Hdq Hn. induction Hdq as [|x dq Hx _ IH]; simpl.
  - by destruct (_ <=? _) eqn:E; bool_prop; [|lia].
  - destruct (_ <=? _) eqn:E; bool_prop; [lia|]. by rewrite IH.
Qed.

(** ** The invariant of the pool

    The two counters are the sizes they stand for, and within the limits. *)
Definition total_bytes (m : gmap PoolKey (list PoolSlot)) : Z := sum_map bucket_bytes m.
Definition total_slots (m : gmap PoolKey (list PoolSlot)) : Z :=
  sum_map (λ dq, Z.of_nat (length dq)) m.
Record pool_ok (pc : PoolConfig) (p : Pool) : Prop := {
  po_bytes : pool_idle_bytes_ p = total_bytes (pool_ p);
  po_count : pool_object_count_ p = total_slots (pool_ p);
  po_slots : ∀ k sl, sl ∈ bucket p k → 0 ≤ slot_bytes sl < two62;
  po_max_bytes : pool_idle_bytes_ p ≤ max_idle_bytes pc;
  po_max_count : pool_object_count_ p ≤ max_objects pc }.

Lemma bucket_bytes_app l1 l2 : bucket_bytes (l1 ++ l2) = bucket_bytes l1 + bucket_bytes l2.
Proof. apply sum_list_app. Qed.
Lemma bucket_bytes_cons sl l : bucket_bytes (sl :: l) = slot_bytes sl + bucket_bytes l.
Proof. done. Qed.

(** Replacing one bucket. *)
Lemma total_replace (f : list PoolSlot → Z) (m : gmap PoolKey (list PoolSlot)) k dq :
  f [] = 0 → sum_map f (<[k := dq]> m) = sum_map f m - f (default [] (m !! k)) + f dq.
Proof.
  intros Hf. destruct (m !! k) as [old|] eqn:E; simpl.
  - by rewrite (sum_map_update f m k old dq).
  - rewrite sum_map_insert, Hf by done. lia.
Qed.
Lemma total_bytes_replace m k dq :
  total_bytes (<[k := dq]> m) = total_bytes m - bucket_bytes (default [] (m !! k)) + bucket_bytes dq.
Proof. by apply total_replace. Qed.
Lemma total_slots_replace m k dq :
  total_slots (<[k := dq]> m)
  = total_slots m - Z.of_nat (length (default [] (m !! k))) + Z.of_nat (length dq).
Proof. by apply total_replace. Qed.
Lemma bucket_replace m n1 n2 k dq k' :
  bucket (mkPool (<[k := dq]> m) n1 n2) k' = if decide (k = k') then dq else default [] (m !! k').
Proof. unfold bucket. simpl. rewrite lookup_insert. by case_decide. Qed.

Lemma bucket_bytes_nonneg dq : (∀ sl, sl ∈ dq → 0 ≤ slot_bytes sl) → 0 ≤ bucket_bytes dq.
Proof. apply sum_list_nonneg. Qed.

Lemma total_bytes_ge p k :
  (∀ k sl, sl ∈ bucket p k → 0 ≤ slot_bytes sl) → bucket_bytes (bucket p k) ≤ total_bytes (pool_ p).
Proof.
  intros Hs. assert (∀ k' dq, pool_ p !! k' = Some dq → 0 ≤ bucket_bytes dq) as Hnn.
  { intros k' dq Hk'. apply bucket_bytes_nonneg. intros sl Hsl. apply (Hs k').
    unfold bucket. by rewrite Hk'. }
  unfold bucket. destruct (pool_ p !! k) as [dq|] eqn:E; simpl.
  - by apply (sum_map_ge bucket_bytes _ k).
  - by apply sum_map_nonneg.
Qed.
Lemma total_slots_ge p k : Z.of_nat (length (bucket p k)) ≤ total_slots (pool_ p).
Proof.
  unfold bucket. destruct (pool_ p !! k) as [dq|] eqn:E; simpl.
  - apply (sum_map_ge (λ dq, Z.of_nat (length dq)) _ k); [lia|done].
  - apply sum_map_nonneg. lia.
Qed.
Lemma slot_le_bucket sl dq :
  sl ∈ dq → (∀ x, x ∈ dq → 0 ≤ slot_bytes x) → slot_bytes sl ≤ bucket_bytes dq.
Proof.
  intros Hin Hnn. apply elem_of_Permutation in Hin as [l Hl]. unfold bucket_bytes.
  rewrite (sum_list_perm _ _ _ Hl). change (slot_bytes sl ≤ slot_bytes sl + bucket_bytes l).
  assert (0 ≤ bucket_bytes l); [|lia]. apply bucket_bytes_nonneg. intros x Hx. apply Hnn.
  rewrite Hl. by right.
Qed.

Section pool_operations.
Context {P : Platform}.
Implicit Types s : RuntimeImpl.

(** The pool is untouched, as is what the pool operations read. *)
Record pool_frame s s' : Prop := {
  pf_pool : pool s' = pool s; pf_cfg : cfg s' = cfg s; pf_backends : backends s' = backends s;
  pf_leaked : leaked s' = leaked s }.
Lemma pool_frame_refl s : pool_frame s s.
Proof. done. Qed.
Lemma pool_frame_trans s1 s2 s3 : pool_frame s1 s2 → pool_frame s2 s3 → pool_frame s1 s3.
Proof. intros [] []. constructor; congruence. Qed.
Lemma on_machine_pool {A} (f : M Machine A) s : pool_frame s (on_machine f s).2.
Proof. unfold on_machine. by destruct (f (machine s)). Qed.
Lemma discard_backing_pool d a s : pool_frame s (discard_backing d a s).2.
Proof.
  unfold discard_backing, discard_with. rewrite bind_run. cbn [fst snd get].
  destruct (domain s d) as [dom|]; [|exact (on_machine_pool (drop_state a) s)]. rewrite bind_run.
  eapply pool_frame_trans; [exact (on_machine_pool (IDomain.free dom a) s)|].
  exact (on_machine_pool (drop_state _) _).
Qed.

(** [pool_take] in one step. *)
Lemma pool_take_run key owner need s :
  pool_take key owner need s =
    match take_first need (bucket (pool s) key) with
    | None => (None, s)
    | Some (sl, rest) =>
        (Some sl, (tick pool_hits (set_pool (mkPool (<[key := rest]> (pool_ (pool s)))
           (sat_sub (pool_idle_bytes_ (pool s)) (slot_bytes sl))
           (if 0 <? pool_object_count_ (pool s) then pool_object_count_ (pool s) - 1
            else pool_object_count_ (pool s))) s)).2)
    end.
Proof.
  unfold pool_take, bucket. rewrite bind_run. cbn [fst snd get]. cbv zeta.
  destruct (pool_ (pool s) !! key) as [dq|]; simpl; [|done].
  by destruct (take_first need dq) as [[sl rest]|].
Qed.

(** Removing a slot of a bucket keeps the invariant. *)
Lemma pool_ok_remove pc p key sl dq :
  pool_ok pc p → bucket p key ≡ₚ sl :: dq →
  pool_ok pc (mkPool (<[key := dq]> (pool_ p)) (sat_sub (pool_idle_bytes_ p) (slot_bytes sl))
               (if 0 <? pool_object_count_ p then pool_object_count_ p - 1
                else pool_object_count_ p)).
Proof.
  intros [H1 H2 H3 H4 H5] Hp.
  assert (∀ k sl, sl ∈ bucket p k → 0 ≤ slot_bytes sl) as Hnn by (intros k x Hx; apply (H3 k x Hx)).
  assert (bucket_bytes (bucket p key) = slot_bytes sl + bucket_bytes dq) as Hb.
  { unfold bucket_bytes. by rewrite (sum_list_perm _ _ _ Hp). }
  assert (length (bucket p key) = S (length dq)) as Hlen by by rewrite Hp.
  pose proof (total_bytes_ge p key Hnn). pose proof (total_slots_ge p key).
  assert (0 ≤ slot_bytes sl) by (apply (Hnn key); rewrite Hp; left).
  assert (0 ≤ bucket_bytes dq).
  { apply bucket_bytes_nonneg. intros x Hx. apply (Hnn key). rewrite Hp. by right. }
  destruct (0 <? pool_object_count_ p) eqn:Hc; bool_prop; [|lia].
  constructor; cbn [pool_ pool_idle_bytes_ pool_object_count_].
  - rewrite total_bytes_replace, sat_sub_exact by lia. unfold bucket in *. lia.
  - rewrite total_slots_replace. unfold bucket in *. lia.
  - intros k x. rewrite bucket_replace. case_decide as Hk; [|by apply (H3 k)].
    intros Hx. subst k. apply (H3 key). rewrite Hp. by right.
  - rewrite sat_sub_exact by lia. lia.
  - lia.
Qed.

Lemma pool_take_ok key owner need s :
  pool_ok (cfg_pool (cfg s)) (pool s) →
  pool_ok (cfg_pool (cfg s)) (pool (pool_take key owner need s).2).
Proof.
  intros Hok. rewrite pool_take_run.
  destruct (take_first need _) as [[sl rest]|] eqn:E; [|done].
  apply take_first_Some in E as (l1 & l2 & Hdq & -> & _). simpl.
  apply pool_ok_remove; [done|]. rewrite Hdq. by rewrite Permutation_middle.
Qed.

Lemma pool_put_ok key sl s :
  0 ≤ slot_bytes sl < two62 → max_idle_bytes (cfg_pool (cfg s)) < two62 →
  max_objects (cfg_pool (cfg s)) < two62 →
  pool_ok (cfg_pool (cfg s)) (pool s) →
  pool_ok (cfg_pool (cfg s)) (pool (pool_put key sl s).2).
Proof.
  intros Hsl Hmax Hobj Hok. unfold pool_put. rewrite bind_run. cbn [fst snd get]. cbv zeta.
  destruct (_ || _) eqn:E.
  - rewrite !bind_run. cbn [ret fst snd].
    by rewrite (pf_pool _ _ (discard_backing_pool _ _ _)).
  - bool_prop. pose proof Hok as [H1 H2 H3 H4 H5].
    assert (∀ k x, x ∈ bucket (pool s) k → 0 ≤ slot_bytes x) as Hnn by (intros k x Hx; apply (H3 k x Hx)).
    pose proof (total_bytes_ge (pool s) key Hnn). pose proof (total_slots_ge (pool s) key).
    assert (0 ≤ bucket_bytes (bucket (pool s) key)).
    { apply bucket_bytes_nonneg. intros x. apply Hnn. }
    assert (u64 (pool_idle_bytes_ (pool s) + slot_bytes sl) = pool_idle_bytes_ (pool s) + slot_bytes sl)
      as Hu by (apply u64_small; unfold is_u64, two64, two62 in *; lia).
    rewrite Hu in *. rewrite bind_run. cbn [ret fst snd modify pool set_pool].
    rewrite (u64_small (_ + 1)) by (unfold is_u64, two64, two62 in *; lia).
    constructor; cbn [pool_ pool_idle_bytes_ pool_object_count_].
    + rewrite total_bytes_replace, bucket_bytes_app, bucket_bytes_cons. unfold bucket in *.
      change (bucket_bytes []) with 0. lia.
    + rewrite total_slots_replace, length_app. simpl. unfold bucket in *. lia.
    + intros k x. rewrite bucket_replace. case_decide as Hk; [|by apply (H3 k)].
      rewrite elem_of_app, list_elem_of_singleton. intros [Hx| ->]; [subst k; by apply (H3 key)|done].
    + lia.
    + lia.
Qed.

(** ** Trimming *)

Lemma pool_trim_slot_pool key sl s :
  let s' := (pool_trim_slot key sl s).2 in
  cfg s' = cfg s ∧
  pool s' = mkPool (<[key := tail (bucket (pool s) key)]> (pool_ (pool s)))
              (sat_sub (pool_idle_bytes_ (pool s)) (slot_bytes sl))
              (if 0 <? pool_object_count_ (pool s) then pool_object_count_ (pool s) - 1
               else pool_object_count_ (pool s)).
Proof.
  cbv zeta. unfold pool_trim_slot. rewrite !bind_run.
  destruct (discard_backing_pool (key_domain key) (slot_backing sl) s) as [Hp Hc _ _].
  set (s1 := (discard_backing _ _ s).2) in *. set (s2 := (free_accounting _ _ _ s1).2).
  assert (pool s2 = pool s1) as H2 by done. assert (cfg s2 = cfg s1) as H2c by done.
  cbn [modify snd pool set_pool cfg]. rewrite H2, H2c, Hp, Hc. done.
Qed.

(** An invariant of the state that discarding the front slot of a bucket keeps. *)
Definition trim_invariant (I : RuntimeImpl → Prop) : Prop :=
  ∀ key sl rest s, bucket (pool s) key = sl :: rest → I s → I (pool_trim_slot key sl s).2.

Lemma pool_trim_bucket_inv I key dq s :
  trim_invariant I → I s → bucket (pool s) key = dq →
  let s' := (pool_trim_bucket (key, dq) s).2 in
  I s' ∧ (∀ k, bucket (pool s') k = if decide (key = k) then [] else bucket (pool s) k).
Proof.
  intros HI. revert s. induction dq as [|sl dq IH]; intros s Hs Hb; cbv zeta.
  - split; [done|]. intros k. by case_decide; [subst k|].
  - unfold pool_trim_bucket. simpl. rewrite bind_run.
    pose proof (HI key sl dq s Hb Hs) as Hs1.
    destruct (pool_trim_slot_pool key sl s) as [_ Hpool]. set (s1 := (pool_trim_slot key sl s).2) in *.
    rewrite Hb in Hpool. simpl in Hpool.
    destruct (IH s1 Hs1) as [Hs' Hbk].
    { rewrite Hpool, bucket_replace. by rewrite decide_True. }
    split; [exact Hs'|]. intros k. unfold pool_trim_bucket in Hbk. simpl in Hbk. rewrite Hbk.
    case_decide as Hk; [done|]. rewrite Hpool, bucket_replace. by rewrite decide_False.
Qed.

Lemma pool_trim_over_inv I entries s :
  trim_invariant I → I s → NoDup entries.*1 →
  (∀ k dq, (k, dq) ∈ entries → bucket (pool s) k = dq) →
  let s' := (pool_trim_over entries s).2 in
  I s' ∧ ∀ k, bucket (pool s') k = if decide (k ∈ entries.*1) then [] else bucket (pool s) k.
Proof.
  intros HI. revert s. induction entries as [|[key dq] entries IH]; intros s Hs Hnd Hb; cbv zeta.
  - split; [done|]. intros k. rewrite decide_False; [done|]. apply not_elem_of_nil.
  - unfold pool_trim_over. cbn [iterM]. rewrite bind_run, bind_run.
    destruct (pool_trim_bucket_inv I key dq s HI Hs) as [Hs1 Hb1]; [apply Hb; by left|].
    set (s1 := (pool_trim_bucket (key, dq) s).2) in *. cbn [fmap list_fmap fst] in Hnd.
    apply NoDup_cons in Hnd as [Hnin Hnd].
    destruct (IH s1 Hs1 Hnd) as [Hs2 Hb2].
    { intros k dq' Hin. rewrite Hb1. rewrite decide_False; [apply Hb; by right|].
      intros ->. apply Hnin. apply list_elem_of_fmap. by exists (k, dq'). }
    unfold pool_trim_over in Hs2, Hb2. rewrite bind_run in Hs2, Hb2. split; [exact Hs2|].
    intros k. rewrite Hb2, Hb1. cbn [fmap list_fmap fst].
    destruct (decide (k ∈ entries.*1)) as [Hin|Hnin'].
    + rewrite decide_True; [done|by right].
    + destruct (decide (key = k)) as [->|Hne]; [by rewrite decide_True by left|].
      rewrite decide_False; [done|]. rewrite elem_of_cons. naive_solver.
Qed.
(** [pool_trim] keeps every such invariant and leaves every bucket empty. *)
Lemma pool_trim_inv I s :
  trim_invariant I → I s → I (pool_trim s).2 ∧ ∀ k, bucket (pool (pool_trim s).2) k = [].
Proof.
  intros HI Hs. unfold pool_trim. rewrite bind_run. cbn [fst snd get].
  destruct (pool_trim_over_inv I (map_to_list (pool_ (pool s))) s HI Hs) as [H1 H2].
  - apply NoDup_fst_map_to_list.
  - intros k dq Hin. apply elem_of_map_to_list in Hin. unfold bucket. by rewrite Hin.
  - split; [done|]. intros k. rewrite H2. case_decide as Hin; [done|]. unfold bucket.
    destruct (pool_ (pool s) !! k) as [dq|] eqn:E; [|done]. exfalso. apply Hin.
    apply list_elem_of_fmap. exists (k, dq). split; [done|]. by apply elem_of_map_to_list.
Qed.
Lemma pool_ok_trim pc : trim_invariant (λ s, pool_ok pc (pool s)).
Proof.
  intros key sl rest s Hb Hok. destruct (pool_trim_slot_pool key sl s) as [_ Hpool].
  rewrite Hb in Hpool. simpl in Hpool. rewrite Hpool. apply pool_ok_remove; [done|]. by rewrite Hb.
Qed.

Lemma empty_buckets p :
  (∀ k, bucket p k = []) → total_bytes (pool_ p) = 0 ∧ total_slots (pool_ p) = 0.
Proof.
  intros Hb. unfold total_bytes, total_slots. rewrite !sum_map_list.
  assert (∀ k dq, (k, dq) ∈ map_to_list (pool_ p) → dq = []) as Hall.
  { intros k dq Hin. apply elem_of_map_to_list in Hin. specialize (Hb k). unfold bucket in Hb.
    by rewrite Hin in Hb. }
  induction (map_to_list (pool_ p)) as [|[k dq] l IH]; [done|].
  assert (dq = []) as -> by (apply (Hall k); by left).
  destruct IH as [IH1 IH2]; [intros k' dq' Hin; apply (Hall k'); by right|].
  unfold sum_list in *. simpl. rewrite IH1, IH2. done.
Qed.
End pool_operations.

(** Sequences of pool operations. *)
Inductive PoolOp : Set :=
  | PoTake (key : PoolKey) (owner need : Z)
  | PoPut (key : PoolKey) (slot : PoolSlot)
  | PoTrim.
Definition run_pool_op `{P : Platform} (o : PoolOp) : M RuntimeImpl unit :=
  match o with
  | PoTake key owner need => let! _ := pool_take key owner need in ret tt
  | PoPut key slot => let! _ := pool_put key slot in ret tt
  | PoTrim => pool_trim_to_zero
  end.
Definition run_pool_ops `{P : Platform} : list PoolOp → M RuntimeImpl unit := iterM run_pool_op.
(** A slot put into the pool holds a sane number of bytes. *)
Definition pool_op_ok (o : PoolOp) : Prop :=
  match o with PoPut _ sl => 0 ≤ slot_bytes sl < two62 | _ => True end.

Section pool_sequences.
Context {P : Platform}.
Implicit Types s : RuntimeImpl.

Lemma pool_trim_ok pc s :
  pool_ok pc (pool s) → pool_ok pc (pool (pool_trim s).2) ∧ ∀ k, bucket (pool (pool_trim s).2) k = [].
Proof. apply (pool_trim_inv (λ s, pool_ok pc (pool s))), pool_ok_trim. Qed.
Lemma run_pool_op_cfg o s : cfg (run_pool_op o s).2 = cfg s.
Proof.
  destruct o as [key owner need|key sl|]; unfold run_pool_op, pool_trim_to_zero;
    rewrite bind_run; cbn [ret snd].
  - rewrite pool_take_run. by destruct (take_first _ _) as [[]|].
  - unfold pool_put. rewrite bind_run. cbn [fst snd get]. cbv zeta.
    destruct (_ || _); [|done]. rewrite !bind_run. cbn [ret snd].
    by rewrite (pf_cfg _ _ (discard_backing_pool _ _ _)).
  - unfold pool_trim, pool_trim_over. rewrite !bind_run. cbn [fst snd get ret].
    apply (iterM_inv _ _ (λ s', cfg s' = cfg s)); [done|]. intros [k dq] s1 _ Hs1.
    apply (iterM_inv _ _ (λ s', cfg s' = cfg s)); [done|]. intros sl s2 _ Hs2.
    exact (eq_trans (proj1 (pool_trim_slot_pool k sl s2)) Hs2).
Qed.
Lemma run_pool_ops_ok ops s :
  max_idle_bytes (cfg_pool (cfg s)) < two62 → max_objects (cfg_pool (cfg s)) < two62 →
  Forall pool_op_ok ops → pool_ok (cfg_pool (cfg s)) (pool s) →
  pool_ok (cfg_pool (cfg s)) (pool (run_pool_ops ops s).2).
Proof.
  intros Hb Hc Hops Hok.
  apply (iterM_inv run_pool_op ops (λ s', cfg s' = cfg s ∧ pool_ok (cfg_pool (cfg s)) (pool s')));
    [done|].
  intros o s' Ho [Hcfg Hok']. rewrite run_pool_op_cfg. split; [done|].
  rewrite Forall_forall in Hops. specialize (Hops o Ho). rewrite <- Hcfg in *.
  destruct o as [key owner need|key sl|]; unfold run_pool_op, pool_trim_to_zero;
    rewrite bind_run; cbn [ret snd].
  - by apply pool_take_ok.
  - by apply pool_put_ok.
  - by apply pool_trim_ok.
Qed.
End pool_sequences.

(** * Properties *)

Section pool_properties.
Context {P : Platform}.

(** C24: the pool is bounded and its counters are exact. Whatever sequence of takes,
    puts and trims is run, [pool_bytes] is the sum of the bytes of all idle slots,
    the object count is their number, and both stay within the configured limits. *)
Theorem pool_bounded_and_exact (ops : list PoolOp) (s : RuntimeImpl) :
  let pc := cfg_pool (cfg s) in
  max_idle_bytes pc < two62 → max_objects pc < two62 → Forall pool_op_ok ops →
  pool_ok pc (pool s) →
  let p' := pool (run_pool_ops ops s).2 in
  pool_idle_bytes_ p' = total_bytes (pool_ p') ∧ pool_idle_bytes_ p' ≤ max_idle_bytes pc
  ∧ pool_object_count_ p' = total_slots (pool_ p') ∧ pool_object_count_ p' ≤ max_objects pc.
Proof. intros pc Hb Hc Hops Hok. by destruct (run_pool_ops_ok ops s Hb Hc Hops Hok). Qed.

(** A taken slot fits. [pool_take] returns the first slot of the bucket of the
    requested compatibility key that holds enough bytes and removes exactly that
    slot; it returns none exactly when no slot of the bucket is large enough, and
    then changes nothing. *)
Theorem pool_take_correct (key : PoolKey) (owner need : Z) (s : RuntimeImpl) :
  let s' := (pool_take key owner need s).2 in
  match (pool_take key owner need s).1 with
  | Some sl =>
      need ≤ slot_bytes sl
      ∧ (∃ l1 l2, bucket (pool s) key = l1 ++ sl :: l2 ∧ bucket (pool s') key = l1 ++ l2
                  ∧ Forall (λ x, slot_bytes x < need) l1)
      ∧ (∀ k, k ≠ key → bucket (pool s') k = bucket (pool s) k)
      ∧ telem_ s' pool_hits = u64 (telem_ s pool_hits + 1)
  | None => Forall (λ x, slot_bytes x < need) (bucket (pool s) key) ∧ s' = s
  end.
Proof.
  cbv zeta. rewrite pool_take_run. destruct (take_first need _) as [[sl rest]|] eqn:E; cbn [fst snd].
  - apply take_first_Some in E as (l1 & l2 & Hdq & -> & Hn & Hl). split_and!; [done| | |done].
    + exists l1, l2. split_and!; [done| |done]. simpl. rewrite bucket_replace. by rewrite decide_True.
    + intros k Hk. simpl. rewrite bucket_replace. by rewrite decide_False.
  - by apply take_first_None in E.
Qed.

(** What goes into the pool comes out: a slot accepted by [pool_put] is handed
    back by the next fitting [pool_take] of the same key (if no older slot fits),
    and the pair restores the idle bytes, the object count and every bucket. *)
Theorem pool_put_take_round_trip (key : PoolKey) (sl : PoolSlot) (owner need : Z) (s : RuntimeImpl) :
  (pool_put key sl s).1 = true →
  0 ≤ pool_object_count_ (pool s) < two62 → 0 ≤ pool_idle_bytes_ (pool s) < two62 →
  0 ≤ slot_bytes sl < two62 → need ≤ slot_bytes sl →
  Forall (λ x, slot_bytes x < need) (bucket (pool s) key) →
  let s1 := (pool_put key sl s).2 in
  let s2 := (pool_take key owner need s1).2 in
  (pool_take key owner need s1).1 = Some sl
  ∧ pool_idle_bytes_ (pool s2) = pool_idle_bytes_ (pool s)
  ∧ pool_object_count_ (pool s2) = pool_object_count_ (pool s)
  ∧ ∀ k, bucket (pool s2) k = bucket (pool s) k.
Proof.
  intros Hput Hc Hb Hsl Hn Hdq. cbv zeta. revert Hput. unfold pool_put at 1 2 3 4 5.
  rewrite bind_run. cbn [fst snd get]. cbv zeta. destruct (_ || _) eqn:E.
  { rewrite !bind_run. by cbn [ret fst]. }
  intros _. rewrite bind_run. cbn [ret fst snd modify]. rewrite pool_take_run.
  cbn [pool set_pool pool_ pool_idle_bytes_ pool_object_count_].
  rewrite bucket_replace, decide_True by done.
  rewrite take_first_app by done.
  rewrite !u64_small by (unfold is_u64, two64, two62 in *; lia).
  cbn [fst snd]. split_and!; [done| | |].
  - simpl. rewrite sat_sub_exact; lia.
  - simpl. destruct (0 <? _) eqn:E2; bool_prop; lia.
  - intros k. simpl. rewrite bucket_replace. case_decide as Hk; [by subst k|].
    rewrite lookup_insert_ne by done. done.
Qed.

(** C37: trimming empties the pool, whatever the order in which the hash table lists
    its buckets: afterwards every bucket is empty, and [pool_size] and
    [pool_bytes] report zero. *)
Theorem pool_trim_empties (pc : PoolConfig) (s : RuntimeImpl) (entries : list (PoolKey * list PoolSlot)) :
  pool_ok pc (pool s) → entries ≡ₚ map_to_list (pool_ (pool s)) →
  let s' := (pool_trim_over entries s).2 in
  (∀ k, bucket (pool s') k = []) ∧ pool_bytes s' = Ok 0 ∧ pool_size s' = Ok 0.
Proof.
  intros Hok Hp. cbv zeta. destruct (pool_trim_over_inv _ entries s (pool_ok_trim pc) Hok) as [Hok' Hb].
  - rewrite Hp. apply NoDup_fst_map_to_list.
  - intros k dq. rewrite Hp. intros Hin. apply elem_of_map_to_list in Hin. unfold bucket.
    by rewrite Hin.
  - assert (∀ k, bucket (pool (pool_trim_over entries s).2) k = []) as Hall.
    { intros k. rewrite Hb. case_decide as Hin; [done|]. unfold bucket.
      destruct (pool_ (pool s) !! k) as [dq|] eqn:E; [|done]. exfalso. apply Hin.
      apply list_elem_of_fmap. exists (k, dq). split; [done|]. rewrite Hp.
      by apply elem_of_map_to_list. }
    destruct (empty_buckets _ Hall) as [H1 H2]. destruct Hok' as [Hi _ _ _ _].
    split_and!; [done| |]; unfold pool_bytes, pool_size; f_equal.
    + by rewrite Hi.
    + unfold total_slots in H2. by rewrite H2.
Qed.

End pool_properties.

(** Size classes. For every request of at most 2^63 bytes (allocations are
    limited to 2^48) the doubling loop of [size_class_for] ends, and gives the
    least [min * 2^k] that is at least the request or at least the maximum class. *)
Theorem size_class_for_correct (c : PoolConfig) (bytes : Z) :
  0 ≤ min_class_size c → bytes ≤ two63 →
  ∃ cls, size_class_opt c bytes = Some cls ∧ size_class_for c bytes = cls
         ∧ least_class (pool_min c) bytes (pool_max c) cls.
Proof.
  intros Hm Hb. assert (0 < pool_min c) as Hmin.
  { unfold pool_min. destruct (_ =? 0) eqn:E; bool_prop; lia. }
  destruct (size_class_loop_spec 64 (pool_min c) bytes (pool_max c) Hmin Hb) as (k & Hk & Heq & H1 & H2).
  { change (2 ^ Z.of_nat 64) with two64. unfold two63, two64 in *. nia. }
  unfold size_class_for, size_class_opt. rewrite Heq. eexists. split_and!; [done..|].
  exists k. done.
Qed.

Definition sim_key : PoolKey :=
  mkPoolKey MemoryDomain.HOST BackendId.HOST_MALLOC DeviceId_default 8192 64 false.
Definition sim_slot : PoolSlot :=
  mkPoolSlot (mkNativeAllocation 4096 4096 8192 8192 64 DeviceId_default MemoryDomain.HOST
                BackendId.HOST_MALLOC None) (mkBufferId 1 1) 1 false.
Definition sim_pool_state : RuntimeImpl := sim_bare RuntimeConfig_default NamespaceConfig_default.
Lemma sim_pool_ok : pool_ok (cfg_pool (cfg sim_pool_state)) (pool sim_pool_state).
Proof.
  constructor; [by vm_compute..| |by vm_compute|by vm_compute]. intros k sl Hin. unfold bucket in Hin.
  simpl in Hin. rewrite lookup_empty in Hin. by apply not_elem_of_nil in Hin.
Qed.
Lemma sim_slot_ok : 0 ≤ slot_bytes sim_slot < two62.
Proof. by vm_compute. Qed.

Lemma pool_bounded_and_exact_witness :
  pool_idle_bytes_ (pool (run_pool_ops [PoPut sim_key sim_slot; PoTake sim_key 1 100;
                                        PoPut sim_key sim_slot] sim_pool_state).2)
  ≤ 256 * 1024 * 1024.
Proof.
  refine (proj1 (proj2 (pool_bounded_and_exact
    [PoPut sim_key sim_slot; PoTake sim_key 1 100; PoPut sim_key sim_slot] sim_pool_state _ _ _ sim_pool_ok))).
  - by vm_compute.
  - by vm_compute.
  - constructor; [exact sim_slot_ok|]. constructor; [exact I|]. constructor; [exact sim_slot_ok|constructor].
Defined.
Lemma pool_put_take_round_trip_witness :
  (pool_take sim_key 1 8192 (pool_put sim_key sim_slot sim_pool_state).2).1 = Some sim_slot.
Proof.
  refine (proj1 (pool_put_take_round_trip sim_key sim_slot 1 8192 sim_pool_state _ _ _ sim_slot_ok _ _));
    by vm_compute.
Defined.
Lemma pool_trim_empties_witness :
  let s := (pool_put sim_key sim_slot sim_pool_state).2 in
  pool_bytes (pool_trim_over (map_to_list (pool_ (pool s))) s).2 = Ok 0.
Proof.
  refine (proj1 (proj2 (pool_trim_empties (cfg_pool (cfg sim_pool_state)) _ _ _ (Permutation_refl _)))).
  apply (pool_put_ok sim_key sim_slot sim_pool_state sim_slot_ok); [by vm_compute..|exact sim_pool_ok].
Defined.
Lemma size_class_for_correct_witness :
  ∃ cls, size_class_for PoolConfig_default 5000 = cls ∧ cls = 8192.
Proof.
  destruct (size_class_for_correct PoolConfig_default 5000) as (cls & H1 & H2 & _);
    [by vm_compute|by vm_compute|].
  exists cls. split; [exact H2|]. vm_compute in H1. congruence.
Defined.
