(* ===== verification/Lifecycle.v ===== *)
(** The buffer state machine (src/runtime.cpp, "Lifecycle"): the table of legal
    transitions and the guarded state change, as functions and as a step
    relation. *)
From S2P Require Import Prelude Types Platform State.
Import BufferState.

(** [RuntimeImpl::valid_transition]. *)
Definition valid_transition (from to : BufferState) : bool :=
  let is_one_of := λ l, bool_decide (to ∈ (l : list BufferState)) in
  match from with
  | DECLARED => is_one_of [RESERVED; ALLOCATED; FAILED; INVALID]
  | RESERVED => is_one_of [ALLOCATED; RELEASED; FAILED; INVALID]
  | ALLOCATED => is_one_of [MAPPED; COPYING; IN_USE; EXPORTING; RELEASING; MIGRATING;
                            RELEASED; FAILED; INVALID]
  | MAPPED => is_one_of [ALLOCATED; IN_USE; COPYING; RELEASING; RELEASED; FAILED; INVALID]
  | IN_USE => is_one_of [ALLOCATED; COPYING; RELEASING; RELEASED; FAILED; INVALID]
  | EXPORTING => is_one_of [EXPORTED; ALLOCATED; FAILED]
  | EXPORTED => is_one_of [ALLOCATED; RELEASED; FAILED]
  | IMPORTING => is_one_of [IMPORTED; FAILED; INVALID]
  | IMPORTED => is_one_of [ALLOCATED; RELEASED; FAILED; INVALID]
  | COPYING => is_one_of [ALLOCATED; IN_USE; RELEASED; FAILED]
  | MIGRATING => is_one_of [ALLOCATED; FAILED]
  | RELEASING => is_one_of [RELEASED; FAILED]
  | RELEASED => is_one_of [INVALID]
  | FAILED => is_one_of [QUARANTINED; INVALID]
  | QUARANTINED => is_one_of [INVALID]
  | INVALID => false
  end.

Section lifecycle.
Context {P : Platform}.

(** [RuntimeImpl::set_state] and its alias [transition]. *)
Definition set_state (c : nat) (to : BufferState) : M RuntimeImpl Status :=
  let! ctl := get_ctl c in
  if negb (valid_transition (rec_state (rec ctl)) to)
  then ret (fail ErrorCode.lifecycle_violation
              ("illegal transition " +:+ BufferState_to_string (rec_state (rec ctl))
               +:+ " -> " +:+ BufferState_to_string to))
  else upd_ctl c (set_rec (set_rec_state to)) ;;; ret ok_status.
Definition transition (c : nat) (to : BufferState) : M RuntimeImpl Status := set_state c to.

End lifecycle.

(** The transition relation. *)
Inductive step_state : BufferState → BufferState → Prop :=
  | step_state_intro from to : valid_transition from to = true → step_state from to.
(** A state is left alone or changed to [to] by one legal transition. *)
Definition moves (to : BufferState) (a b : BufferState) : Prop := a = b ∨ b = to ∧ step_state a to.
(** The same for a change to [mid], and then one to [to]. *)
Definition moves_via (mid to : BufferState) (a b : BufferState) : Prop :=
  ∃ m, moves mid a m ∧ moves to m b.

(** A buffer in one of these states can never be used again. *)
Definition terminal_state (s : BufferState) : bool :=
  match s with RELEASED | FAILED | QUARANTINED | INVALID => true | _ => false end.

(** The length of the longest legal path from a state that avoids the live states. *)
Definition terminal_rank (s : BufferState) : nat :=
  match s with FAILED => 2 | RELEASED | QUARANTINED => 1 | _ => 0 end.
