(* ===== verification/Runtime.v ===== *)
(** The operations of [RuntimeImpl] (src/runtime.cpp, src/export.cpp,
    src/core/copy_memory.cpp, src/platform.cpp): construction, validation,
    allocation, registration, reference counting, finalization, external
    memory, migration, export and import, shutdown. *)
From S2P Require Import Prelude Types CheckedMath Integrity Platform HostBackend SharedBackend.
From S2P Require Import FileBackend CudaBackend State Sim Ledger Pool Lifecycle.

(** [meta_crc_of]: the CRC of the identity fields, in their object
    representation; [BufferId] has no padding, [MemoryDomain] is one byte. *)
Definition meta_crc_of (r : BufferRecord) : Z :=
  let crc := crc32c (le_bytes 8 (hi (rec_id r)) ++ le_bytes 8 (lo (rec_id r))) 0 in
  let crc := crc32c (le_bytes 8 (rec_generation r)) crc in
  let crc := crc32c (le_bytes 1 (MemoryDomain.MemoryDomain_index (rec_domain r))) crc in
  let crc := crc32c (le_bytes 8 (rec_size r)) crc in
  crc32c (le_bytes 8 (rec_alignment r)) crc.

(** The policy switch of [allocate_record]. *)
Definition wants_zero (zp : ZeroingPolicy) (last_owner : option Z) (ns : Z) : bool :=
  match zp with
  | ZeroingPolicy.NEVER => false
  | ZeroingPolicy.ON_ALLOCATE => true
  | ZeroingPolicy.ON_RELEASE => false
  | ZeroingPolicy.ON_CROSS_OWNER_REUSE =>
      match last_owner with Some o => negb (o =? ns) | None => false end
  | ZeroingPolicy.ALWAYS => true
  end.

(** [rec.backing.pointer != nullptr || rec.backing.host_map != nullptr]. *)
Definition backing_present (a : NativeAllocation) : bool :=
  negb (na_pointer a =? 0) || negb (na_host_map a =? 0).

(** A call that locks the mutex of a control block: if the calling thread already
    holds the (non-recursive) mutex, it never returns. *)
Inductive LockOutcome (A : Type) : Type :=
  | Returned (a : A)
  | SelfDeadlock.
Arguments Returned {A} a.
Arguments SelfDeadlock {A}.

Section runtime.
Context {P : Platform}.

(** src/core/copy_memory.cpp. *)
Definition copy_memory (dst src len : Z) (dst_is_device src_is_device : bool)
    : M Machine Status :=
  if len =? 0 then ret ok_status
  else if has_cuda && (dst_is_device || src_is_device) then
    let kind := if dst_is_device && src_is_device then cudaMemcpyDeviceToDevice
                else if dst_is_device && negb src_is_device then cudaMemcpyHostToDevice
                else cudaMemcpyDeviceToHost in
    let! e := syscall (cudaMemcpy dst src len kind) in
    if negb (e =? cudaSuccess)
    then ret (cuda_fail ErrorCode.backend_failure "cudaMemcpy: " e) else
    let! e2 := syscall cudaDeviceSynchronize in
    if negb (e2 =? cudaSuccess) then ret (fail ErrorCode.backend_failure "copy sync failed")
    else ret ok_status
  else
    modify (set_mem (memcpy dst src len)) ;;; ret ok_status.

(** ** Construction *)

(** [RuntimeImpl::attach_shared_and_file_backends] (src/platform.cpp). *)
Definition attach_shared_and_file_backends (c : RuntimeConfig)
    : M Machine (option IDomain * option IDomain) :=
  let sh := if enable_shared c then Some (shared_domain (SharedMemoryDomain_new (shared_cap c)))
            else None in
  if enable_file c then
    let! f := FileBackedDomain_new (file_cap c) "" in ret (sh, Some (file_domain f))
  else ret (sh, None).

(** The CUDA part of the constructor: both domains, and the index of device 0. *)
Definition attach_cuda : M Machine (option IDomain * option IDomain * Z) :=
  if negb has_cuda then ret (None, None, -1) else
  let! av := cuda_available in
  if negb av then ret (None, None, -1) else
  let! devs := cuda_device_count in
  let! d := CudaDeviceDomain_new in
  ret (Some (cuda_device_domain d), Some cuda_pinned_domain, if 0 <? devs then 0 else -1).

Definition def_namespace : NamespaceConfig := set_ns_name "default" NamespaceConfig_default.

(** The constructor; [seed] is the 64-bit draw of the random generator. *)
Definition RuntimeImpl_new (c : RuntimeConfig) (seed : Z) : M Machine RuntimeImpl :=
  let! t := syscall system_clock_ms in
  let! host := (if enable_host c
                then let! h := HostDomain_new (host_capacity_hint c) in ret (Some (host_domain h))
                else ret None) in
  let! cuda := attach_cuda in
  let! sf := attach_shared_and_file_backends c in
  let! m := get in
  let l0 := mkLedger {[ kDefaultNamespace := def_namespace ]} ∅ ∅ ∅ ∅ ∅ 0 in
  ret (mkRuntimeImpl c false ∅ ∅ (mkPool ∅ 0 0)
         (mkBackends host cuda.1.1 cuda.1.2 sf.1 sf.2)
         (foldl (λ l nscfg, add_namespace nscfg l) l0 (cfg_namespaces c))
         1 (u64 seed) (u64 t) (λ _, 0) [] cuda.2 [] m).

(** ** Validation *)

(** [validate_request]: the out-parameters are the value of the result. *)
Definition validate_request (s : RuntimeImpl) (req : AllocationRequest) : Result (Z * Z) :=
  if req_size req =? 0 then fail ErrorCode.invalid_argument "allocation: zero-size request"
  else if Z.shiftl 1 48 <? req_size req
  then fail ErrorCode.invalid_argument "allocation: impossible size" else
  match domain s (req_domain req) with
  | None => fail ErrorCode.unsupported_domain
              ("allocation: domain " +:+ MemoryDomain.MemoryDomain_to_string (req_domain req)
               +:+ " not enabled")
  | Some dom =>
      let alignment := if req_alignment req =? 0
                       then value_or (IDomain.preferred_alignment dom) 0
                       else req_alignment req in
      let alignment := if alignment =? 0 then 64 else alignment in
      if negb (Z.land alignment (u64 (alignment - 1)) =? 0)
      then fail ErrorCode.alignment_error "allocation: alignment not power-of-two"
      else if 4096 <? alignment
      then fail ErrorCode.alignment_error "allocation: alignment too large"
      else if bool_decide (req_domain req = MemoryDomain.DEVICE)
              && (dev_index (req_device req) <? 0)
      then fail ErrorCode.invalid_device "allocation: DEVICE requires a device index" else
      match align_up (req_size req) alignment with
      | None => fail ErrorCode.overflow "allocation: size+alignment overflow"
      | Some up => Ok (alignment, up)
      end
  end.

(** ** Allocation *)

(** The record before a backing is attached. *)
Definition fresh_record (dom : IDomain) (req : AllocationRequest) (id : BufferId)
    (alignment epoch : Z) : BufferRecord :=
  let be := IDomain.backend dom in
  mkBufferRecord id 1 (req_ns req) (req_domain req) be
    (if bool_decide (req_domain req = MemoryDomain.DEVICE) then req_device req
     else mkDeviceId be (-1))
    (req_size req) 0 alignment (req_flags req) (req_access req) false Ownership.RUNTIME
    BufferState.DECLARED NativeAllocation_default false false 0 epoch (req_label req) 0.

(** The pool attempt: the slot taken, if any. *)
Definition take_from_pool (req : AllocationRequest) (r : BufferRecord) (class_size : Z)
    : M RuntimeImpl (option PoolSlot) :=
  let! s := get in
  if pooled_flag (req_flags req) && pooling_on (cfg s) then
    let! slot := pool_take (make_pool_key (cfg s) r) (req_ns req) class_size in
    match slot with
    | Some sl => checkout_amount (req_ns req) (req_domain req) (slot_bytes sl) ;;; ret (Some sl)
    | None => tick pool_misses ;;; ret None
    end
  else ret None.

(** A fresh backing from the domain, committed in the ledger; every failure is
    rolled back. *)
Definition fresh_backing (dom : IDomain) (req : AllocationRequest) (class_size alignment : Z)
    : M RuntimeImpl (Result NativeAllocation) :=
  let! alloc := on_machine (IDomain.allocate dom class_size alignment) in
  match alloc with
  | Fail e =>
      unreserve_amount (req_ns req) (req_domain req) class_size ;;;
      release_count (req_ns req) ;;;
      tick failed_allocations ;;;
      ret (rethrow e)
  | Ok a =>
      let! commit := commit_amount (req_ns req) (req_domain req) (na_committed a) in
      match commit with
      | Fail e =>
          discard_with dom a ;;;
          unreserve_amount (req_ns req) (req_domain req) class_size ;;;
          release_count (req_ns req) ;;;
          tick failed_allocations ;;;
          ret (rethrow e)
      | Ok _ => ret (Ok a)
      end
  end.

(** [rec] with its backing, pool eligibility and final state. *)
Definition attach_backing (c : RuntimeConfig) (r : BufferRecord) (a : NativeAllocation)
    (from_pool : bool) : BufferRecord :=
  let eligible := pooling_on c && (min_class_size (cfg_pool c) <=? rec_size r)
    && (size_class_for (cfg_pool c) (rec_size r) <=? max_class_size (cfg_pool c)) in
  mkBufferRecord (rec_id r) (rec_generation r) (rec_ns r) (rec_domain r) (rec_backend r)
    (rec_device r) (rec_size r) (na_committed a) (rec_alignment r) (rec_flags r)
    (rec_access r) eligible (rec_ownership r) BufferState.ALLOCATED a from_pool
    (rec_exported r) (rec_map_count r) (rec_created_epoch r) (rec_label r) (rec_meta_crc r).

(** The zeroing policy in force: the request's override, or the namespace's. *)
Definition effective_policy (s : RuntimeImpl) (req : AllocationRequest) : ZeroingPolicy :=
  match req_zeroing req with
  | Some z => z
  | None => match namespace_info s (req_ns req) with
            | Some nc => zeroing nc
            | None => ZeroingPolicy.ON_CROSS_OWNER_REUSE
            end
  end.

(** The zeroing step, with its rollback.  The rollback of a pool hit adjusts the ledger
    alone: the slot has left the pool, and its backing is dropped without being freed. *)
Definition zero_backing (dom : IDomain) (req : AllocationRequest) (class_size : Z)
    (a : NativeAllocation) (slot : option PoolSlot) : M RuntimeImpl Status :=
  let! s := get in
  if wants_zero (effective_policy s req) (slot_last_owner <$> slot) (req_ns req) then
    let! z := on_machine (IDomain.zero dom a 0 (na_committed a)) in
    match z with
    | Fail e =>
        (match slot with
         | Some _ => free_accounting (req_ns req) (req_domain req) (na_committed a) ;;;
                     on_machine (drop_state a) ;;; lose (req_domain req) a
         | None => unreserve_amount (req_ns req) (req_domain req) class_size ;;;
                   discard_with dom a ;;;
                   release_count (req_ns req)
         end) ;;;
        tick failed_allocations ;;;
        ret (rethrow e)
    | Ok _ => tick zero_count ;;; ret ok_status
    end
  else ret ok_status.

(** The part of [allocate_record] after both reservations are granted. *)
Definition allocate_reserved (dom : IDomain) (req : AllocationRequest)
    (alignment class_size : Z) : M RuntimeImpl (Result BufferRecord) :=
  let! id := next_id in
  let! epoch := now_epoch_ms in
  let r0 := fresh_record dom req id alignment epoch in
  let! slot := take_from_pool req r0 class_size in
  let! backing := (match slot with
                   | Some sl => ret (Ok (slot_backing sl))
                   | None => fresh_backing dom req class_size alignment
                   end) in
  match backing with
  | Fail e => ret (Fail e)
  | Ok a =>
      let! z := zero_backing dom req class_size a slot in
      match z with
      | Fail e => ret (Fail e)
      | Ok _ =>
          let! s := get in
          ret (Ok (attach_backing (cfg s) r0 a (match slot with Some _ => true | None => false end)))
      end
  end.

Definition allocate_record (req : AllocationRequest) : M RuntimeImpl (Result BufferRecord) :=
  let! s := get in
  if closed_ s then ret (fail ErrorCode.closed "runtime is closed") else
  match validate_request s req with
  | Fail e => tick failed_allocations ;;; ret (rethrow e)
  | Ok (alignment, class_size) =>
      let! quota := reserve_count (req_ns req) in
      match quota with
      | Fail e => tick failed_allocations ;;; ret (rethrow e)
      | Ok _ =>
          let! res := reserve_amount (req_ns req) (req_domain req) class_size in
          match res with
          | Fail e =>
              release_count (req_ns req) ;;;
              tick failed_allocations ;;;
              tick reservation_failures ;;;
              ret (rethrow e)
          | Ok _ =>
              match domain s (req_domain req) with
              | Some dom => allocate_reserved dom req alignment class_size
              | None => (* excluded by the validation *) ret (fail ErrorCode.unknown "")
              end
          end
      end
  end.

(** [register_control]: the new control block and its registry entry. *)
Definition register_control (r : BufferRecord) : M RuntimeImpl nat :=
  let! s := get in
  let c := size (controls s) in
  modify (λ s, set_controls (<[c := Control_new r]> (controls s)) s) ;;;
  modify (λ s, set_registry (<[rec_id r := c]> (registry_ s)) s) ;;;
  tick total_allocations ;;;
  tick active_buffers ;;;
  tick outstanding_allocations ;;;
  tick_by bytes_requested (rec_size r) ;;;
  ret c.

(** ** Finalization *)

Definition retain (c : nat) : M RuntimeImpl unit := upd_ctl c (λ k, set_refs (refs k + 1) k).

(** [if (telem_.c > 0) --telem_.c]. *)
Definition untick (c : Counter) : M RuntimeImpl unit :=
  modify (λ s, if 0 <? telem_ s c then set_telem (set_counter c (telem_ s c - 1) (telem_ s)) s else s).

(** Zeroing before the backing goes back to the pool. *)
Definition zero_on_release (r : BufferRecord) : M RuntimeImpl unit :=
  let! s := get in
  match namespace_info s (rec_ns r) with
  | Some nc =>
      match zeroing nc with
      | ZeroingPolicy.ON_RELEASE | ZeroingPolicy.ALWAYS =>
          match domain s (rec_domain r) with
          | Some zdom =>
              let! _ := on_machine (IDomain.zero zdom (rec_backing r) 0 (rec_committed r)) in
              tick zero_count
          | None => ret tt
          end
      | _ => ret tt
      end
  | None => ret tt
  end.

(** Disposal of the backing of [rec]; the result is [went_pooled]. *)
Definition dispose_backing (c : nat) (r : BufferRecord) (return_to_pool : bool)
    : M RuntimeImpl bool :=
  let! s := get in
  if backing_present (rec_backing r) && negb (bool_decide (rec_ownership r = Ownership.BORROWED))
  then
    if return_to_pool && rec_pool_eligible r && pooled_flag (rec_flags r) && pooling_on (cfg s)
    then
      zero_on_release r ;;;
      upd_ctl c (set_rec (set_rec_backing (na_moved_from (rec_backing r)))) ;;;
      let! went_pooled := pool_put (make_pool_key (cfg s) r)
                            (mkPoolSlot (rec_backing r) (rec_id r) (rec_ns r) false) in
      (if went_pooled : bool
       then release_amount (rec_ns r) (rec_domain r) (rec_committed r) true
       else free_accounting (rec_ns r) (rec_domain r) (rec_committed r)) ;;;
      ret went_pooled
    else
      (if bool_decide (rec_ownership r = Ownership.ADOPTED)
       then upd_ctl c (set_rec (set_rec_ownership Ownership.RUNTIME)) else ret tt) ;;;
      discard_backing (rec_domain r) (rec_backing r) ;;;
      free_accounting (rec_ns r) (rec_domain r) (rec_committed r) ;;;
      upd_ctl c (set_rec (set_rec_backing NativeAllocation_default)) ;;;
      ret false
  else
    on_machine (drop_state (rec_backing r)) ;;;
    upd_ctl c (set_rec (set_rec_backing NativeAllocation_default)) ;;;
    ret false.

(** The body of [finalize] once [finalized] has been exchanged to true for the
    first time; [r] is the record at that point. *)
Definition finalize_record (c : nat) (r : BufferRecord) (return_to_pool : bool)
    : M RuntimeImpl unit :=
  let! went_pooled := dispose_backing c r return_to_pool in
  upd_ctl c (set_rec (set_rec_state BufferState.RELEASED)) ;;;
  release_count (rec_ns r) ;;;
  modify (λ s, set_registry (delete (rec_id r) (registry_ s)) s) ;;;
  tick total_frees ;;;
  untick active_buffers ;;;
  untick outstanding_allocations ;;;
  note "finalize" (MemoryDomain.MemoryDomain_to_string (rec_domain r) +:+ " id="
                   +:+ pretty (lo (rec_id r)) +:+ (if went_pooled : bool then " ->pool" else " ->free")).

(** [finalize], by a thread that does not hold the control mutex. *)
Definition finalize (c : nat) (return_to_pool : bool) : M RuntimeImpl unit :=
  let! ctl := get_ctl c in
  if finalized ctl then ret tt else
  upd_ctl c (set_finalized true) ;;;
  finalize_record c (rec ctl) return_to_pool.

(** [finalize] as a call: it locks [ctl->mtx]. *)
Definition finalize_call (holds_mtx : bool) (c : nat) (return_to_pool : bool)
    : M RuntimeImpl (LockOutcome unit) :=
  if holds_mtx then ret SelfDeadlock
  else finalize c return_to_pool ;;; ret (Returned tt).

Definition drop_ref (c : nat) : M RuntimeImpl unit :=
  let! ctl := get_ctl c in
  let prev := refs ctl in
  upd_ctl c (set_refs (prev - 1)) ;;;
  if prev =? 1 then finalize c true else ret tt.

(** [finalize_by_id] calls [finalize] inside its own [lock_guard] on [ctl->mtx]. *)
Definition finalize_by_id (id : BufferId) : M RuntimeImpl (LockOutcome Status) :=
  let! s := get in
  match registry_ s !! id with
  | None => ret (Returned (fail ErrorCode.stale_handle "finalize_by_id: not found"))
  | Some c =>
      let ctl := ctl_at s c in
      if 0 <? refs ctl
      then ret (Returned (fail ErrorCode.resource_busy "finalize_by_id: buffer still has references"))
      else if finalized ctl then ret (Returned ok_status) else
      upd_ctl c (set_refs 0) ;;;
      let! o := finalize_call true c true in
      match o with
      | Returned _ => ret (Returned ok_status)
      | SelfDeadlock => ret SelfDeadlock
      end
  end.

Definition lookup_control (id : BufferId) (expect_gen : Z) : M RuntimeImpl (Result nat) :=
  let! s := get in
  match registry_ s !! id with
  | None => tick stale_handle_rejections ;;;
            ret (fail ErrorCode.stale_handle "lookup: unknown buffer id")
  | Some c =>
      if negb (expect_gen =? rec_generation (rec (ctl_at s c)))
      then tick stale_generation_rejections ;;;
           ret (fail ErrorCode.stale_generation "lookup: generation mismatch")
      else ret (Ok c)
  end.

(** ** External memory *)

Definition wrapped_record (desc : ExternalMemoryDesc) (dom : IDomain) (id : BufferId)
    : BufferRecord :=
  let alignment := if ext_alignment desc =? 0 then 64 else ext_alignment desc in
  let be := IDomain.backend dom in
  mkBufferRecord id 1 kDefaultNamespace (ext_domain desc) be (ext_device desc)
    (ext_size desc) (ext_size desc) alignment
    (mkAllocationFlags false false (exportable AllocationFlags_default)
       (numa_hint AllocationFlags_default))
    (match ext_ownership desc with
     | ExternalOwnership.BORROW => AccessMode.READ
     | _ => AccessMode.READ_WRITE
     end)
    false
    (match ext_ownership desc with
     | ExternalOwnership.BORROW => Ownership.BORROWED
     | ExternalOwnership.ADOPT => Ownership.ADOPTED
     | ExternalOwnership.SHARED => Ownership.SHARED
     end)
    BufferState.ALLOCATED
    (mkNativeAllocation (ext_pointer desc) (ext_pointer desc) (ext_size desc) (ext_size desc)
       alignment (ext_device desc) (ext_domain desc) be None)
    false false 0 0 "" 0.

Definition wrap_external (desc : ExternalMemoryDesc) : M RuntimeImpl (Result nat) :=
  let! s := get in
  if closed_ s then ret (fail ErrorCode.closed "runtime is closed")
  else if (ext_pointer desc =? 0) || (ext_size desc =? 0)
  then ret (fail ErrorCode.invalid_argument "wrap_external: null pointer or zero size") else
  match domain s (ext_domain desc) with
  | None => ret (fail ErrorCode.unsupported_domain "wrap_external: domain not enabled")
  | Some dom =>
      let! res := reserve_count kDefaultNamespace in
      match res with
      | Fail e => ret (rethrow e)
      | Ok _ =>
          let! id := next_id in
          let! c := register_control (wrapped_record desc dom id) in
          ret (Ok c)
      end
  end.

(** ** Migration *)

(** The record after the swap: same identity, new binding, next generation. *)
Definition migrated_record (r : BufferRecord) (tdom : IDomain) (target : MemoryDomain)
    (tdev : DeviceId) (nb : NativeAllocation) : BufferRecord :=
  let r1 := mkBufferRecord (rec_id r) (u64 (rec_generation r + 1)) (rec_ns r) target
    (IDomain.backend tdom) tdev (rec_size r) (na_committed nb) (rec_alignment r) (rec_flags r)
    (rec_access r) false (rec_ownership r) BufferState.ALLOCATED nb false (rec_exported r)
    (rec_map_count r) (rec_created_epoch r) (rec_label r) (rec_meta_crc r) in
  set_rec_meta_crc (meta_crc_of r1) r1.

(** The swap of the binding and the release of the old authority. *)
Definition migrate_commit (c : nat) (r : BufferRecord) (tdom : IDomain) (target : MemoryDomain)
    (tdev : DeviceId) (nb : NativeAllocation) : M RuntimeImpl unit :=
  upd_ctl c (set_rec (λ _, migrated_record r tdom target tdev nb)) ;;;
  (if backing_present (rec_backing r) then
     discard_backing (rec_domain r) (rec_backing r) ;;;
     free_accounting (rec_ns r) (rec_domain r) (rec_committed r)
   else on_machine (drop_state (rec_backing r))) ;;;
  tick migration_count ;;;
  note "migrate" (MemoryDomain.MemoryDomain_to_string (rec_domain r) +:+ " -> "
                  +:+ MemoryDomain.MemoryDomain_to_string target +:+ " id="
                  +:+ pretty (lo (rec_id r))).

(** The copy into a new backing, its commit and its verification; [Fail] after
    the destination has been given back. *)
Definition migrate_fill (r : BufferRecord) (tdom : IDomain) (target : MemoryDomain)
    (class_size : Z) (nb : NativeAllocation) : M RuntimeImpl Status :=
  let len := Z.min (rec_committed r) (na_committed nb) in
  let dst_dev := bool_decide (target = MemoryDomain.DEVICE) in
  let src_dev := bool_decide (rec_domain r = MemoryDomain.DEVICE) in
  let! cp := on_machine (copy_memory (na_base nb) (na_base (rec_backing r)) len dst_dev src_dev) in
  match cp with
  | Fail e => discard_with tdom nb ;;; unreserve_amount (rec_ns r) target class_size ;;;
              ret (rethrow e)
  | Ok _ =>
  let! commit := commit_amount (rec_ns r) target (na_committed nb) in
  match commit with
  | Fail e => discard_with tdom nb ;;; unreserve_amount (rec_ns r) target class_size ;;;
              ret (rethrow e)
  | Ok _ =>
  let! vchk := on_machine (IDomain.verify tdom nb 0 (na_committed nb)) in
  match vchk with
  | Fail e =>
      (* the free resets newbacking.committed before it is read *)
      let! fr := on_machine (IDomain.free tdom nb) in
      (if dst_dev then ret tt
       else free_accounting (rec_ns r) target (na_committed fr.2)) ;;;
      unreserve_amount (rec_ns r) target class_size ;;;
      on_machine (drop_state fr.2) ;;;
      ret (rethrow e)
  | Ok _ => ret ok_status
  end end end.

Definition migrate (c : nat) (target : MemoryDomain) : M RuntimeImpl (Result nat) :=
  let! s := get in
  if closed_ s then ret (fail ErrorCode.closed "runtime is closed") else
  let ctl := ctl_at s c in
  let r := rec ctl in
  if bool_decide (rec_domain r = target) then ret (Ok c)
  else if bool_decide (rec_state r = BufferState.RELEASED)
       || bool_decide (rec_state r = BufferState.INVALID)
  then ret (fail ErrorCode.lifecycle_violation "migrate: buffer released")
  else if (0 <? write_leases ctl) || (0 <? exclusive_leases ctl) then
    tick lease_conflicts ;;;
    ret (fail ErrorCode.lease_conflict "migrate: active write/exclusive lease")
  else
  match domain s target with
  | None => ret (fail ErrorCode.unsupported_domain
              ("migrate: target domain " +:+ MemoryDomain.MemoryDomain_to_string target
               +:+ " disabled"))
  | Some tdom =>
      let class_size := if rec_committed r =? 0 then rec_size r else rec_committed r in
      let tdev := if bool_decide (target = MemoryDomain.DEVICE)
                  then mkDeviceId BackendId.CUDA (if 0 <=? device_cuda_ s then device_cuda_ s else 0)
                  else mkDeviceId (IDomain.backend tdom) (-1) in
      let! res := reserve_amount (rec_ns r) target class_size in
      match res with
      | Fail e => ret (rethrow e)
      | Ok _ =>
          let! alloc := on_machine (IDomain.allocate tdom class_size (rec_alignment r)) in
          match alloc with
          | Fail e => unreserve_amount (rec_ns r) target class_size ;;; ret (rethrow e)
          | Ok nb =>
              let! f := migrate_fill r tdom target class_size nb in
              match f with
              | Fail e => ret (Fail e)
              | Ok _ => migrate_commit c r tdom target tdev nb ;;; ret (Ok c)
              end
          end
      end
  end.

(** ** Export and import *)

Definition handle_domain (d : MemoryDomain) : bool :=
  match d with MemoryDomain.SHARED_HOST | MemoryDomain.MMAP_STORAGE => true | _ => false end.

Definition export_descriptor (c : nat) : M RuntimeImpl (Result ExportDescriptor) :=
  let! s := get in
  let r := rec (ctl_at s c) in
  if negb (exportable (rec_flags r))
  then ret (fail ErrorCode.permission_failure "export: buffer not exportable") else
  match domain s (rec_domain r) with
  | None => ret (fail ErrorCode.unsupported_domain "export: domain disabled")
  | Some dom =>
      let! h := (if handle_domain (rec_domain r) then
                   let! h := on_machine (IDomain.export_handle dom (rec_backing r)) in
                   match h with
                   | Fail e => ret (rethrow e)
                   | Ok h => ret (Ok (if bool_decide (rec_domain r = MemoryDomain.SHARED_HOST)
                                      then "shared"%string else "file"%string, h))
                   end
                 else ret (Ok ("local"%string, pretty this_address))) in
      match h with
      | Fail e => ret (Fail e)
      | Ok (kind, handle) =>
          tick export_count ;;;
          note "export" (MemoryDomain.MemoryDomain_to_string (rec_domain r) +:+ " id="
                         +:+ pretty (lo (rec_id r))) ;;;
          ret (Ok (mkExportDescriptor kExportFormatVersion (rec_id r) (rec_generation r)
                 (rec_ns r) (rec_backend r) (rec_domain r) (rec_device r) (rec_size r)
                 (rec_alignment r) (rec_access r) kind handle (meta_crc_of r) true
                 (negb (bool_decide (rec_access r = AccessMode.READ))) 1 (rec_label r)))
      end
  end.

(** The checks of [import_descriptor] before anything is built: [None] accepts. *)
Definition import_rejects (s : RuntimeImpl) (desc : ExportDescriptor) (ns : Z) : option Error :=
  if closed_ s then Some (mkError ErrorCode.closed "runtime is closed")
  else if negb (d_format_version desc =? kExportFormatVersion)
  then Some (mkError ErrorCode.import_failure "import: unsupported format version")
  else if d_size desc =? 0
  then Some (mkError ErrorCode.import_failure "import: zero size")
  else if Z.shiftl 1 48 <? d_size desc
  then Some (mkError ErrorCode.import_failure "import: impossible size")
  else if negb (d_alignment desc =? 0)
          && negb (Z.land (d_alignment desc) (u64 (d_alignment desc - 1)) =? 0)
  then Some (mkError ErrorCode.import_failure "import: bad alignment") else
  match namespace_info s ns with
  | None => Some (mkError ErrorCode.import_failure "import: unknown namespace")
  | Some target =>
      let src_denies := match namespace_info s (d_ns desc) with
                        | Some src => negb (allow_import src)
                        | None => false
                        end in
      if src_denies
      then Some (mkError ErrorCode.permission_failure "import: source namespace disallows import")
      else if negb (allow_import target)
      then Some (mkError ErrorCode.permission_failure "import: target namespace disallows import")
      else if negb (d_ns desc =? ns)
      then Some (mkError ErrorCode.permission_failure "import: cross-namespace import not authorized")
      else None
  end.

Definition imported_record (desc : ExportDescriptor) (ns : Z) (label : string)
    (id : BufferId) (epoch : Z) (a : NativeAllocation) : BufferRecord :=
  mkBufferRecord id 1 ns (d_domain desc) (d_backend desc) (d_device desc) (d_size desc)
    (d_size desc) (if d_alignment desc =? 0 then 64 else d_alignment desc)
    (mkAllocationFlags false false (exportable AllocationFlags_default)
       (numa_hint AllocationFlags_default))
    (d_access desc) false Ownership.IMPORTED BufferState.IMPORTED a false false 0 epoch label 0.

Definition import_descriptor (desc : ExportDescriptor) (ns : Z) (label : string)
    : M RuntimeImpl (Result nat) :=
  let! s := get in
  match import_rejects s desc ns with
  | Some e => ret (Fail e)
  | None =>
  let! id := next_id in
  let! epoch := now_epoch_ms in
  if handle_domain (d_domain desc) then
    match domain s (d_domain desc) with
    | None => ret (fail ErrorCode.unsupported_domain "import: domain disabled")
    | Some dom =>
        let! alloc := on_machine (IDomain.import_handle dom (d_handle desc) (d_size desc)
                        (if d_alignment desc =? 0 then 64 else d_alignment desc)) in
        match alloc with
        | Fail e => ret (rethrow e)
        | Ok na =>
            if na_committed na <? d_size desc then
              on_machine (drop_state na) ;;;
              ret (fail ErrorCode.import_failure "import: segment smaller than declared")
            else
            let r := imported_record desc ns label id epoch na in
            (if negb (d_integrity_crc desc =? 0) && negb (d_integrity_crc desc =? meta_crc_of r)
             then note "import-meta-crc-mismatch" (pretty (lo (d_buffer_id desc)))
             else ret tt) ;;;
            tick import_count ;;;
            note "import" (MemoryDomain.MemoryDomain_to_string (d_domain desc) +:+ " id="
                           +:+ pretty (lo id)) ;;;
            let! c := register_control r in
            ret (Ok c)
        end
    end
  else if String.eqb (d_handle_kind desc) "local" then
    let! ctl := lookup_control (d_buffer_id desc) (d_generation desc) in
    match ctl with
    | Fail _ => ret (fail ErrorCode.import_failure
        "import: local descriptor from a different runtime; host import requires shared memory")
    | Ok c => tick import_count ;;; ret (Ok c)
    end
  else ret (fail ErrorCode.import_failure "import: unsupported handle kind")
  end.

(** ** Shutdown *)

(** [unique_ptr<IDomain>::reset()]: the virtual destructor. *)
Definition destroy_domain (d : option IDomain) : M RuntimeImpl unit :=
  match d with Some dom => on_machine (IDomain.destroy dom) | None => ret tt end.

Definition shutdown : M RuntimeImpl unit :=
  let! s := get in
  if closed_ s then ret tt else
  modify (set_closed true) ;;;
  iterM (λ kc, let! k := get_ctl kc.2 in
               if refs k =? 0 then finalize kc.2 true else ret tt)
    (map_to_list (registry_ s)) ;;;
  pool_trim_to_zero ;;;
  let! s := get in
  destroy_domain (cuda_device_ (backends s)) ;;;
  destroy_domain (cuda_pinned_ (backends s)) ;;;
  destroy_domain (shared_ (backends s)) ;;;
  destroy_domain (file_ (backends s)) ;;;
  destroy_domain (host_ (backends s)) ;;;
  modify (set_backends (mkBackends None None None None None)).

End runtime.
