(* ===== verification/Handle.v ===== *)
(** The handles of buffer.hpp (src/buffer.cpp): [BufferHandle], [BufferLease],
    [BufferMap] and [BufferView].  A handle is a value of its owner; operations
    that change the handle itself return the new value.  All handles of a buffer
    refer to one control block of the store. *)
From S2P Require Import Prelude Types CheckedMath Integrity Platform State Ledger Pool.
From S2P Require Import Lifecycle Runtime.

(** [ctl_] is the reference to the control block; [rt_] is the runtime whose state
    is threaded, and is null exactly in a default-constructed handle. *)
Record BufferHandle : Set := mkBufferHandle {
  h_rt : bool; h_ctl : option nat; h_id : BufferId; h_gen : Z; h_valid : bool }.
Definition BufferHandle_empty : BufferHandle := mkBufferHandle false None BufferId_zero 0 false.

Record BufferLease : Set := mkBufferLease {
  lease_ctl : option nat; lease_gen : Z; lease_kind : LeaseKind }.
Record BufferMap : Set := mkBufferMap {
  map_ctl : option nat; map_gen : Z; map_access : AccessMode; map_data : Z }.
Record BufferView : Set := mkBufferView {
  view_ctl : option nat; view_gen : Z; view_off : Z; view_len : Z; view_access : AccessMode;
  view_data : Z }.

(** States in which a handle is refused as stale. *)
Definition dead_state (s : BufferState) : bool :=
  match s with
  | BufferState.RELEASED | BufferState.QUARANTINED | BufferState.INVALID => true
  | _ => false
  end.

Section handle.
Context {P : Platform}.

(** The handle the facade hands out for a control block. *)
Definition handle_of (s : RuntimeImpl) (c : nat) : BufferHandle :=
  mkBufferHandle true (Some c) (rec_id (rec (ctl_at s c))) (rec_generation (rec (ctl_at s c))) true.

(** [BufferHandle::validate_alive]. *)
Definition validate_alive (h : BufferHandle) (s : RuntimeImpl) : Status :=
  match h_ctl h with
  | Some c =>
      if negb (h_valid h) then fail ErrorCode.stale_handle "handle is not alive" else
      let ctl := ctl_at s c in
      if finalized ctl then fail ErrorCode.stale_handle "buffer has been finalized"
      else if negb (h_gen h =? rec_generation (rec ctl))
      then fail ErrorCode.stale_generation "stale generation"
      else if dead_state (rec_state (rec ctl))
      then fail ErrorCode.stale_handle "buffer is no longer valid"
      else ok_status
  | None => fail ErrorCode.stale_handle "handle is not alive"
  end.

(** [BufferHandle::ensure_valid]. *)
Definition ensure_valid (h : BufferHandle) (want : AccessMode) (s : RuntimeImpl) : Status :=
  match validate_alive h s with
  | Fail e => Fail e
  | Ok _ =>
      let r := rec (ctl_at s (default 0%nat (h_ctl h))) in
      if bool_decide (want = AccessMode.WRITE) && bool_decide (rec_access r = AccessMode.READ)
      then fail ErrorCode.permission_failure "write denied: buffer is read-only"
      else ok_status
  end.

(** Run [k] on the control block of a handle that [check] accepts; its error is
    passed on without its text otherwise. *)
Definition with_handle {A} (h : BufferHandle) (check : RuntimeImpl → Status)
    (k : nat → M RuntimeImpl (Result A)) : M RuntimeImpl (Result A) :=
  let! s := get in
  match check s, h_ctl h with
  | Fail e, _ => ret (rethrow e)
  | Ok _, Some c => k c
  | Ok _, None => (* excluded by the checks *) ret (fail ErrorCode.stale_handle "")
  end.

(** ** Accessors *)
Definition handle_domain_of (h : BufferHandle) (s : RuntimeImpl) : MemoryDomain :=
  match h_ctl h with Some c => rec_domain (rec (ctl_at s c)) | None => MemoryDomain.HOST end.
Definition handle_size (h : BufferHandle) (s : RuntimeImpl) : Z :=
  match h_ctl h with Some c => rec_size (rec (ctl_at s c)) | None => 0 end.
Definition handle_aligned_size (h : BufferHandle) (s : RuntimeImpl) : Z :=
  match h_ctl h with Some c => rec_committed (rec (ctl_at s c)) | None => 0 end.
Definition handle_alignment (h : BufferHandle) (s : RuntimeImpl) : Z :=
  match h_ctl h with Some c => rec_alignment (rec (ctl_at s c)) | None => 0 end.
Definition handle_namespace_id (h : BufferHandle) (s : RuntimeImpl) : Z :=
  match h_ctl h with Some c => rec_ns (rec (ctl_at s c)) | None => kDefaultNamespace end.
Definition handle_state (h : BufferHandle) (s : RuntimeImpl) : BufferState :=
  match h_ctl h with Some c => rec_state (rec (ctl_at s c)) | None => BufferState.INVALID end.

(** ** Dropping and sharing *)

(** [BufferHandle::reset], also the destructor. *)
Definition handle_reset (h : BufferHandle) : M RuntimeImpl BufferHandle :=
  (match h_ctl h with
   | Some c => if h_valid h && h_rt h then drop_ref c else ret tt
   | None => ret tt
   end) ;;;
  ret (mkBufferHandle (h_rt h) None BufferId_zero 0 false).

(** [BufferHandle::release]: keeps the id and generation of the handle. *)
Definition handle_release (h : BufferHandle) : M RuntimeImpl (Status * BufferHandle) :=
  match h_ctl h with
  | Some c =>
      if negb (h_valid h) then ret (ok_status, h) else
      (if h_rt h then drop_ref c else ret tt) ;;;
      ret (ok_status, mkBufferHandle (h_rt h) None (h_id h) (h_gen h) false)
  | None => ret (ok_status, h)
  end.

(** Move assignment [*this = std::move(o)] for distinct handles. *)
Definition handle_move_assign (this o : BufferHandle)
    : M RuntimeImpl (BufferHandle * BufferHandle) :=
  let! _ := handle_reset this in
  ret (o, mkBufferHandle false None (h_id o) (h_gen o) false).

Definition handle_share (h : BufferHandle) : M RuntimeImpl (Result BufferHandle) :=
  with_handle h (validate_alive h) (λ c,
    retain c ;;;
    ret (Ok (mkBufferHandle (h_rt h) (Some c) (h_id h) (h_gen h) true))).

(** ** Views and maps *)

Definition handle_view (h : BufferHandle) (offset len : Z) (access : AccessMode)
    : M RuntimeImpl (Result BufferView) :=
  with_handle h (ensure_valid h access) (λ c,
    let! ctl := get_ctl c in
    let r := rec ctl in
    if negb (range_in_bounds offset len (rec_size r))
    then ret (fail ErrorCode.bounds_error "view: offset+length exceeds buffer")
    else if len =? 0 then ret (fail ErrorCode.invalid_argument "view: zero length")
    else if bool_decide (access = AccessMode.WRITE) && bool_decide (rec_access r = AccessMode.READ)
    then ret (fail ErrorCode.permission_failure "view: write of read-only buffer") else
    let data := if na_host_map (rec_backing r) =? 0 then 0
                else na_host_map (rec_backing r) + offset in
    retain c ;;;
    ret (Ok (mkBufferView (Some c) (h_gen h) offset len access data))).

Definition handle_map (h : BufferHandle) (access : AccessMode) : M RuntimeImpl (Result BufferMap) :=
  with_handle h (ensure_valid h access) (λ c,
    let! s := get in
    let r := rec (ctl_at s c) in
    if bool_decide (rec_domain r = MemoryDomain.DEVICE)
    then ret (fail ErrorCode.unsupported_capability "map: device memory is not CPU-mappable") else
    match domain s (rec_domain r) with
    | None => ret (fail ErrorCode.unsupported_domain "map: domain disabled")
    | Some dom =>
        let! m := on_machine (IDomain.map dom (rec_backing r) access) in
        match m with
        | Fail e => ret (rethrow e)
        | Ok p =>
            upd_ctl c (set_rec (set_rec_map_count (rec_map_count r + 1))) ;;;
            (if valid_transition (rec_state r) BufferState.MAPPED
             then upd_ctl c (set_rec (set_rec_state BufferState.MAPPED)) else ret tt) ;;;
            retain c ;;;
            tick map_count ;;;
            ret (Ok (mkBufferMap (Some c) (h_gen h) access p))
        end
    end).

(** ** Leases *)

Definition lease_busy (kind : LeaseKind) (k : Control) : bool :=
  match kind with
  | LeaseKind.READ => (0 <? exclusive_leases k) || (0 <? write_leases k)
  | _ => (0 <? exclusive_leases k) || (0 <? write_leases k) || (0 <? read_leases k)
  end.
Definition lease_conflict_text (kind : LeaseKind) : string :=
  match kind with
  | LeaseKind.READ => "read lease conflicts with write/exclusive"
  | LeaseKind.WRITE => "write lease conflicts with active leases"
  | LeaseKind.EXCLUSIVE => "exclusive lease conflicts with active leases"
  end.
(** The counter of the kind goes up by one. *)
Definition add_lease (kind : LeaseKind) (k : Control) : Control :=
  match kind with
  | LeaseKind.READ => set_leases (read_leases k + 1) (write_leases k) (exclusive_leases k) k
  | LeaseKind.WRITE => set_leases (read_leases k) (write_leases k + 1) (exclusive_leases k) k
  | LeaseKind.EXCLUSIVE => set_leases (read_leases k) (write_leases k) (exclusive_leases k + 1) k
  end.
(** The state change of an acquisition. *)
Definition lease_state (kind : LeaseKind) (st : BufferState) : BufferState :=
  match kind, st with
  | _, BufferState.ALLOCATED => BufferState.IN_USE
  | LeaseKind.WRITE, BufferState.MAPPED => BufferState.IN_USE
  | LeaseKind.EXCLUSIVE, BufferState.MAPPED => BufferState.IN_USE
  | _, _ => st
  end.

(** [acquire_read], [acquire_write] and [acquire_exclusive] differ only in the
    conflict test, the counter and the states that become [IN_USE]. *)
Definition acquire (kind : LeaseKind) (h : BufferHandle) : M RuntimeImpl (Result BufferLease) :=
  with_handle h (validate_alive h) (λ c,
    let! ctl := get_ctl c in
    if lease_busy kind ctl then
      tick lease_conflicts ;;;
      ret (fail ErrorCode.lease_conflict (lease_conflict_text kind))
    else
      upd_ctl c (add_lease kind) ;;;
      upd_ctl c (set_rec (λ r, set_rec_state (lease_state kind (rec_state r)) r)) ;;;
      retain c ;;;
      ret (Ok (mkBufferLease (Some c) (h_gen h) kind))).
Definition acquire_read : BufferHandle → M RuntimeImpl (Result BufferLease) := acquire LeaseKind.READ.
Definition acquire_write : BufferHandle → M RuntimeImpl (Result BufferLease) := acquire LeaseKind.WRITE.
Definition acquire_exclusive : BufferHandle → M RuntimeImpl (Result BufferLease) :=
  acquire LeaseKind.EXCLUSIVE.

(** The counter of the kind goes down, unless it is already 0. *)
Definition remove_lease (kind : LeaseKind) (k : Control) : Control :=
  match kind with
  | LeaseKind.READ => if 0 <? read_leases k
      then set_leases (read_leases k - 1) (write_leases k) (exclusive_leases k) k else k
  | LeaseKind.WRITE => if 0 <? write_leases k
      then set_leases (read_leases k) (write_leases k - 1) (exclusive_leases k) k else k
  | LeaseKind.EXCLUSIVE => if 0 <? exclusive_leases k
      then set_leases (read_leases k) (write_leases k) (exclusive_leases k - 1) k else k
  end.
(** The last lease of an [IN_USE] buffer gives it back. *)
Definition settle_lease_state (k : Control) : Control :=
  if (read_leases k =? 0) && (write_leases k =? 0) && (exclusive_leases k =? 0)
     && bool_decide (rec_state (rec k) = BufferState.IN_USE)
  then set_rec (set_rec_state BufferState.ALLOCATED) k else k.

(** [BufferLease::release], also the destructor. *)
Definition lease_release (l : BufferLease) : M RuntimeImpl BufferLease :=
  match lease_ctl l with
  | None => ret l
  | Some c =>
      upd_ctl c (remove_lease (lease_kind l)) ;;;
      upd_ctl c settle_lease_state ;;;
      drop_ref c ;;;
      ret (mkBufferLease None (lease_gen l) (lease_kind l))
  end.

(** [BufferMap::release], also the destructor. *)
Definition map_release (m : BufferMap) : M RuntimeImpl BufferMap :=
  match map_ctl m with
  | None => ret m
  | Some c =>
      upd_ctl c (λ k, if 0 <? rec_map_count (rec k)
                      then set_rec (set_rec_map_count (rec_map_count (rec k) - 1)) k else k) ;;;
      upd_ctl c (λ k, if (rec_map_count (rec k) =? 0)
                         && bool_decide (rec_state (rec k) = BufferState.MAPPED)
                      then set_rec (set_rec_state BufferState.ALLOCATED) k else k) ;;;
      let! s := get in
      let r := rec (ctl_at s c) in
      (if na_host_map (rec_backing r) =? 0 then ret tt else
       match domain s (rec_domain r) with
       | Some dom => let! _ := on_machine (IDomain.unmap dom (rec_backing r)
                                             (na_host_map (rec_backing r))) in ret tt
       | None => ret tt
       end) ;;;
      tick unmap_count ;;;
      drop_ref c ;;;
      ret (mkBufferMap None (map_gen m) (map_access m) 0)
  end.

(** [BufferView::release], also the destructor. *)
Definition view_release (v : BufferView) : M RuntimeImpl BufferView :=
  match view_ctl v with
  | None => ret v
  | Some c =>
      drop_ref c ;;;
      ret (mkBufferView None (view_gen v) (view_off v) (view_len v) (view_access v) 0)
  end.

(** Move assignment of distinct leases, maps and views; the moved-from object keeps
    its scalars and loses its reference. *)
Definition lease_move_assign (this o : BufferLease) : M RuntimeImpl (BufferLease * BufferLease) :=
  let! _ := lease_release this in
  ret (o, mkBufferLease None (lease_gen o) (lease_kind o)).
Definition map_move_assign (this o : BufferMap) : M RuntimeImpl (BufferMap * BufferMap) :=
  let! _ := map_release this in
  ret (o, mkBufferMap None (map_gen o) (map_access o) (map_data o)).
Definition view_move_assign (this o : BufferView) : M RuntimeImpl (BufferView * BufferView) :=
  let! _ := view_release this in
  ret (o, mkBufferView None (view_gen o) (view_off o) (view_len o) (view_access o) (view_data o)).

(** ** Integrity and copies *)

Definition handle_verify (h : BufferHandle) : M RuntimeImpl Status :=
  with_handle h (validate_alive h) (λ c,
    tick integrity_checks ;;;
    let! s := get in
    let r := rec (ctl_at s c) in
    match domain s (rec_domain r) with
    | None => ret (fail ErrorCode.unsupported_domain "verify: domain disabled")
    | Some dom =>
        if bool_decide (rec_state r = BufferState.RELEASED)
        then ret (fail ErrorCode.stale_handle "verify: buffer released") else
        let! chk := on_machine (IDomain.verify dom (rec_backing r) 0 (rec_committed r)) in
        match chk with
        | Fail e => tick integrity_failures ;;; ret (rethrow e)
        | Ok _ =>
            if negb (rec_meta_crc r =? 0) && negb (meta_crc_of r =? rec_meta_crc r) then
              tick integrity_failures ;;;
              ret (fail ErrorCode.integrity_failure "verify: metadata checksum mismatch")
            else ret ok_status
        end
    end).

Definition handle_checksum (h : BufferHandle) : M RuntimeImpl (Result Z) :=
  with_handle h (validate_alive h) (λ c,
    let! s := get in
    let r := rec (ctl_at s c) in
    if bool_decide (rec_domain r = MemoryDomain.DEVICE)
    then ret (fail ErrorCode.unsupported_capability
                "checksum: device content requires a host round-trip") else
    let p := na_base (rec_backing r) in
    if p =? 0 then ret (fail ErrorCode.state_invalid "checksum: no host backing") else
    tick integrity_checks ;;;
    ret (Ok (crc32c (bytes_at (mem (machine s)) p (rec_size r)) 0))).

Definition handle_copy_to (h : BufferHandle) (dst dst_offset len : Z) : M RuntimeImpl Status :=
  with_handle h (ensure_valid h AccessMode.READ) (λ c,
    if dst =? 0 then ret (fail ErrorCode.invalid_argument "copy_to: null dst") else
    let! s := get in
    let r := rec (ctl_at s c) in
    if (rec_size r <? dst_offset) || (u64 (rec_size r - dst_offset) <? len)
    then ret (fail ErrorCode.bounds_error "copy_to: length exceeds buffer")
    else if negb (range_in_bounds 0 len (rec_committed r))
    then ret (fail ErrorCode.bounds_error "copy_to: length exceeds backing") else
    let src_dev := bool_decide (rec_domain r = MemoryDomain.DEVICE) in
    let! x := on_machine (copy_memory (dst + dst_offset) (na_base (rec_backing r)) len false src_dev) in
    match x with
    | Fail e => ret (Fail e)
    | Ok _ => tick copy_count ;;; tick_by bytes_copied len ;;; ret ok_status
    end).

Definition handle_copy_from (h : BufferHandle) (src src_offset len : Z) : M RuntimeImpl Status :=
  with_handle h (ensure_valid h AccessMode.WRITE) (λ c,
    if src =? 0 then ret (fail ErrorCode.invalid_argument "copy_from: null src") else
    let! s := get in
    let r := rec (ctl_at s c) in
    if rec_size r <? len
    then ret (fail ErrorCode.bounds_error "copy_from: length exceeds buffer")
    else if negb (range_in_bounds 0 len (rec_committed r))
    then ret (fail ErrorCode.bounds_error "copy_from: length exceeds backing") else
    let dst_dev := bool_decide (rec_domain r = MemoryDomain.DEVICE) in
    let! x := on_machine (copy_memory (na_base (rec_backing r)) (src + src_offset) len dst_dev false) in
    match x with
    | Fail e => ret (Fail e)
    | Ok _ => tick copy_count ;;; tick_by bytes_copied len ;;; ret ok_status
    end).

Definition device_pointer (h : BufferHandle) (s : RuntimeImpl) : Result Z :=
  match validate_alive h s, h_ctl h with
  | Ok _, Some c =>
      let r := rec (ctl_at s c) in
      if negb (bool_decide (rec_domain r = MemoryDomain.DEVICE))
      then fail ErrorCode.invalid_argument "device_pointer: not a device buffer"
      else Ok (na_pointer (rec_backing r))
  | Fail e, _ => rethrow e
  | Ok _, None => fail ErrorCode.stale_handle ""
  end.

Definition host_data (h : BufferHandle) (s : RuntimeImpl) : Z :=
  match h_ctl h with Some c => na_base (rec_backing (rec (ctl_at s c))) | None => 0 end.

End handle.
