(* ===== verification/Facade.v ===== *)
(** The public [Runtime] facade (runtime.hpp, end of src/runtime.cpp) and the
    introspection of src/stats.cpp.  [impl_] is false for a moved-from facade,
    whose every operation reports [closed]. *)
From S2P Require Import Prelude Types Platform CudaBackend State Ledger Pool Lifecycle Runtime.
From S2P Require Import Handle.

Section facade.
Context {P : Platform}.

(** [if (!impl_) return Error(closed)]. *)
Definition guarded {A} (impl_ : bool) (k : M RuntimeImpl (Result A)) : M RuntimeImpl (Result A) :=
  if impl_ then k else ret (fail ErrorCode.closed "runtime is closed").

(** The retained handle of a new reference to [c]. *)
Definition new_handle (c : nat) : M RuntimeImpl BufferHandle :=
  retain c ;;; let! s := get in ret (handle_of s c).
Definition handle_result (r : Result nat) : M RuntimeImpl (Result BufferHandle) :=
  match r with
  | Fail e => ret (rethrow e)
  | Ok c => let! h := new_handle c in ret (Ok h)
  end.

Definition Runtime_allocate (impl_ : bool) (req : AllocationRequest)
    : M RuntimeImpl (Result BufferHandle) :=
  guarded impl_ (
    let! s := get in
    if closed_ s then ret (fail ErrorCode.closed "runtime is closed") else
    let! r := allocate_record req in
    match r with
    | Fail e => ret (rethrow e)
    | Ok r => let! c := register_control r in let! h := new_handle c in ret (Ok h)
    end).

Definition Runtime_wrap_external (impl_ : bool) (desc : ExternalMemoryDesc)
    : M RuntimeImpl (Result BufferHandle) :=
  guarded impl_ (let! r := wrap_external desc in handle_result r).

Definition Runtime_migrate (impl_ : bool) (h : BufferHandle) (target : MemoryDomain)
    : M RuntimeImpl (Result BufferHandle) :=
  guarded impl_ (with_handle h (validate_alive h) (λ c,
    let! r := migrate c target in handle_result r)).

Definition Runtime_export_buffer (impl_ : bool) (h : BufferHandle)
    : M RuntimeImpl (Result ExportDescriptor) :=
  guarded impl_ (with_handle h (validate_alive h) export_descriptor).

Definition Runtime_import (impl_ : bool) (desc : ExportDescriptor) (ns : Z) (label : string)
    : M RuntimeImpl (Result BufferHandle) :=
  guarded impl_ (let! r := import_descriptor desc ns label in handle_result r).

Definition Runtime_invalidate (impl_ : bool) (id : BufferId) : M RuntimeImpl (LockOutcome Status) :=
  if impl_ then finalize_by_id id
  else ret (Returned (fail ErrorCode.closed "runtime is closed")).
Definition Runtime_pool_trim (impl_ : bool) : M RuntimeImpl Status := guarded impl_ pool_trim.
Definition Runtime_shutdown (impl_ : bool) : M RuntimeImpl unit :=
  if impl_ then shutdown else ret tt.
Definition Runtime_closed (impl_ : bool) (s : RuntimeImpl) : bool :=
  if impl_ then closed_ s else true.
Definition Runtime_create_namespace (impl_ : bool) (c : NamespaceConfig) : M RuntimeImpl Status :=
  guarded impl_ (create_namespace c).
Definition Runtime_namespace_info (impl_ : bool) (id : Z) : M RuntimeImpl (Result NamespaceConfig) :=
  guarded impl_ (let! s := get in
    match namespace_info s id with
    | None => ret (fail ErrorCode.not_found "namespace not found")
    | Some c => ret (Ok c)
    end).
Definition Runtime_decisions (impl_ : bool) : M RuntimeImpl (Result (list (string * string))) :=
  guarded impl_ (let! s := get in ret (Ok (decisions s))).

(** ** Telemetry *)

(** Committed bytes of one domain over all namespaces: the loops of [telemetry]. *)
Definition domain_total (l : Ledger) (d : MemoryDomain) : Z :=
  sum_map (λ bydom, default 0 (bydom !! d)) (ns_committed_ l).

(** [RuntimeImpl::telemetry]: the counters, with the derived members filled in. *)
Definition telemetry (s : RuntimeImpl) : Telemetry := λ c,
  let t := telem_ s in
  let by_domain := λ c0 d, u64 (t c0 + domain_total (ledger s) d) in
  let host := by_domain host_bytes MemoryDomain.HOST in
  let pinned := by_domain pinned_host_bytes MemoryDomain.PINNED_HOST in
  let device := by_domain device_bytes MemoryDomain.DEVICE in
  let shared := by_domain shared_host_bytes MemoryDomain.SHARED_HOST in
  let file := by_domain file_backed_bytes MemoryDomain.MMAP_STORAGE in
  match c with
  | active_buffers | outstanding_allocations => Z.of_nat (size (registry_ s))
  | host_bytes => host
  | pinned_host_bytes => pinned
  | device_bytes => device
  | shared_host_bytes => shared
  | file_backed_bytes => file
  | peak_bytes => peak_committed_ (ledger s)
  | bytes_committed => u64 (host + pinned + device + shared + file)
  | pooled_bytes | idle_pooled_bytes => pool_idle_bytes_ (pool s)
  | _ => t c
  end.

(** ** src/stats.cpp *)

Record BackendInfo : Set := mkBackendInfo {
  bi_id : BackendId; bi_name : string; bi_enabled : bool; bi_domains : list MemoryDomain;
  bi_capabilities : Z }.

(** The lambda [add] of [backends_info]: the last enabled domain wins. *)
Definition backend_info (s : RuntimeImpl) (id : BackendId) (enabled : bool)
    (doms : list MemoryDomain) : BackendInfo :=
  mkBackendInfo id (BackendId.BackendId_to_string id) enabled doms
    (foldl (λ caps d, if domain_enabled s d then domain_caps s d else caps)
       Capabilities.empty doms).
Definition backends_info (s : RuntimeImpl) : list BackendInfo :=
  [backend_info s BackendId.HOST_MALLOC (domain_enabled s MemoryDomain.HOST) [MemoryDomain.HOST];
   backend_info s BackendId.CUDA (domain_enabled s MemoryDomain.DEVICE)
     [MemoryDomain.DEVICE; MemoryDomain.PINNED_HOST];
   backend_info s BackendId.WIN_SHARED_FILE (domain_enabled s MemoryDomain.SHARED_HOST)
     [MemoryDomain.SHARED_HOST];
   backend_info s BackendId.FILE_BACKED (domain_enabled s MemoryDomain.MMAP_STORAGE)
     [MemoryDomain.MMAP_STORAGE]].

Record DeviceInfo : Set := mkDeviceInfo {
  di_backend : BackendId; di_index : Z; di_name : string; di_total_memory : Z;
  di_free_memory : Z; di_compute_major : Z; di_compute_minor : Z; di_available : bool }.

Definition device_entry (i : Z) : M RuntimeImpl DeviceInfo :=
  let! info := on_machine (cuda_device_info i) in
  match info with
  | Ok v => ret (mkDeviceInfo BackendId.CUDA i (cdi_name v) (cdi_total_memory v)
                   (cdi_free_memory v) (cdi_compute_major v) (cdi_compute_minor v) true)
  | Fail _ => ret (mkDeviceInfo BackendId.CUDA i "" 0 0 0 0 false)
  end.
Fixpoint collect {A} (f : Z → M RuntimeImpl A) (l : list Z) : M RuntimeImpl (list A) :=
  match l with
  | [] => ret []
  | i :: l' => let! x := f i in let! xs := collect f l' in ret (x :: xs)
  end.
Definition devices_info : M RuntimeImpl (Result (list DeviceInfo)) :=
  if negb has_cuda then ret (Ok []) else
  let! av := on_machine cuda_available in
  if negb av then ret (Ok []) else
  let! n := on_machine cuda_device_count in
  let! out := collect device_entry (seqZ 0 n) in
  ret (Ok out).

Record DomainInfo : Set := mkDomainInfo {
  dom_domain : MemoryDomain; dom_name : string; dom_backend : option BackendId;
  dom_enabled : bool; dom_capabilities : Z; dom_total_capacity : Z; dom_free : Z }.

(** The lambda [add] of [domains_info]; [di.backend] is left indeterminate for a
    disabled domain. *)
Definition domain_entry (d : MemoryDomain) : M RuntimeImpl DomainInfo :=
  let! s := get in
  let name := MemoryDomain.MemoryDomain_to_string d in
  match domain s d with
  | None => ret (mkDomainInfo d name None false Capabilities.empty 0 0)
  | Some dom =>
      let! cap := on_machine (IDomain.capacity dom) in
      let '(total, free) := match cap with
                            | Ok ci => (total_capacity ci, ci_free ci)
                            | Fail _ => (0, 0)
                            end in
      ret (mkDomainInfo d name (Some (IDomain.backend dom)) true (IDomain.capabilities dom)
             total free)
  end.
Definition domains_info : M RuntimeImpl (list DomainInfo) :=
  let! a := domain_entry MemoryDomain.HOST in
  let! b := domain_entry MemoryDomain.PINNED_HOST in
  let! c := domain_entry MemoryDomain.DEVICE in
  let! d := domain_entry MemoryDomain.SHARED_HOST in
  let! e := domain_entry MemoryDomain.MMAP_STORAGE in
  ret [a; b; c; d; e].

(** [RuntimeStats]: the numeric members are the counters of [telemetry], under the
    names of telemetry.hpp ([copy_operations] for [copy_count], [zero_operations]
    for [zero_count]). *)
Record RuntimeStats : Set := mkRuntimeStats {
  st_version : string; st_closed : bool; st_counter : Telemetry; st_domains : list DomainInfo }.
Definition RuntimeStats_default : RuntimeStats := mkRuntimeStats "" false (λ _, 0) [].
Definition version_string : string := "1.0.0".
Definition runtime_stats : M RuntimeImpl (Result RuntimeStats) :=
  let! s := get in
  let t := telemetry s in
  let! doms := domains_info in
  ret (Ok (mkRuntimeStats version_string (closed_ s) t doms)).

Definition Runtime_stats (impl_ : bool) : M RuntimeImpl (Result RuntimeStats) :=
  guarded impl_ runtime_stats.
Definition Runtime_backends (impl_ : bool) : M RuntimeImpl (Result (list BackendInfo)) :=
  guarded impl_ (let! s := get in ret (Ok (backends_info s))).
Definition Runtime_devices (impl_ : bool) : M RuntimeImpl (Result (list DeviceInfo)) :=
  guarded impl_ devices_info.
Definition Runtime_domains (impl_ : bool) : M RuntimeImpl (Result (list DomainInfo)) :=
  guarded impl_ (let! l := domains_info in ret (Ok l)).

End facade.
