(* ===== verification/SimRuntime.v ===== *)
(** A concrete runtime on the platform of Sim.v, with every backend attached, and
    the requests at which the witnesses of the library evaluate. *)
From S2P Require Import Prelude Types Platform State Sim Ledger Pool Lifecycle Runtime Handle.
From S2P Require Import Facade.

Definition sim_runtime : RuntimeImpl := (RuntimeImpl_new RuntimeConfig_default 7 sim_machine).1.

Definition sim_request_for (d : MemoryDomain) (size : Z) (pooled : bool) : AllocationRequest :=
  mkAllocationRequest kDefaultNamespace d
    (mkDeviceId (match d with MemoryDomain.DEVICE => BackendId.CUDA | _ => BackendId.HOST_MALLOC end)
       (match d with MemoryDomain.DEVICE => 0 | _ => -1 end))
    size 0 AccessMode.READ_WRITE (mkAllocationFlags false pooled true 0) "buf" None.
Definition sim_request : AllocationRequest := sim_request_for MemoryDomain.HOST 5000 true.

(** The value of a result, if it has one. *)
Definition result_option {A} (r : Result A) : option A :=
  match r with Ok a => Some a | Fail _ => None end.
