(* ===== verification/Frames.v ===== *)
(** Frame reasoning for the operations of [RuntimeImpl]: which members of the state
    an operation can change.  "This operation does not touch the control blocks" is
    solved by the [preserves_tac] of the prelude. *)
From S2P Require Import Prelude Types CheckedMath Platform SharedBackend FileBackend State.
From S2P Require Import Ledger Pool Lifecycle Runtime Handle Facade.

Section frames.
Context {P : Platform}.
Implicit Types s : RuntimeImpl.

(** The members no operation on a running runtime ever assigns. *)
Record same_static s s' : Prop := {
  ss_cfg : cfg s' = cfg s;
  ss_backends : backends s' = backends s;
  ss_seed : id_seed_ s' = id_seed_ s;
  ss_epoch : epoch_ s' = epoch_ s;
  ss_cuda : device_cuda_ s' = device_cuda_ s;
  ss_closed : closed_ s' = closed_ s;
  ss_counter : id_counter_ s' = id_counter_ s }.

(** [quiet s s']: the control blocks and the registry are untouched too. *)
Record quiet s s' : Prop := {
  q_static : same_static s s';
  q_controls : controls s' = controls s;
  q_registry : registry_ s' = registry_ s }.

(** [calm s s']: the same, but the identity counter may move. *)
Definition calm s s' : Prop := quiet s (set_id_counter (id_counter_ s) s').

(** What the reference-counting protocol reads of a control block. *)
Record same_protocol (k k' : Control) : Prop := {
  sp_refs : refs k' = refs k;
  sp_finalized : finalized k' = finalized k;
  sp_read : read_leases k' = read_leases k;
  sp_write : write_leases k' = write_leases k;
  sp_exclusive : exclusive_leases k' = exclusive_leases k;
  sp_id : rec_id (rec k') = rec_id (rec k) }.

(** [only_ctl c s s']: of the control blocks only [c] is touched, and that outside
    of the protocol members. *)
Record only_ctl (c : nat) s s' : Prop := {
  oc_static : same_static s s';
  oc_registry : registry_ s' = registry_ s;
  oc_other : ∀ c', c' ≠ c → controls s' !! c' = controls s !! c';
  oc_this : option_Forall2 same_protocol (controls s !! c) (controls s' !! c) }.

#[export] Instance same_static_preorder : PreOrder same_static.
Proof.
  split; [by constructor|].
  intros s1 s2 s3 [] []. constructor; congruence.
Qed.
#[export] Instance quiet_preorder : PreOrder quiet.
Proof.
  split; [by constructor|].
  intros s1 s2 s3 [] []. constructor; [by etransitivity|congruence..].
Qed.
#[export] Instance calm_preorder : PreOrder calm.
Proof.
  split.
  - intros s. unfold calm. destruct s. by repeat constructor.
  - intros s1 s2 s3 [[] ? ?] [[] ? ?]. simpl in *. repeat constructor; simpl; congruence.
Qed.
#[export] Instance same_protocol_preorder : PreOrder same_protocol.
Proof.
  split; [by constructor|].
  intros k1 k2 k3 [] []. constructor; congruence.
Qed.
#[export] Instance only_ctl_preorder c : PreOrder (only_ctl c).
Proof.
  split.
  - intros s. constructor; [done..|]. destruct (controls s !! c); by constructor.
  - intros s1 s2 s3 [? ? Ho1 H1] [? ? Ho2 H2]. constructor; [by etransitivity|congruence| |].
    + intros c' Hc. by rewrite Ho2, Ho1.
    + destruct H1; inversion H2; subst; constructor. by etransitivity.
Qed.

Lemma quiet_only_ctl c s s' : quiet s s' → only_ctl c s s'.
Proof.
  intros [? Hc Hr]. constructor; [done|done|by rewrite Hc|].
  rewrite Hc. destruct (controls s !! c); by constructor.
Qed.
Lemma preserves_quiet_only {A} c (m : M RuntimeImpl A) :
  preserves quiet m → preserves (only_ctl c) m.
Proof. intros Hm s. apply quiet_only_ctl, Hm. Qed.
Lemma quiet_calm s s' : quiet s s' → calm s s'.
Proof. intros [[] ? ?]. repeat constructor; simpl; congruence. Qed.
Lemma preserves_quiet_calm {A} (m : M RuntimeImpl A) : preserves quiet m → preserves calm m.
Proof. intros Hm s. apply quiet_calm, Hm. Qed.
Lemma quiet_ctl_at s s' c : quiet s s' → ctl_at s' c = ctl_at s c.
Proof. intros [? Hc ?]. unfold ctl_at. by rewrite Hc. Qed.
Lemma quiet_domain s s' d : quiet s s' → domain s' d = domain s d.
Proof. intros [[] ? ?]. unfold domain. destruct d; congruence. Qed.

(** ** Leaves *)

Lemma on_machine_run {A} (f : M Machine A) s :
  on_machine f s = ((f (machine s)).1, set_machine (f (machine s)).2 s).
Proof. unfold on_machine. by destruct (f (machine s)). Qed.
Lemma quiet_on_machine {A} (f : M Machine A) : preserves quiet (on_machine f).
Proof. intros s. unfold on_machine. destruct (f (machine s)). by repeat constructor. Qed.
Lemma quiet_get_ctl c : preserves quiet (get_ctl c).
Proof. intros s. simpl. reflexivity. Qed.
Lemma quiet_tick_by c n : preserves quiet (tick_by c n).
Proof. intros s. by repeat constructor. Qed.
Lemma quiet_tick c : preserves quiet (tick c).
Proof. apply quiet_tick_by. Qed.
Lemma quiet_untick c : preserves quiet (untick c).
Proof. intros s. unfold untick, modify. simpl. destruct (_ <? _); by repeat constructor. Qed.
Lemma quiet_lose d a : preserves quiet (lose d a).
Proof. intros s. by repeat constructor. Qed.
Lemma quiet_note e d : preserves quiet (note e d).
Proof. intros s. by repeat constructor. Qed.
Lemma quiet_modify_ledger f : preserves quiet (modify_ledger f).
Proof. intros s. by repeat constructor. Qed.
Lemma quiet_set_pool p : preserves quiet (modify (set_pool p)).
Proof. intros s. by repeat constructor. Qed.
Lemma calm_next_id : preserves calm next_id.
Proof. intros s. by repeat constructor. Qed.
Lemma quiet_pool_edit f : preserves quiet (modify (λ s, set_pool (f s) s)).
Proof. intros s. by repeat constructor. Qed.

Lemma only_upd_ctl c f :
  (∀ k, same_protocol k (f k)) → preserves (only_ctl c) (upd_ctl c f).
Proof.
  intros Hf s. constructor; simpl; [done|done| |].
  - intros c' Hc. by rewrite lookup_alter_ne.
  - rewrite lookup_alter_eq. destruct (controls s !! c); constructor. apply Hf.
Qed.

End frames.

#[export] Hint Resolve quiet_on_machine quiet_get_ctl quiet_tick_by quiet_tick quiet_untick quiet_note quiet_lose
  quiet_modify_ledger quiet_set_pool quiet_pool_edit calm_next_id preserves_quiet_calm : frames.

(** ** Operations that leave every control block alone *)
Section quiet_operations.
Context {P : Platform}.

Lemma quiet_cap_for d : preserves quiet (cap_for d).
Proof. unfold cap_for, capacity_for. preserves_tac. Qed.
#[local] Hint Resolve quiet_cap_for : frames.

Lemma quiet_reserve_amount ns d b : preserves quiet (reserve_amount ns d b).
Proof. unfold reserve_amount. preserves_tac. Qed.
Lemma quiet_commit_amount ns d b : preserves quiet (commit_amount ns d b).
Proof. unfold commit_amount. preserves_tac. Qed.
Lemma quiet_unreserve_amount ns d b : preserves quiet (unreserve_amount ns d b).
Proof. unfold unreserve_amount. preserves_tac. Qed.
Lemma quiet_checkout_amount ns d b : preserves quiet (checkout_amount ns d b).
Proof. unfold checkout_amount. preserves_tac. Qed.
Lemma quiet_release_amount ns d b p : preserves quiet (release_amount ns d b p).
Proof. unfold release_amount. preserves_tac. Qed.
Lemma quiet_free_accounting ns d b : preserves quiet (free_accounting ns d b).
Proof. unfold free_accounting. preserves_tac. Qed.
Lemma quiet_reserve_count ns : preserves quiet (reserve_count ns).
Proof. unfold reserve_count. preserves_tac. Qed.
Lemma quiet_release_count ns : preserves quiet (release_count ns).
Proof. unfold release_count. preserves_tac. Qed.
Lemma quiet_create_namespace c : preserves quiet (create_namespace c).
Proof. unfold create_namespace. preserves_tac. Qed.
#[local] Hint Resolve quiet_reserve_amount quiet_commit_amount quiet_unreserve_amount
  quiet_checkout_amount quiet_release_amount quiet_free_accounting quiet_reserve_count
  quiet_release_count : frames.

Lemma quiet_discard_with dom a : preserves quiet (discard_with dom a).
Proof. unfold discard_with. preserves_tac. Qed.
#[local] Hint Resolve quiet_discard_with : frames.
Lemma quiet_discard_backing d a : preserves quiet (discard_backing d a).
Proof. unfold discard_backing. preserves_tac. Qed.
#[local] Hint Resolve quiet_discard_backing : frames.
Lemma quiet_pool_take k o m : preserves quiet (pool_take k o m).
Proof. unfold pool_take. preserves_tac. Qed.
Lemma quiet_pool_put k sl : preserves quiet (pool_put k sl).
Proof. unfold pool_put. preserves_tac. Qed.
#[local] Hint Resolve quiet_pool_take quiet_pool_put : frames.
Lemma quiet_pool_trim_slot k sl : preserves quiet (pool_trim_slot k sl).
Proof. unfold pool_trim_slot. preserves_tac. Qed.
#[local] Hint Resolve quiet_pool_trim_slot : frames.
Lemma quiet_pool_trim_over l : preserves quiet (pool_trim_over l).
Proof. unfold pool_trim_over, pool_trim_bucket. preserves_tac. Qed.
#[local] Hint Resolve quiet_pool_trim_over : frames.
Lemma quiet_pool_trim : preserves quiet pool_trim.
Proof. unfold pool_trim. preserves_tac. Qed.

Lemma quiet_now_epoch_ms : preserves quiet now_epoch_ms.
Proof. unfold now_epoch_ms. preserves_tac. Qed.
#[local] Hint Resolve quiet_now_epoch_ms : frames.
Lemma quiet_take_from_pool req r n : preserves quiet (take_from_pool req r n).
Proof. unfold take_from_pool. preserves_tac. Qed.
Lemma quiet_fresh_backing dom req n a : preserves quiet (fresh_backing dom req n a).
Proof. unfold fresh_backing. preserves_tac. Qed.
Lemma quiet_zero_backing dom req n a sl : preserves quiet (zero_backing dom req n a sl).
Proof. unfold zero_backing. preserves_tac. Qed.
#[local] Hint Resolve quiet_take_from_pool quiet_fresh_backing quiet_zero_backing : frames.

Lemma quiet_lookup_control id g : preserves quiet (lookup_control id g).
Proof. unfold lookup_control. preserves_tac. Qed.
Lemma quiet_migrate_fill r dom t n nb : preserves quiet (migrate_fill r dom t n nb).
Proof. unfold migrate_fill. preserves_tac. Qed.
Lemma quiet_export_descriptor c : preserves quiet (export_descriptor c).
Proof. unfold export_descriptor. preserves_tac. Qed.
Lemma quiet_zero_on_release r : preserves quiet (zero_on_release r).
Proof. unfold zero_on_release. preserves_tac. Qed.

Lemma quiet_with_handle {A} h chk (k : nat → M RuntimeImpl (Result A)) :
  (∀ c, preserves quiet (k c)) → preserves quiet (with_handle h chk k).
Proof.
  intros Hk. unfold with_handle. apply preserves_bind; [apply _|apply preserves_get, _|].
  intros s. destruct (chk s), (h_ctl h); apply Hk || apply preserves_ret, _.
Qed.
Lemma quiet_handle_verify h : preserves quiet (handle_verify h).
Proof. apply quiet_with_handle. intros c. preserves_tac. Qed.
Lemma quiet_handle_checksum h : preserves quiet (handle_checksum h).
Proof. apply quiet_with_handle. intros c. preserves_tac. Qed.
Lemma quiet_handle_copy_to h d o n : preserves quiet (handle_copy_to h d o n).
Proof. apply quiet_with_handle. intros c. preserves_tac. Qed.
Lemma quiet_handle_copy_from h d o n : preserves quiet (handle_copy_from h d o n).
Proof. apply quiet_with_handle. intros c. preserves_tac. Qed.
End quiet_operations.

#[export] Hint Resolve quiet_cap_for quiet_reserve_amount quiet_commit_amount
  quiet_unreserve_amount quiet_checkout_amount quiet_release_amount quiet_free_accounting
  quiet_reserve_count quiet_release_count quiet_create_namespace quiet_discard_with
  quiet_discard_backing quiet_pool_take quiet_pool_put quiet_pool_trim quiet_now_epoch_ms
  quiet_take_from_pool quiet_fresh_backing quiet_zero_backing quiet_lookup_control quiet_migrate_fill quiet_export_descriptor
  quiet_zero_on_release quiet_handle_verify quiet_handle_checksum quiet_handle_copy_to
  quiet_handle_copy_from : frames.
