(* ===== verification/RefSpec.v ===== *)
(** The abstract reference-counting object that the runtime promises its clients:
    control blocks that know a reference count, lease counts and whether they are
    finalized, a registry of the live ones, and the references ([Token]s) that
    clients hold.  Nothing here mentions memory, pools or quotas.  [coherent] is
    the invariant of the specification; each abstract operation preserves it. *)
From S2P Require Import Prelude Types.

(** ** Abstract control blocks *)
Record ACtl : Set := mkACtl {
  a_refs : Z; a_final : bool; a_read : Z; a_write : Z; a_excl : Z; a_id : BufferId }.
Record Abs : Set := mkAbs { actls : gmap nat ACtl; areg : gmap BufferId nat }.

Definition a_set_refs (f : Z → Z) (k : ACtl) : ACtl :=
  mkACtl (f (a_refs k)) (a_final k) (a_read k) (a_write k) (a_excl k) (a_id k).
Definition a_set_final (k : ACtl) : ACtl :=
  mkACtl (a_refs k) true (a_read k) (a_write k) (a_excl k) (a_id k).
(** [kind]'s lease counter becomes [f] of itself. *)
Definition a_set_lease (kind : LeaseKind) (f : Z → Z) (k : ACtl) : ACtl :=
  match kind with
  | LeaseKind.READ => mkACtl (a_refs k) (a_final k) (f (a_read k)) (a_write k) (a_excl k) (a_id k)
  | LeaseKind.WRITE => mkACtl (a_refs k) (a_final k) (a_read k) (f (a_write k)) (a_excl k) (a_id k)
  | LeaseKind.EXCLUSIVE => mkACtl (a_refs k) (a_final k) (a_read k) (a_write k) (f (a_excl k)) (a_id k)
  end.
Definition a_leases (kind : LeaseKind) (k : ACtl) : Z :=
  match kind with
  | LeaseKind.READ => a_read k | LeaseKind.WRITE => a_write k | LeaseKind.EXCLUSIVE => a_excl k
  end.
(** A lease of the kind would conflict. *)
Definition a_busy (kind : LeaseKind) (k : ACtl) : bool :=
  match kind with
  | LeaseKind.READ => (0 <? a_excl k) || (0 <? a_write k)
  | _ => (0 <? a_excl k) || (0 <? a_write k) || (0 <? a_read k)
  end.

Definition a_upd (c : nat) (f : ACtl → ACtl) (A : Abs) : Abs := mkAbs (alter f c (actls A)) (areg A).

(** A new control block with one reference. *)
Definition a_create (id : BufferId) (A : Abs) : Abs :=
  let c := size (actls A) in
  mkAbs (<[c := mkACtl 1 false 0 0 0 id]> (actls A)) (<[id := c]> (areg A)).
Definition a_retain (c : nat) : Abs → Abs := a_upd c (a_set_refs (λ n, n + 1)).
Definition a_finalize (c : nat) (A : Abs) : Abs :=
  match actls A !! c with
  | Some k => if a_final k then A
              else mkAbs (alter a_set_final c (actls A)) (delete (a_id k) (areg A))
  | None => A
  end.
Definition a_drop (c : nat) (A : Abs) : Abs :=
  let A' := a_upd c (a_set_refs (λ n, n - 1)) A in
  match actls A !! c with
  | Some k => if a_refs k =? 1 then a_finalize c A' else A'
  | None => A
  end.
Definition a_lease (kind : LeaseKind) (c : nat) (A : Abs) : Abs :=
  a_retain c (a_upd c (a_set_lease kind (λ n, n + 1)) A).
Definition a_unlease (kind : LeaseKind) (c : nat) (A : Abs) : Abs :=
  a_drop c (a_upd c (a_set_lease kind (λ n, if 0 <? n then n - 1 else n)) A).

(** ** References held by clients *)

(** A reference to a control block: plain (a handle, map or view) or a lease. *)
Record Ref : Set := mkRef { ref_ctl : nat; ref_lease : option LeaseKind }.
#[global] Instance Ref_eq_dec : EqDecision Ref.
Proof. solve_decision. Defined.

Definition uses (c : nat) (r : Ref) : Z := if decide (ref_ctl r = c) then 1 else 0.
Definition leases_of (kind : LeaseKind) (c : nat) (r : Ref) : Z :=
  if decide (ref_ctl r = c ∧ ref_lease r = Some kind) then 1 else 0.
Definition count_refs (c : nat) (rs : list Ref) : Z := sum_list (uses c) rs.
Definition count_leases (kind : LeaseKind) (c : nat) (rs : list Ref) : Z :=
  sum_list (leases_of kind c) rs.

Arguments count_refs : simpl never.
Arguments count_leases : simpl never.

(** The invariant.  [idc] bounds the identities handed out under the prefix [h]. *)
Record ctl_coherent (rs : list Ref) (h idc : Z) (c : nat) (k : ACtl) : Prop := {
  cc_refs : a_refs k = count_refs c rs;
  cc_leases : ∀ kind, a_leases kind k = count_leases kind c rs;
  cc_final : a_final k = true ↔ count_refs c rs = 0;
  cc_excl : a_write k + a_excl k ≤ 1 ∧ (0 < a_write k + a_excl k → a_read k = 0);
  cc_id : hi (a_id k) = h ∧ 1 ≤ lo (a_id k) < idc }.
Record coherent (A : Abs) (rs : list Ref) (h idc : Z) : Prop := {
  co_dom : ∀ c, is_Some (actls A !! c) ↔ (c < size (actls A))%nat;
  co_refs : ∀ r, r ∈ rs → is_Some (actls A !! ref_ctl r);
  co_ctl : ∀ c k, actls A !! c = Some k → ctl_coherent rs h idc c k;
  co_reg : ∀ id c, areg A !! id = Some c ↔
             ∃ k, actls A !! c = Some k ∧ a_id k = id ∧ a_final k = false;
  co_idc : 1 ≤ idc;
  co_inj : ∀ c c' k k', actls A !! c = Some k → actls A !! c' = Some k' →
             a_id k = a_id k' → c = c' }.

(** * Lemmas *)

Lemma count_refs_cons c r rs : count_refs c (r :: rs) = uses c r + count_refs c rs.
Proof. done. Qed.
Lemma count_leases_cons kind c r rs :
  count_leases kind c (r :: rs) = leases_of kind c r + count_leases kind c rs.
Proof. done. Qed.
Lemma uses_range c r : 0 ≤ uses c r ≤ 1.
Proof. unfold uses. case_decide; lia. Qed.
Lemma leases_of_range kind c r : 0 ≤ leases_of kind c r ≤ uses c r.
Proof. unfold uses, leases_of. repeat case_decide; naive_solver lia. Qed.
Lemma count_refs_nonneg c rs : 0 ≤ count_refs c rs.
Proof. apply sum_list_nonneg. intros. apply uses_range. Qed.
Lemma count_leases_nonneg kind c rs : 0 ≤ count_leases kind c rs.
Proof. apply sum_list_nonneg. intros. apply leases_of_range. Qed.
Lemma count_leases_le kind c rs : count_leases kind c rs ≤ count_refs c rs.
Proof.
  induction rs as [|r rs IH]; [done|]. rewrite count_refs_cons, count_leases_cons.
  pose proof (leases_of_range kind c r). lia.
Qed.
Lemma count_refs_elem c r rs : r ∈ rs → ref_ctl r = c → 0 < count_refs c rs.
Proof.
  intros Hr Hc. apply elem_of_Permutation in Hr as [rs' Hp]. unfold count_refs.
  rewrite (sum_list_perm _ _ _ Hp). change (0 < uses c r + count_refs c rs').
  pose proof (count_refs_nonneg c rs'). unfold uses. rewrite decide_True by done. lia.
Qed.
Lemma count_refs_zero c rs : (∀ r, r ∈ rs → ref_ctl r ≠ c) → count_refs c rs = 0.
Proof.
  induction rs as [|r rs IH]; [done|]. intros Hr. rewrite count_refs_cons, IH by set_solver.
  unfold uses. rewrite decide_False by (apply Hr; set_solver). lia.
Qed.

Lemma uses_self c l : uses c (mkRef c l) = 1.
Proof. unfold uses. by rewrite decide_True. Qed.
Lemma uses_other c c' l : c ≠ c' → uses c (mkRef c' l) = 0.
Proof. intros. unfold uses. by rewrite decide_False. Qed.
Lemma leases_of_plain kind c c' : leases_of kind c (mkRef c' None) = 0.
Proof. unfold leases_of. rewrite decide_False; naive_solver. Qed.
Lemma leases_of_other kind c c' l : c ≠ c' → leases_of kind c (mkRef c' l) = 0.
Proof. intros. unfold leases_of. rewrite decide_False; naive_solver. Qed.
Lemma leases_of_self kind kind' c :
  leases_of kind c (mkRef c (Some kind')) = if decide (kind = kind') then 1 else 0.
Proof. unfold leases_of. simpl. repeat case_decide; naive_solver. Qed.

(** A control block whose references do not change stays coherent. *)
Lemma ctl_coherent_other rs rs' h idc idc' c k :
  ctl_coherent rs h idc c k → idc ≤ idc' →
  count_refs c rs' = count_refs c rs →
  (∀ kind, count_leases kind c rs' = count_leases kind c rs) →
  ctl_coherent rs' h idc' c k.
Proof.
  intros [K1 K2 K3 K4 K5] Hidc Hr Hl. constructor; rewrite ?Hr; auto.
  - intros kind. by rewrite Hl.
  - naive_solver lia.
Qed.

Lemma coherent_perm A rs rs' h idc : rs ≡ₚ rs' → coherent A rs h idc → coherent A rs' h idc.
Proof.
  intros Hp [H1 H2 H3 H4 H5 H6]. constructor; auto.
  - intros r. rewrite <- Hp. auto.
  - intros c k Hk. eapply ctl_coherent_other; eauto; [lia| |];
      intros; unfold count_refs, count_leases; by rewrite (sum_list_perm _ _ _ Hp).
Qed.

Lemma coherent_idc A rs h idc idc' : idc ≤ idc' → coherent A rs h idc → coherent A rs h idc'.
Proof.
  intros Hle [H1 H2 H3 H4 H5 H6]. constructor; auto; [|lia].
  intros c k Hk. by eapply ctl_coherent_other; eauto.
Qed.

Lemma a_set_lease_id kind f k : a_id (a_set_lease kind f k) = a_id k.
Proof. by destruct kind. Qed.
Lemma a_set_lease_final kind f k : a_final (a_set_lease kind f k) = a_final k.
Proof. by destruct kind. Qed.
Lemma a_set_lease_refs kind f k : a_refs (a_set_lease kind f k) = a_refs k.
Proof. by destruct kind. Qed.
Lemma a_leases_set kind kind' f k :
  a_leases kind (a_set_lease kind' f k) =
    if decide (kind = kind') then f (a_leases kind k) else a_leases kind k.
Proof. by destruct kind, kind'. Qed.

Lemma alter_ids (f : ACtl → ACtl) m c c' k' :
  (∀ k, a_id (f k) = a_id k) → alter f c m !! c' = Some k' →
  ∃ k, (m : gmap nat ACtl) !! c' = Some k ∧ a_id k' = a_id k.
Proof.
  intros Hf. rewrite lookup_alter_Some. intros [(<- & k & Hk & ->)|[_ Hk]]; eauto.
Qed.

(** Changing one control block, the identity and finalization flag kept. *)
Lemma coherent_upd A rs rs' h idc c f :
  coherent A rs h idc →
  (∀ k, a_id (f k) = a_id k ∧ a_final (f k) = a_final k) →
  (∀ r, r ∈ rs' → r ∈ rs ∨ (ref_ctl r = c ∧ is_Some (actls A !! c))) →
  (∀ k, actls A !! c = Some k → ctl_coherent rs' h idc c (f k)) →
  (∀ c', c' ≠ c → count_refs c' rs' = count_refs c' rs
                  ∧ ∀ kind, count_leases kind c' rs' = count_leases kind c' rs) →
  coherent (a_upd c f A) rs' h idc.
Proof.
  intros [H1 H2 H3 H4 H5 H6] Hf Hrs Hc Hother.
  assert (∀ c', is_Some (alter f c (actls A) !! c') ↔ is_Some (actls A !! c')) as Hsome.
  { intros c'. rewrite !alter_is_Some. done. }
  constructor; simpl.
  - intros c'. rewrite Hsome. by rewrite size_alter.
  - intros r Hr. rewrite Hsome. destruct (Hrs r Hr) as [Hin|[-> ?]]; auto.
  - intros c' k'. rewrite lookup_alter_Some. intros [(<- & k & Hk & ->)|[Hne Hk]]; [by apply Hc|].
    destruct (Hother c' ltac:(done)). eapply ctl_coherent_other; eauto. lia.
  - intros id c'. rewrite H4. split.
    + intros (k & Hk & Hid & Hfin). destruct (decide (c' = c)) as [->|Hne].
      * exists (f k). rewrite lookup_alter_eq, Hk. destruct (Hf k). naive_solver.
      * exists k. by rewrite lookup_alter_ne.
    + intros (k & Hk & Hid & Hfin). rewrite lookup_alter_Some in Hk.
      destruct Hk as [(<- & k0 & Hk & ->)|[Hne Hk]]; [|by exists k].
      exists k0. destruct (Hf k0). naive_solver.
  - done.
  - intros c1 c2 k1 k2 Hk1 Hk2 Heq.
    apply alter_ids in Hk1 as (k3 & Hk3 & E1); [|intros; apply Hf].
    apply alter_ids in Hk2 as (k4 & Hk4 & E2); [|intros; apply Hf].
    apply (H6 c1 c2 k3 k4); congruence.
Qed.

(** ** The abstract operations preserve the invariant *)

Lemma coherent_empty h : coherent (mkAbs ∅ ∅) [] h 1.
Proof.
  constructor; simpl; [| | | |lia|done].
  - intros c. rewrite lookup_empty, map_size_empty. split; [by intros []|lia].
  - intros r Hr. by apply not_elem_of_nil in Hr.
  - intros c k. by rewrite lookup_empty.
  - intros id c. rewrite !lookup_empty. naive_solver.
Qed.

Lemma coherent_no_refs A rs h idc c : coherent A rs h idc → actls A !! c = None → count_refs c rs = 0.
Proof.
  intros Hco Hc. apply count_refs_zero. intros r Hr <-.
  destruct (co_refs _ _ _ _ Hco r Hr). congruence.
Qed.

Lemma coherent_create A rs h idc :
  coherent A rs h idc →
  coherent (a_create (mkBufferId h idc) A) (mkRef (size (actls A)) None :: rs) h (idc + 1).
Proof.
  intros Hco. pose proof Hco as [H1 H2 H3 H4 H5 H6]. set (c := size (actls A)).
  assert (actls A !! c = None) as Hfresh.
  { apply eq_None_not_Some. rewrite H1. unfold c. lia. }
  pose proof (coherent_no_refs _ _ _ _ _ Hco Hfresh) as Hz.
  assert (areg A !! mkBufferId h idc = None) as Hreg.
  { apply eq_None_not_Some. intros [c' Hc']. apply H4 in Hc' as (k & Hk & Hid & _).
    destruct (H3 _ _ Hk) as [_ _ _ _ [_ Hlo]]. rewrite Hid in Hlo. simpl in Hlo. lia. }
  constructor; simpl; fold c.
  - intros c'. rewrite map_size_insert_None by done. fold c.
    destruct (decide (c' = c)) as [->|Hne].
    + rewrite lookup_insert_eq. split; [lia|by eexists].
    + rewrite lookup_insert_ne, H1 by done. fold c. lia.
  - intros r Hr. apply lookup_insert_is_Some'. apply elem_of_cons in Hr as [->|Hr]; [by left|].
    right. auto.
  - intros c' k. rewrite lookup_insert_Some. intros [[<- <-]|[Hne Hk]].
    + constructor; simpl; rewrite ?count_refs_cons, ?uses_self, ?Hz.
      * done.
      * intros kind. rewrite count_leases_cons, leases_of_plain.
        pose proof (count_leases_nonneg kind c rs). pose proof (count_leases_le kind c rs).
        destruct kind; simpl; lia.
      * naive_solver lia.
      * lia.
      * lia.
    + eapply ctl_coherent_other; eauto; [lia| |].
      * rewrite count_refs_cons, uses_other by done. lia.
      * intros kind. rewrite count_leases_cons, leases_of_other by done. lia.
  - intros id c'. split.
    + rewrite lookup_insert_Some. intros [[<- <-]|[Hne Hc']].
      * exists (mkACtl 1 false 0 0 0 (mkBufferId h idc)). by rewrite lookup_insert_eq.
      * apply H4 in Hc' as (k & Hk & ?). exists k. rewrite lookup_insert_ne; [done|congruence].
    + intros (k & Hk & Hid & Hfin). rewrite lookup_insert_Some in Hk.
      destruct Hk as [[<- <-]|[Hne Hk]]; simpl in Hid.
      * subst id. by rewrite lookup_insert_eq.
      * rewrite lookup_insert_ne; [apply H4; eauto|].
        intros <-. destruct (H3 _ _ Hk) as [_ _ _ _ [_ Hlo]]. rewrite Hid in Hlo. simpl in Hlo. lia.
  - lia.
  - assert (∀ c' k', actls A !! c' = Some k' → a_id k' ≠ mkBufferId h idc) as Hnew.
    { intros c' k' Hk' Hid. destruct (H3 _ _ Hk') as [_ _ _ _ [_ Hlo]].
      rewrite Hid in Hlo. simpl in Hlo. lia. }
    intros c1 c2 k1 k2. rewrite !lookup_insert_Some.
    intros [[<- <-]|[_ Hk1]] [[<- <-]|[_ Hk2]] Heq; simpl in Heq; [done| | |by eauto].
    + by destruct (Hnew _ _ Hk2).
    + by destruct (Hnew _ _ Hk1).
Qed.

Lemma coherent_live A rs h idc c k :
  coherent A rs h idc → actls A !! c = Some k → a_final k = false → 0 < count_refs c rs.
Proof.
  intros Hco Hk Hfin. destruct (co_ctl _ _ _ _ Hco _ _ Hk) as [_ _ Hf _ _].
  pose proof (count_refs_nonneg c rs). destruct (decide (count_refs c rs = 0)); [|lia].
  destruct Hf as [_ Hf]. rewrite Hf in Hfin by done. done.
Qed.

Lemma coherent_retain A rs h idc c k :
  coherent A rs h idc → actls A !! c = Some k → a_final k = false →
  coherent (a_retain c A) (mkRef c None :: rs) h idc.
Proof.
  intros Hco Hk Hfin. pose proof (coherent_live _ _ _ _ _ _ Hco Hk Hfin) as Hpos.
  apply (coherent_upd _ rs); [done|done| | |].
  - intros r. rewrite elem_of_cons. intros [->|]; [right|by left]. simpl. eauto.
  - intros k' Hk'. rewrite Hk in Hk'. injection Hk' as <-.
    destruct (co_ctl _ _ _ _ Hco _ _ Hk) as [C1 C2 C3 C4 C5].
    constructor; simpl; rewrite ?count_refs_cons, ?uses_self; auto; [lia| |].
    + intros kind. rewrite count_leases_cons, leases_of_plain, <- C2. by destruct kind.
    + rewrite Hfin. split; [done|lia].
  - intros c' Hne. rewrite count_refs_cons, uses_other by done. split; [lia|].
    intros kind. rewrite count_leases_cons, leases_of_plain. lia.
Qed.

Lemma coherent_lease A rs h idc c k kind :
  coherent A rs h idc → actls A !! c = Some k → a_final k = false → a_busy kind k = false →
  coherent (a_lease kind c A) (mkRef c (Some kind) :: rs) h idc.
Proof.
  intros Hco Hk Hfin Hbusy. pose proof (coherent_live _ _ _ _ _ _ Hco Hk Hfin) as Hpos.
  assert (a_lease kind c A = a_upd c (λ k, a_set_refs (λ n, n + 1) (a_set_lease kind (λ n, n + 1) k)) A)
    as ->.
  { unfold a_lease, a_retain, a_upd. simpl. f_equal. by rewrite alter_alter_eq. }
  apply (coherent_upd _ rs); [done| | | |].
  - intros k'. by destruct kind.
  - intros r. rewrite elem_of_cons. intros [->|]; [right|by left]. simpl. eauto.
  - intros k' Hk'. rewrite Hk in Hk'. injection Hk' as <-.
    destruct (co_ctl _ _ _ _ Hco _ _ Hk) as [C1 C2 C3 C4 C5].
    pose proof (C2 LeaseKind.READ). pose proof (C2 LeaseKind.WRITE). pose proof (C2 LeaseKind.EXCLUSIVE).
    pose proof (count_leases_nonneg LeaseKind.READ c rs).
    pose proof (count_leases_nonneg LeaseKind.WRITE c rs).
    pose proof (count_leases_nonneg LeaseKind.EXCLUSIVE c rs).
    constructor; rewrite ?count_refs_cons, ?uses_self.
    + destruct kind; simpl; lia.
    + intros kind'. rewrite count_leases_cons, leases_of_self, <- C2.
      destruct kind, kind'; simpl; lia.
    + destruct kind; simpl; rewrite Hfin; (split; [done|lia]).
    + destruct kind; simpl in *; bool_prop; lia.
    + by destruct kind.
  - intros c' Hne. rewrite count_refs_cons, uses_other by done. split; [lia|].
    intros kind'. rewrite count_leases_cons, leases_of_other by done. lia.
Qed.

(** Dropping a reference, given the block that results from undoing its lease. *)
Lemma coherent_drop_gen A rs h idc c k l (g : ACtl → ACtl) :
  coherent A (mkRef c l :: rs) h idc → actls A !! c = Some k →
  (∀ k, a_id (g k) = a_id k ∧ a_final (g k) = a_final k ∧ a_refs (g k) = a_refs k) →
  (∀ kind, a_leases kind (g k) = count_leases kind c rs) →
  coherent (a_drop c (a_upd c g A)) rs h idc.
Proof.
  intros Hco Hk Hg Hleases. pose proof Hco as [H1 H2 H3 H4 H5 H6].
  destruct (H3 _ _ Hk) as [C1 C2 C3 C4 C5]. rewrite count_refs_cons, uses_self in *.
  pose proof (count_refs_nonneg c rs) as Hnn.
  assert (a_final k = false) as Hfin by (destruct (a_final k); naive_solver lia).
  destruct (Hg k) as (Hgid & Hgfin & Hgrefs).
  assert (a_write (g k) + a_excl (g k) ≤ 1 ∧ (0 < a_write (g k) + a_excl (g k) → a_read (g k) = 0))
    as Hexcl.
  { assert (∀ kind, a_leases kind (g k) ≤ a_leases kind k) as Hle.
    { intros kind. rewrite Hleases, C2, count_leases_cons.
      pose proof (leases_of_range kind c (mkRef c l)). lia. }
    pose proof (Hle LeaseKind.READ). pose proof (Hle LeaseKind.WRITE).
    pose proof (Hle LeaseKind.EXCLUSIVE).
    pose proof (Hleases LeaseKind.READ). pose proof (Hleases LeaseKind.WRITE).
    pose proof (Hleases LeaseKind.EXCLUSIVE).
    pose proof (count_leases_nonneg LeaseKind.READ c rs).
    pose proof (count_leases_nonneg LeaseKind.WRITE c rs).
    pose proof (count_leases_nonneg LeaseKind.EXCLUSIVE c rs).
    simpl in *. lia. }
  assert (∀ c', c' ≠ c → count_refs c' rs = count_refs c' (mkRef c l :: rs)
            ∧ ∀ kind, count_leases kind c' rs = count_leases kind c' (mkRef c l :: rs)) as Hother.
  { intros c' Hne. rewrite count_refs_cons, uses_other by done. split; [lia|].
    intros kind. rewrite count_leases_cons, leases_of_other by done. lia. }
  unfold a_drop. simpl. rewrite lookup_alter_eq, Hk. simpl. rewrite Hgrefs.
  destruct (a_refs k =? 1) eqn:Hlast; bool_prop.
  - (* the last reference: finalize *)
    assert (count_refs c rs = 0) as Hz by lia.
    unfold a_finalize. simpl. rewrite !lookup_alter_eq, Hk. simpl. rewrite Hgfin, Hfin.
    rewrite !alter_alter_eq.
    set (f := λ k, a_set_final (a_set_refs (λ n, n - 1) (g k))).
    change (alter _ c (actls A)) with (alter f c (actls A)).
    assert (∀ c', is_Some (alter f c (actls A) !! c') ↔ is_Some (actls A !! c')) as Hsome
      by (intros c'; by rewrite alter_is_Some).
    constructor; simpl.
    + intros c'. by rewrite Hsome, size_alter.
    + intros r Hr. rewrite Hsome. apply H2. set_solver.
    + intros c' k'. rewrite lookup_alter_Some. intros [(<- & k0 & Hk0 & ->)|[Hne Hk']].
      * rewrite Hk in Hk0. injection Hk0 as <-. constructor; simpl; rewrite ?Hz; [lia|done|done|done|].
        rewrite Hgid. done.
      * destruct (Hother c' ltac:(done)). eapply ctl_coherent_other; eauto. lia.
    + intros id c'. rewrite lookup_delete_Some, H4, Hgid. split.
      * intros (Hne & k' & Hk' & Hid & Hf). exists k'. rewrite lookup_alter_ne; [done|].
        intros ->. congruence.
      * intros (k' & Hk' & Hid & Hf). rewrite lookup_alter_Some in Hk'.
        destruct Hk' as [(<- & k0 & _ & ->)|[Hne Hk']]; [done|]. split; [|eauto].
        intros Heq. assert (areg A !! id = Some c) as E1 by (apply H4; eauto).
        assert (areg A !! id = Some c') as E2 by (apply H4; eauto). congruence.
    + done.
    + intros c1 c2 k1 k2 Hk1 Hk2 Heq.
      apply alter_ids in Hk1 as (k3 & Hk3 & E1); [|intros; apply Hg].
      apply alter_ids in Hk2 as (k4 & Hk4 & E2); [|intros; apply Hg].
      apply (H6 c1 c2 k3 k4); congruence.
  - (* other references remain *)
    assert (a_upd c (a_set_refs (λ n, n - 1)) (a_upd c g A)
            = a_upd c (λ k, a_set_refs (λ n, n - 1) (g k)) A) as ->.
    { unfold a_upd. simpl. f_equal. by rewrite alter_alter_eq. }
    apply (coherent_upd _ (mkRef c l :: rs)); [done| | | |done].
    + intros k'. destruct (Hg k') as (? & ? & ?). done.
    + intros r Hr. left. set_solver.
    + intros k' Hk'. rewrite Hk in Hk'. injection Hk' as <-.
      constructor; simpl; [lia|done| |done|by rewrite Hgid].
      rewrite Hgfin, Hfin. split; [done|lia].
Qed.

Lemma coherent_drop A rs h idc c :
  coherent A (mkRef c None :: rs) h idc → coherent (a_drop c A) rs h idc.
Proof.
  intros Hco. destruct (co_refs _ _ _ _ Hco (mkRef c None)) as [k Hk]; [set_solver|].
  simpl in Hk.
  replace A with (a_upd c (λ k, k) A).
  - apply (coherent_drop_gen _ _ _ _ _ k None); [done|done|done|].
    intros kind. destruct (co_ctl _ _ _ _ Hco _ _ Hk) as [_ C2 _ _ _].
    rewrite C2, count_leases_cons, leases_of_plain. lia.
  - unfold a_upd. destruct A. simpl. f_equal. by rewrite alter_same.
Qed.

Lemma coherent_unlease A rs h idc c kind :
  coherent A (mkRef c (Some kind) :: rs) h idc → coherent (a_unlease kind c A) rs h idc.
Proof.
  intros Hco. destruct (co_refs _ _ _ _ Hco (mkRef c (Some kind))) as [k Hk]; [set_solver|].
  simpl in Hk.
  apply (coherent_drop_gen _ _ _ _ _ k (Some kind)); [done|done| |].
  - intros k'. by destruct kind.
  - intros kind'. destruct (co_ctl _ _ _ _ Hco _ _ Hk) as [_ C2 _ _ _].
    rewrite a_leases_set, C2, count_leases_cons, leases_of_self.
    pose proof (count_leases_nonneg kind' c rs).
    case_decide; [|lia]. destruct (_ <? _) eqn:E; bool_prop; lia.
Qed.

(** ** What coherence says to a client *)

Lemma coherent_ref_live A rs h idc r :
  coherent A rs h idc → r ∈ rs →
  ∃ k, actls A !! ref_ctl r = Some k ∧ a_final k = false
       ∧ areg A !! a_id k = Some (ref_ctl r) ∧ 0 < a_refs k.
Proof.
  intros Hco Hr. destruct (co_refs _ _ _ _ Hco r Hr) as [k Hk]. exists k.
  pose proof (count_refs_elem (ref_ctl r) r rs Hr eq_refl) as Hpos.
  destruct (co_ctl _ _ _ _ Hco _ _ Hk) as [C1 _ C3 _ _].
  assert (a_final k = false) as Hf by (destruct (a_final k); naive_solver lia).
  split_and!; [done|done| |lia]. apply (co_reg _ _ _ _ Hco). eauto.
Qed.

Lemma coherent_registered A rs h idc id c :
  coherent A rs h idc → areg A !! id = Some c →
  ∃ k, actls A !! c = Some k ∧ a_id k = id ∧ a_final k = false ∧ 0 < a_refs k.
Proof.
  intros Hco Hreg. apply (co_reg _ _ _ _ Hco) in Hreg as (k & Hk & Hid & Hfin).
  exists k. split_and!; [done..|]. destruct (co_ctl _ _ _ _ Hco _ _ Hk) as [-> _ _ _ _].
  by eapply coherent_live.
Qed.

(** ** The specification as a transition system

    A state is the abstract object, the references its clients hold and the next
    identity; [h] is the high word of every identity. *)
Record Spec : Set := mkSpec { sp_abs : Abs; sp_refs : list Ref; sp_next : Z }.

Inductive spec_step (h : Z) : Spec → Spec → Prop :=
  | spec_create A rs n :
      spec_step h (mkSpec A rs n)
        (mkSpec (a_create (mkBufferId h n) A) (mkRef (size (actls A)) None :: rs) (n + 1))
  | spec_burn A rs n : (* an identity drawn by an attempt that failed later *)
      spec_step h (mkSpec A rs n) (mkSpec A rs (n + 1))
  | spec_share A rs n c k :
      actls A !! c = Some k → a_final k = false →
      spec_step h (mkSpec A rs n) (mkSpec (a_retain c A) (mkRef c None :: rs) n)
  | spec_acquire A rs n kind c k :
      actls A !! c = Some k → a_final k = false → a_busy kind k = false →
      spec_step h (mkSpec A rs n) (mkSpec (a_lease kind c A) (mkRef c (Some kind) :: rs) n)
  | spec_drop A rs n c :
      spec_step h (mkSpec A (mkRef c None :: rs) n) (mkSpec (a_drop c A) rs n)
  | spec_unlease A rs n kind c :
      spec_step h (mkSpec A (mkRef c (Some kind) :: rs) n) (mkSpec (a_unlease kind c A) rs n)
  | spec_perm A rs rs' n : (* references are a multiset *)
      rs ≡ₚ rs' → spec_step h (mkSpec A rs n) (mkSpec A rs' n).

Definition spec_coherent (h : Z) (sp : Spec) : Prop :=
  coherent (sp_abs sp) (sp_refs sp) h (sp_next sp).

Lemma spec_step_coherent h sp sp' :
  spec_step h sp sp' → spec_coherent h sp → spec_coherent h sp'.
Proof.
  unfold spec_coherent. destruct 1; simpl; intros Hco.
  - by apply coherent_create.
  - eapply coherent_idc; [|done]. lia.
  - by eapply coherent_retain.
  - by eapply coherent_lease.
  - by apply coherent_drop.
  - by apply coherent_unlease.
  - by eapply coherent_perm.
Qed.
Lemma spec_steps_coherent h sp sp' :
  rtc (spec_step h) sp sp' → spec_coherent h sp → spec_coherent h sp'.
Proof. induction 1; eauto using spec_step_coherent. Qed.
