(* ===== verification/Refcount.v ===== *)
(** Refinement: the reference-counting of [RuntimeImpl] and its handles implements
    the abstract machine of RefSpec.v.  [abs] is the abstraction function; each
    operation of the runtime is related to the abstract operation it performs. *)
From S2P Require Import Prelude Types Platform SharedBackend FileBackend State Ledger Pool.
From S2P Require Import Lifecycle Runtime Handle Facade Frames RefSpec.

Definition abs_ctl (k : Control) : ACtl :=
  mkACtl (refs k) (finalized k) (read_leases k) (write_leases k) (exclusive_leases k)
    (rec_id (rec k)).

Section refcount.
Context {P : Platform}.
Implicit Types s : RuntimeImpl.

Definition abs s : Abs := mkAbs (abs_ctl <$> controls s) (registry_ s).
(** The high word of every identity of a runtime. *)
Definition id_hi s : Z := Z.lxor (id_seed_ s) (Z.land (epoch_ s) 0xFFFFFFFF).

(** [s'] has the same abstraction, and the same identities to come. *)
Record same_spec s s' : Prop := {
  sspec_abs : abs s' = abs s;
  sspec_hi : id_hi s' = id_hi s;
  sspec_next : id_counter_ s' = id_counter_ s }.
#[export] Instance same_spec_preorder : PreOrder same_spec.
Proof. split; [by constructor|]. intros s1 s2 s3 [] []. constructor; congruence. Qed.

Lemma same_static_hi s s' : same_static s s' → id_hi s' = id_hi s.
Proof. intros []. unfold id_hi. congruence. Qed.

Lemma quiet_same_spec s s' : quiet s s' → same_spec s s'.
Proof.
  intros [Hs Hc Hr]. constructor; [|by apply same_static_hi|apply Hs].
  unfold abs. by rewrite Hc, Hr.
Qed.
Lemma same_protocol_abs k k' : same_protocol k k' → abs_ctl k' = abs_ctl k.
Proof. intros []. unfold abs_ctl. congruence. Qed.
Lemma only_same_spec c s s' : only_ctl c s s' → same_spec s s'.
Proof.
  intros [Hs Hr Ho Ht]. constructor; [|by apply same_static_hi|apply Hs].
  unfold abs. rewrite Hr. f_equal. apply map_eq. intros c'. rewrite !lookup_fmap.
  destruct (decide (c' = c)) as [->|Hne]; [|by rewrite Ho].
  destruct Ht as [k k' Hk|]; simpl; [|done]. f_equal. by apply same_protocol_abs.
Qed.
Lemma preserves_quiet_spec {A} (m : M RuntimeImpl A) : preserves quiet m → preserves same_spec m.
Proof. intros Hm s. apply quiet_same_spec, Hm. Qed.
Lemma preserves_only_spec {A} c (m : M RuntimeImpl A) :
  preserves (only_ctl c) m → preserves same_spec m.
Proof. intros Hm s. eapply only_same_spec, Hm. Qed.

Lemma abs_lookup s c : actls (abs s) !! c = abs_ctl <$> controls s !! c.
Proof. apply lookup_fmap. Qed.
Lemma abs_ctl_at s c k : actls (abs s) !! c = Some k → k = abs_ctl (ctl_at s c).
Proof. rewrite abs_lookup. unfold ctl_at. destruct (controls s !! c); naive_solver. Qed.
Lemma abs_present s c : is_Some (controls s !! c) → actls (abs s) !! c = Some (abs_ctl (ctl_at s c)).
Proof. intros [k Hk]. rewrite abs_lookup. unfold ctl_at. by rewrite Hk. Qed.
Lemma abs_live s c k :
  actls (abs s) !! c = Some k → a_final k = finalized (ctl_at s c) ∧ is_Some (controls s !! c).
Proof.
  intros Hk. split; [by rewrite (abs_ctl_at s c k Hk)|].
  rewrite abs_lookup in Hk. destruct (controls s !! c); [by eexists|done].
Qed.

(** A change of one control block. *)
Lemma abs_upd_ctl c f g s :
  (∀ k, abs_ctl (f k) = g (abs_ctl k)) → abs (upd_ctl c f s).2 = a_upd c g (abs s).
Proof.
  intros Hf. unfold abs, a_upd. simpl. f_equal. apply map_eq. intros c'.
  rewrite lookup_fmap, !lookup_alter, !lookup_fmap. case_decide; [|done].
  subst. destruct (controls s !! c'); [|done]. cbn. f_equal. apply Hf.
Qed.
Lemma ctl_at_upd c f s :
  is_Some (controls s !! c) → ctl_at (upd_ctl c f s).2 c = f (ctl_at s c).
Proof. intros [k Hk]. unfold ctl_at. simpl. by rewrite lookup_alter_eq, Hk. Qed.
Lemma upd_ctl_some c c' f s :
  is_Some (controls (upd_ctl c f s).2 !! c') ↔ is_Some (controls s !! c').
Proof. apply alter_is_Some. Qed.

Lemma abs_retain c s : abs (retain c s).2 = a_retain c (abs s).
Proof. by apply abs_upd_ctl. Qed.

(** ** Finalization *)

Lemma only_set_rec c f :
  (∀ r, rec_id (f r) = rec_id r) → preserves (only_ctl c) (upd_ctl c (set_rec f)).
Proof. intros Hf. apply only_upd_ctl. intros k. by constructor; simpl. Qed.

Lemma only_dispose_backing c r b : preserves (only_ctl c) (dispose_backing c r b).
Proof.
  unfold dispose_backing. repeat first
    [ solve [apply preserves_quiet_only; eauto 2 with frames]
    | solve [by apply only_set_rec]
    | preserves_step ].
Qed.

(** [tracks F m]: [m] has on the abstraction the effect [F], and draws no identity. *)
Definition tracks {A} (F : Abs → Abs) (m : M RuntimeImpl A) : Prop := ∀ s,
  abs (m s).2 = F (abs s) ∧ id_hi (m s).2 = id_hi s ∧ id_counter_ (m s).2 = id_counter_ s.

Lemma tracks_bind {A B} F G (m : M RuntimeImpl A) (k : A → M RuntimeImpl B) :
  tracks F m → (∀ a, tracks G (k a)) → tracks (G ∘ F) (bind m k).
Proof.
  intros Hm Hk s. rewrite bind_run. destruct (Hm s) as (H1 & H2 & H3).
  destruct (Hk (m s).1 (m s).2) as (K1 & K2 & K3). rewrite K1, K2, K3, H1. done.
Qed.
Lemma tracks_same {A} (m : M RuntimeImpl A) : preserves same_spec m → tracks id m.
Proof. intros Hm s. destruct (Hm s). done. Qed.
Lemma tracks_quiet {A} (m : M RuntimeImpl A) : preserves quiet m → tracks id m.
Proof. intros. by apply tracks_same, preserves_quiet_spec. Qed.
Lemma tracks_upd_ctl c f g :
  (∀ k, abs_ctl (f k) = g (abs_ctl k)) → tracks (a_upd c g) (upd_ctl c f).
Proof. intros Hf s. split; [by apply abs_upd_ctl|done]. Qed.
Lemma tracks_unregister i :
  tracks (λ A, mkAbs (actls A) (delete i (areg A)))
    (modify (λ s, set_registry (delete i (registry_ s)) s)).
Proof. done. Qed.
Lemma tracks_ext {A} F G (m : M RuntimeImpl A) : tracks F m → (∀ A, F A = G A) → tracks G m.
Proof. intros Hm HFG s. rewrite <- HFG. apply Hm. Qed.

Lemma tracks_finalize_record c r b :
  tracks (λ A, mkAbs (actls A) (delete (rec_id r) (areg A))) (finalize_record c r b).
Proof.
  unfold finalize_record. eapply tracks_ext.
  - eapply tracks_bind; [apply tracks_same; eapply preserves_only_spec, only_dispose_backing|].
    intros went. eapply tracks_bind.
    { apply tracks_same. eapply preserves_only_spec. by apply only_set_rec. }
    intros _. eapply tracks_bind; [apply tracks_quiet; eauto with frames|].
    intros _. eapply tracks_bind; [apply tracks_unregister|].
    intros _. apply tracks_quiet. preserves_tac.
  - done.
Qed.

Lemma finalize_spec c b s :
  is_Some (controls s !! c) →
  abs (finalize c b s).2 = a_finalize c (abs s)
  ∧ id_hi (finalize c b s).2 = id_hi s ∧ id_counter_ (finalize c b s).2 = id_counter_ s.
Proof.
  intros Hc. unfold finalize, a_finalize. rewrite bind_run, abs_present by done.
  cbn [fst snd get_ctl gets a_final a_id abs_ctl].
  destruct (finalized (ctl_at s c)); [done|].
  refine (tracks_bind (a_upd c a_set_final) _ _ _ _ (λ _, tracks_finalize_record _ _ _) s).
  by apply tracks_upd_ctl.
Qed.

Lemma drop_ref_spec c s :
  is_Some (controls s !! c) →
  abs (drop_ref c s).2 = a_drop c (abs s)
  ∧ id_hi (drop_ref c s).2 = id_hi s ∧ id_counter_ (drop_ref c s).2 = id_counter_ s.
Proof.
  intros Hc. unfold drop_ref, a_drop. rewrite !bind_run, abs_present by done.
  cbn [fst snd get_ctl gets a_refs abs_ctl]. set (n := refs (ctl_at s c)).
  set (s1 := (upd_ctl c _ s).2).
  assert (abs s1 = a_upd c (a_set_refs (λ m, m - 1)) (abs s)) as H1.
  { unfold abs, a_upd. simpl. f_equal. apply map_eq. intros c'.
    rewrite lookup_fmap, !lookup_alter, !lookup_fmap. case_decide; [|done]. subst c'.
    destruct Hc as [k Hk]. unfold n, ctl_at. by rewrite Hk. }
  destruct (n =? 1); [|split; [exact H1|done]].
  destruct (finalize_spec c true s1) as (H2 & H3 & H4); [by apply upd_ctl_some|].
  by rewrite H2, H3, H4, H1.
Qed.

(** ** Registration *)

Definition next_identity s : BufferId := mkBufferId (id_hi s) (id_counter_ s).

(** The abstract registration: a control block without references. *)
Definition a_register (i : BufferId) (A : Abs) : Abs :=
  mkAbs (<[size (actls A) := mkACtl 0 false 0 0 0 i]> (actls A)) (<[i := size (actls A)]> (areg A)).
Lemma a_register_retain i A : a_retain (size (actls A)) (a_register i A) = a_create i A.
Proof.
  unfold a_retain, a_upd, a_register, a_create. simpl. f_equal.
  rewrite (alter_insert_Some _ _ _ _ (lookup_insert_eq _ _ _)). by rewrite insert_insert_eq.
Qed.
Lemma size_abs s : size (actls (abs s)) = size (controls s).
Proof. apply map_size_fmap. Qed.

Lemma register_control_spec r s :
  (register_control r s).1 = size (controls s)
  ∧ abs (register_control r s).2 = a_register (rec_id r) (abs s)
  ∧ id_hi (register_control r s).2 = id_hi s
  ∧ id_counter_ (register_control r s).2 = id_counter_ s.
Proof.
  split_and!; [done| |done|done]. unfold a_register. rewrite size_abs.
  unfold abs at 2. cbn [actls areg].
  change mkACtl with mkACtl. unfold register_control, abs. simpl. by rewrite fmap_insert.
Qed.

(** What an operation that ends in a control block may do, once the identity [i]
    has been drawn. *)
Inductive ctl_outcome (i : BufferId) s : Result nat → RuntimeImpl → Prop :=
  | ctl_refused e s' : same_spec s s' → ctl_outcome i s (Fail e) s'
  | ctl_registered s' :
      abs s' = a_register i (abs s) → id_hi s' = id_hi s → id_counter_ s' = id_counter_ s →
      ctl_outcome i s (Ok (size (controls s))) s'
  | ctl_found c j s' :
      same_spec s s' → areg (abs s) !! j = Some c → ctl_outcome i s (Ok c) s'.
Definition enters (i : BufferId) (m : M RuntimeImpl (Result nat)) : Prop :=
  ∀ s, ctl_outcome i s (m s).1 (m s).2.

Lemma ctl_outcome_quiet i s s1 r s' : quiet s s1 → ctl_outcome i s1 r s' → ctl_outcome i s r s'.
Proof.
  intros Hq. destruct (quiet_same_spec _ _ Hq) as [Ha Hh Hn]. pose proof (q_controls _ _ Hq) as Hc.
  destruct 1 as [e s' [] |s' H1 H2 H3|c j s' [] Hj].
  - constructor. constructor; congruence.
  - rewrite Hc. constructor; congruence.
  - apply (ctl_found _ _ c j); [constructor|]; congruence.
Qed.
Lemma enters_bind {A} i (m : M RuntimeImpl A) k :
  preserves quiet m → (∀ a, enters i (k a)) → enters i (bind m k).
Proof. intros Hm Hk s. rewrite bind_run. eapply ctl_outcome_quiet; [apply Hm|apply Hk]. Qed.
Lemma enters_fail i e : enters i (ret (Fail e)).
Proof. intros s. constructor. by constructor. Qed.
Lemma enters_register i r :
  rec_id r = i → enters i (let! c := register_control r in ret (Ok c)).
Proof.
  intros <- s. rewrite bind_run. destruct (register_control_spec r s) as (H1 & H2 & H3 & H4).
  unfold ret; cbn [fst snd]. rewrite H1. by constructor.
Qed.

(** The same for an operation that draws its identity itself. *)
Inductive draw_outcome s : Result nat → RuntimeImpl → Prop :=
  | draw_refused e s' : same_spec s s' → draw_outcome s (Fail e) s'
  | draw_entered r s' :
      ctl_outcome (next_identity s) (next_id s).2 r s' → draw_outcome s r s'.
Definition draws (m : M RuntimeImpl (Result nat)) : Prop :=
  ∀ s, draw_outcome s (m s).1 (m s).2.

Lemma draws_bind {A} (m : M RuntimeImpl A) k :
  preserves quiet m → (∀ a, draws (k a)) → draws (bind m k).
Proof.
  intros Hm Hk s. rewrite bind_run. pose proof (Hm s) as Hq. set (s1 := (m s).2) in *.
  destruct (quiet_same_spec _ _ Hq) as [Ha Hh Hn].
  destruct (Hk (m s).1 s1) as [e s' Hs|r s' Hr].
  - constructor. etransitivity; [by apply quiet_same_spec|done].
  - apply draw_entered. unfold next_identity in *. rewrite Hh, Hn in Hr.
    eapply ctl_outcome_quiet; [|exact Hr]. destruct Hq as [[] ? ?].
    repeat constructor; simpl; congruence.
Qed.
Lemma draws_fail e : draws (ret (Fail e)).
Proof. intros s. constructor. by constructor. Qed.
Lemma draws_next_id k : (∀ i, enters i (k i)) → draws (bind next_id k).
Proof. intros Hk s. apply draw_entered. apply Hk. Qed.

Lemma draws_wrap_external desc : draws (wrap_external desc).
Proof.
  unfold wrap_external. apply draws_bind; [apply preserves_get, _|intros s0].
  destruct (closed_ s0); [apply draws_fail|]. destruct (_ || _); [apply draws_fail|].
  destruct (domain s0 _) as [dom|]; [|apply draws_fail].
  apply draws_bind; [eauto with frames|]. intros [u|e]; [|apply draws_fail].
  apply draws_next_id. intros i. by apply enters_register.
Qed.

(** The lookup finds a registered control block. *)
Lemma lookup_control_spec j g s :
  quiet s (lookup_control j g s).2
  ∧ ∀ c, (lookup_control j g s).1 = Ok c →
      registry_ s !! j = Some c ∧ rec_generation (rec (ctl_at s c)) = g.
Proof.
  split; [apply quiet_lookup_control|]. intros c. unfold lookup_control. rewrite bind_run.
  cbn [fst snd get]. destruct (registry_ s !! j) as [c'|]; [|done].
  destruct (_ =? _) eqn:E; simpl; [|done]. intros [= <-]. bool_prop. done.
Qed.
Lemma enters_lookup i j g (k : nat → M RuntimeImpl unit) e :
  (∀ c, preserves quiet (k c)) →
  enters i (let! ctl := lookup_control j g in
            match ctl with Fail _ => ret (Fail e) | Ok c => k c ;;; ret (Ok c) end).
Proof.
  intros Hk s. rewrite bind_run. destruct (lookup_control_spec j g s) as [Hq Hok].
  destruct (lookup_control j g s) as [[c|e'] s1]; simpl in *.
  - destruct (Hok c eq_refl) as [Hreg _]. rewrite bind_run. simpl.
    apply (ctl_found _ _ c j); [|exact Hreg]. apply quiet_same_spec.
    etransitivity; [exact Hq|apply Hk].
  - constructor. by apply quiet_same_spec.
Qed.

Lemma draws_import_descriptor desc ns label : draws (import_descriptor desc ns label).
Proof.
  unfold import_descriptor. apply draws_bind; [apply preserves_get, _|intros s0].
  destruct (import_rejects s0 desc ns); [apply draws_fail|].
  apply draws_next_id. intros i. apply enters_bind; [eauto with frames|intros epoch].
  destruct (handle_domain _).
  - destruct (domain s0 _) as [dom|]; [|apply enters_fail].
    apply enters_bind; [eauto with frames|]. intros [na|e]; [|apply enters_fail].
    destruct (_ <? _).
    { apply enters_bind; [eauto with frames|intros; apply enters_fail]. }
    cbv zeta. do 3 (apply enters_bind; [preserves_tac|intros ?]).
    by apply enters_register.
  - destruct (String.eqb _ _); [|apply enters_fail].
    apply enters_lookup. intros. eauto with frames.
Qed.

(** ** Allocation *)

Lemma allocate_reserved_quiet dom req a n s :
  quiet (next_id s).2 (allocate_reserved dom req a n s).2.
Proof.
  unfold allocate_reserved. rewrite bind_run.
  match goal with |- quiet ?s1 (?m _).2 => assert (preserves quiet m) as Hm by preserves_tac end.
  apply Hm.
Qed.
Lemma allocate_reserved_id dom req a n s r :
  (allocate_reserved dom req a n s).1 = Ok r → rec_id r = next_identity s.
Proof.
  unfold allocate_reserved. rewrite bind_run. generalize (next_id s).2 as s1. intros s1.
  change (next_id s).1 with (next_identity s). revert r.
  match goal with |- ∀ r, (?m s1).1 = Ok r → ?i = ?j =>
    assert (yields (λ x, ∀ r, x = Ok r → rec_id r = j) m) as Hm by (yields_tac; naive_solver) end.
  apply Hm.
Qed.

Inductive record_outcome s : Result BufferRecord → RuntimeImpl → Prop :=
  | record_refused e s' : quiet s s' → record_outcome s (Fail e) s'
  | record_failed e s' : quiet (next_id s).2 s' → record_outcome s (Fail e) s'
  | record_made r s' :
      quiet (next_id s).2 s' → rec_id r = next_identity s → record_outcome s (Ok r) s'.

Lemma next_id_quiet s s1 : quiet s s1 → quiet (next_id s).2 (next_id s1).2.
Proof. intros [[] ? ?]. repeat constructor; simpl; congruence. Qed.
Lemma next_identity_quiet s s1 : quiet s s1 → next_identity s1 = next_identity s.
Proof. intros [[] ? ?]. unfold next_identity, id_hi. congruence. Qed.

Definition makes (m : M RuntimeImpl (Result BufferRecord)) : Prop :=
  ∀ s, record_outcome s (m s).1 (m s).2.
Lemma makes_bind {A} (m : M RuntimeImpl A) k :
  preserves quiet m → (∀ a, makes (k a)) → makes (bind m k).
Proof.
  intros Hm Hk s. rewrite bind_run. pose proof (Hm s) as Hq.
  destruct (Hk (m s).1 (m s).2) as [e s' Hs|e s' Hs|r s' Hs Hr].
  - apply record_refused. by etransitivity.
  - apply record_failed. etransitivity; [by apply next_id_quiet|done].
  - apply record_made; [etransitivity; [by apply next_id_quiet|done]|].
    by rewrite Hr, (next_identity_quiet s).
Qed.
Lemma makes_fail e : makes (ret (Fail e)).
Proof. intros s. by apply record_refused. Qed.
Lemma makes_allocate_reserved dom req a n : makes (allocate_reserved dom req a n).
Proof.
  intros s. pose proof (allocate_reserved_quiet dom req a n s) as Hq.
  pose proof (allocate_reserved_id dom req a n s) as Hid.
  destruct (allocate_reserved dom req a n s) as [[r|e] s']; simpl in *.
  - apply record_made; auto.
  - by apply record_failed.
Qed.
Lemma makes_allocate_record req : makes (allocate_record req).
Proof.
  unfold allocate_record.
  repeat first [ apply makes_fail | apply makes_allocate_reserved
               | apply makes_bind; [solve [preserves_tac]|intros ?]
               | match goal with
                 | |- makes (match ?x with _ => _ end) => destruct x
                 | |- makes (if ?x then _ else _) => destruct x
                 end ].
Qed.

(** The control block of a fresh allocation. *)
Lemma draws_allocate req :
  draws (let! r := allocate_record req in
         match r with
         | Fail e => ret (Fail e)
         | Ok r => let! c := register_control r in ret (Ok c)
         end).
Proof.
  intros s. rewrite bind_run.
  destruct (makes_allocate_record req s) as [e s' Hq|e s' Hq|r s' Hq Hr]; simpl.
  - constructor. by apply quiet_same_spec.
  - apply draw_entered. constructor. by apply quiet_same_spec.
  - apply draw_entered. eapply ctl_outcome_quiet; [exact Hq|]. by apply enters_register.
Qed.
End refcount.

#[global] Arguments abs : simpl never.
