(* ===== verification/Clients.v ===== *)
(** Clients of a runtime: the references they hold ([Token]s), the operations of
    the facade and of the handles as one instruction set ([ClientOp]), and the
    system that runs any sequence of them.  The system implements the
    specification of RefSpec.v step by step, which gives the safety of handles,
    leases, maps and views for every client program. *)
From S2P Require Import Prelude Types CheckedMath Platform SharedBackend FileBackend State Sim.
From S2P Require Import Ledger Pool Lifecycle Runtime Handle Facade SimRuntime Frames RefSpec.
From S2P Require Import Refcount.

(** A C++ object that owns a reference to a control block (or, empty, none). *)
Inductive Token : Set :=
  | THandle (h : BufferHandle)
  | TLease (l : BufferLease)
  | TMap (m : BufferMap)
  | TView (v : BufferView).

#[global] Instance BufferHandle_eq_dec : EqDecision BufferHandle.
Proof. solve_decision. Defined.
#[global] Instance BufferLease_eq_dec : EqDecision BufferLease.
Proof. solve_decision. Defined.
#[global] Instance BufferMap_eq_dec : EqDecision BufferMap.
Proof. solve_decision. Defined.
#[global] Instance BufferView_eq_dec : EqDecision BufferView.
Proof. solve_decision. Defined.
#[global] Instance Token_eq_dec : EqDecision Token.
Proof. solve_decision. Defined.

Definition token_ref (t : Token) : option Ref :=
  match t with
  | THandle h => (λ c, mkRef c None) <$> h_ctl h
  | TLease l => (λ c, mkRef c (Some (lease_kind l))) <$> lease_ctl l
  | TMap m => (λ c, mkRef c None) <$> map_ctl m
  | TView v => (λ c, mkRef c None) <$> view_ctl v
  end.
Definition refs_of (ts : list Token) : list Ref := omap token_ref ts.

(** What a client can do.  [ODestroy] is the destructor of the object. *)
Inductive ClientOp : Set :=
  | OAllocate (req : AllocationRequest)
  | OWrapExternal (desc : ExternalMemoryDesc)
  | OImport (desc : ExportDescriptor) (ns : Z) (label : string)
  | OMigrate (h : BufferHandle) (target : MemoryDomain)
  | OExport (h : BufferHandle)
  | OShare (h : BufferHandle)
  | OView (h : BufferHandle) (offset len : Z) (access : AccessMode)
  | OMap (h : BufferHandle) (access : AccessMode)
  | OAcquire (kind : LeaseKind) (h : BufferHandle)
  | OVerify (h : BufferHandle)
  | OChecksum (h : BufferHandle)
  | OCopyTo (h : BufferHandle) (dst dst_offset len : Z)
  | OCopyFrom (h : BufferHandle) (src src_offset len : Z)
  | ORelease (h : BufferHandle)
  | OMove (this o : BufferHandle)
  | ODestroy (t : Token)
  | OPoolTrim
  | OCreateNamespace (c : NamespaceConfig)
  | OInvalidate (id : BufferId)
  | OShutdown.

(** The objects an operation uses up, and those it only reads. *)
Definition consumes (o : ClientOp) : list Token :=
  match o with
  | ORelease h => [THandle h]
  | OMove this o => [THandle this; THandle o]
  | ODestroy t => [t]
  | _ => []
  end.
Definition borrows (o : ClientOp) : list Token :=
  match o with
  | OMigrate h _ | OExport h | OShare h | OView h _ _ _ | OMap h _ | OAcquire _ h | OVerify h
  | OChecksum h | OCopyTo h _ _ _ | OCopyFrom h _ _ _ => [THandle h]
  | _ => []
  end.

Section clients.
Context {P : Platform}.
Implicit Types s : RuntimeImpl.

(** The object a successful call returns. *)
Definition gained {A} (mk : A → Token) (r : Result A) : list Token :=
  match r with Ok a => [mk a] | Fail _ => [] end.

Definition destroy (t : Token) : M RuntimeImpl unit :=
  match t with
  | THandle h => let! _ := handle_reset h in ret tt
  | TLease l => let! _ := lease_release l in ret tt
  | TMap m => let! _ := map_release m in ret tt
  | TView v => let! _ := view_release v in ret tt
  end.

(** Run an operation; the value is the list of objects it creates. *)
Definition client_op (o : ClientOp) : M RuntimeImpl (list Token) :=
  match o with
  | OAllocate req => let! r := Runtime_allocate true req in ret (gained THandle r)
  | OWrapExternal desc => let! r := Runtime_wrap_external true desc in ret (gained THandle r)
  | OImport desc ns label => let! r := Runtime_import true desc ns label in ret (gained THandle r)
  | OMigrate h target => let! r := Runtime_migrate true h target in ret (gained THandle r)
  | OExport h => let! _ := Runtime_export_buffer true h in ret []
  | OShare h => let! r := handle_share h in ret (gained THandle r)
  | OView h off len a => let! r := handle_view h off len a in ret (gained TView r)
  | OMap h a => let! r := handle_map h a in ret (gained TMap r)
  | OAcquire kind h => let! r := acquire kind h in ret (gained TLease r)
  | OVerify h => let! _ := handle_verify h in ret []
  | OChecksum h => let! _ := handle_checksum h in ret []
  | OCopyTo h d o n => let! _ := handle_copy_to h d o n in ret []
  | OCopyFrom h d o n => let! _ := handle_copy_from h d o n in ret []
  | ORelease h => let! r := handle_release h in ret [THandle r.2]
  | OMove this o => let! r := handle_move_assign this o in ret [THandle r.1; THandle r.2]
  | ODestroy t => destroy t ;;; ret []
  | OPoolTrim => let! _ := Runtime_pool_trim true in ret []
  | OCreateNamespace c => let! _ := Runtime_create_namespace true c in ret []
  | OInvalidate id => let! _ := Runtime_invalidate true id in ret []
  | OShutdown => Runtime_shutdown true ;;; ret []
  end.

(** A system state: the runtime and every live object of its clients.  An
    operation uses objects that exist; the identity counter has not run out. *)
Inductive sys_step : RuntimeImpl * list Token → RuntimeImpl * list Token → Prop :=
  | sys_step_op o s ts rest :
      ts ≡ₚ consumes o ++ rest → (∀ t, t ∈ borrows o → t ∈ ts) →
      id_counter_ s < two64 - 1 →
      sys_step (s, ts) ((client_op o s).2, (client_op o s).1 ++ rest).

(** A runtime as its constructor leaves it. *)
Record fresh_runtime s : Prop := {
  fr_controls : controls s = ∅;
  fr_registry : registry_ s = ∅;
  fr_counter : id_counter_ s = 1 }.
Definition reachable s ts : Prop :=
  ∃ s0, fresh_runtime s0 ∧ rtc sys_step (s0, []) (s, ts).

(** * The simulation *)

(** A handle that is not empty is alive, and carries the identity of its buffer. *)
Definition token_ok (A : Abs) (t : Token) : Prop :=
  match t with
  | THandle h => ∀ c, h_ctl h = Some c → h_rt h = true ∧ h_valid h = true
                   ∧ ∃ k, actls A !! c = Some k ∧ a_id k = h_id h
  | _ => True
  end.
Definition spec_of s (ts : list Token) : Spec := mkSpec (abs s) (refs_of ts) (id_counter_ s).
Record sound s (ts : list Token) : Prop := {
  so_coherent : spec_coherent (id_hi s) (spec_of s ts);
  so_tokens : Forall (token_ok (abs s)) ts }.

Lemma refs_of_app ts1 ts2 : refs_of (ts1 ++ ts2) = refs_of ts1 ++ refs_of ts2.
Proof. apply omap_app. Qed.
Lemma refs_of_perm ts ts' : ts ≡ₚ ts' → refs_of ts ≡ₚ refs_of ts'.
Proof. intros Hp. unfold refs_of. by rewrite Hp. Qed.
Lemma refs_of_some t r ts : token_ref t = Some r → refs_of (t :: ts) = r :: refs_of ts.
Proof. intros Ht. unfold refs_of. simpl. by rewrite Ht. Qed.
Lemma refs_of_none t ts : token_ref t = None → refs_of (t :: ts) = refs_of ts.
Proof. intros Ht. unfold refs_of. simpl. by rewrite Ht. Qed.
Lemma refs_of_elem t r ts : t ∈ ts → token_ref t = Some r → r ∈ refs_of ts.
Proof. intros Ht Hr. apply list_elem_of_omap. eauto. Qed.
Lemma refs_of_inv r ts : r ∈ refs_of ts → ∃ t, t ∈ ts ∧ token_ref t = Some r.
Proof. apply list_elem_of_omap. Qed.

(** Identities of control blocks never change. *)
Definition ids_kept (A A' : Abs) : Prop :=
  ∀ c k, actls A !! c = Some k → ∃ k', actls A' !! c = Some k' ∧ a_id k' = a_id k.
#[export] Instance ids_kept_preorder : PreOrder ids_kept.
Proof.
  split; [by intros A c k Hk; eauto|]. intros A1 A2 A3 H12 H23 c k Hk.
  destruct (H12 c k Hk) as (k2 & Hk2 & <-). destruct (H23 c k2 Hk2) as (k3 & Hk3 & <-). eauto.
Qed.
Lemma token_ok_kept A A' t : ids_kept A A' → token_ok A t → token_ok A' t.
Proof.
  intros Hids. destruct t as [h| | |]; simpl; [|done..]. intros Hok c Hc.
  destruct (Hok c Hc) as (? & ? & k & Hk & Hid). destruct (Hids c k Hk) as (k' & ? & ?).
  split_and!; [done..|]. exists k'. split; congruence.
Qed.
Lemma ids_kept_upd c f A : (∀ k, a_id (f k) = a_id k) → ids_kept A (a_upd c f A).
Proof.
  intros Hf c' k Hk. simpl. rewrite lookup_alter. case_decide as Hc; [subst c'|by eauto].
  exists (f k). rewrite Hk. auto.
Qed.
Lemma ids_kept_reg A r : ids_kept A (mkAbs (actls A) r).
Proof. intros c k Hk. eauto. Qed.
Lemma ids_kept_finalize c A : ids_kept A (a_finalize c A).
Proof.
  unfold a_finalize. destruct (actls A !! c) as [k|]; [|done]. destruct (a_final k); [done|].
  etransitivity; [apply (ids_kept_upd c a_set_final); done|apply ids_kept_reg].
Qed.
Lemma ids_kept_drop c A : ids_kept A (a_drop c A).
Proof.
  unfold a_drop. destruct (actls A !! c) as [k|]; [|done].
  destruct (_ =? _); [etransitivity; [|apply ids_kept_finalize]|]; by apply ids_kept_upd.
Qed.
Lemma ids_kept_create i A h idc rs : coherent A rs h idc → ids_kept A (a_create i A).
Proof.
  intros Hco c k Hk. exists k. split; [|done]. simpl. rewrite lookup_insert_ne; [done|].
  intros <-. assert (is_Some (actls A !! size (actls A))) as Hs by eauto.
  apply (co_dom _ _ _ _ Hco) in Hs. lia.
Qed.


(** ** What one operation does *)

Record simulates s s' (ts ts' : list Token) : Prop := {
  si_steps : rtc (spec_step (id_hi s)) (spec_of s ts) (spec_of s' ts');
  si_hi : id_hi s' = id_hi s;
  si_ids : ids_kept (abs s) (abs s') }.

Lemma simulates_trans s1 s2 s3 ts1 ts2 ts3 :
  simulates s1 s2 ts1 ts2 → simulates s2 s3 ts2 ts3 → simulates s1 s3 ts1 ts3.
Proof.
  intros [H1 H2 H3] [K1 K2 K3]. constructor; [|congruence|by etransitivity].
  rewrite H2 in K1. by etransitivity.
Qed.
Lemma simulates_same s s' ts : same_spec s s' → simulates s s' ts ts.
Proof. intros [Ha Hh Hn]. constructor; [|done|]; unfold spec_of; by rewrite ?Ha, ?Hn. Qed.
Lemma simulates_perm s ts ts' : ts ≡ₚ ts' → simulates s s ts ts'.
Proof.
  intros Hp. constructor; [|done..]. apply rtc_once. apply spec_perm. by apply refs_of_perm.
Qed.
(** Adding objects without a reference. *)
Lemma simulates_null s ts ts' : refs_of ts = refs_of ts' → simulates s s ts ts'.
Proof. intros He. constructor; [|done..]. unfold spec_of. by rewrite He. Qed.

Lemma sound_simulates s s' ts ts' :
  sound s ts → simulates s s' ts ts' → Forall (token_ok (abs s')) ts' → sound s' ts'.
Proof.
  intros [Hco _] [Hst Hhi _] Hok. constructor; [|done].
  rewrite Hhi. by eapply spec_steps_coherent.
Qed.

(** A held reference is to a live, registered control block. *)
Lemma sound_live s ts t r :
  sound s ts → t ∈ ts → token_ref t = Some r →
  ∃ k, actls (abs s) !! ref_ctl r = Some k ∧ a_final k = false
       ∧ areg (abs s) !! a_id k = Some (ref_ctl r) ∧ 0 < a_refs k.
Proof. intros [Hco _] Ht Hr. eapply coherent_ref_live; [exact Hco|]. by eapply refs_of_elem. Qed.

(** Dropping a plain reference and dropping a lease. *)
Lemma simulates_drop s c ts t :
  sound s (t :: ts) → token_ref t = Some (mkRef c None) →
  simulates s (drop_ref c s).2 (t :: ts) ts.
Proof.
  intros Hs Ht. destruct (sound_live s (t :: ts) t _ Hs ltac:(set_solver) Ht) as (k & Hk & _).
  destruct (abs_live s c k Hk) as [_ Hc]. destruct (drop_ref_spec c s Hc) as (H1 & H2 & H3).
  constructor; [|done|rewrite H1; apply ids_kept_drop].
  apply rtc_once. unfold spec_of. rewrite (refs_of_some t _ ts Ht), H1, H3. constructor.
Qed.

(** Taking a further reference to a live control block. *)
Lemma simulates_retain s c k ts t :
  actls (abs s) !! c = Some k → a_final k = false → token_ref t = Some (mkRef c None) →
  simulates s (retain c s).2 ts (t :: ts).
Proof.
  intros Hk Hf Ht. constructor; [|done|rewrite abs_retain; by apply ids_kept_upd].
  apply rtc_once. unfold spec_of. rewrite (refs_of_some t _ ts Ht), abs_retain. by econstructor.
Qed.

Definition op_ok (o : ClientOp) : Prop := ∀ s rest,
  sound s (consumes o ++ rest) → (∀ t, t ∈ borrows o → t ∈ consumes o ++ rest) →
  id_counter_ s < two64 - 1 →
  simulates s (client_op o s).2 (consumes o ++ rest) ((client_op o s).1 ++ rest)
  ∧ Forall (token_ok (abs (client_op o s).2)) (client_op o s).1.

Lemma op_ok_same o (m : M RuntimeImpl (list Token)) :
  client_op o = m → preserves same_spec m → yields (λ l, l = []) m → consumes o = [] → op_ok o.
Proof.
  intros Ho Hm Hy Hc s rest _ _ _. rewrite Hc, Ho, (Hy s). split; [|done].
  apply simulates_same, Hm.
Qed.

(** A handle operation either fails its check, and does nothing, or runs. *)
Lemma with_handle_cases {A} h chk (k : nat → M RuntimeImpl (Result A)) s :
  (∃ e, with_handle h chk k s = (Fail e, s))
  ∨ (∃ c, h_ctl h = Some c ∧ chk s = ok_status ∧ with_handle h chk k s = k c s).
Proof.
  unfold with_handle. rewrite bind_run. cbn [fst snd get].
  destruct (chk s) as [[]|e] eqn:Hchk; [|left; by eexists].
  destruct (h_ctl h) as [c|]; [right; eauto|left; by eexists].
Qed.

(** ** Operations that hand out a handle *)

Lemma token_ok_handle_of s c :
  is_Some (controls s !! c) → token_ok (abs s) (THandle (handle_of s c)).
Proof.
  intros Hc c' [= <-]. split_and!; [done..|]. eexists. split; [by apply abs_present|done].
Qed.
Lemma new_handle_run c s : new_handle c s = (handle_of (retain c s).2 c, (retain c s).2).
Proof. done. Qed.

Lemma new_handle_shares s ts c k :
  actls (abs s) !! c = Some k → a_final k = false →
  let p := new_handle c s in
  simulates s p.2 ts (THandle p.1 :: ts) ∧ token_ok (abs p.2) (THandle p.1).
Proof.
  intros Hk Hf. cbv zeta. rewrite new_handle_run. cbn [fst snd]. split.
  - by apply (simulates_retain s c k).
  - apply token_ok_handle_of, upd_ctl_some. eapply abs_live, Hk.
Qed.

(** The draw of an identity. *)
Lemma next_id_burn s ts :
  sound s ts → id_counter_ s < two64 - 1 →
  simulates s (next_id s).2 ts ts ∧ id_counter_ (next_id s).2 = id_counter_ s + 1.
Proof.
  intros Hs Hb. pose proof (co_idc _ _ _ _ (so_coherent _ _ Hs)) as Hpos. simpl in Hpos.
  assert (id_counter_ (next_id s).2 = id_counter_ s + 1) as Hn.
  { simpl. apply u64_small. unfold is_u64. lia. }
  split; [|done]. constructor; [|done|done]. apply rtc_once.
  unfold spec_of. rewrite Hn. change (abs (next_id s).2) with (abs s). constructor.
Qed.

Lemma new_handle_creates s ts s1 i :
  sound s ts → i = mkBufferId (id_hi s) (id_counter_ s) →
  abs s1 = a_register i (abs s) → id_hi s1 = id_hi s → id_counter_ s1 = id_counter_ s + 1 →
  let p := new_handle (size (controls s)) s1 in
  simulates s p.2 ts (THandle p.1 :: ts) ∧ token_ok (abs p.2) (THandle p.1).
Proof.
  intros Hs -> Ha Hh Hn. cbv zeta. rewrite new_handle_run. cbn [fst snd].
  assert (abs (retain (size (controls s)) s1).2 = a_create (mkBufferId (id_hi s) (id_counter_ s)) (abs s))
    as Ha'.
  { rewrite abs_retain, Ha, <- size_abs. apply a_register_retain. }
  split.
  - constructor; [|done|].
    + apply rtc_once. unfold spec_of. rewrite Ha'.
      rewrite (refs_of_some _ (mkRef (size (actls (abs s))) None)) by by rewrite size_abs.
      change (id_counter_ (retain _ s1).2) with (id_counter_ s1). rewrite Hn. constructor.
    + rewrite Ha'. eapply ids_kept_create, so_coherent, Hs.
  - apply token_ok_handle_of, upd_ctl_some.
    assert (is_Some (actls (abs s1) !! size (controls s))) as Hs1.
    { rewrite Ha. cbn [actls a_register]. rewrite size_abs, lookup_insert_eq. by eexists. }
    destruct Hs1 as [k Hk]. eapply abs_live, Hk.
Qed.

Lemma handle_result_ok s ts r s1 :
  sound s ts → id_counter_ s < two64 - 1 → draw_outcome s r s1 →
  let p := handle_result r s1 in
  simulates s p.2 ts (gained THandle p.1 ++ ts)
  ∧ Forall (token_ok (abs p.2)) (gained THandle p.1).
Proof.
  intros Hs Hb [e s' Hsame|r' s' Hout]; cbv zeta; cbn [handle_result fst snd].
  { split; [by apply simulates_same|done]. }
  destruct (next_id_burn s ts Hs Hb) as [Hburn Hn].
  destruct Hout as [e s' Hsame|s' Ha Hh Hn'|c j s' Hsame Hj]; cbn [handle_result]; rewrite ?bind_run.
  - split; [|done]. eapply simulates_trans; [exact Hburn|]. by apply simulates_same.
  - change (size (controls (next_id s).2)) with (size (controls s)).
    destruct (new_handle_creates s ts s' (next_identity s)) as [Hsim Hok]; [done..| |].
    { by rewrite Hn', Hn. }
    split; [exact Hsim|by constructor].
  - destruct (coherent_registered _ _ _ _ _ _ (so_coherent _ _ Hs) Hj) as (k & Hk & _ & Hf & _).
    assert (actls (abs s') !! c = Some k) as Hk' by by rewrite (sspec_abs _ _ Hsame).
    destruct (new_handle_shares s' ts c k Hk' Hf) as [Hsim Hok].
    split; [|by constructor]. eapply simulates_trans; [exact Hburn|].
    eapply simulates_trans; [by apply simulates_same|exact Hsim].
Qed.

Lemma op_ok_wrap desc : op_ok (OWrapExternal desc).
Proof.
  intros s rest Hs _ Hb. cbn [client_op Runtime_wrap_external guarded consumes app] in *.
  rewrite !bind_run. apply handle_result_ok; [done..|apply draws_wrap_external].
Qed.
Lemma op_ok_import desc ns l : op_ok (OImport desc ns l).
Proof.
  intros s rest Hs _ Hb. cbn [client_op Runtime_import guarded consumes app] in *.
  rewrite !bind_run. apply handle_result_ok; [done..|apply draws_import_descriptor].
Qed.
(** The facade's allocation is the registration of a fresh record. *)
Lemma Runtime_allocate_run req s :
  Runtime_allocate true req s =
    if closed_ s then (fail ErrorCode.closed "runtime is closed", s)
    else (let! r := (let! r := allocate_record req in
                     match r with
                     | Fail e => ret (Fail e)
                     | Ok r => let! c := register_control r in ret (Ok c)
                     end) in handle_result r) s.
Proof.
  unfold Runtime_allocate, guarded. rewrite bind_run. cbn [fst snd get].
  destruct (closed_ s); [done|]. rewrite !bind_run.
  destruct (allocate_record req s) as [[r|e] s1]; done.
Qed.
Lemma op_ok_allocate req : op_ok (OAllocate req).
Proof.
  intros s rest Hs _ Hb. cbn [client_op consumes app] in *. rewrite bind_run.
  rewrite Runtime_allocate_run. destruct (closed_ s).
  { split; [by apply simulates_same|done]. }
  rewrite bind_run. apply handle_result_ok; [done..|apply draws_allocate].
Qed.

(** ** Operations on a handle *)

(** What a client knows of the control block of a handle it holds. *)
Lemma handle_live s ts h c :
  sound s ts → THandle h ∈ ts → h_ctl h = Some c →
  ∃ k, actls (abs s) !! c = Some k ∧ a_final k = false ∧ a_id k = h_id h
       ∧ h_rt h = true ∧ h_valid h = true.
Proof.
  intros Hs Ht Hc. destruct (sound_live s ts (THandle h) (mkRef c None) Hs Ht) as (k & Hk & Hf & _).
  { simpl. by rewrite Hc. }
  pose proof (so_tokens _ _ Hs) as Hok. rewrite Forall_forall in Hok.
  destruct (Hok _ Ht c Hc) as (? & ? & k' & Hk' & Hid). cbn [ref_ctl] in Hk.
  rewrite Hk in Hk'. injection Hk' as <-. eauto 10.
Qed.

(** A handle operation whose body, on a live control block, is a simulation. *)
Lemma op_ok_with_handle {A} o h chk (k : nat → M RuntimeImpl (Result A)) mk :
  (∀ s, client_op o s = (let! r := with_handle h chk k in ret (gained mk r)) s) →
  consumes o = [] → borrows o = [THandle h] →
  (∀ s ts c x, sound s ts → h_ctl h = Some c → chk s = ok_status →
     actls (abs s) !! c = Some x → a_final x = false → a_id x = h_id h →
     h_rt h = true → h_valid h = true →
     simulates s (k c s).2 ts (gained mk (k c s).1 ++ ts)
     ∧ Forall (token_ok (abs (k c s).2)) (gained mk (k c s).1)) →
  op_ok o.
Proof.
  intros Ho Hc Hb Hk s rest Hs Hborrow _. rewrite Ho, Hc, Hb in *. cbn [app] in *.
  rewrite bind_run. destruct (with_handle_cases h chk k s) as [[e ->]|(c & Hctl & Hchk & ->)].
  - split; [by apply simulates_same|done].
  - destruct (handle_live s rest h c Hs) as (x & Hx & Hf & Hid & Hrt & Hv); [set_solver|done|].
    by apply (Hk s rest c x).
Qed.

Lemma op_ok_share h : op_ok (OShare h).
Proof.
  eapply op_ok_with_handle; [done..|]. intros s ts c x Hs Hc _ Hx Hf Hid Hrt Hv. cbv beta.
  rewrite bind_run. cbn [fst snd gained app ret]. split.
  - by apply (simulates_retain s c x).
  - constructor; [|done]. intros c' [= <-]. split_and!; [done..|].
    rewrite abs_retain. destruct (ids_kept_upd c (a_set_refs (λ n, n + 1)) (abs s)
      (λ k, eq_refl) c x Hx) as (x' & Hx' & Hid'). exists x'. split; [done|]. simpl. congruence.
Qed.

Lemma op_ok_view h off len a : op_ok (OView h off len a).
Proof.
  eapply op_ok_with_handle; [done..|]. intros s ts c x Hs Hc _ Hx Hf _ _ _. cbv beta.
  rewrite bind_run. cbn [fst snd get_ctl gets]. cbv zeta.
  destruct (negb _); [split; [by apply simulates_same|done]|].
  destruct (len =? 0); [split; [by apply simulates_same|done]|].
  destruct (_ && _); [split; [by apply simulates_same|done]|].
  rewrite bind_run. split; [|by constructor]. by apply (simulates_retain s c x).
Qed.

(** A computation that keeps the abstraction, then a further reference. *)
Lemma simulates_same_retain s s1 c x ts t :
  same_spec s s1 → actls (abs s) !! c = Some x → a_final x = false →
  token_ref t = Some (mkRef c None) → simulates s (retain c s1).2 ts (t :: ts).
Proof.
  intros Hsame Hx Hf Ht. eapply simulates_trans; [by apply simulates_same|].
  apply (simulates_retain s1 c x); [|done|done]. by rewrite (sspec_abs _ _ Hsame).
Qed.

Lemma simulates_then {A} s s1 ts ts' (m : M RuntimeImpl A) :
  simulates s s1 ts ts' → preserves same_spec m → simulates s (m s1).2 ts ts'.
Proof. intros H Hm. eapply simulates_trans; [exact H|]. apply simulates_same, Hm. Qed.

Lemma op_ok_map h a : op_ok (OMap h a).
Proof.
  eapply op_ok_with_handle; [done..|]. intros s ts c x Hs Hc _ Hx Hf _ _ _. cbv beta.
  rewrite bind_run. cbn [fst snd get]. cbv zeta.
  destruct (bool_decide _); [split; [by apply simulates_same|done]|].
  destruct (domain s _) as [dom|]; [|split; [by apply simulates_same|done]].
  rewrite bind_run. set (r := rec (ctl_at s c)).
  pose proof (preserves_quiet_spec _ (quiet_on_machine (IDomain.map dom (rec_backing r) a)) s) as H1.
  destruct (on_machine _ s) as [[p|e] s1]; cbn [fst snd] in *;
    [|split; [by apply simulates_same|done]].
  rewrite !bind_run. set (s2 := (upd_ctl c _ s1).2).
  assert (same_spec s1 s2) as H2.
  { eapply only_same_spec, only_set_rec. done. }
  match goal with |- context [(?m s2).2] => set (s3 := (m s2).2) end.
  assert (same_spec s2 s3) as H3.
  { unfold s3. destruct (valid_transition _ _); [|done]. by eapply only_same_spec, only_set_rec. }
  split; [|by constructor]. cbn [ret fst snd gained app].
  apply (simulates_then s (retain c s3).2 ts _ (tick map_count)).
  - apply (simulates_same_retain s s3 c x); [|done..]. by do 2 (etransitivity; [|eassumption]).
  - apply preserves_quiet_spec. eauto with frames.
Qed.

Lemma abs_add_lease kind k :
  abs_ctl (add_lease kind k) = a_set_lease kind (λ n, n + 1) (abs_ctl k).
Proof. by destruct kind. Qed.
Lemma abs_remove_lease kind k :
  abs_ctl (remove_lease kind k) = a_set_lease kind (λ n, if 0 <? n then n - 1 else n) (abs_ctl k).
Proof. destruct kind, k; unfold remove_lease; simpl; by destruct (0 <? _). Qed.
Lemma abs_lease_busy kind k : a_busy kind (abs_ctl k) = lease_busy kind k.
Proof. by destruct kind. Qed.

Lemma op_ok_acquire kind h : op_ok (OAcquire kind h).
Proof.
  eapply op_ok_with_handle; [done..|]. intros s ts c x Hs Hc _ Hx Hf _ _ _. cbv beta.
  rewrite bind_run. cbn [fst snd get_ctl gets].
  destruct (lease_busy kind (ctl_at s c)) eqn:Hbusy.
  { rewrite bind_run. split; [|done]. apply simulates_same.
    exact (preserves_quiet_spec _ (quiet_tick lease_conflicts) s). }
  rewrite !bind_run. split; [|by constructor]. cbn [ret fst snd gained app].
  set (s1 := (upd_ctl c (add_lease kind) s).2). set (s2 := (upd_ctl c _ s1).2).
  assert (same_spec s1 s2) as H2 by by eapply only_same_spec, only_set_rec.
  assert (abs (retain c s2).2 = a_lease kind c (abs s)) as Ha.
  { rewrite abs_retain, (sspec_abs _ _ H2). unfold a_lease. f_equal.
    apply abs_upd_ctl, abs_add_lease. }
  assert (x = abs_ctl (ctl_at s c)) as -> by by apply abs_ctl_at.
  constructor.
  - apply rtc_once. unfold spec_of. rewrite Ha, (refs_of_some _ (mkRef c (Some kind))) by done.
    change (id_counter_ (retain c s2).2) with (id_counter_ s).
    apply (spec_acquire _ _ _ _ kind c (abs_ctl (ctl_at s c))); [exact Hx|exact Hf|].
    by rewrite abs_lease_busy.
  - done.
  - rewrite Ha. unfold a_lease, a_retain. etransitivity; apply ids_kept_upd; [|done].
    apply a_set_lease_id.
Qed.

(** ** Migration *)

(** [m], started where [c] holds the record [r], touches only the record of [c]. *)
Definition only_at {A} (c : nat) (r : BufferRecord) (m : M RuntimeImpl A) : Prop :=
  ∀ s, rec (ctl_at s c) = r → only_ctl c s (m s).2.
Lemma only_at_bind {A B} c r (m : M RuntimeImpl A) (k : A → M RuntimeImpl B) :
  preserves quiet m → (∀ a, only_at c r (k a)) → only_at c r (bind m k).
Proof.
  intros Hm Hk s Hr. rewrite bind_run. etransitivity; [apply quiet_only_ctl, Hm|].
  apply Hk. by rewrite (quiet_ctl_at _ _ c (Hm s)).
Qed.
Lemma only_at_ret {A} c r (a : A) : only_at c r (ret a).
Proof. by intros s _. Qed.
Lemma only_at_then {A B} c r (m : M RuntimeImpl A) (k : A → M RuntimeImpl B) :
  only_at c r m → (∀ a, preserves quiet (k a)) → only_at c r (bind m k).
Proof.
  intros Hm Hk s Hr. rewrite bind_run. etransitivity; [by apply Hm|].
  apply quiet_only_ctl, Hk.
Qed.
Lemma only_at_assign c r r' :
  rec_id r' = rec_id r → only_at c r (upd_ctl c (set_rec (λ _, r'))).
Proof.
  intros Hid s Hr. constructor; [done|done| |].
  - intros c' Hne. simpl. by rewrite lookup_alter_ne.
  - simpl. rewrite lookup_alter_eq. unfold ctl_at in Hr.
    destruct (controls s !! c) as [k|]; [|constructor]. simpl in *. subst r. by repeat constructor.
Qed.
Lemma only_at_migrate_commit c r dom t dev nb : only_at c r (migrate_commit c r dom t dev nb).
Proof.
  unfold migrate_commit. apply only_at_then; [by apply only_at_assign|]. intros _. preserves_tac.
Qed.

(** Migration keeps the identity, the references and the leases of the buffer. *)
Lemma only_migrate c t : preserves (only_ctl c) (migrate c t).
Proof.
  intros s. unfold migrate. rewrite bind_run. cbn [fst snd get]. cbv zeta.
  destruct (closed_ s); [done|]. destruct (bool_decide _); [done|].
  destruct (_ || _); [done|]. destruct (_ || _).
  { rewrite bind_run. apply quiet_only_ctl, quiet_tick. }
  destruct (domain s t) as [tdom|]; [|done].
  match goal with |- only_ctl c s (?m s).2 =>
    assert (only_at c (rec (ctl_at s c)) m) as Hm end; [|by apply Hm].
  apply only_at_bind; [eauto with frames|]. intros [[]|e]; [|apply only_at_ret].
  apply only_at_bind; [eauto with frames|]. intros [nb|e].
  - apply only_at_bind; [eauto with frames|]. intros [[]|e]; [|apply only_at_ret].
    apply only_at_then; [apply only_at_migrate_commit|]. intros _. apply preserves_ret, _.
  - apply only_at_bind; [eauto with frames|]. intros _. apply only_at_ret.
Qed.
Lemma migrate_value c t : yields (λ r, r = Ok c ∨ ∃ e, r = Fail e) (migrate c t).
Proof. unfold migrate. yields_tac; eauto. Qed.

Lemma op_ok_migrate h t : op_ok (OMigrate h t).
Proof.
  eapply op_ok_with_handle; [done..|]. intros s ts c x Hs Hc _ Hx Hf _ _ _. cbv beta.
  rewrite bind_run. pose proof (only_same_spec c _ _ (only_migrate c t s)) as Hsame.
  destruct (migrate_value c t s) as [->|[e ->]]; cbn [handle_result].
  - rewrite bind_run. assert (actls (abs (migrate c t s).2) !! c = Some x) as Hx'
      by by rewrite (sspec_abs _ _ Hsame).
    destruct (new_handle_shares (migrate c t s).2 ts c x Hx' Hf) as [Hsim Hok].
    split; [|by constructor]. eapply simulates_trans; [by apply simulates_same|exact Hsim].
  - split; [by apply simulates_same|done].
Qed.

(** ** Dropping references *)

Lemma handle_reset_ok s ts h :
  sound s (THandle h :: ts) →
  simulates s (handle_reset h s).2 (THandle h :: ts) ts
  ∧ h_ctl (handle_reset h s).1 = None.
Proof.
  intros Hs. unfold handle_reset. rewrite bind_run. split; [|done].
  destruct (h_ctl h) as [c|] eqn:Hc; cbn [ret fst snd].
  - destruct (handle_live s (THandle h :: ts) h c Hs) as (k & _ & _ & _ & -> & ->); [set_solver|done|].
    apply simulates_drop; [done|]. simpl. by rewrite Hc.
  - apply simulates_null, refs_of_none. simpl. by rewrite Hc.
Qed.
Lemma token_ok_null A h : h_ctl h = None → token_ok A (THandle h).
Proof. intros Hn c Hc. congruence. Qed.

Lemma op_ok_release h : op_ok (ORelease h).
Proof.
  intros s rest Hs _ _. cbn [consumes app client_op] in *. rewrite bind_run. cbn [ret fst snd].
  unfold handle_release. destruct (h_ctl h) as [c|] eqn:Hc.
  - destruct (handle_live s (THandle h :: rest) h c Hs) as (k & _ & _ & _ & -> & ->);
      [set_solver|done|]. cbn [negb]. rewrite bind_run. cbn [ret fst snd app].
    split; [|constructor; [by apply token_ok_null|done]].
    eapply simulates_trans; [apply simulates_drop; [done|simpl; by rewrite Hc]|].
    by apply simulates_null.
  - cbn [ret fst snd app]. split; [by apply simulates_same|]. constructor; [|done].
    by apply token_ok_null.
Qed.

Lemma op_ok_move this o : op_ok (OMove this o).
Proof.
  intros s rest Hs _ _. cbn [consumes app client_op] in *. rewrite bind_run. cbn [ret fst snd].
  unfold handle_move_assign. rewrite bind_run. cbn [ret fst snd].
  destruct (handle_reset_ok s (THandle o :: rest) this Hs) as [Hsim _].
  assert (token_ok (abs (handle_reset this s).2) (THandle o)) as Ho.
  { eapply token_ok_kept; [apply Hsim|]. pose proof (so_tokens _ _ Hs) as Hok.
    rewrite Forall_forall in Hok. apply Hok. set_solver. }
  split; [|constructor; [exact Ho|constructor; [by apply token_ok_null|done]]].
  eapply simulates_trans; [exact Hsim|]. apply simulates_null. unfold refs_of. simpl.
  by destruct (h_ctl o).
Qed.

Lemma sound_same s s' ts : same_spec s s' → sound s ts → sound s' ts.
Proof.
  intros Hsame Hs. eapply sound_simulates; [exact Hs|by apply simulates_same|].
  rewrite (sspec_abs _ _ Hsame). apply Hs.
Qed.
Lemma same_then_drop s s1 c t ts :
  same_spec s s1 → sound s (t :: ts) → token_ref t = Some (mkRef c None) →
  simulates s (drop_ref c s1).2 (t :: ts) ts.
Proof.
  intros Hsame Hs Ht. eapply simulates_trans; [by apply simulates_same|].
  apply simulates_drop; [by eapply sound_same|done].
Qed.

Lemma lease_release_spec s l c :
  lease_ctl l = Some c → is_Some (controls s !! c) →
  abs (lease_release l s).2 = a_unlease (lease_kind l) c (abs s)
  ∧ id_hi (lease_release l s).2 = id_hi s ∧ id_counter_ (lease_release l s).2 = id_counter_ s.
Proof.
  intros Hc Hsome. unfold lease_release. rewrite Hc, !bind_run. cbn [ret fst snd].
  set (kind := lease_kind l). set (s1 := (upd_ctl c (remove_lease kind) s).2).
  set (s2 := (upd_ctl c settle_lease_state s1).2).
  assert (same_spec s1 s2) as H2.
  { eapply only_same_spec, only_upd_ctl. intros k'. unfold settle_lease_state.
    destruct (_ && _); by constructor. }
  destruct (drop_ref_spec c s2) as (H3 & Hh & Hn); [by do 2 apply upd_ctl_some|].
  rewrite H3, (sspec_abs _ _ H2). split; [|by rewrite Hh, Hn].
  unfold a_unlease. f_equal. apply abs_upd_ctl, abs_remove_lease.
Qed.
Lemma lease_release_ok s ts l :
  sound s (TLease l :: ts) → simulates s (lease_release l s).2 (TLease l :: ts) ts.
Proof.
  intros Hs. destruct (lease_ctl l) as [c|] eqn:Hc.
  2: { unfold lease_release. rewrite Hc. apply simulates_null, refs_of_none. simpl. by rewrite Hc. }
  assert (token_ref (TLease l) = Some (mkRef c (Some (lease_kind l)))) as Ht by (simpl; by rewrite Hc).
  destruct (sound_live s _ (TLease l) _ Hs ltac:(set_solver) Ht) as (k & Hk & _).
  destruct (abs_live s c k Hk) as [_ Hsome].
  destruct (lease_release_spec s l c Hc Hsome) as (Ha & Hh & Hn). constructor; [|done|].
  - apply rtc_once. unfold spec_of. rewrite (refs_of_some _ _ _ Ht), Ha, Hn. constructor.
  - rewrite Ha. unfold a_unlease. etransitivity; [|apply ids_kept_drop].
    apply ids_kept_upd, a_set_lease_id.
Qed.

Lemma map_release_ok s ts m :
  sound s (TMap m :: ts) → simulates s (map_release m s).2 (TMap m :: ts) ts.
Proof.
  intros Hs. unfold map_release. destruct (map_ctl m) as [c|] eqn:Hc.
  2: { apply simulates_null, refs_of_none. simpl. by rewrite Hc. }
  rewrite 3!bind_run. cbn [get fst snd].
  match goal with |- context [upd_ctl c ?f ?x] =>
    lazymatch x with context [upd_ctl] => set (s2 := (upd_ctl c f x).2) end end.
  assert (same_spec s s2) as H2.
  { etransitivity; eapply only_same_spec, only_upd_ctl; intros k; cbv beta;
      destruct (_ : bool); by constructor. }
  rewrite !bind_run. cbn [ret fst snd]. apply (same_then_drop s); [|done|simpl; by rewrite Hc].
  etransitivity; [|apply preserves_quiet_spec, quiet_tick]. etransitivity; [exact H2|].
  apply preserves_quiet_spec. preserves_tac.
Qed.

(** The destructor of any object. *)
Lemma destroy_ok s ts t : sound s (t :: ts) → simulates s (destroy t s).2 (t :: ts) ts.
Proof.
  intros Hs. destruct t as [h|l|m|v]; cbn [destroy]; rewrite bind_run; cbn [ret fst snd].
  - by apply handle_reset_ok.
  - by apply lease_release_ok.
  - by apply map_release_ok.
  - unfold view_release. destruct (view_ctl v) as [c|] eqn:Hc.
    + rewrite bind_run. cbn [ret fst snd]. apply simulates_drop; [done|simpl; by rewrite Hc].
    + apply simulates_null, refs_of_none. simpl. by rewrite Hc.
Qed.
Lemma op_ok_destroy t : op_ok (ODestroy t).
Proof.
  intros s rest Hs _ _. cbn [consumes app client_op] in *. rewrite bind_run. cbn [ret fst snd app].
  split; [by apply destroy_ok|done].
Qed.
Lemma destroy_sound s ts t : sound s (t :: ts) → sound (destroy t s).2 ts.
Proof.
  intros Hs. pose proof (destroy_ok s ts t Hs) as Hsim. eapply sound_simulates; [exact Hs|exact Hsim|].
  pose proof (so_tokens _ _ Hs) as Hok. apply Forall_cons in Hok as [_ Hok].
  eapply Forall_impl; [exact Hok|]. intros t'. apply token_ok_kept, Hsim.
Qed.

(** ** Invalidation and shutdown *)

Lemma registered_has_refs s ts i c :
  sound s ts → registry_ s !! i = Some c → 0 < refs (ctl_at s c).
Proof.
  intros Hs Hreg.
  destruct (coherent_registered _ _ _ _ i c (so_coherent _ _ Hs) Hreg) as (k & Hk & _ & _ & Hpos).
  by rewrite (abs_ctl_at s c k Hk) in Hpos.
Qed.
Lemma finalize_by_id_refused s ts i :
  sound s ts →
  finalize_by_id i s =
    (Returned (match registry_ s !! i with
               | Some _ => fail ErrorCode.resource_busy "finalize_by_id: buffer still has references"
               | None => fail ErrorCode.stale_handle "finalize_by_id: not found"
               end), s).
Proof.
  intros Hs. unfold finalize_by_id. rewrite bind_run. cbn [fst snd get].
  destruct (registry_ s !! i) as [c|] eqn:Hreg; [|done].
  pose proof (registered_has_refs s ts i c Hs Hreg) as Hpos. apply Z.ltb_lt in Hpos.
  by rewrite Hpos.
Qed.

(** The control blocks and the registry are as before. *)
Record same_buffers s s' : Prop := {
  sb_controls : controls s' = controls s;
  sb_registry : registry_ s' = registry_ s;
  sb_hi : id_hi s' = id_hi s;
  sb_counter : id_counter_ s' = id_counter_ s }.
#[export] Instance same_buffers_preorder : PreOrder same_buffers.
Proof. split; [by constructor|]. intros s1 s2 s3 [] []. constructor; congruence. Qed.
Lemma quiet_same_buffers s s' : quiet s s' → same_buffers s s'.
Proof. intros [[] ? ?]. constructor; unfold id_hi; congruence. Qed.
Lemma same_buffers_spec s s' : same_buffers s s' → same_spec s s'.
Proof. intros []. constructor; [|done|done]. unfold abs. congruence. Qed.

(** The loop of [shutdown] finds nothing to finalize. *)
Lemma shutdown_loop_idle s ts :
  sound s ts →
  (iterM (λ kc : BufferId * nat, let! k := get_ctl kc.2 in
            if refs k =? 0 then finalize kc.2 true else ret tt)
     (map_to_list (registry_ s)) s).2 = s.
Proof.
  intros Hs. apply (iterM_inv _ _ (λ s', s' = s)); [done|].
  intros [i c] s' Hin ->. apply elem_of_map_to_list in Hin.
  pose proof (registered_has_refs s ts i c Hs Hin) as Hpos. rewrite bind_run.
  cbn [fst snd get_ctl gets]. destruct (_ =? 0) eqn:E; [bool_prop; lia|done].
Qed.

Lemma quiet_destroy_domain d : preserves quiet (destroy_domain d).
Proof. unfold destroy_domain. preserves_tac. Qed.
Lemma quiet_pool_trim_to_zero : preserves quiet pool_trim_to_zero.
Proof. unfold pool_trim_to_zero. preserves_tac. Qed.

(** What a first shutdown comes to. *)
Lemma shutdown_run s ts :
  sound s ts → closed_ s = false →
  ∃ s', quiet (set_closed true s) s'
        ∧ (shutdown s).2 = set_backends (mkBackends None None None None None) s'.
Proof.
  intros Hs Hopen. unfold shutdown. rewrite bind_run. cbn [fst snd get]. rewrite Hopen, 2!bind_run.
  assert (sound (set_closed true s) ts) as Hs1
    by (apply (sound_same s); [apply same_buffers_spec; by constructor|done]).
  change (modify (set_closed true) s).2 with (set_closed true s).
  change (registry_ s) with (registry_ (set_closed true s)).
  rewrite (shutdown_loop_idle _ ts) by done. rewrite 2!bind_run. cbn [fst snd get].
  pose proof (quiet_pool_trim_to_zero (set_closed true s)) as H2.
  set (s2 := (pool_trim_to_zero _).2) in *. rewrite !bind_run. eexists. split; [|done].
  do 5 (etransitivity; [|apply quiet_destroy_domain]). exact H2.
Qed.
Lemma shutdown_same_buffers s ts : sound s ts → same_buffers s (shutdown s).2.
Proof.
  intros Hs. destruct (closed_ s) eqn:Hopen.
  - unfold shutdown. rewrite bind_run. cbn [fst snd get]. by rewrite Hopen.
  - destruct (shutdown_run s ts Hs Hopen) as (s' & Hq & ->).
    apply quiet_same_buffers in Hq as []. by constructor.
Qed.
Lemma shutdown_same_spec s ts : sound s ts → same_spec s (shutdown s).2.
Proof. intros Hs. by eapply same_buffers_spec, shutdown_same_buffers. Qed.

Lemma op_ok_invalidate i : op_ok (OInvalidate i).
Proof.
  intros s rest Hs _ _. cbn [consumes app client_op Runtime_invalidate] in *. rewrite bind_run.
  rewrite (finalize_by_id_refused s rest i Hs). split; [by apply simulates_same|done].
Qed.
Lemma op_ok_shutdown : op_ok OShutdown.
Proof.
  intros s rest Hs _ _. cbn [consumes app client_op Runtime_shutdown] in *. rewrite bind_run.
  split; [|done]. by eapply simulates_same, shutdown_same_spec.
Qed.

(** A query: a quiet computation whose value is dropped. *)
Lemma op_ok_query {A} o (m : M RuntimeImpl A) :
  client_op o = (let! _ := m in ret []) → consumes o = [] → preserves quiet m → op_ok o.
Proof.
  intros Ho Hc Hm. eapply op_ok_same; [exact Ho| | |done].
  - apply preserves_quiet_spec, preserves_bind; [apply _|done|]. intros. apply preserves_ret, _.
  - apply yields_bind. intros. by apply yields_ret.
Qed.

Lemma client_op_ok o : op_ok o.
Proof.
  destruct o as [req|desc|desc ns l|h t|h|h|h off len a|h a|kind h|h|h|h d off n|h src off n|h
                |this o|t| |c|i|].
  - apply op_ok_allocate.
  - apply op_ok_wrap.
  - apply op_ok_import.
  - apply op_ok_migrate.
  - eapply op_ok_query; [done..|]. apply quiet_with_handle. eauto with frames.
  - apply op_ok_share.
  - apply op_ok_view.
  - apply op_ok_map.
  - apply op_ok_acquire.
  - eapply op_ok_query; [done..|]. eauto with frames.
  - eapply op_ok_query; [done..|]. eauto with frames.
  - eapply op_ok_query; [done..|]. eauto with frames.
  - eapply op_ok_query; [done..|]. eauto with frames.
  - apply op_ok_release.
  - apply op_ok_move.
  - apply op_ok_destroy.
  - eapply op_ok_query; [done..|]. unfold Runtime_pool_trim, guarded. eauto with frames.
  - eapply op_ok_query; [done..|]. unfold Runtime_create_namespace, guarded. eauto with frames.
  - apply op_ok_invalidate.
  - apply op_ok_shutdown.
Qed.

Lemma sound_perm s ts ts' : ts ≡ₚ ts' → sound s ts → sound s ts'.
Proof.
  intros Hp Hs. eapply sound_simulates; [exact Hs|by apply simulates_perm|].
  rewrite <- Hp. apply Hs.
Qed.

(** One step of the system simulates, and keeps the system sound. *)
Lemma sys_step_sound s ts s' ts' :
  sys_step (s, ts) (s', ts') → sound s ts → simulates s s' ts ts' ∧ sound s' ts'.
Proof.
  intros Hst Hs. inversion Hst as [o s0 ts0 rest Hp Hb Hn E1 E2]. subst s0 ts0 s' ts'.
  pose proof (sound_perm _ _ _ Hp Hs) as Hs'.
  destruct (client_op_ok o s rest Hs') as [Hsim Hok]; [|done|].
  { intros t Ht. rewrite <- Hp. by apply Hb. }
  assert (simulates s (client_op o s).2 ts ((client_op o s).1 ++ rest)) as Hsim'
    by (eapply simulates_trans; [by apply simulates_perm|exact Hsim]).
  split; [exact Hsim'|]. eapply sound_simulates; [exact Hs|exact Hsim'|].
  apply Forall_app. split; [exact Hok|]. pose proof (so_tokens _ _ Hs') as Hrest.
  apply Forall_app in Hrest as [_ Hrest]. eapply Forall_impl; [exact Hrest|].
  intros t. apply token_ok_kept, Hsim.
Qed.

Lemma fresh_sound s : fresh_runtime s → sound s [].
Proof.
  intros [Hc Hr Hn]. constructor; [|done]. unfold spec_coherent, spec_of, abs. simpl.
  rewrite Hc, Hr, Hn, fmap_empty. apply coherent_empty.
Qed.
Lemma reachable_sound s ts : reachable s ts → sound s ts.
Proof.
  intros (s0 & Hf & Hsteps). apply fresh_sound in Hf.
  assert (∀ p q, rtc sys_step p q → sound p.1 p.2 → sound q.1 q.2) as H.
  { induction 1 as [|[s1 ts1] [s2 ts2] q H12 _ IH]; [done|]. intros Hs1. apply IH.
    by eapply sys_step_sound. }
  by apply (H _ _ Hsteps).
Qed.

(** ** Counting references by the objects that hold them *)
Definition refers_to (c : nat) (t : Token) : Prop := ref_ctl <$> token_ref t = Some c.
#[export] Instance refers_to_dec c t : Decision (refers_to c t).
Proof. unfold refers_to. apply _. Defined.
Definition references (c : nat) (ts : list Token) : Z := Z.of_nat (length (filter (refers_to c) ts)).

Lemma count_refs_references c ts : count_refs c (refs_of ts) = references c ts.
Proof.
  unfold references. induction ts as [|t ts IH]; [done|]. rewrite filter_cons.
  destruct (token_ref t) as [r|] eqn:Hr.
  - rewrite (refs_of_some _ _ _ Hr), count_refs_cons, IH. unfold uses.
    assert (refers_to c t ↔ ref_ctl r = c) as Hiff by (unfold refers_to; rewrite Hr; naive_solver).
    repeat case_decide; first [tauto|simpl; lia].
  - rewrite (refs_of_none _ _ Hr), IH. rewrite decide_False; [done|].
    unfold refers_to. by rewrite Hr.
Qed.
Lemma references_zero c ts : references c ts = 0 ↔ ∀ t, t ∈ ts → ¬ refers_to c t.
Proof.
  unfold references. split.
  - intros H t Ht Hc. assert (t ∈ filter (refers_to c) ts) as Hin by by apply list_elem_of_filter.
    destruct (filter (refers_to c) ts); [by apply not_elem_of_nil in Hin|simpl in H; lia].
  - intros H. destruct (filter (refers_to c) ts) as [|t l] eqn:E; [done|].
    assert (t ∈ filter (refers_to c) ts) as Hin by (rewrite E; set_solver).
    apply list_elem_of_filter in Hin as [Hc Ht]. by destruct (H t Ht).
Qed.
End clients.

(** Run operations that use nothing up, while they are allowed; [None] otherwise. *)
Fixpoint sys_run `{P : Platform} (ops : list ClientOp) (s : RuntimeImpl) (ts : list Token)
    : option (RuntimeImpl * list Token) :=
  match ops with
  | [] => Some (s, ts)
  | o :: ops' =>
      if bool_decide (consumes o = []) && forallb (λ t, bool_decide (t ∈ ts)) (borrows o)
         && (id_counter_ s <? two64 - 1)
      then sys_run ops' (client_op o s).2 ((client_op o s).1 ++ ts)
      else None
  end.
Lemma sys_run_reachable `{P : Platform} ops s ts s' ts' :
  reachable s ts → sys_run ops s ts = Some (s', ts') → reachable s' ts'.
Proof.
  revert s ts. induction ops as [|o ops IH]; intros s ts Hr; simpl; [by intros [= -> ->]|].
  destruct (_ && _) eqn:E; [|done]. bool_prop. apply IH.
  destruct Hr as (s0 & Hf & Hsteps). exists s0. split; [exact Hf|].
  eapply rtc_r; [exact Hsteps|]. apply sys_step_op; [by rewrite H|  |done].
  intros t Ht. rewrite List.forallb_forall in H1. eapply bool_decide_eq_true, H1. 
  by apply list_elem_of_In.
Qed.

(** * Properties *)

Section client_properties.
Context {P : Platform}.

(** C1: refinement. The reference counting of the runtime implements the abstract
    machine of RefSpec.v: every operation a client program performs on a reachable
    system (whatever its arguments and whether it succeeds) is a sequence of
    abstract steps between the abstractions of the two states. *)
Theorem refcount_refines_spec (s s' : RuntimeImpl) (ts ts' : list Token) :
  reachable s ts → sys_step (s, ts) (s', ts') →
  rtc (spec_step (id_hi s)) (spec_of s ts) (spec_of s' ts') ∧ id_hi s' = id_hi s.
Proof.
  intros Hr Hst. destruct (sys_step_sound s ts s' ts' Hst (reachable_sound s ts Hr)) as [[] _].
  done.
Qed.

(** C19: no use after finalization. In every reachable system, an object that holds
    a reference (handle, lease, map or view) refers to a control block that exists,
    is not finalized, is registered under its identity, and whose reference count
    is exactly the number of objects that refer to it. *)
Theorem no_use_after_finalize (s : RuntimeImpl) (ts : list Token) (t : Token) (r : Ref) :
  reachable s ts → t ∈ ts → token_ref t = Some r →
  let c := ref_ctl r in
  is_Some (controls s !! c) ∧ finalized (ctl_at s c) = false
  ∧ registry_ s !! rec_id (rec (ctl_at s c)) = Some c
  ∧ refs (ctl_at s c) = references c ts.
Proof.
  intros Hr Ht Hc. apply reachable_sound in Hr.
  destruct (sound_live s ts t r Hr Ht Hc) as (k & Hk & Hf & Hreg & _).
  destruct (abs_live s _ k Hk) as [_ Hsome]. rewrite (abs_ctl_at s _ k Hk) in Hf, Hreg.
  split_and!; [done..|]. destruct (co_ctl _ _ _ _ (so_coherent _ _ Hr) _ k Hk) as [H1 _ _ _ _].
  rewrite (abs_ctl_at s _ k Hk) in H1. simpl in H1. by rewrite H1, count_refs_references.
Qed.

(** C20: finalization happens exactly when the last reference goes. In every reachable
    system a control block is finalized if and only if no object refers to it, and
    the registry lists exactly the control blocks that are not finalized. *)
Theorem finalized_iff_unreferenced (s : RuntimeImpl) (ts : list Token) (c : nat) :
  reachable s ts → is_Some (controls s !! c) →
  (finalized (ctl_at s c) = true ↔ ∀ t, t ∈ ts → ¬ refers_to c t)
  ∧ (finalized (ctl_at s c) = false ↔ ∃ id, registry_ s !! id = Some c).
Proof.
  intros Hr Hsome. apply reachable_sound in Hr. pose proof (abs_present s c Hsome) as Hk.
  destruct (co_ctl _ _ _ _ (so_coherent _ _ Hr) _ _ Hk) as [_ _ H3 _ _]. split.
  - rewrite <- references_zero, <- count_refs_references. exact H3.
  - split.
    + intros Hf. exists (rec_id (rec (ctl_at s c))).
      apply (co_reg _ _ _ _ (so_coherent _ _ Hr)). eauto.
    + intros [i Hi]. apply (co_reg _ _ _ _ (so_coherent _ _ Hr)) in Hi as (k & Hk' & _ & Hf).
      by destruct (abs_live s c k Hk') as [<- _].
Qed.

(** Lease exclusion. In every reachable system, two distinct lease objects on
    the same buffer are both read leases: a write or exclusive lease excludes
    every other lease. *)
Theorem lease_exclusion (s : RuntimeImpl) (ts rest : list Token) (l1 l2 : BufferLease) (c : nat) :
  reachable s ts → ts ≡ₚ TLease l1 :: TLease l2 :: rest →
  lease_ctl l1 = Some c → lease_ctl l2 = Some c →
  lease_kind l1 = LeaseKind.READ ∧ lease_kind l2 = LeaseKind.READ.
Proof.
  intros Hr Hp H1 H2. apply reachable_sound in Hr. apply (sound_perm _ _ _ Hp) in Hr.
  assert (token_ref (TLease l1) = Some (mkRef c (Some (lease_kind l1)))) as E1 by (simpl; by rewrite H1).
  assert (token_ref (TLease l2) = Some (mkRef c (Some (lease_kind l2)))) as E2 by (simpl; by rewrite H2).
  destruct (sound_live s _ (TLease l1) _ Hr ltac:(set_solver) E1) as (k & Hk & _). simpl in Hk.
  destruct (co_ctl _ _ _ _ (so_coherent _ _ Hr) _ k Hk) as [_ Hl _ [Hx Hrd] _].
  cbn [spec_of sp_refs] in Hl. rewrite (refs_of_some _ _ _ E1), (refs_of_some _ _ _ E2) in Hl.
  pose proof (Hl LeaseKind.READ) as LR. pose proof (Hl LeaseKind.WRITE) as LW.
  pose proof (Hl LeaseKind.EXCLUSIVE) as LX. rewrite !count_leases_cons, !leases_of_self in *.
  pose proof (count_leases_nonneg LeaseKind.READ c (refs_of rest)).
  pose proof (count_leases_nonneg LeaseKind.WRITE c (refs_of rest)).
  pose proof (count_leases_nonneg LeaseKind.EXCLUSIVE c (refs_of rest)).
  destruct (lease_kind l1), (lease_kind l2); simpl in *; split; done || lia.
Qed.

(** C33: identities are never reused. In every reachable system two control blocks
    with one identity are the same control block (finalized ones included), no
    identity is null, and a handle carries the identity of its buffer. *)
Theorem identities_unique (s : RuntimeImpl) (ts : list Token) :
  reachable s ts →
  (∀ c1 c2, is_Some (controls s !! c1) → is_Some (controls s !! c2) →
     rec_id (rec (ctl_at s c1)) = rec_id (rec (ctl_at s c2)) → c1 = c2)
  ∧ (∀ c, is_Some (controls s !! c) → BufferId_null (rec_id (rec (ctl_at s c))) = false)
  ∧ (∀ h c, THandle h ∈ ts → h_ctl h = Some c → h_id h = rec_id (rec (ctl_at s c))).
Proof.
  intros Hr. apply reachable_sound in Hr. pose proof (so_coherent _ _ Hr) as Hco. split_and!.
  - intros c1 c2 H1 H2 Hid.
    by apply (co_inj _ _ _ _ Hco c1 c2 _ _ (abs_present s c1 H1) (abs_present s c2 H2)).
  - intros c Hc. destruct (co_ctl _ _ _ _ Hco _ _ (abs_present s c Hc)) as [_ _ _ _ [_ Hlo]].
    simpl in Hlo. unfold BufferId_null. destruct (lo _ =? 0) eqn:E; bool_prop; [lia|].
    by rewrite andb_false_r.
  - intros h c Hh Hc. destruct (handle_live s ts h c Hr Hh Hc) as (k & Hk & _ & Hid & _).
    by rewrite (abs_ctl_at s c k Hk) in Hid.
Qed.

(** [Runtime::invalidate] never takes effect. In every reachable system it
    returns an error for every identity and changes nothing: a registered buffer
    always has references ([resource_busy]), any other is unknown
    ([stale_handle]). Its finalizing branch, which would lock the control mutex
    twice, is unreachable between the operations of clients. *)
Theorem invalidate_always_refused (s : RuntimeImpl) (ts : list Token) (id : BufferId) :
  reachable s ts →
  ∃ e, Runtime_invalidate true id s = (Returned (Fail e), s)
       ∧ code e = (match registry_ s !! id with
                   | Some _ => ErrorCode.resource_busy
                   | None => ErrorCode.stale_handle
                   end).
Proof.
  intros Hr. apply reachable_sound in Hr. unfold Runtime_invalidate.
  rewrite (finalize_by_id_refused s ts id Hr).
  destruct (registry_ s !! id); eexists; split; done.
Qed.

(** The finalizing branch of [finalize_by_id] deadlocks: on a registered, not
    finalized control block without references, [finalize] is called while the
    caller holds the non-recursive mutex of that control block. *)
Theorem finalize_by_id_deadlocks (s : RuntimeImpl) (id : BufferId) (c : nat) :
  registry_ s !! id = Some c → refs (ctl_at s c) ≤ 0 → finalized (ctl_at s c) = false →
  (Runtime_invalidate true id s).1 = SelfDeadlock.
Proof.
  intros Hreg Hrefs Hf. unfold Runtime_invalidate, finalize_by_id. rewrite bind_run.
  cbn [fst snd get]. rewrite Hreg. destruct (0 <? _) eqn:E; [bool_prop; lia|]. by rewrite Hf.
Qed.

(** Shutdown closes the runtime and disables every domain, but finalizes no
    buffer that a client still refers to: every control block and registry entry
    stays as it was, to be finalized by its last reference. *)
Theorem shutdown_keeps_referenced_buffers (s : RuntimeImpl) (ts : list Token) :
  reachable s ts → closed_ s = false →
  let s' := (Runtime_shutdown true s).2 in
  controls s' = controls s ∧ registry_ s' = registry_ s ∧ closed_ s' = true
  ∧ ∀ d, domain s' d = None.
Proof.
  intros Hr Hc. apply reachable_sound in Hr. unfold Runtime_shutdown. cbv zeta.
  destruct (shutdown_run s ts Hr Hc) as (s' & [[] H2 H3] & ->). split_and!; [done..|].
  by intros [].
Qed.
End client_properties.

(** ** A client program on the concrete platform: one allocation, two read leases *)
Definition sim_handle : BufferHandle := mkBufferHandle true (Some 0%nat) (mkBufferId 1007 1) 1 true.
Definition sim_ops : list ClientOp :=
  [OAllocate sim_request; OAcquire LeaseKind.READ sim_handle; OAcquire LeaseKind.READ sim_handle].
Definition sim_client : RuntimeImpl * list Token :=
  default (sim_runtime, []) (sys_run sim_ops sim_runtime []).
Definition sim_lease : BufferLease := mkBufferLease (Some 0%nat) 1 LeaseKind.READ.

Lemma sim_start_reachable : reachable sim_runtime [].
Proof. exists sim_runtime. split; [by constructor|apply rtc_refl]. Qed.
Lemma sim_client_reachable : reachable sim_client.1 sim_client.2.
Proof.
  apply (sys_run_reachable sim_ops sim_runtime []); [apply sim_start_reachable|].
  assert (bool_decide (is_Some (snd <$> sys_run sim_ops sim_runtime [])) = true) as Hok by by vm_compute.
  unfold sim_client. destruct (sys_run sim_ops sim_runtime []) as [[s ts]|]; done.
Qed.
Lemma sim_client_tokens : sim_client.2 = [TLease sim_lease; TLease sim_lease; THandle sim_handle].
Proof. vm_compute. reflexivity. Qed.

Lemma refcount_refines_spec_witness :
  rtc (spec_step 1007) (spec_of sim_runtime [])
    (spec_of (client_op (OAllocate sim_request) sim_runtime).2
       ((client_op (OAllocate sim_request) sim_runtime).1 ++ [])).
Proof.
  refine (proj1 (refcount_refines_spec sim_runtime _ [] _ sim_start_reachable _)).
  apply sys_step_op; [reflexivity| |by vm_compute]. intros t Ht. by apply not_elem_of_nil in Ht.
Defined.

Lemma no_use_after_finalize_witness :
  finalized (ctl_at sim_client.1 0) = false ∧ refs (ctl_at sim_client.1 0) = 3.
Proof.
  destruct (no_use_after_finalize sim_client.1 sim_client.2 (THandle sim_handle) (mkRef 0 None)
              sim_client_reachable) as (_ & H1 & _ & H2).
  - rewrite sim_client_tokens. repeat constructor.
  - reflexivity.
  - rewrite sim_client_tokens in H2. split; [exact H1|exact H2].
Defined.

Lemma finalized_iff_unreferenced_witness : ∃ id, registry_ sim_client.1 !! id = Some 0%nat.
Proof.
  refine (proj1 (proj2 (finalized_iff_unreferenced sim_client.1 sim_client.2 0
            sim_client_reachable _)) _).
  - vm_compute. by eexists.
  - by vm_compute.
Defined.

Lemma lease_exclusion_witness : lease_kind sim_lease = LeaseKind.READ.
Proof.
  refine (proj1 (lease_exclusion sim_client.1 sim_client.2 [THandle sim_handle] sim_lease sim_lease 0
            sim_client_reachable _ eq_refl eq_refl)).
  by rewrite sim_client_tokens.
Defined.

Lemma identities_unique_witness : h_id sim_handle = rec_id (rec (ctl_at sim_client.1 0)).
Proof.
  destruct (identities_unique sim_client.1 sim_client.2 sim_client_reachable) as (_ & _ & H).
  apply H; [|reflexivity]. rewrite sim_client_tokens. repeat constructor.
Defined.

Lemma invalidate_always_refused_witness :
  ∃ e, Runtime_invalidate true (h_id sim_handle) sim_client.1 = (Returned (Fail e), sim_client.1)
       ∧ code e = ErrorCode.resource_busy.
Proof. exact (invalidate_always_refused _ _ (h_id sim_handle) sim_client_reachable). Defined.

(** A buffer registered, but not yet handed to a client. *)
Definition sim_window : RuntimeImpl :=
  ((let! r := allocate_record sim_request in
   register_control (value_or r BufferRecord_default) ;;; ret tt) sim_runtime).2.
Lemma finalize_by_id_deadlocks_witness :
  (Runtime_invalidate true (mkBufferId 1007 1) sim_window).1 = SelfDeadlock.
Proof. apply (finalize_by_id_deadlocks sim_window _ 0); by vm_compute. Defined.

Lemma shutdown_keeps_referenced_buffers_witness :
  closed_ (Runtime_shutdown true sim_client.1).2 = true
  ∧ domain (Runtime_shutdown true sim_client.1).2 MemoryDomain.HOST = None.
Proof.
  destruct (shutdown_keeps_referenced_buffers sim_client.1 sim_client.2 sim_client_reachable)
    as (_ & _ & H1 & H2).
  - by vm_compute.
  - split; [exact H1|apply H2].
Defined.
