(* ===== verification/StateMachine.v ===== *)
(** The lifecycle of buffers: the transition table of Lifecycle.v as a state
    machine, and the operations of the runtime and of its handles, which assign
    [rec.state] directly, related to it. *)
From S2P Require Import Prelude Types CheckedMath Platform SharedBackend FileBackend State Sim.
From S2P Require Import Ledger Pool Lifecycle Runtime Handle Facade SimRuntime Frames RefSpec.
From S2P Require Import Refcount Clients.
Import BufferState.

(** The states the operations ever assign. *)
Definition used_state (st : BufferState) : bool :=
  match st with ALLOCATED | MAPPED | IN_USE | IMPORTED | RELEASED => true | _ => false end.
Definition state_of (k : Control) : BufferState := rec_state (rec k).

(** What an operation may do to the state of a buffer. *)
Definition op_moves (o : ClientOp) : BufferState → BufferState → Prop :=
  match o with
  | OMigrate _ _ => moves ALLOCATED
  | OMap _ _ => moves MAPPED
  | OAcquire _ _ => moves IN_USE
  | ODestroy (TLease _) | ODestroy (TMap _) => moves_via ALLOCATED RELEASED
  | ODestroy _ | ORelease _ | OMove _ _ | OShutdown => moves RELEASED
  | _ => eq
  end.

#[export] Instance moves_preorder to : PreOrder (moves to).
Proof.
  split; [by left|]. intros a b c [<-|[-> Hst]] Hc; [done|]. destruct Hc as [<-|[-> _]]; by right.
Qed.
Lemma moves_once to a : valid_transition a to = true → moves to a to.
Proof. intros Hv. right. split; [done|]. by constructor. Qed.
Lemma moves_released st : used_state st = true → moves RELEASED st RELEASED.
Proof. destruct st; try done; intros _; (by left) || (by apply moves_once). Qed.
Lemma moves_allocated st : used_state st = true → st ≠ RELEASED → moves ALLOCATED st ALLOCATED.
Proof. destruct st; try done; intros _ _; (by left) || (by apply moves_once). Qed.

(** A terminal state only steps to terminal states, each of lower rank. *)
Lemma step_terminal a b :
  step_state a b → terminal_state a = true →
  terminal_state b = true ∧ (terminal_rank b < terminal_rank a)%nat.
Proof. intros [from to Hv]. destruct from, to; vm_compute in Hv; done || (simpl; split; done || lia). Qed.

Section evolution.
Context {P : Platform}.
Implicit Types s : RuntimeImpl.

Record states_ok s : Prop := {
  st_dense : ∀ c, is_Some (controls s !! c) ↔ (c < size (controls s))%nat;
  st_used : ∀ c k, controls s !! c = Some k → used_state (state_of k) = true }.
(** Every control block keeps existing, its state moving along [R]. *)
Definition evolves (R : relation BufferState) s s' : Prop :=
  states_ok s → states_ok s' ∧
  ∀ c k, controls s !! c = Some k →
    ∃ k', controls s' !! c = Some k' ∧ R (state_of k) (state_of k').

Lemma evolves_trans (R1 R2 R3 : relation BufferState) s1 s2 s3 :
  (∀ a b c, R1 a b → R2 b c → R3 a c) → evolves R1 s1 s2 → evolves R2 s2 s3 → evolves R3 s1 s3.
Proof.
  intros Ht H12 H23 H1. destruct (H12 H1) as [H2 E12]. destruct (H23 H2) as [H3 E23].
  split; [done|]. intros c k Hk. destruct (E12 c k Hk) as (k2 & Hk2 & R12).
  destruct (E23 c k2 Hk2) as (k3 & Hk3 & R23). exists k3. split; [done|]. by eapply Ht.
Qed.
#[export] Instance evolves_preorder R : PreOrder R → PreOrder (evolves R).
Proof.
  intros HR. split.
  - intros s Hs. split; [done|]. intros c k Hk. by exists k.
  - intros s1 s2 s3. apply evolves_trans. by intros ???; etransitivity.
Qed.
(** Computations in sequence, for a composed relation. *)
Lemma evolves_first {A B} mid to (m : M RuntimeImpl A) (f : A → M RuntimeImpl B) :
  preserves (evolves (moves mid)) m → (∀ a, preserves (evolves (moves_via mid to)) (f a)) →
  preserves (evolves (moves_via mid to)) (bind m f).
Proof.
  intros Hm Hf s. rewrite bind_run. eapply evolves_trans; [|apply Hm|apply Hf].
  intros a b c H1 (x & H2 & H3). exists x. split; [by etransitivity|done].
Qed.
Lemma evolves_second {A} mid to (m : M RuntimeImpl A) :
  preserves (evolves (moves to)) m → preserves (evolves (moves_via mid to)) m.
Proof.
  intros Hm s Hs. destruct (Hm s Hs) as [Hs' He]. split; [done|]. intros c k Hk.
  destruct (He c k Hk) as (k' & Hk' & Hmv). exists k'. split; [done|]. eexists. split; [by left|done].
Qed.

Section relation.
Context (R : relation BufferState) `{!PreOrder R}.

Lemma same_controls_evolves s s' : controls s' = controls s → evolves R s s'.
Proof.
  intros Hc [H1 H2]. split; [constructor; by rewrite Hc|]. intros c k Hk. exists k.
  by rewrite Hc.
Qed.
Lemma preserves_calm_evolves {A} (m : M RuntimeImpl A) : preserves calm m → preserves (evolves R) m.
Proof. intros Hm s. apply same_controls_evolves. by destruct (Hm s) as [_ ? _]. Qed.
Lemma preserves_quiet_evolves {A} (m : M RuntimeImpl A) : preserves quiet m → preserves (evolves R) m.
Proof. intros Hm s. apply same_controls_evolves, Hm. Qed.
Lemma evolves_registry f : preserves (evolves R) (modify (λ s, set_registry (f s) s)).
Proof. intros s. by apply same_controls_evolves. Qed.

(** Changing one control block whose state moves legally. *)
Lemma evolves_upd s c f :
  (∀ k, controls s !! c = Some k → used_state (state_of k) = true →
     used_state (state_of (f k)) = true ∧ R (state_of k) (state_of (f k))) →
  evolves R s (upd_ctl c f s).2.
Proof.
  intros Hf [H1 H2]. split; [constructor|]; simpl.
  - intros c'. by rewrite alter_is_Some, size_alter.
  - intros c' k. rewrite lookup_alter_Some. intros [(<- & k0 & Hk & ->)|[_ Hk]]; [|by eapply H2].
    by apply Hf; [|eapply H2].
  - intros c' k Hk. rewrite lookup_alter. case_decide as Hc; [subst c'|].
    + exists (f k). rewrite Hk. split; [done|]. by apply Hf; [|eapply H2].
    + by exists k.
Qed.
Lemma evolves_upd_all c f :
  (∀ k, used_state (state_of k) = true →
     used_state (state_of (f k)) = true ∧ R (state_of k) (state_of (f k))) →
  preserves (evolves R) (upd_ctl c f).
Proof. intros Hf s. apply evolves_upd. auto. Qed.
Lemma evolves_upd_same c f : (∀ k, state_of (f k) = state_of k) → preserves (evolves R) (upd_ctl c f).
Proof. intros Hf. apply evolves_upd_all. intros k Hu. by rewrite Hf. Qed.

Lemma evolves_register r : used_state (rec_state r) = true → preserves (evolves R) (register_control r).
Proof.
  intros Hr s [H1 H2]. assert (controls s !! size (controls s) = None) as Hn.
  { apply eq_None_not_Some. rewrite H1. lia. }
  split; [constructor|]; simpl.
  - intros c. rewrite map_size_insert_None by done.
    destruct (decide (c = size (controls s))) as [->|Hne].
    + rewrite lookup_insert_eq. split; [lia|by eexists].
    + rewrite lookup_insert_ne, H1 by done. lia.
  - intros c k. rewrite lookup_insert_Some. intros [[_ <-]|[_ Hk]]; [done|by eapply H2].
  - intros c k Hk. exists k. by rewrite lookup_insert_ne by congruence.
Qed.

Lemma evolves_retain c : preserves (evolves R) (retain c).
Proof. by apply evolves_upd_same. Qed.
Lemma evolves_set_rec c f :
  (∀ r, rec_state (f r) = rec_state r) → preserves (evolves R) (upd_ctl c (set_rec f)).
Proof. intros Hf. apply evolves_upd_same. intros k. apply Hf. Qed.
Lemma evolves_with_handle {A} h chk (k : nat → M RuntimeImpl (Result A)) :
  (∀ c, preserves (evolves R) (k c)) → preserves (evolves R) (with_handle h chk k).
Proof.
  intros Hk s. destruct (with_handle_cases h chk k s) as [[e ->]|(c & _ & _ & ->)]; [done|apply Hk].
Qed.
End relation.
End evolution.

#[export] Hint Resolve preserves_calm_evolves preserves_quiet_evolves evolves_registry evolves_retain : frames.
#[export] Hint Extern 1 (PreOrder _) => apply _ : frames.

Section operations.
Context {P : Platform}.
Implicit Types s : RuntimeImpl.

(** Walk down an operation to the leaves that assign a state. *)
Ltac evolves_leaf :=
  match goal with
  | |- preserves _ (upd_ctl _ (set_rec _)) => solve [by apply (evolves_set_rec _)]
  | |- preserves _ (upd_ctl _ _) => solve [by apply (evolves_upd_same _)]
  | |- preserves _ (upd_ctl _ _) =>
      apply (evolves_upd_all _); intros k Hk; split; [done|by apply moves_released]
  | |- preserves _ (register_control _) => by apply (evolves_register _)
  end.
Ltac evolves_tac :=
  repeat first [ progress cbv zeta | preserves_step | evolves_leaf | solve [eauto 3 with frames] ].

(** Only the finalization assigns [RELEASED]. *)
Lemma evolves_dispose c r b : preserves (evolves eq) (dispose_backing c r b).
Proof. unfold dispose_backing. evolves_tac. Qed.
Lemma evolves_more (R : relation BufferState) `{!PreOrder R} {A} (m : M RuntimeImpl A) :
  preserves (evolves eq) m → preserves (evolves R) m.
Proof.
  intros Hm s Hs. destruct (Hm s Hs) as [Hs' He]. split; [done|]. intros c k Hk.
  destruct (He c k Hk) as (k' & Hk' & Heq). exists k'. by rewrite <- Heq.
Qed.
#[local] Hint Resolve evolves_dispose : frames.
#[local] Hint Extern 2 (preserves (evolves (moves _)) (dispose_backing _ _ _)) =>
  apply evolves_more; [apply _|apply evolves_dispose] : frames.
Lemma evolves_finalize c b : preserves (evolves (moves RELEASED)) (finalize c b).
Proof. unfold finalize, finalize_record. evolves_tac. Qed.
#[local] Hint Resolve evolves_finalize : frames.
Lemma evolves_drop_ref c : preserves (evolves (moves RELEASED)) (drop_ref c).
Proof. unfold drop_ref. evolves_tac. Qed.

(** A record handed to [register_control] is in a used state. *)
Lemma allocate_record_state req :
  yields (λ x, ∀ r, x = Ok r → rec_state r = ALLOCATED) (allocate_record req).
Proof. unfold allocate_record, allocate_reserved. yields_tac; naive_solver. Qed.
Lemma calm_allocate_record req : preserves calm (allocate_record req).
Proof. unfold allocate_record, allocate_reserved. preserves_tac. Qed.
Lemma evolves_new_handle (R : relation BufferState) `{!PreOrder R} c : preserves (evolves R) (new_handle c).
Proof. unfold new_handle. evolves_tac. Qed.
#[local] Hint Resolve evolves_new_handle : frames.
Lemma evolves_handle_result (R : relation BufferState) `{!PreOrder R} r : preserves (evolves R) (handle_result r).
Proof. unfold handle_result. evolves_tac. Qed.

#[local] Hint Resolve evolves_handle_result evolves_drop_ref : frames.
Lemma evolves_allocate req : preserves (evolves eq) (Runtime_allocate true req).
Proof.
  intros s. rewrite Runtime_allocate_run. destruct (closed_ s); [done|].
  rewrite !bind_run. pose proof (allocate_record_state req s) as Hst.
  assert (evolves eq s (allocate_record req s).2) as Hev
    by (apply (preserves_calm_evolves eq), calm_allocate_record).
  etransitivity; [exact Hev|].
  destruct (allocate_record req s).1 as [r|e]; [|done]. rewrite bind_run.
  etransitivity; [|apply evolves_handle_result, _]. apply (evolves_register eq). by rewrite (Hst r).
Qed.
Lemma evolves_wrap desc : preserves (evolves eq) (Runtime_wrap_external true desc).
Proof.
  unfold Runtime_wrap_external, guarded, wrap_external. evolves_tac.
Qed.
Lemma evolves_import desc ns l : preserves (evolves eq) (Runtime_import true desc ns l).
Proof.
  unfold Runtime_import, guarded, import_descriptor. evolves_tac.
Qed.

(** Migration leaves a buffer that is not released, in [ALLOCATED]. *)
Lemma evolves_migrate c t : preserves (evolves (moves ALLOCATED)) (migrate c t).
Proof.
  intros s. unfold migrate. rewrite bind_run. cbn [fst snd get]. cbv zeta.
  destruct (closed_ s); [done|]. destruct (bool_decide _); [done|].
  destruct (_ || _) eqn:Hst; [done|]. bool_prop. destruct (_ || _).
  { rewrite bind_run. exact (preserves_quiet_evolves _ _ (quiet_tick lease_conflicts) s). }
  destruct (domain s t) as [tdom|]; [|done]. set (r := rec (ctl_at s c)) in *.
  (* from a state with the same control blocks, the rest evolves *)
  assert (∀ s1 nb dev, controls s1 = controls s →
            evolves (moves ALLOCATED) s1 (migrate_commit c r tdom t dev nb s1).2) as Hcommit.
  { intros s1 nb dev Hc. unfold migrate_commit. rewrite bind_run.
    transitivity (upd_ctl c (set_rec (λ _, migrated_record r tdom t dev nb)) s1).2.
    - apply evolves_upd; [apply _|]. intros k Hk Hu. split; [done|].
      apply (moves_allocated (state_of k)); [exact Hu|].
      intros Hrel. rewrite Hc in Hk. unfold r, ctl_at in H. rewrite Hk in H. by apply H.
    - match goal with |- evolves _ ?x (?m _).2 =>
        assert (preserves quiet m) as Hm by preserves_tac end.
      exact (preserves_quiet_evolves _ _ Hm _). }
  rewrite bind_run. pose proof (quiet_reserve_amount (rec_ns r) t
    (if rec_committed r =? 0 then rec_size r else rec_committed r) s) as [_ H1 _].
  destruct (reserve_amount _ _ _ s) as [[u|e] s1]; cbn [fst snd] in *;
    [|by apply (same_controls_evolves _)].
  etransitivity; [by apply (same_controls_evolves _)|]. rewrite bind_run.
  match goal with |- context [on_machine ?f s1] =>
    pose proof (quiet_on_machine f s1) as [_ H2 _]; destruct (on_machine f s1) as [[nb|e] s2] end;
    cbn [fst snd] in *; [|apply (same_controls_evolves _)].
  2: { rewrite bind_run. simpl. by rewrite <- H2. }
  etransitivity; [by apply (same_controls_evolves _)|]. rewrite bind_run.
  match goal with |- context [migrate_fill r tdom t ?n nb s2] =>
    pose proof (quiet_migrate_fill r tdom t n nb s2) as [_ H3 _];
    destruct (migrate_fill r tdom t n nb s2) as [[v|e] s3] end;
    cbn [fst snd] in *; [|by apply (same_controls_evolves _)].
  etransitivity; [by apply (same_controls_evolves _)|]. rewrite bind_run. apply Hcommit. congruence.
Qed.
#[local] Hint Resolve evolves_migrate : frames.
Lemma evolves_acquire kind h : preserves (evolves (moves IN_USE)) (acquire kind h).
Proof.
  apply (evolves_with_handle _). intros c. repeat first
    [ preserves_step | solve [eauto 3 with frames]
    | apply (evolves_upd_same _); intros k; by destruct kind
    | apply (evolves_upd_all _); intros k Hk; destruct k as [r]; unfold state_of in *; simpl in *;
      destruct kind, (rec_state r); done || (split; [done|]; (by left) || (by apply moves_once)) ].
Qed.
Lemma evolves_map h a : preserves (evolves (moves MAPPED)) (handle_map h a).
Proof.
  apply (evolves_with_handle _). intros c s. rewrite bind_run. cbn [fst snd get]. cbv zeta.
  set (r := rec (ctl_at s c)). destruct (bool_decide _); [done|].
  destruct (domain s _) as [dom|]; [|done]. rewrite bind_run.
  pose proof (quiet_on_machine (IDomain.map dom (rec_backing r) a) s) as [_ H1 _].
  destruct (on_machine _ s) as [[p|e] s1]; cbn [fst snd] in *; [|by apply (same_controls_evolves _)].
  etransitivity; [by apply (same_controls_evolves _)|]. rewrite bind_run.
  set (s2 := (upd_ctl c _ s1).2).
  transitivity s2; [by apply (evolves_set_rec _)|]. rewrite bind_run.
  destruct (valid_transition (rec_state r) MAPPED) eqn:Hv.
  - transitivity (upd_ctl c (set_rec (set_rec_state MAPPED)) s2).2.
    + apply (evolves_upd _). intros k Hk _. split; [done|]. apply moves_once.
      assert (state_of k = rec_state r) as ->; [|exact Hv].
      simpl in Hk. rewrite lookup_alter_eq, H1 in Hk. unfold r, ctl_at.
      destruct (controls s !! c); simplify_eq/=. done.
    + match goal with |- evolves _ ?x (?m _).2 =>
        assert (preserves (evolves (moves MAPPED)) m) as Hm by evolves_tac end. apply Hm.
  - match goal with |- evolves _ _ (?m _).2 =>
      assert (preserves (evolves (moves MAPPED)) m) as Hm by evolves_tac end. apply Hm.
Qed.
Lemma evolves_settle c : preserves (evolves (moves ALLOCATED)) (upd_ctl c settle_lease_state).
Proof.
  apply (evolves_upd_all _). intros k Hk. unfold settle_lease_state.
  destruct (_ && bool_decide _) eqn:E; [|by split].
  bool_prop. split; [done|]. unfold state_of. rewrite H0. by apply moves_once.
Qed.
#[local] Hint Resolve evolves_settle : frames.
(** Leases and maps settle the state, and then drop their reference. *)
Lemma evolves_lease_release l :
  preserves (evolves (moves_via ALLOCATED RELEASED)) (lease_release l).
Proof.
  unfold lease_release. destruct (lease_ctl l) as [c|]; [|apply evolves_second; evolves_tac].
  apply evolves_first.
  { apply (evolves_upd_same _). intros k. unfold remove_lease, state_of. by repeat case_match. }
  intros _. apply evolves_first; [apply evolves_settle|]. intros _. apply evolves_second. evolves_tac.
Qed.
Lemma evolves_map_release m :
  preserves (evolves (moves_via ALLOCATED RELEASED)) (map_release m).
Proof.
  unfold map_release. destruct (map_ctl m) as [c|]; [|apply evolves_second; evolves_tac].
  apply evolves_first.
  { apply (evolves_upd_same _). intros k. unfold state_of. by repeat case_match. }
  intros _. apply evolves_first; [|intros _; apply evolves_second; evolves_tac].
  apply (evolves_upd_all _). intros k Hk. cbv beta. destruct (_ && bool_decide _) eqn:E; [|by split].
  bool_prop. split; [done|]. unfold state_of. rewrite H0. by apply moves_once.
Qed.
Lemma evolves_reset h : preserves (evolves (moves RELEASED)) (handle_reset h).
Proof. unfold handle_reset. evolves_tac. Qed.
Lemma evolves_view_release v : preserves (evolves (moves RELEASED)) (view_release v).
Proof. unfold view_release. evolves_tac. Qed.
#[local] Hint Resolve evolves_reset evolves_acquire evolves_map evolves_migrate evolves_view_release : frames.

Lemma evolves_shutdown : preserves (evolves (moves RELEASED)) shutdown.
Proof.
  intros s. unfold shutdown. rewrite bind_run. cbn [fst snd get]. destruct (closed_ s); [done|].
  rewrite bind_run. transitivity (set_closed true s); [by apply (same_controls_evolves _)|].
  match goal with |- evolves ?R _ (?m _).2 => assert (preserves (evolves R) m) as Hm end; [|apply Hm].
  apply preserves_bind; [apply _| |intros _].
  - apply preserves_iterM; [apply _|]. intros x. evolves_tac.
  - apply preserves_bind; [apply _| |intros _].
    { apply (preserves_quiet_evolves _), quiet_pool_trim_to_zero. }
    apply preserves_bind; [apply _|apply preserves_get, _|intros s1].
    do 5 (apply preserves_bind; [apply _|apply (preserves_quiet_evolves _), quiet_destroy_domain|intros _]).
    intros s2. by apply (same_controls_evolves _).
Qed.

Lemma evolves_client_op o : preserves (evolves (op_moves o)) (client_op o).
Proof.
  destruct o as [req|desc|desc ns l|h t|h|h|h off len a|h a|kind h|h|h|h d off n|h src off n|h
                |this o|[h|l|m|v]| |c|i|]; cbn [client_op op_moves destroy];
    try (intros s; rewrite !bind_run; by (apply evolves_lease_release || apply evolves_map_release));
    unfold Runtime_invalidate, Runtime_shutdown, Runtime_migrate, Runtime_export_buffer, handle_share, handle_view, handle_verify,
      handle_checksum, handle_copy_to, handle_copy_from, handle_release, handle_move_assign,
      Runtime_pool_trim, Runtime_create_namespace, guarded;
    repeat first
    [ match goal with
      | |- preserves _ (Runtime_allocate _ _) => apply evolves_allocate
      | |- preserves _ (Runtime_wrap_external _ _) => apply evolves_wrap
      | |- preserves _ (Runtime_import _ _ _ _) => apply evolves_import
      | |- preserves _ shutdown => apply evolves_shutdown
      end
    | preserves_step | solve [eauto 3 with frames]
    | match goal with
      | |- preserves _ (with_handle _ _ _) => apply (evolves_with_handle _); intros ?
      end
    | solve [evolves_tac] | solve [unfold finalize_by_id, finalize_call; evolves_tac] ].
Qed.

Lemma fresh_states_ok s : fresh_runtime s → states_ok s.
Proof.
  intros [Hc _ _]. constructor; rewrite Hc.
  - intros c. rewrite lookup_empty, map_size_empty. split; [by intros []|lia].
  - intros c k. by rewrite lookup_empty.
Qed.
Lemma reachable_states_ok s ts : reachable s ts → states_ok s.
Proof.
  intros (s0 & Hf & Hsteps). apply fresh_states_ok in Hf.
  assert (∀ p q, rtc sys_step p q → states_ok p.1 → states_ok q.1) as H.
  { induction 1 as [|[s1 ts1] [s2 ts2] q H12 _ IH]; [done|]. intros Hs1. apply IH.
    inversion H12; subst. by apply evolves_client_op. }
  by apply (H _ _ Hsteps).
Qed.
End operations.

(** * Properties *)

(** Terminal states stay terminal. From a released, failed, quarantined or
    invalid buffer every chain of legal transitions stays within those states and
    has at most two steps, so a buffer never becomes usable again. *)
Theorem terminal_states_absorbing (a b : BufferState) (n : nat) :
  terminal_state a = true → nsteps step_state n a b → terminal_state b = true ∧ (n ≤ 2)%nat.
Proof.
  intros Ha Hn. assert (terminal_state b = true ∧ (n + terminal_rank b ≤ terminal_rank a)%nat) as [Hb Hr].
  { revert Ha. induction Hn as [a|n a m b Hstep _ IH]; intros Ha; [split; [done|lia]|].
    destruct (step_terminal a m Hstep Ha) as [Hm Hlt]. destruct (IH Hm) as [Hb Hle].
    split; [done|lia]. }
  split; [done|]. destruct a; simpl in Hr; lia.
Qed.

(** The guarded state change. [set_state] follows the table exactly: a legal
    change succeeds and assigns the state, an illegal one reports
    [lifecycle_violation] and changes nothing; no other buffer is touched. *)
Theorem set_state_guarded `{P : Platform} (s : RuntimeImpl) (c : nat) (to : BufferState) :
  is_Some (controls s !! c) →
  let from := rec_state (rec (ctl_at s c)) in
  let r := (set_state c to s).1 in
  let s' := (set_state c to s).2 in
  (is_ok r = true ↔ step_state from to)
  ∧ (is_ok r = true → rec (ctl_at s' c) = set_rec_state to (rec (ctl_at s c)))
  ∧ (is_ok r = false → error r = ErrorCode.lifecycle_violation ∧ s' = s)
  ∧ ∀ c', c' ≠ c → controls s' !! c' = controls s !! c'.
Proof.
  intros Hc. cbv zeta. unfold set_state. rewrite bind_run. cbn [fst snd get_ctl gets].
  destruct (valid_transition _ to) eqn:Hv; cbn [negb].
  - rewrite bind_run. cbn [ret fst snd]. rewrite ctl_at_upd by done. split_and!; [|done..|].
    + split; [by constructor|done].
    + intros c' Hne. simpl. by rewrite lookup_alter_ne.
  - cbn [ret fst snd]. split_and!; [|done..]. split; [done|]. inversion 1. congruence.
Qed.

(** C34: the runtime obeys its state machine, one transition at a time. Although its
    operations assign [rec.state] directly, each operation on a reachable system either
    leaves the state of a buffer alone or takes it along one legal transition, always to
    the same state: a migration to [ALLOCATED], a mapping to [MAPPED], a lease to
    [IN_USE], the drop of a handle or of a view, the move assignment and the shutdown to
    [RELEASED]; the end of a lease or of a map may make two, to [ALLOCATED] and from
    there, or from where the buffer was, to [RELEASED]; and every other operation leaves the states alone. No
    buffer disappears, and the only states ever seen, those of new buffers included, are
    [ALLOCATED], [MAPPED], [IN_USE], [IMPORTED] and [RELEASED]. *)
Theorem state_changes_legal `{P : Platform} (s : RuntimeImpl) (ts : list Token) (o : ClientOp) :
  reachable s ts →
  let s' := (client_op o s).2 in
  (∀ c, is_Some (controls s !! c) →
     is_Some (controls s' !! c)
     ∧ op_moves o (rec_state (rec (ctl_at s c))) (rec_state (rec (ctl_at s' c))))
  ∧ ∀ c, is_Some (controls s' !! c) → used_state (rec_state (rec (ctl_at s' c))) = true.
Proof.
  intros Hr. cbv zeta. apply reachable_states_ok in Hr.
  destruct (evolves_client_op o s Hr) as [Hok Hmoves]. split.
  - intros c [k Hk]. destruct (Hmoves c k Hk) as (k' & Hk' & Hmv).
    unfold ctl_at. rewrite Hk, Hk'. split; [by eexists|exact Hmv].
  - intros c [k Hk]. unfold ctl_at. rewrite Hk. by apply (st_used _ Hok c).
Qed.

Lemma terminal_states_absorbing_witness : (2 ≤ 2)%nat.
Proof.
  refine (proj2 (terminal_states_absorbing FAILED INVALID 2 eq_refl _)).
  apply (nsteps_l _ _ _ QUARANTINED); [by constructor|].
  apply (nsteps_l _ _ _ INVALID); [by constructor|apply nsteps_O].
Defined.

Lemma set_state_guarded_witness :
  (set_state 0 EXPORTING sim_client.1).2 = sim_client.1.
Proof.
  refine (proj2 (proj1 (proj2 (proj2 (set_state_guarded sim_client.1 0 EXPORTING _))) _)).
  - vm_compute. by eexists.
  - by vm_compute.
Defined.

(** The buffer is [IN_USE]: a migration makes it [ALLOCATED], and a mapping, for which the
    table has no transition, leaves it alone. *)
Definition sim_state_after (o : ClientOp) : BufferState :=
  rec_state (rec (ctl_at (client_op o sim_client.1).2 0)).
Lemma state_changes_legal_witness :
  moves ALLOCATED IN_USE (sim_state_after (OMigrate sim_handle MemoryDomain.PINNED_HOST))
  ∧ sim_state_after (OMigrate sim_handle MemoryDomain.PINNED_HOST) = ALLOCATED
  ∧ moves MAPPED IN_USE (sim_state_after (OMap sim_handle AccessMode.READ_WRITE)).
Proof.
  assert (rec_state (rec (ctl_at sim_client.1 0)) = IN_USE) as <- by (vm_compute; reflexivity).
  split; [|split; [vm_compute; reflexivity|]].
  - apply (state_changes_legal sim_client.1 sim_client.2 (OMigrate sim_handle MemoryDomain.PINNED_HOST) sim_client_reachable).
    vm_compute. by eexists.
  - apply (state_changes_legal sim_client.1 sim_client.2 (OMap sim_handle AccessMode.READ_WRITE) sim_client_reachable).
    vm_compute. by eexists.
Defined.
