(* ===== verification/Allocation.v ===== *)
(** Allocation (src/runtime.cpp, [RuntimeImpl::allocate_record]): what a successful
    allocation gives, what it charges to the namespace, and that a failed one
    charges nothing.  The backends are used through their contract (Domain.v). *)
From S2P Require Import Prelude Types CheckedMath Platform HostBackend SharedBackend.
From S2P Require Import FileBackend CudaBackend Domain State Sim Ledger Pool Lifecycle Runtime.
From S2P Require Import Handle Facade SimRuntime Frames.

Section allocation.
Context {P : Platform}.
Implicit Types s : RuntimeImpl.

(** Every attached domain keeps its contract, and serves the domain it stands for. *)
Definition domains_ok s : Prop :=
  ∀ d dom, domain s d = Some dom → DomainContract dom ∧ IDomain.domain dom = d.

Lemma quiet_domains_ok s s' : quiet s s' → domains_ok s → domains_ok s'.
Proof. intros Hq Hd d dom. rewrite (quiet_domain _ _ d Hq). apply Hd. Qed.

Lemma RuntimeImpl_new_domains c seed m : domains_ok (RuntimeImpl_new c seed m).1.
Proof.
  intros d dom. unfold RuntimeImpl_new. rewrite !bind_run. cbn [ret fst snd].
  unfold attach_cuda, attach_shared_and_file_backends.
  destruct d; cbn [domain backends host_ cuda_device_ cuda_pinned_ shared_ file_ fst snd].
  - destruct (enable_host c); [|done]. rewrite bind_run. cbn [ret fst]. intros [= <-].
    split; [apply _|done].
  - destruct (negb has_cuda); [done|]. rewrite bind_run. destruct (negb _); [done|].
    rewrite !bind_run. cbn [ret fst snd]. intros [= <-]. split; [apply _|done].
  - destruct (negb has_cuda); [done|]. rewrite bind_run. destruct (negb _); [done|].
    rewrite !bind_run. cbn [ret fst snd]. intros [= <-]. split; [apply _|done].
  - destruct (enable_file c); rewrite ?bind_run; cbn [ret fst snd];
      (destruct (enable_shared c); [|done]); intros [= <-]; (split; [apply _|done]).
  - destruct (enable_file c); rewrite ?bind_run; cbn [ret fst snd]; [|done].
    intros [= <-]. split; [apply _|done].
Qed.

(** ** Values *)

Lemma yields_bind_val {A B} (Q1 : A → Prop) (Q : B → Prop) (m : M RuntimeImpl A) k :
  yields Q1 m → (∀ a, Q1 a → yields Q (k a)) → yields Q (bind m k).
Proof. intros Hm Hk s. rewrite bind_run. apply Hk, Hm. Qed.

(** What the validation establishes. *)
Record validated s (req : AllocationRequest) (al n : Z) : Prop := {
  va_size : 0 < req_size req ≤ two48;
  va_al : power_of_two al ∧ 1 ≤ al ≤ 4096;
  va_n : least_multiple_above al (req_size req) n;
  va_n_small : n < two48 + 4096;
  va_dom : is_Some (domain s (req_domain req)) }.

Lemma validate_request_ok s req al n :
  domains_ok s → is_u64 (req_size req) → is_u64 (req_alignment req) →
  validate_request s req = Ok (al, n) → validated s req al n.
Proof.
  intros Hd Hsz Hal. unfold validate_request.
  destruct (req_size req =? 0) eqn:E0; [done|]. change (Z.shiftl 1 48) with two48.
  destruct (two48 <? req_size req) eqn:E1; [done|].
  destruct (domain s (req_domain req)) as [dom|] eqn:Hdom; [|done].
  destruct (Hd _ _ Hdom) as [[_ _ _ _ _ (k & Hk & Hp)] _]. rewrite Hp. cbn [value_or]. cbv zeta.
  set (al1 := if req_alignment req =? 0 then 2 ^ k else req_alignment req).
  assert (is_u64 al1) as Hal1.
  { unfold al1. destruct (req_alignment req =? 0); [|done]. pose proof (pow2_lt_two64 k). unfold is_u64. lia. }
  set (al2 := if al1 =? 0 then 64 else al1).
  assert (is_u64 al2) as Hal2 by (unfold al2; destruct (al1 =? 0); [unfold is_u64, two64; lia|done]).
  destruct (negb _) eqn:E2; [done|]. destruct (4096 <? al2) eqn:E3; [done|].
  destruct (_ && _); [done|]. destruct (align_up (req_size req) al2) as [up|] eqn:E4; [|done].
  intros [= <- <-]. bool_prop.
  destruct (align_up_facts _ _ _ Hsz Hal2 E4) as (Hpow & Hleast & _).
  assert (1 ≤ al2) as Hal2'.
  { destruct Hpow as (j & Hj & ->). pose proof (Z.pow_pos_nonneg 2 j). lia. }
  constructor; [unfold is_u64 in *; lia|done|done| |by eexists].
  destruct (round_up_least al2 (req_size req) ltac:(lia)) as (H1 & H2 & _).
  destruct Hleast as (_ & _ & Hmin). specialize (Hmin _ H1 H2).
  pose proof (Z.mul_div_le (req_size req + (al2 - 1)) al2 ltac:(lia)). lia.
Qed.

Lemma take_from_pool_fits req r n :
  yields (λ o, ∀ sl, o = Some sl → n ≤ slot_bytes sl) (take_from_pool req r n).
Proof.
  unfold take_from_pool. apply yields_bind. intros s0.
  destruct (_ && _); [|by apply yields_ret].
  apply (yields_bind_val (λ o, ∀ sl, o = Some sl → n ≤ slot_bytes sl)).
  - intros s1. rewrite pool_take_run. destruct (take_first _ _) as [[sl rest]|] eqn:E; [|done].
    apply take_first_Some in E as (? & ? & _ & _ & Hn & _). by intros ? [= <-].
  - intros [sl|] Hsl; apply yields_bind; intros; apply yields_ret; [|done]. naive_solver.
Qed.
Lemma fresh_backing_fits dom req n al :
  DomainContract dom → yields (λ x, ∀ a, x = Ok a → na_committed a = n) (fresh_backing dom req n al).
Proof.
  intros Hd. unfold fresh_backing.
  apply (yields_bind_val (λ x, ∀ a, x = Ok a → na_committed a = n)).
  - intros s a Ha. unfold on_machine in Ha. pose proof (dc_allocate n al (machine s) a) as Hc.
    destruct (IDomain.allocate dom n al (machine s)) as [x m]. simpl in *. by apply Hc.
  - intros [a|e] Ha; [|yields_tac; done]. apply yields_bind. intros [u|e]; [|yields_tac; done].
    apply yields_ret. naive_solver.
Qed.

(** The record of a successful allocation. *)
Record allocated_record (req : AllocationRequest) (al n : Z) (r : BufferRecord) : Prop := {
  al_req : rec_size r = req_size req ∧ rec_ns r = req_ns req ∧ rec_domain r = req_domain req
           ∧ rec_access r = req_access req ∧ rec_flags r = req_flags req ∧ rec_label r = req_label req;
  al_backing : rec_committed r = na_committed (rec_backing r) ∧ n ≤ rec_committed r;
  al_alignment : rec_alignment r = al;
  al_state : rec_state r = BufferState.ALLOCATED ∧ rec_generation r = 1
             ∧ rec_ownership r = Ownership.RUNTIME ∧ rec_map_count r = 0 }.

Lemma allocate_reserved_record dom req al n :
  DomainContract dom →
  yields (λ x, ∀ r, x = Ok r → allocated_record req al n r) (allocate_reserved dom req al n).
Proof.
  intros Hd. unfold allocate_reserved. apply yields_bind. intros i. apply yields_bind. intros ep.
  cbv zeta. eapply yields_bind_val; [apply take_from_pool_fits|]. intros slot Hslot.
  apply (yields_bind_val (λ x, ∀ a, x = Ok a → n ≤ na_committed a)).
  - destruct slot as [sl|]; [|intros s a Ha; by rewrite (fresh_backing_fits _ _ n al Hd s a Ha)].
    apply yields_ret. intros a [= <-]. by apply Hslot.
  - intros [a|e] Ha; [|by apply yields_ret]. apply yields_bind. intros [u|e]; [|by apply yields_ret].
    apply yields_bind. intros s0. apply yields_ret. intros r [= <-].
    constructor; simpl; split_and?; first [done | by apply Ha].
Qed.
(** A record is the work of [allocate_reserved], on a validated request. *)
Lemma allocate_record_ok req s r :
  (allocate_record req s).1 = Ok r →
  ∃ dom al n s', domain s (req_domain req) = Some dom ∧ validate_request s req = Ok (al, n)
    ∧ (allocate_reserved dom req al n s').1 = Ok r.
Proof.
  unfold allocate_record. rewrite bind_run. cbn [get fst snd]. destruct (closed_ s); [done|].
  destruct (validate_request s req) as [[al n]|e]; [|by rewrite bind_run].
  rewrite bind_run. destruct (reserve_count _ s) as [[u|e] s1]; cbn [fst snd]; [|by rewrite bind_run].
  rewrite bind_run. destruct (reserve_amount _ _ _ s1) as [[u2|e] s2]; cbn [fst snd]; [|by rewrite !bind_run].
  destruct (domain s (req_domain req)) as [dom|]; [|done]. intros Hr. by exists dom, al, n, s2.
Qed.
End allocation.
