(* ===== verification/Charges.v ===== *)
(** What the runtime's operations charge to a namespace: [charge] adds up their
    effect on the cells of the ledger, stage by stage through an allocation. *)
From S2P Require Import Prelude Types CheckedMath Platform HostBackend SharedBackend.
From S2P Require Import FileBackend CudaBackend Domain State Sim Ledger Pool Lifecycle Runtime.
From S2P Require Import Handle Facade SimRuntime Frames Allocation.

Lemma allocs_set_allocs ns v l ns' :
  allocs (set_allocs ns v l) ns' = if decide (ns = ns') then v else allocs l ns'.
Proof. unfold allocs. simpl. rewrite lookup_insert. by case_decide. Qed.
Lemma allocs_set_reserved n d v l ns' : allocs (set_reserved n d v l) ns' = allocs l ns'.
Proof. done. Qed.
Lemma allocs_set_committed n d v l ns' : allocs (set_committed n d v l) ns' = allocs l ns'.
Proof. done. Qed.
Lemma allocs_set_allocated n d v l ns' : allocs (set_allocated n d v l) ns' = allocs l ns'.
Proof. done. Qed.
Lemma allocs_set_idle d v l ns' : allocs (set_idle d v l) ns' = allocs l ns'.
Proof. done. Qed.
Lemma allocs_update_peak c l ns' : allocs (update_peak c l) ns' = allocs l ns'.
Proof. unfold update_peak. by destruct (_ <? _). Qed.
#[export] Hint Rewrite allocs_set_allocs allocs_set_reserved allocs_set_committed
  allocs_set_allocated allocs_set_idle allocs_update_peak : ledger.

Section charges.
Context {P : Platform}.
Implicit Types (s : RuntimeImpl) (l : Ledger).

(** [l'] is [l] with the cell of ([ns], [d]) changed by the given amounts: reserved,
    committed and allocated bytes, and the allocation count of [ns]. *)
Record charge (ns : Z) (d : MemoryDomain) (dr dc da dn : Z) (l l' : Ledger) : Prop := {
  ch_reserved ns' d' :
    reserved l' ns' d' = reserved l ns' d' + (if decide ((ns, d) = (ns', d')) then dr else 0);
  ch_committed ns' d' :
    committed l' ns' d' = committed l ns' d' + (if decide ((ns, d) = (ns', d')) then dc else 0);
  ch_allocated ns' d' :
    allocated l' ns' d' = allocated l ns' d' + (if decide ((ns, d) = (ns', d')) then da else 0);
  ch_allocs ns' : allocs l' ns' = allocs l ns' + (if decide (ns = ns') then dn else 0);
  ch_nss : nss_ l' = nss_ l }.

Lemma charge_refl ns d l : charge ns d 0 0 0 0 l l.
Proof. constructor; intros; try case_decide; lia || done. Qed.
Lemma charge_trans ns d a1 b1 c1 n1 a2 b2 c2 n2 l1 l2 l3 :
  charge ns d a1 b1 c1 n1 l1 l2 → charge ns d a2 b2 c2 n2 l2 l3 →
  charge ns d (a1 + a2) (b1 + b2) (c1 + c2) (n1 + n2) l1 l3.
Proof.
  intros [H1 H2 H3 H4 H5] [K1 K2 K3 K4 K5].
  constructor; intros; rewrite ?K1, ?K2, ?K3, ?K4, ?K5, ?H1, ?H2, ?H3, ?H4; try case_decide; lia || done.
Qed.
Lemma charge_eq ns d a b c n a' b' c' n' l l' :
  a = a' → b = b' → c = c' → n = n' → charge ns d a b c n l l' → charge ns d a' b' c' n' l l'.
Proof. by intros -> -> -> ->. Qed.

(** Cells small enough that no sum in them wraps around. *)
Record sane (ns : Z) (d : MemoryDomain) (l : Ledger) : Prop := {
  sane_reserved : 0 ≤ reserved l ns d < two62;
  sane_committed : 0 ≤ committed l ns d < two62;
  sane_allocated : 0 ≤ allocated l ns d < two62;
  sane_allocs : 0 ≤ allocs l ns < two62 }.

Ltac words := unfold is_u64, two64, two63, two62, two48 in *; lia.

Lemma charge_reserve_count ns d s :
  0 ≤ allocs (ledger s) ns < two62 →
  let r := reserve_count ns s in
  charge ns d 0 0 0 (if is_ok r.1 then 1 else 0) (ledger s) (ledger r.2).
Proof.
  intros Ha. cbv zeta. unfold reserve_count. rewrite bind_run. cbn [fst snd get]. cbv zeta.
  destruct (_ && _); [rewrite bind_run; apply charge_refl|]. rewrite bind_run. simpl.
  rewrite u64_small by words.
  constructor; intros; ledger_cells; try case_decide; lia || done.
Qed.
Lemma charge_release_count ns d s :
  0 < allocs (ledger s) ns → charge ns d 0 0 0 (-1) (ledger s) (ledger (release_count ns s).2).
Proof.
  intros Ha. unfold release_count. simpl. destruct (0 <? _) eqn:E; bool_prop; [|lia].
  constructor; intros; ledger_cells; try case_decide; lia || done.
Qed.
Lemma charge_reserve ns d n s :
  0 ≤ n < two62 → sane ns d (ledger s) →
  let r := reserve_amount ns d n s in
  charge ns d (if is_ok r.1 then n else 0) 0 0 0 (ledger s) (ledger r.2).
Proof.
  intros Hn [H1 H2 H3 H4]. cbv zeta. destruct (decide (n = 0)) as [->|Hn0].
  { change (reserve_amount ns d 0 s) with (ok_status, s). apply charge_refl. }
  destruct (reserve_amount_run ns d n s Hn0) as (cap & m & _ & ->).
  destruct (_ && _); [apply charge_refl|]. destruct (_ && _); [apply charge_refl|]. simpl.
  rewrite u64_small by words. constructor; intros; ledger_cells; try case_decide; lia || done.
Qed.
Lemma charge_unreserve ns d n s :
  0 ≤ n ≤ reserved (ledger s) ns d →
  charge ns d (- n) 0 0 0 (ledger s) (ledger (unreserve_amount ns d n s).2).
Proof.
  intros Hn. simpl. rewrite sat_sub_exact by lia.
  constructor; intros; ledger_cells; try case_decide; lia || done.
Qed.
Lemma charge_commit ns d n s :
  0 ≤ n ≤ reserved (ledger s) ns d → sane ns d (ledger s) →
  is_ok (commit_amount ns d n s).1 = true
  ∧ charge ns d (- n) n n 0 (ledger s) (ledger (commit_amount ns d n s).2).
Proof.
  intros Hn [H1 H2 H3 H4]. unfold commit_amount. rewrite bind_run. cbn [fst snd get]. cbv zeta.
  destruct (_ <? n) eqn:E; bool_prop; [lia|]. split; [done|]. simpl.
  rewrite (u64_small (committed _ _ _ + n)), (u64_small (allocated _ _ _ + n)) by words.
  constructor; intros; ledger_cells; try case_decide; lia || done.
Qed.
Lemma charge_checkout ns d n s :
  0 ≤ n < two62 → sane ns d (ledger s) →
  charge ns d 0 0 n 0 (ledger s) (ledger (checkout_amount ns d n s).2).
Proof.
  intros Hn [H1 H2 H3 H4]. simpl. rewrite u64_small by words.
  constructor; intros; ledger_cells; try case_decide; lia || done.
Qed.

(** Operations that leave the ledger alone. *)
Definition same_ledger s s' : Prop := ledger s' = ledger s.
#[export] Instance same_ledger_preorder : PreOrder same_ledger.
Proof. split; [done|]. unfold same_ledger. intros ? ? ? -> ->. done. Qed.
Lemma ledger_on_machine {A} (f : M Machine A) : preserves same_ledger (on_machine f).
Proof. intros s. unfold on_machine. by destruct (f (machine s)). Qed.
Lemma ledger_tick_by c n : preserves same_ledger (tick_by c n).
Proof. by intros s. Qed.
Lemma ledger_tick c : preserves same_ledger (tick c).
Proof. by intros s. Qed.
Lemma ledger_note e x : preserves same_ledger (note e x).
Proof. by intros s. Qed.
Lemma ledger_next_id : preserves same_ledger next_id.
Proof. by intros s. Qed.
Lemma ledger_pool_take k o n : preserves same_ledger (pool_take k o n).
Proof. intros s. rewrite pool_take_run. by destruct (take_first _ _) as [[]|]. Qed.
#[local] Hint Resolve ledger_on_machine ledger_tick_by ledger_tick ledger_note ledger_next_id
  ledger_pool_take : frames.
Lemma ledger_discard_with dom a : preserves same_ledger (discard_with dom a).
Proof. unfold discard_with. preserves_tac. Qed.
Lemma ledger_now_epoch : preserves same_ledger now_epoch_ms.
Proof. unfold now_epoch_ms. preserves_tac. Qed.
Lemma ledger_cap_for d : preserves same_ledger (cap_for d).
Proof. intros s. destruct (cap_for_frame d s) as (c & m & ->). done. Qed.
End charges.

#[export] Hint Resolve ledger_on_machine ledger_tick_by ledger_tick ledger_note ledger_next_id
  ledger_pool_take ledger_discard_with ledger_now_epoch : frames.

Ltac words := unfold is_u64, two64, two63, two62, two48 in *; lia.

Section allocation_charges.
Context {P : Platform}.
Implicit Types (s : RuntimeImpl) (l : Ledger).

Lemma charge_same ns d dr dc da dn s s' l :
  same_ledger s s' → charge ns d dr dc da dn l (ledger s) → charge ns d dr dc da dn l (ledger s').
Proof. by intros ->. Qed.
Lemma charge_from_same ns d dr dc da dn s s' l :
  same_ledger s s' → charge ns d dr dc da dn (ledger s') l → charge ns d dr dc da dn (ledger s) l.
Proof. by intros ->. Qed.
Lemma sane_same ns d s s' : same_ledger s s' → sane ns d (ledger s) → sane ns d (ledger s').
Proof. by intros ->. Qed.

(** Undoing a reservation and a counted allocation. *)
Lemma charge_rollback ns d n s :
  0 ≤ n ≤ reserved (ledger s) ns d → 0 < allocs (ledger s) ns →
  charge ns d (- n) 0 0 (-1) (ledger s) (ledger (release_count ns (unreserve_amount ns d n s).2).2).
Proof.
  intros Hn Ha. pose proof (charge_unreserve ns d n s Hn) as H1.
  eapply charge_eq; [| | | |eapply charge_trans; [exact H1|apply charge_release_count]]; try lia.
  rewrite (ch_allocs _ _ _ _ _ _ _ _ H1). case_decide; lia.
Qed.

Lemma charge_fresh_backing dom req n al s :
  DomainContract dom → 0 ≤ n ≤ reserved (ledger s) (req_ns req) (req_domain req) →
  sane (req_ns req) (req_domain req) (ledger s) → 0 < allocs (ledger s) (req_ns req) →
  let r := fresh_backing dom req n al s in
  charge (req_ns req) (req_domain req) (- n) (if is_ok r.1 then n else 0)
    (if is_ok r.1 then n else 0) (if is_ok r.1 then 0 else -1) (ledger s) (ledger r.2).
Proof.
  intros Hd Hn Hs Ha. cbv zeta. unfold fresh_backing. rewrite bind_run.
  pose proof (ledger_on_machine (IDomain.allocate dom n al) s) as Hsame.
  pose proof (λ x, dc_allocate n al (machine s) x) as Hval.
  assert ((on_machine (IDomain.allocate dom n al) s).1 = (IDomain.allocate dom n al (machine s)).1)
    as Hfst by (unfold on_machine; by destruct (IDomain.allocate dom n al (machine s))).
  destruct (on_machine (IDomain.allocate dom n al) s) as [[a|e] s1]; cbn [fst snd] in *;
    apply (charge_from_same _ _ _ _ _ _ s s1); try done.
  - destruct (Hval a) as (Hc & _); [done|]. rewrite bind_run, Hc.
    destruct (charge_commit (req_ns req) (req_domain req) n s1) as [Hok Hch];
      [by rewrite Hsame|by eapply sane_same|].
    destruct (commit_amount _ _ n s1) as [[u|e] s2]; [|done]. exact Hch.
  - rewrite !bind_run. cbn [ret fst snd is_ok]. apply charge_rollback; by rewrite Hsame.
Qed.

Lemma charge_take_from_pool req r n s :
  (∀ k sl, sl ∈ bucket (pool s) k → 0 ≤ slot_bytes sl < two62) →
  sane (req_ns req) (req_domain req) (ledger s) →
  let x := take_from_pool req r n s in
  charge (req_ns req) (req_domain req) 0 0
    (match x.1 with Some sl => slot_bytes sl | None => 0 end) 0 (ledger s) (ledger x.2).
Proof.
  intros Hp Hs. cbv zeta. unfold take_from_pool. rewrite bind_run. cbn [fst snd get].
  destruct (_ && _); [|apply charge_refl]. rewrite bind_run.
  set (key := make_pool_key (cfg s) r). rewrite pool_take_run.
  destruct (take_first n _) as [[sl rest]|] eqn:E; cbn [fst snd].
  - rewrite bind_run. cbn [ret fst snd]. set (s1 := (tick pool_hits _).2).
    assert (same_ledger s s1) as Hsame by done.
    apply (charge_from_same _ _ _ _ _ _ s s1 _ Hsame). apply charge_checkout; [|by eapply sane_same].
    apply (Hp key). apply take_first_Some in E as (l1 & l2 & -> & _). set_solver.
  - rewrite bind_run. apply charge_refl.
Qed.

Lemma take_from_pool_slot req r n s sl :
  (take_from_pool req r n s).1 = Some sl → ∃ k, sl ∈ bucket (pool s) k.
Proof.
  unfold take_from_pool. rewrite bind_run. cbn [fst snd get].
  destruct (_ && _); [|done]. rewrite bind_run, pool_take_run.
  destruct (take_first n _) as [[sl' rest]|] eqn:E; cbn [fst snd]; rewrite bind_run; [|done].
  intros [= <-]. apply take_first_Some in E as (l1 & l2 & E & _). eexists. rewrite E. set_solver.
Qed.
Lemma take_from_pool_none req r n s :
  (take_from_pool req r n s).1 = None → same_ledger s (take_from_pool req r n s).2.
Proof.
  unfold take_from_pool. rewrite bind_run. cbn [fst snd get].
  destruct (_ && _); [|done]. rewrite bind_run, pool_take_run.
  destruct (take_first n _) as [[sl rest]|] eqn:E; cbn [fst snd]; rewrite bind_run; done.
Qed.

Lemma zero_backing_ok_ledger dom req n a sl s :
  is_ok (zero_backing dom req n a sl s).1 = true →
  ledger (zero_backing dom req n a sl s).2 = ledger s.
Proof.
  unfold zero_backing. rewrite bind_run. cbn [fst snd get]. destruct (wants_zero _ _ _); [|done].
  rewrite bind_run. pose proof (ledger_on_machine (IDomain.zero dom a 0 (na_committed a)) s) as Hm.
  destruct (on_machine _ s) as [[u|e] s1]; cbn [fst snd] in *.
  - rewrite bind_run. cbn [ret fst snd]. intros _. exact Hm.
  - rewrite !bind_run. done.
Qed.
(** The zeroing policy of the request never asks for zeroing. *)
Definition never_zeroes s (req : AllocationRequest) : Prop :=
  ∀ lo, wants_zero (effective_policy s req) lo (req_ns req) = false.
(** A domain on which zeroing a whole backing cannot fail. *)
Definition zero_total (dom : IDomain) : Prop :=
  ∀ a m, is_u64 (na_committed a) → is_ok (IDomain.zero dom a 0 (na_committed a) m).1 = true.
Definition zeroing_safe s (req : AllocationRequest) : Prop :=
  never_zeroes s req ∨ ∀ dom, domain s (req_domain req) = Some dom → zero_total dom.
Lemma out_of_span_whole a : is_u64 (na_committed a) → out_of_span a 0 (na_committed a) = false.
Proof.
  intros Ha. unfold out_of_span. rewrite Z.sub_0_r, u64_small by done.
  unfold is_u64 in Ha. destruct (_ <? 0) eqn:E1, (_ <? na_committed a) eqn:E2; bool_prop; lia.
Qed.
Lemma host_zero_total h : zero_total (host_domain h).
Proof. intros a m Ha. simpl. unfold host_zero. by rewrite out_of_span_whole. Qed.
Lemma shared_zero_total d : zero_total (shared_domain d).
Proof. intros a m Ha. simpl. unfold shared_zero. by rewrite out_of_span_whole. Qed.
Lemma file_zero_total d : zero_total (file_domain d).
Proof. intros a m Ha. simpl. unfold file_zero. by rewrite out_of_span_whole. Qed.
Lemma pinned_zero_total : zero_total cuda_pinned_domain.
Proof. intros a m Ha. simpl. unfold cuda_pinned_zero. by rewrite out_of_span_whole. Qed.
Lemma effective_policy_nss s s' req :
  nss_ (ledger s') = nss_ (ledger s) → effective_policy s' req = effective_policy s req.
Proof. intros Hn. unfold effective_policy, namespace_info. by rewrite Hn. Qed.
Lemma zero_backing_safe dom req n a sl s s0 :
  nss_ (ledger s) = nss_ (ledger s0) → never_zeroes s0 req ∨ zero_total dom → is_u64 (na_committed a) →
  is_ok (zero_backing dom req n a sl s).1 = true.
Proof.
  intros Hn Hz Ha. unfold zero_backing. rewrite bind_run. cbn [fst snd get].
  rewrite (effective_policy_nss s0 s) by done.
  destruct (wants_zero _ _ _) eqn:E; [|done]. destruct Hz as [Hz|Hz]; [by rewrite Hz in E|].
  rewrite bind_run. unfold on_machine. specialize (Hz a (machine s) Ha).
  destruct (IDomain.zero dom a 0 (na_committed a) (machine s)) as [[u|e] m]; [done|discriminate].
Qed.

Lemma charge_allocate_reserved dom req al n s :
  DomainContract dom → (∀ k sl, sl ∈ bucket (pool s) k → 0 ≤ slot_bytes sl < two62) →
  0 ≤ n ≤ reserved (ledger s) (req_ns req) (req_domain req) →
  sane (req_ns req) (req_domain req) (ledger s) → 0 < allocs (ledger s) (req_ns req) →
  let x := allocate_reserved dom req al n s in
  let ns := req_ns req in let d := req_domain req in
  match x.1 with
  | Ok r => if rec_pooled r
            then charge ns d 0 0 (rec_committed r) 0 (ledger s) (ledger x.2)
            else rec_committed r = n ∧ charge ns d (- n) n n 0 (ledger s) (ledger x.2)
  | Fail _ => never_zeroes s req ∨ zero_total dom →
      charge ns d (- n) 0 0 (-1) (ledger s) (ledger x.2)
  end.
Proof.
  intros Hd Hp Hn Hs Ha. cbv zeta. unfold allocate_reserved. rewrite 3!bind_run. cbv zeta.
  set (i := (next_id s).1). set (s1 := (next_id s).2). set (ep := (now_epoch_ms s1).1).
  set (s2 := (now_epoch_ms s1).2).
  assert (same_ledger s s2) as H2 by (etransitivity; [apply (ledger_next_id s)|apply ledger_now_epoch]).
  assert (pool s2 = pool s) as Hpool.
  { unfold s2, now_epoch_ms. rewrite bind_run. cbn [ret snd].
    by rewrite (pf_pool _ _ (on_machine_pool (syscall system_clock_ms) s1)). }
  set (r0 := fresh_record dom req i al ep).
  pose proof (charge_take_from_pool req r0 n s2) as H3. cbv zeta in H3. rewrite Hpool in H3.
  specialize (H3 Hp (sane_same _ _ _ _ H2 Hs)).
  destruct (take_from_pool req r0 n s2) as [[sl|] s3] eqn:E3; cbn [fst snd] in *.
  - (* from the pool *)
    rewrite bind_run. cbn [ret fst snd]. rewrite bind_run.
    pose proof (zero_backing_ok_ledger dom req n (slot_backing sl) (Some sl) s3) as Hz.
    destruct (zero_backing _ _ _ _ _ s3) as [[u|e] s4] eqn:Ez; cbn [fst snd] in *.
    + rewrite bind_run. cbn [get ret fst snd attach_backing rec_pooled rec_committed].
      rewrite Hz by done. by apply (charge_from_same _ _ _ _ _ _ s s2).
    + intros Hnz. exfalso.
      pose proof (zero_backing_safe dom req n (slot_backing sl) (Some sl) s3 s) as Hok.
      rewrite Ez in Hok. discriminate Hok; [|done|].
      * rewrite (ch_nss _ _ _ _ _ _ _ _ H3). by rewrite H2.
      * pose proof (take_from_pool_slot req r0 n s2 sl) as Hsl. rewrite E3, Hpool in Hsl.
        destruct (Hsl eq_refl) as [k Hk]. specialize (Hp k sl Hk).
        unfold slot_bytes in Hp. words.
  - (* a fresh backing *)
    assert (same_ledger s s3) as H3s.
    { transitivity s2; [exact H2|]. pose proof (take_from_pool_none req r0 n s2) as Hno.
      rewrite E3 in Hno. by apply Hno. }
    pose proof (charge_fresh_backing dom req n al s3 Hd) as Hf. cbv zeta in Hf.
    rewrite H3s in Hf. specialize (Hf Hn Hs Ha). rewrite bind_run.
    destruct (fresh_backing dom req n al s3) as [[a|e] s4] eqn:Ef; cbn [fst snd is_ok] in *; [|by intros _].
    rewrite bind_run.
    pose proof (zero_backing_ok_ledger dom req n a None s4) as Hz.
    destruct (zero_backing _ _ _ _ _ s4) as [[u|e] s5] eqn:Ez; cbn [fst snd] in *.
    + rewrite bind_run. cbn [get ret fst snd attach_backing rec_pooled rec_committed].
      rewrite Hz by done. split; [|done].
      pose proof (fresh_backing_fits dom req n al Hd s3 a) as Hfit. rewrite Ef in Hfit. by apply Hfit.
    + intros Hnz. exfalso. pose proof (zero_backing_safe dom req n a None s4 s) as Hok.
      rewrite Ez in Hok. discriminate Hok; [by rewrite (ch_nss _ _ _ _ _ _ _ _ Hf)|done|].
      pose proof (fresh_backing_fits dom req n al Hd s3 a) as Hfit. rewrite Ef in Hfit.
      rewrite Hfit by done. destruct Hs. words.
Qed.
(** The pool and the cells an allocation reads are within the range of a [uint64_t]
    with room to spare, and the members of the request are 64-bit words. *)
Record accountable s (req : AllocationRequest) : Prop := {
  ac_domains : domains_ok s;
  ac_size : is_u64 (req_size req);
  ac_al : is_u64 (req_alignment req);
  ac_pool : ∀ k sl, sl ∈ bucket (pool s) k → 0 ≤ slot_bytes sl < two62;
  ac_reserved : 0 ≤ reserved (ledger s) (req_ns req) (req_domain req) < two62 - two49;
  ac_committed : 0 ≤ committed (ledger s) (req_ns req) (req_domain req) < two62;
  ac_allocated : 0 ≤ allocated (ledger s) (req_ns req) (req_domain req) < two62;
  ac_allocs : 0 ≤ allocs (ledger s) (req_ns req) < two62 - 1 }.

Lemma same_pool_reserve ns d n s :
  pool (reserve_amount ns d n (reserve_count ns s).2).2 = pool s.
Proof.
  assert (pool (reserve_count ns s).2 = pool s) as <-.
  { unfold reserve_count. rewrite bind_run. cbn [get fst snd]. cbv zeta.
    destruct (_ && _); by rewrite bind_run. }
  generalize (reserve_count ns s).2. intros s0. destruct (decide (n = 0)) as [->|Hn]; [done|].
  destruct (reserve_amount_run ns d n s0 Hn) as (cap & m & _ & ->).
  by destruct (_ && _); [|destruct (_ && _)].
Qed.

(** The accounting of [allocate_record], on every branch. *)
Lemma charge_allocate_record req s :
  accountable s req →
  let x := allocate_record req s in
  let ns := req_ns req in let d := req_domain req in
  match x.1 with
  | Ok r => ∃ al n, validated s req al n ∧
      (if rec_pooled r
       then charge ns d n 0 (rec_committed r) 1 (ledger s) (ledger x.2)
       else rec_committed r = n ∧ charge ns d 0 n n 1 (ledger s) (ledger x.2))
  | Fail _ => zeroing_safe s req → charge ns d 0 0 0 0 (ledger s) (ledger x.2)
  end.
Proof.
  intros [Hd Hsz Hal Hp Hr Hc Ht Ha]. cbv zeta. unfold allocate_record.
  rewrite bind_run. cbn [get fst snd]. destruct (closed_ s); [intros _; apply charge_refl|].
  destruct (validate_request s req) as [[al n]|e] eqn:Hv;
    [|rewrite bind_run; intros _; apply charge_refl].
  pose proof (validate_request_ok s req al n Hd Hsz Hal Hv) as Hva.
  assert (0 ≤ n < two49) as Hn.
  { destruct Hva as [? ? (? & ? & ?) ? ?]. unfold two49, two48 in *. lia. }
  set (ns := req_ns req) in *. set (d := req_domain req) in *. rewrite bind_run.
  pose proof (charge_reserve_count ns d s ltac:(lia)) as H1. cbv zeta in H1.
  pose proof (same_pool_reserve ns d n s) as Hpool.
  destruct (reserve_count ns s) as [[u|e] s1]; cbn [fst snd is_ok] in *;
    [|rewrite bind_run; intros _; exact H1].
  rewrite bind_run.
  assert (sane ns d (ledger s1)) as Hsane1.
  { pose proof (ch_reserved _ _ _ _ _ _ _ _ H1 ns d). pose proof (ch_committed _ _ _ _ _ _ _ _ H1 ns d).
    pose proof (ch_allocated _ _ _ _ _ _ _ _ H1 ns d). pose proof (ch_allocs _ _ _ _ _ _ _ _ H1 ns).
    case_decide; [|done]. case_decide; [|done]. unfold two49 in *. constructor; lia. }
  pose proof (charge_reserve ns d n s1 ltac:(unfold two49, two62 in *; lia) Hsane1) as H2. cbv zeta in H2.
  pose proof (charge_trans _ _ _ _ _ _ _ _ _ _ _ _ _ H1 H2) as H12.
  assert (allocs (ledger (reserve_amount ns d n s1).2) ns = allocs (ledger s) ns + 1) as Hcnt.
  { rewrite (ch_allocs _ _ _ _ _ _ _ _ H12). case_decide; [lia|done]. }
  destruct (reserve_amount ns d n s1) as [[u2|e] s2]; cbn [fst snd is_ok] in *.
  - destruct (va_dom _ _ _ _ Hva) as [dom Hdom]. fold d in Hdom. rewrite Hdom.
    destruct (Hd _ _ Hdom) as [Hcontract _].
    assert (reserved (ledger s2) ns d = reserved (ledger s) ns d + n) as Hres.
    { rewrite (ch_reserved _ _ _ _ _ _ _ _ H12). case_decide; [lia|done]. }
    assert (sane ns d (ledger s2)) as Hsane2.
    { pose proof (ch_committed _ _ _ _ _ _ _ _ H12 ns d). pose proof (ch_allocated _ _ _ _ _ _ _ _ H12 ns d).
      case_decide; [|done]. unfold two49 in *. constructor; lia. }
    pose proof (charge_allocate_reserved dom req al n s2 Hcontract) as H3. cbv zeta in H3.
    fold ns d in H3. rewrite Hpool in H3. specialize (H3 Hp ltac:(lia) Hsane2 ltac:(lia)).
    destruct (allocate_reserved dom req al n s2) as [[r|e] s3]; cbn [fst snd] in *.
    + exists al, n. split; [done|].
      destruct (rec_pooled r); [|destruct H3 as [Hrn H3]; split; [done|]];
        (eapply charge_eq; [| | | |eapply charge_trans; [exact H12|exact H3]]); lia.
    + intros Hz. eapply charge_eq; [| | | |eapply charge_trans; [exact H12|apply H3]]; try lia.
      destruct Hz as [Hz|Hz]; [left|by right; apply Hz].
      intros lo. rewrite (effective_policy_nss s s2); [apply Hz|].
      apply (ch_nss _ _ _ _ _ _ _ _ H12).
  - rewrite !bind_run. intros _. cbn [ret fst snd].
    eapply charge_eq; [| | | |eapply charge_trans; [exact H12|apply (charge_release_count ns d)]]; lia.
Qed.
End allocation_charges.

(** ** Properties *)
Section allocation_properties.
Context {P : Platform}.
Implicit Types s : RuntimeImpl.

(** C29: a successful allocation gives a record that serves the request: its size,
    namespace, domain, access mode, flags and label are the requested ones; its
    alignment is a power of two up to 4096; its backing has at least the requested
    size rounded up to that alignment; it starts [ALLOCATED], in generation 1,
    owned by the runtime, with no map. *)
Theorem allocation_serves_request req s r :
  domains_ok s → is_u64 (req_size req) → is_u64 (req_alignment req) →
  (allocate_record req s).1 = Ok r →
  ∃ al n, validate_request s req = Ok (al, n) ∧ validated s req al n
          ∧ allocated_record req al n r ∧ req_size req ≤ rec_committed r.
Proof.
  intros Hd Hsz Hal Hr. destruct (allocate_record_ok req s r Hr) as (dom & al & n & s' & Hdom & Hv & Hr').
  pose proof (validate_request_ok s req al n Hd Hsz Hal Hv) as Hva. destruct (Hd _ _ Hdom) as [Hc _].
  pose proof (allocate_reserved_record dom req al n Hc s' r Hr') as Hrec.
  exists al, n. split_and!; [done..|].
  destruct Hrec as [_ [_ Hn] _ _], Hva as [_ _ (_ & Hm & _) _ _]. lia.
Qed.

(** An allocation with a fresh backing charges its namespace exactly once: the
    rounded size, which is what the backing commits, moves to committed and
    allocated bytes, the reservation it made is gone, and the namespace has one more allocation; no other namespace or
    domain is charged. *)
Theorem fresh_allocation_charged_once req s r :
  accountable s req → (allocate_record req s).1 = Ok r → rec_pooled r = false →
  ∃ al n, validated s req al n ∧ rec_committed r = n
    ∧ charge (req_ns req) (req_domain req) 0 n n 1 (ledger s) (ledger (allocate_record req s).2).
Proof.
  intros Ha Hr Hp. pose proof (charge_allocate_record req s Ha) as H. cbv zeta in H.
  rewrite Hr, Hp in H. exact H.
Qed.

(** An allocation served from the pool never returns its reservation: the
    rounded size stays in the reserved bytes of the namespace for good, beside the
    bytes of the slot that are checked out. *)
Theorem pool_hit_keeps_reservation req s r :
  accountable s req → (allocate_record req s).1 = Ok r → rec_pooled r = true →
  ∃ al n, validated s req al n
    ∧ charge (req_ns req) (req_domain req) n 0 (rec_committed r) 1
        (ledger s) (ledger (allocate_record req s).2).
Proof.
  intros Ha Hr Hp. pose proof (charge_allocate_record req s Ha) as H. cbv zeta in H.
  rewrite Hr, Hp in H. exact H.
Qed.

(** C30: a failed allocation charges nothing: whichever step fails (closed runtime,
    invalid request, quota, capacity, backend), every counter of every namespace
    and domain is as before.  The one failure left out is that of the zeroing of
    the backing, which the zeroing policy in force has to ask for and which cannot
    fail on the domains the CPU addresses. *)
Theorem failed_allocation_charges_nothing req s e :
  accountable s req → zeroing_safe s req → (allocate_record req s).1 = Fail e →
  charge (req_ns req) (req_domain req) 0 0 0 0 (ledger s) (ledger (allocate_record req s).2).
Proof.
  intros Ha Hz He. pose proof (charge_allocate_record req s Ha) as H. cbv zeta in H.
  rewrite He in H. by apply H.
Qed.
End allocation_properties.

(** ** Witnesses *)
Lemma domains_ok_same `{Platform} s s' : backends s' = backends s → domains_ok s → domains_ok s'.
Proof. intros Hb Hd d dom. unfold domain. rewrite Hb. apply Hd. Qed.

(** A state is [accountable] as soon as a computation says so. *)
Definition accountable_b `{Platform} (s : RuntimeImpl) (req : AllocationRequest) : bool :=
  let ok z b := bool_decide (0 ≤ z < b) in
  ok (req_size req) two64 && ok (req_alignment req) two64
  && bool_decide (map_Forall (λ _ b, Forall (λ sl, 0 ≤ slot_bytes sl < two62) b) (pool_ (pool s)))
  && ok (reserved (ledger s) (req_ns req) (req_domain req)) (two62 - two49)
  && ok (committed (ledger s) (req_ns req) (req_domain req)) two62
  && ok (allocated (ledger s) (req_ns req) (req_domain req)) two62
  && ok (allocs (ledger s) (req_ns req)) (two62 - 1).
Lemma accountable_b_ok `{Platform} s req :
  domains_ok s → accountable_b s req = true → accountable s req.
Proof.
  intros Hd. unfold accountable_b. cbv zeta. rewrite !andb_true_iff, !bool_decide_eq_true.
  intros ((((((? & ?) & Hp) & ?) & ?) & ?) & ?). constructor; try done.
  intros k sl Hsl. unfold bucket in Hsl.
  destruct (pool_ (pool s) !! k) as [b|] eqn:E; simpl in Hsl; [|by apply not_elem_of_nil in Hsl].
  specialize (Hp k b E). rewrite Forall_forall in Hp. by apply Hp.
Qed.

(** The pool of [sim_idle] holds the backing of a released buffer. *)
Definition sim_idle : RuntimeImpl := (finalize 0 true
  ((let! r := allocate_record sim_request in
    register_control (value_or r BufferRecord_default) ;;; ret tt) sim_runtime).2).2.
Lemma sim_domains_ok s : backends s = backends sim_runtime → domains_ok s.
Proof. intros Hb. apply (domains_ok_same sim_runtime); [done|]. apply RuntimeImpl_new_domains. Qed.
Lemma sim_accountable req : accountable_b sim_runtime req = true → accountable sim_runtime req.
Proof. apply accountable_b_ok, sim_domains_ok. done. Qed.
Lemma sim_idle_backends : backends sim_idle = backends sim_runtime.
Proof. reflexivity. Qed.

Lemma allocation_serves_request_witness :
  ∃ r al n, (allocate_record sim_request sim_runtime).1 = Ok r ∧ allocated_record sim_request al n r.
Proof.
  assert (is_ok (allocate_record sim_request sim_runtime).1 = true) as Hok by by vm_compute.
  destruct (allocate_record sim_request sim_runtime).1 as [r|e] eqn:E; [|done].
  destruct (allocation_serves_request sim_request sim_runtime r) as (al & n & _ & _ & H & _).
  - by apply sim_domains_ok.
  - by vm_compute.
  - by vm_compute.
  - exact E.
  - by exists r, al, n.
Defined.

(** The reserved and committed bytes of the default namespace on the host. *)
Definition host_cells (l : Ledger) : Z * Z :=
  (reserved l kDefaultNamespace MemoryDomain.HOST, committed l kDefaultNamespace MemoryDomain.HOST).
Lemma charge_host_cells dr dc da dn l l' :
  charge kDefaultNamespace MemoryDomain.HOST dr dc da dn l l' →
  host_cells l' = ((host_cells l).1 + dr, (host_cells l).2 + dc).
Proof.
  intros [H1 H2 _ _ _]. unfold host_cells. by rewrite H1, H2, !decide_True by done.
Qed.

Lemma fresh_allocation_charged_once_witness :
  ∃ n, 5000 ≤ n ∧ host_cells (ledger (allocate_record sim_request sim_runtime).2) = (0, n).
Proof.
  assert (bool_decide (rec_pooled <$> result_option (allocate_record sim_request sim_runtime).1
                       = Some false) = true) as Hok by by vm_compute.
  destruct (allocate_record sim_request sim_runtime).1 as [r|e] eqn:E; [|done].
  destruct (fresh_allocation_charged_once sim_request sim_runtime r) as (al & n & Hv & _ & Hc).
  - by apply sim_accountable.
  - exact E.
  - apply bool_decide_eq_true in Hok. by injection Hok.
  - exists n. split; [by destruct Hv as [_ _ (_ & ? & _) _ _]|].
    by rewrite (charge_host_cells _ _ _ _ _ _ Hc).
Defined.

Lemma sim_idle_cells : host_cells (ledger sim_idle) = (0, 5056).
Proof. vm_compute. reflexivity. Qed.
Lemma pool_hit_keeps_reservation_witness :
  ∃ n, 5000 ≤ n ∧ host_cells (ledger sim_idle) = (0, 5056)
       ∧ host_cells (ledger (allocate_record sim_request sim_idle).2) = (n, 5056).
Proof.
  assert (bool_decide (rec_pooled <$> result_option (allocate_record sim_request sim_idle).1
                       = Some true) = true) as Hok by by vm_compute.
  destruct (allocate_record sim_request sim_idle).1 as [r|e] eqn:E; [|done].
  destruct (pool_hit_keeps_reservation sim_request sim_idle r) as (al & n & Hv & Hc).
  - apply accountable_b_ok; [by apply sim_domains_ok, sim_idle_backends|by vm_compute].
  - exact E.
  - apply bool_decide_eq_true in Hok. by injection Hok.
  - exists n. split_and!; [by destruct Hv as [_ _ (_ & ? & _) _ _]|exact sim_idle_cells|].
    by rewrite (charge_host_cells _ _ _ _ _ _ Hc), sim_idle_cells.
Defined.

(** A request of more than 2^48 bytes. *)
Definition huge_request : AllocationRequest := sim_request_for MemoryDomain.HOST (two48 + 1) false.
Lemma failed_allocation_charges_nothing_witness :
  ∃ e, (allocate_record huge_request sim_runtime).1 = Fail e
       ∧ host_cells (ledger (allocate_record huge_request sim_runtime).2) = (0, 0).
Proof.
  eexists. split; [vm_compute; reflexivity|].
  refine (charge_host_cells 0 0 0 0 (ledger sim_runtime) _ _).
  eapply (failed_allocation_charges_nothing huge_request sim_runtime).
  - apply sim_accountable. vm_compute. reflexivity.
  - right. intros dom [= <-]. apply host_zero_total.
  - vm_compute. reflexivity.
Defined.
