(* ===== verification/Backing.v ===== *)
(** The backends own what they hand out.  [resources d a] are the operating-system
    resources behind an allocation of domain [d], [OwnedDomain] is the promise of a
    domain to the runtime: a failed call keeps nothing, a successful allocation holds
    exactly its resources, freeing gives exactly those back.  Each of the five
    backends keeps it, on every error path. *)
From S2P Require Import Prelude Types Platform Resources HostBackend SharedBackend FileBackend.
From S2P Require Import CudaBackend State Ledger Pool Domain Runtime Charges Sim.

Definition resources (d : MemoryDomain) (a : NativeAllocation) : list Resource :=
  match d with
  | MemoryDomain.HOST => [RHeap (na_pointer a) (na_committed a)]
  | MemoryDomain.PINNED_HOST => [RPinned (na_pointer a) (na_committed a)]
  | MemoryDomain.DEVICE => [RDevice (na_pointer a) (na_committed a)]
  | MemoryDomain.SHARED_HOST =>
      match na_state a with Some (SharedState n h v _) => [RView v n; RHandle h] | _ => [] end
  | MemoryDomain.MMAP_STORAGE =>
      match na_state a with
      | Some (FileState n _ f m v) => [RView v n; RHandle m; RHandle f]
      | _ => []
      end
  end.

(** The shape of a live allocation of domain [d]. *)
Definition fits `{P : Platform} (d : MemoryDomain) (a : NativeAllocation) : Prop :=
  na_pointer a ≠ 0 ∧ is_u64 (na_committed a)
  ∧ match d with
    | MemoryDomain.HOST | MemoryDomain.PINNED_HOST =>
        na_host_map a = na_pointer a ∧ na_state a = None
    | MemoryDomain.DEVICE => na_host_map a = 0 ∧ na_state a = None
    | MemoryDomain.SHARED_HOST =>
        win32 = true ∧ na_host_map a = na_pointer a
        ∧ ∃ h name, na_state a = Some (SharedState (na_committed a) h (na_pointer a) name) ∧ h ≠ 0
    | MemoryDomain.MMAP_STORAGE =>
        win32 = true ∧ na_host_map a = na_pointer a
        ∧ ∃ path f m, na_state a = Some (FileState (na_committed a) path f m (na_pointer a))
                      ∧ f ≠ 0 ∧ m ≠ 0
    end.

(** What an allocating call holds when it returns. *)
Definition held_result (d : MemoryDomain) (r : Result NativeAllocation) : list Resource :=
  match r with Ok a => resources d a | Fail _ => [] end.
Definition fits_result `{P : Platform} (d : MemoryDomain) (r : Result NativeAllocation) : Prop :=
  match r with Ok a => fits d a | Fail _ => True end.

Section backing.
Context {P : Platform} {O : OsResources P}.

Class OwnedDomain (d : MemoryDomain) (dom : IDomain) : Prop := {
  od_allocate n al :
    is_u64 n → triple m_holds [] (IDomain.allocate dom n al) (fits_result d) (held_result d);
  od_import nm n al :
    is_u64 n → triple m_holds [] (IDomain.import_handle dom nm n al) (fits_result d) (held_result d);
  od_free a :
    fits d a →
    triple m_holds (resources d a) (IDomain.free dom a) (λ r, na_state r.2 = None) (λ _, []);
  od_zero a m :
    d ≠ MemoryDomain.DEVICE → fits d a →
    is_ok (IDomain.zero dom a 0 (na_committed a) m).1 = true;
  od_zero_keeps a n :
    fits d a → is_u64 n →
    triple m_holds (resources d a) (IDomain.zero dom a 0 n) (λ _, True) (λ _, resources d a);
  od_verify_keeps a n :
    fits d a → is_u64 n →
    triple m_holds (resources d a) (IDomain.verify dom a 0 n) (λ _, True) (λ _, resources d a);
  od_verify_inert a o n :
    d ≠ MemoryDomain.DEVICE → preserves (inert_on m_holds) (IDomain.verify dom a o n);
  od_map_inert a acc : preserves (inert_on m_holds) (IDomain.map dom a acc);
  od_unmap_inert a p : preserves (inert_on m_holds) (IDomain.unmap dom a p);
  od_capacity_inert : preserves (inert_on m_holds) (IDomain.capacity dom);
  od_export_inert a : preserves (inert_on m_holds) (IDomain.export_handle dom a);
  od_destroy_inert : preserves (inert_on m_holds) (IDomain.destroy dom) }.

(** ** Closing what a backend object holds *)

Lemma triple_close h : h ≠ 0 →
  triple m_holds [RHandle h] (if h =? 0 then ret tt else syscall (CloseHandle h)) (λ _, True) (λ _, []).
Proof. intros Hh. rewrite (proj2 (Z.eqb_neq _ _) Hh). apply triple_syscall, os_close. Qed.
Lemma triple_unmap p n : p ≠ 0 →
  triple m_holds [RView p n] (if p =? 0 then ret tt else syscall (UnmapViewOfFile p))
    (λ _, True) (λ _, []).
Proof. intros Hp. rewrite (proj2 (Z.eqb_neq _ _) Hp). apply triple_syscall, os_unmap. Qed.
Lemma triple_shared_dtor n h p nm : h ≠ 0 → p ≠ 0 →
  triple m_holds [RView p n; RHandle h] (shared_state_dtor (Some (SharedState n h p nm)))
    (λ _, True) (λ _, []).
Proof.
  intros Hh Hp. apply (triple_step _ [RView p n] [RHandle h] _ _ _ _ _ _ (triple_unmap p n Hp)).
  intros _ _. by apply triple_close.
Qed.
Lemma triple_file_dtor n path f m p : f ≠ 0 → m ≠ 0 → p ≠ 0 →
  triple m_holds [RView p n; RHandle m; RHandle f] (file_state_dtor (Some (FileState n path f m p)))
    (λ _, True) (λ _, []).
Proof.
  intros Hf Hm Hp.
  apply (triple_step _ [RView p n] [RHandle m; RHandle f] _ _ _ _ _ _ (triple_unmap p n Hp)).
  intros _ _. apply (triple_step _ [RHandle m] [RHandle f] _ _ _ _ _ _ (triple_close m Hm)).
  intros _ _. by apply triple_close.
Qed.
(** An allocation without a backend object has nothing to drop. *)
Lemma drop_nothing a : na_state a = None → preserves (inert_on m_holds) (drop_state a).
Proof. intros Ha. unfold drop_state. rewrite Ha. simpl. preserves_tac. Qed.
(** The domains with a backend object give everything back in its destructor. *)
Lemma triple_drop_state d a :
  fits d a → d = MemoryDomain.SHARED_HOST ∨ d = MemoryDomain.MMAP_STORAGE →
  triple m_holds (resources d a) (drop_state a) (λ _, True) (λ _, []).
Proof.
  intros (Hp & _ & Hfit) [-> | ->]; unfold drop_state; simpl in *.
  - destruct Hfit as (_ & _ & h & nm & -> & Hh).
    eapply triple_bind; [by apply triple_shared_dtor|]. intros ? _. by apply triple_ret.
  - destruct Hfit as (_ & _ & path & f & m & -> & Hf & Hm).
    eapply (triple_inert_bind _ _ (ret tt)); [apply preserves_ret, _|]. intros _.
    by apply triple_file_dtor.
Qed.
Lemma triple_discard_with d dom a :
  OwnedDomain d dom → fits d a →
  triple m_holds (resources d a) (let! r := IDomain.free dom a in drop_state r.2) (λ _, True) (λ _, []).
Proof.
  intros Hd Ha. eapply triple_bind; [by apply od_free|]. intros r Hr.
  by apply triple_inert, drop_nothing.
Qed.

(** Clearing writes to the allocation alone. *)
Lemma triple_clear {A} a r fr q n (f : M Machine A) (x : A) :
  extent r = Some (na_pointer a, na_committed a) → q = na_pointer a → is_u64 n → is_u64 (na_committed a) →
  (out_of_span a 0 n = false → writes_to f (q + 0) n) →
  triple m_holds (r :: fr) (if out_of_span a 0 n then ret x else f) (λ _, True) (λ _, r :: fr).
Proof.
  intros Hr -> Hn Ha Hf. destruct (out_of_span a 0 n) eqn:Hs; [by apply triple_ret|].
  eapply triple_writes; [by apply Hf|exact Hr|lia|].
  apply out_of_span_spec in Hs; [lia|done|by unfold is_u64|done].
Qed.
Lemma writes_memset p v n : writes_to (modify (set_mem (memset p v n)) ;;; ret ok_status) p n.
Proof.
  apply writes_bind; [apply writes_set_mem; intros; by apply memset_out|]. intros _.
  apply writes_inert, preserves_ret, _.
Qed.

(** A live allocation has a resource that spans its whole block. *)
Lemma fits_extent d a :
  fits d a → ∃ r rest, resources d a = r :: rest ∧ extent r = Some (na_pointer a, na_committed a).
Proof.
  intros (_ & _ & Hfit). destruct d; simpl in *.
  - eauto.
  - eauto.
  - eauto.
  - destruct Hfit as (_ & _ & h & nm & -> & _). eauto.
  - destruct Hfit as (_ & _ & path & f & m & -> & _). eauto.
Qed.
Lemma fits_within d a r x :
  fits d a → r ∈ resources d a → within r x → na_pointer a ≤ x < na_pointer a + na_committed a.
Proof.
  intros (_ & _ & Hfit) Hr Hx. destruct d; simpl in *;
    [|..|destruct Hfit as (_ & _ & h & nm & Hst & _)|destruct Hfit as (_ & _ & path & f & m & Hst & _)];
    try rewrite Hst in Hr;
    repeat (apply elem_of_cons in Hr as [->|Hr]; [done|]); by apply not_elem_of_nil in Hr.
Qed.
Lemma fits_base d a : fits d a → na_base a = na_pointer a.
Proof.
  intros (_ & _ & Hfit). unfold na_base. destruct (na_host_map a =? 0) eqn:Hm; [done|].
  destruct d; simpl in *; bool_prop; destruct_and?; congruence.
Qed.
(** A copy writes to its destination alone. *)
Lemma writes_copy_memory dst src n b1 b2 : writes_to (copy_memory dst src n b1 b2) dst n.
Proof.
  unfold copy_memory. destruct (n =? 0); [apply writes_inert, preserves_ret, _|]. destruct (_ && _).
  - apply writes_bind; [apply writes_cuda_memcpy|]. intros e. apply writes_inert. preserves_tac.
  - apply writes_bind; [apply writes_set_mem; intros; by apply memmove_out|]. intros _.
    apply writes_inert, preserves_ret, _.
Qed.
Lemma triple_copy_into d a src n b1 b2 :
  fits d a → n ≤ na_committed a →
  triple m_holds (resources d a) (copy_memory (na_base a) src n b1 b2) (λ _, True) (λ _, resources d a).
Proof.
  intros Ha Hn. destruct (fits_extent d a Ha) as (r & rest & Hr & He). rewrite Hr, (fits_base d a Ha).
  eapply triple_writes; [apply writes_copy_memory|exact He|lia..].
Qed.

(** ** The five backends *)

(** A path of an allocation that ends in a failure, or in a success. *)
Ltac failed := apply triple_ret; done.
(** Walk past the guards that return before anything is obtained. *)
Ltac guards :=
  cbv zeta;
  repeat match goal with
  | |- triple _ [] (if ?b then ret _ else _) _ _ => destruct b eqn:?; [failed|]
  end.

#[export] Instance host_owned h : OwnedDomain MemoryDomain.HOST (host_domain h).
Proof.
  constructor; simpl.
  - intros n al Hn. unfold host_allocate. guards. eapply triple_bind; [apply triple_syscall, os_malloc|].
    intros p _. unfold unless_null. destruct (p =? 0) eqn:Hp; [failed|]. bool_prop.
    by apply triple_ret.
  - intros. failed.
  - intros a (Hp & _ & _ & Hst). unfold host_free. rewrite (proj2 (Z.eqb_neq _ _) Hp).
    eapply triple_bind; [apply triple_syscall, os_free|]. intros u _. by apply triple_ret.
  - intros a m _ (_ & Ha & _). by apply (host_zero_total h).
  - intros a n (_ & Ha & Hm & _) Hn. unfold host_zero. apply (triple_clear a (RHeap _ _) [] (na_base a)); [done| |done|done|].
    + unfold na_base. rewrite Hm. by destruct (_ =? 0).
    + intros _. apply writes_memset.
  - intros a n _ _. apply triple_inert. unfold host_verify. preserves_tac.
  - intros. unfold host_verify. preserves_tac.
  - intros. unfold host_map. preserves_tac.
  - intros. unfold host_unmap. preserves_tac.
  - unfold host_capacity. preserves_tac.
  - intros. unfold IDomain.export_handle_default. preserves_tac.
  - preserves_tac.
Qed.

Lemma inert_make_unique_name : preserves (inert_on m_holds) make_unique_name.
Proof. unfold make_unique_name, unique_counter. preserves_tac. Qed.
#[local] Hint Resolve inert_make_unique_name : frames.

(** Mapping a view of a handle that is closed again if the mapping fails. *)
Lemma triple_map_handle {A} hnd n fr (k : Z → M Machine A) Φ post :
  (triple m_holds (RHandle hnd :: fr) (k 0) Φ post) →
  (∀ p, p ≠ 0 → triple m_holds (RView p n :: RHandle hnd :: fr) (k p) Φ post) →
  triple m_holds (RHandle hnd :: fr) (let! p := syscall (MapViewOfFile hnd n) in k p) Φ post.
Proof.
  intros H0 H1. apply (triple_step _ [] _ _ _ _ _ _ _ (triple_syscall _ _ _ _ (os_map_view hnd n))).
  intros p _. unfold unless_null. destruct (p =? 0) eqn:Hp; bool_prop; [by subst|by apply H1].
Qed.
Lemma triple_close_then {A} hnd fr (k : M Machine A) Φ post :
  triple m_holds fr k Φ post →
  triple m_holds (RHandle hnd :: fr) (syscall (CloseHandle hnd) ;;; k) Φ post.
Proof.
  intros Hk. by apply (triple_step _ [RHandle hnd] fr _ _ _ _ _ _ (triple_syscall _ _ _ _ (os_close hnd))).
Qed.

(** The tail shared by the allocation and the import of the file backend: map the
    open file, or close what was opened. *)
Lemma triple_map_file f n path al dev e1 e2 :
  is_u64 n → f ≠ 0 → win32 = true →
  triple m_holds [RHandle f]
    (let! m := syscall (CreateFileMappingA f 0 0 None) in
     if m =? 0 then
       syscall (CloseHandle f) ;;; ret (fail ErrorCode.mapping_failure e1)
     else
     let! view := syscall (MapViewOfFile m n) in
     if view =? 0 then
       syscall (CloseHandle m) ;;; syscall (CloseHandle f) ;;;
       ret (fail ErrorCode.mapping_failure e2)
     else
     ret (Ok (mkNativeAllocation view view n n al dev MemoryDomain.MMAP_STORAGE
                BackendId.FILE_BACKED (Some (FileState n path f m view)))))
    (fits_result MemoryDomain.MMAP_STORAGE) (held_result MemoryDomain.MMAP_STORAGE).
Proof.
  intros Hn Hf Hw.
  apply (triple_step _ [] _ _ _ _ _ _ _ (triple_syscall _ _ _ _ (os_create_mapping f 0 0 None))).
  intros hnd _. unfold unless_null. destruct (hnd =? 0) eqn:Hh; [by apply triple_close_then, triple_ret|].
  bool_prop. apply triple_map_handle; [by apply triple_close_then, triple_close_then, triple_ret|].
  intros p Hp. rewrite (proj2 (Z.eqb_neq _ _) Hp). apply triple_ret; [|done]. simpl. unfold fits. simpl. eauto 12.
Qed.

#[export] Instance shared_owned d : OwnedDomain MemoryDomain.SHARED_HOST (shared_domain d).
Proof.
  constructor; simpl.
  - intros n al Hn. unfold shared_allocate. guards. bool_prop. apply triple_inert_bind; [preserves_tac|]. intros nm.
    eapply triple_bind; [apply triple_syscall, os_create_mapping|]. intros hnd _.
    unfold unless_null. destruct (hnd =? 0) eqn:Hh; [failed|]. bool_prop.
    apply triple_map_handle; [by apply triple_close_then, triple_ret|]. intros p Hp.
    rewrite (proj2 (Z.eqb_neq _ _) Hp). apply triple_ret; [|done]. simpl. unfold fits. simpl. eauto 10.
  - intros nm n al Hn. unfold shared_import_handle. guards. bool_prop.
    eapply triple_bind; [apply triple_syscall, os_open_mapping|]. intros hnd _.
    unfold unless_null. destruct (hnd =? 0) eqn:Hh; [failed|]. bool_prop.
    apply triple_map_handle; [by apply triple_close_then, triple_ret|]. intros p Hp.
    rewrite (proj2 (Z.eqb_neq _ _) Hp). apply triple_ret; [|done]. simpl. unfold fits. simpl. eauto 10.
  - intros a (Hp & _ & Hw & _ & h & nm & Hst & Hh). unfold shared_free, resources. rewrite Hw, Hst. cbn [negb].
    rewrite (proj2 (Z.eqb_neq _ _) Hp).
    eapply triple_bind; [by apply triple_shared_dtor|]. intros u _. by apply triple_ret.
  - intros a m _ (_ & Ha & _). by apply (shared_zero_total d).
  - intros a n (_ & Ha & _ & Hm & h & nm & Hst & _) Hn. unfold shared_zero, resources. rewrite Hst.
    apply (triple_clear a (RView _ _) _ (na_host_map a)); [done..|]. intros _. apply writes_memset.
  - intros a n _ _. apply triple_inert. unfold shared_verify. preserves_tac.
  - intros. unfold shared_verify. preserves_tac.
  - intros. unfold shared_map. preserves_tac.
  - intros. unfold shared_unmap. preserves_tac.
  - unfold shared_capacity. preserves_tac.
  - intros. unfold shared_export_handle. preserves_tac.
  - preserves_tac.
Qed.

#[export] Instance file_owned d : OwnedDomain MemoryDomain.MMAP_STORAGE (file_domain d).
Proof.
  constructor; simpl.
  - intros n al Hn. unfold file_allocate. guards. bool_prop.
    apply triple_inert_bind; [unfold file_counter; preserves_tac|]. intros cnt. cbv zeta.
    eapply triple_bind; [apply triple_syscall, os_create_file|]. intros f Hf.
    unfold unless_invalid. destruct (f =? INVALID_HANDLE_VALUE); [failed|].
    apply triple_inert_bind; [preserves_tac|]. intros sk.
    destruct (negb sk); [by apply triple_close_then, triple_ret|].
    apply triple_inert_bind; [preserves_tac|]. intros eof.
    destruct (negb eof); [by apply triple_close_then, triple_ret|]. by apply triple_map_file.
  - intros path n al Hn. unfold file_import_handle. guards. bool_prop.
    destruct (file_import_rejects d path); [failed|].
    eapply triple_bind; [apply triple_syscall, os_open_file|]. intros f Hf.
    unfold unless_invalid. destruct (f =? INVALID_HANDLE_VALUE); [failed|].
    apply triple_inert_bind; [preserves_tac|]. intros [sz|]; [|by apply triple_close_then, triple_ret].
    destruct (_ <? n); [by apply triple_close_then, triple_ret|]. by apply triple_map_file.
  - intros a (Hp & _ & Hw & _ & path & f & m & Hst & Hf & Hm). unfold file_free, resources.
    rewrite Hw, Hst. cbn [negb]. rewrite (proj2 (Z.eqb_neq _ _) Hp).
    eapply triple_bind; [by apply triple_file_dtor|]. intros u _. by apply triple_ret.
  - intros a m _ (_ & Ha & _). by apply (file_zero_total d).
  - intros a n (_ & Ha & _ & Hm & path & f & mp & Hst & _) Hn. unfold file_zero, resources. rewrite Hst.
    apply (triple_clear a (RView _ _) _ (na_host_map a)); [done..|]. intros _. apply writes_memset.
  - intros a n _ _. apply triple_inert. unfold file_verify. preserves_tac.
  - intros. unfold file_verify. preserves_tac.
  - intros. unfold file_map. preserves_tac.
  - intros. unfold file_unmap. preserves_tac.
  - unfold file_capacity. preserves_tac.
  - intros. unfold file_export_handle. preserves_tac.
  - preserves_tac.
Qed.

Lemma inert_cuda_available : preserves (inert_on m_holds) cuda_available.
Proof. unfold cuda_available. preserves_tac. Qed.
Lemma inert_cuda_device_sync : preserves (inert_on m_holds) cuda_device_sync.
Proof. unfold cuda_device_sync. preserves_tac. Qed.
#[local] Hint Resolve inert_cuda_available inert_cuda_device_sync : frames.

#[export] Instance cuda_device_owned d : OwnedDomain MemoryDomain.DEVICE (cuda_device_domain d).
Proof.
  constructor; simpl.
  - intros n al Hn. unfold cuda_device_allocate. apply triple_inert_bind; [preserves_tac|]. intros av.
    guards. apply triple_inert_bind; [preserves_tac|]. intros sd. guards.
    eapply triple_bind; [apply triple_syscall, os_cuda_malloc|]. intros r Hr.
    unfold if_success. destruct (r.1 =? cudaSuccess) eqn:Hs; [|failed]. bool_prop.
    by apply triple_ret; [split_and!; auto|].
  - intros. failed.
  - intros a (Hp & _ & _ & Hst). unfold cuda_device_free. rewrite (proj2 (Z.eqb_neq _ _) Hp).
    eapply triple_bind; [apply triple_syscall, os_cuda_free|]. intros e _.
    destruct (negb _); by apply triple_ret.
  - done.
  - intros a n (_ & Ha & _) Hn. unfold cuda_device_zero. destruct (_ =? 0); [by apply triple_ret|].
    apply (triple_clear a (RDevice _ _) [] (na_pointer a)); [done..|]. intros _.
    apply writes_bind; [apply writes_cuda_memset|]. intros e. destruct (negb _); [apply writes_inert; preserves_tac|].
    apply writes_inert. preserves_tac.
  - intros a n (_ & Ha & _) Hn. unfold cuda_device_verify. destruct (_ =? 0); [by apply triple_ret|].
    apply (triple_clear a (RDevice _ _) [] (na_pointer a)); [done..|]. intros _.
    apply writes_bind; [apply writes_inert; preserves_tac|]. intros at_.
    destruct (negb _); [apply writes_inert; preserves_tac|]. destruct (0 <? n); [|apply writes_inert; preserves_tac].
    apply writes_bind; [apply writes_cuda_memcpy|]. intros e. apply writes_inert. preserves_tac.
  - done.
  - intros. unfold cuda_device_map. preserves_tac.
  - intros. unfold cuda_device_unmap. preserves_tac.
  - unfold cuda_device_capacity. preserves_tac.
  - intros. unfold IDomain.export_handle_default. preserves_tac.
  - unfold cuda_device_destroy. preserves_tac.
Qed.

#[export] Instance cuda_pinned_owned : OwnedDomain MemoryDomain.PINNED_HOST cuda_pinned_domain.
Proof.
  constructor; simpl.
  - intros n al Hn. unfold cuda_pinned_allocate. apply triple_inert_bind; [preserves_tac|]. intros av.
    guards. eapply triple_bind; [apply triple_syscall, os_cuda_host_alloc|]. intros r Hr.
    unfold if_success. destruct (r.1 =? cudaSuccess) eqn:Hs; [|failed]. bool_prop.
    by apply triple_ret; [split_and!; auto|].
  - intros. failed.
  - intros a (Hp & _ & _ & Hst). unfold cuda_pinned_free. rewrite (proj2 (Z.eqb_neq _ _) Hp).
    eapply triple_bind; [apply triple_syscall, os_cuda_free_host|]. intros e _.
    destruct (negb _); by apply triple_ret.
  - intros a m _ (_ & Ha & _). by apply pinned_zero_total.
  - intros a n (_ & Ha & Hm & _) Hn. unfold cuda_pinned_zero. apply (triple_clear a (RPinned _ _) [] (na_host_map a)); [done..|].
    intros _. apply writes_memset.
  - intros a n _ _. apply triple_inert. unfold cuda_pinned_verify. preserves_tac.
  - intros. unfold cuda_pinned_verify. preserves_tac.
  - intros. unfold cuda_pinned_map. preserves_tac.
  - intros. unfold cuda_pinned_unmap. preserves_tac.
  - unfold cuda_pinned_capacity. preserves_tac.
  - intros. unfold IDomain.export_handle_default. preserves_tac.
  - unfold cuda_pinned_destroy. preserves_tac.
Qed.

End backing.
