(* ===== verification/Release.v ===== *)
(** Release (src/runtime.cpp, [RuntimeImpl::finalize]): what the finalization of a
    buffer does to its backing and to the accounts of its namespace. *)
From S2P Require Import Prelude Types CheckedMath Platform HostBackend SharedBackend.
From S2P Require Import FileBackend CudaBackend Domain State Sim Ledger Pool Lifecycle Runtime.
From S2P Require Import Handle Facade SimRuntime Frames Allocation Charges.

Section release.
Context {P : Platform}.
Implicit Types (s : RuntimeImpl) (l : Ledger).

Lemma charge_free_accounting ns d n s :
  0 ≤ n ≤ committed (ledger s) ns d → n ≤ allocated (ledger s) ns d →
  charge ns d 0 (- n) (- n) 0 (ledger s) (ledger (free_accounting ns d n s).2).
Proof.
  intros Hc Ha. simpl. rewrite !sat_sub_exact by (autorewrite with ledger; lia).
  constructor; intros; ledger_cells; try case_decide; lia || done.
Qed.

Lemma ledger_upd_ctl c f : preserves same_ledger (upd_ctl c f).
Proof. by intros s. Qed.
Lemma ledger_untick c : preserves same_ledger (untick c).
Proof. intros s. unfold untick. simpl. by destruct (_ <? _). Qed.
Lemma ledger_erase id : preserves same_ledger (modify (λ s, set_registry (delete id (registry_ s)) s)).
Proof. by intros s. Qed.
Lemma ledger_discard_backing d a : preserves same_ledger (discard_backing d a).
Proof. unfold discard_backing. preserves_tac. Qed.
End release.
#[export] Hint Resolve ledger_upd_ctl ledger_untick ledger_erase ledger_discard_backing : frames.

Section release_charges.
Context {P : Platform}.
Implicit Types (s : RuntimeImpl) (l : Ledger).

(** The conditions under which [finalize] frees the backing instead of pooling it. *)
Definition freed_on_release s (r : BufferRecord) (return_to_pool : bool) : Prop :=
  backing_present (rec_backing r) = true ∧ rec_ownership r ≠ Ownership.BORROWED
  ∧ return_to_pool && rec_pool_eligible r && pooled_flag (rec_flags r) && pooling_on (cfg s) = false.

Lemma charge_dispose_freed c r b s :
  freed_on_release s r b →
  0 ≤ rec_committed r ≤ committed (ledger s) (rec_ns r) (rec_domain r) →
  rec_committed r ≤ allocated (ledger s) (rec_ns r) (rec_domain r) →
  charge (rec_ns r) (rec_domain r) 0 (- rec_committed r) (- rec_committed r) 0
    (ledger s) (ledger (dispose_backing c r b s).2).
Proof.
  intros (Hb & Ho & Hp) Hc Ha. unfold dispose_backing. rewrite bind_run. cbn [get fst snd].
  rewrite Hb, Hp, bool_decide_eq_false_2 by done. cbn [andb negb]. rewrite bind_run.
  set (s1 := (_ s).2). assert (same_ledger s s1) as H1.
  { unfold s1. destruct (bool_decide _); [apply ledger_upd_ctl|done]. }
  rewrite bind_run. set (s2 := (discard_backing _ _ s1).2).
  assert (same_ledger s s2) as H2 by (transitivity s1; [done|apply ledger_discard_backing]).
  rewrite bind_run. apply (charge_from_same _ _ _ _ _ _ s s2 _ H2).
  refine (charge_same _ _ _ _ _ _ (free_accounting _ _ _ s2).2 _ _ _ _).
  - rewrite bind_run. apply ledger_upd_ctl.
  - apply charge_free_accounting; by rewrite H2.
Qed.

Lemma charge_finalize_freed c r b s :
  freed_on_release s r b →
  0 ≤ rec_committed r ≤ committed (ledger s) (rec_ns r) (rec_domain r) →
  rec_committed r ≤ allocated (ledger s) (rec_ns r) (rec_domain r) →
  0 < allocs (ledger s) (rec_ns r) →
  charge (rec_ns r) (rec_domain r) 0 (- rec_committed r) (- rec_committed r) (-1)
    (ledger s) (ledger (finalize_record c r b s).2).
Proof.
  intros Hf Hc Ha Hn. pose proof (charge_dispose_freed c r b s Hf Hc Ha) as H1.
  unfold finalize_record. rewrite bind_run. set (s1 := (dispose_backing c r b s).2) in *.
  rewrite bind_run. set (s2 := (upd_ctl c _ s1).2).
  assert (same_ledger s1 s2) as H2 by apply ledger_upd_ctl.
  assert (0 < allocs (ledger s2) (rec_ns r)) as Hn2.
  { rewrite H2, (ch_allocs _ _ _ _ _ _ _ _ H1). case_decide; lia. }
  refine (charge_same _ _ _ _ _ _ (release_count (rec_ns r) s2).2 _ _ _ _).
  - rewrite bind_run. cbv beta. match goal with |- same_ledger ?x (?m ?x).2 => assert (preserves same_ledger m) as Hm end;
      [preserves_tac|apply Hm].
  - eapply charge_eq; [| | | |eapply charge_trans; [exact H1|]]; last first.
    { apply (charge_from_same _ _ _ _ _ _ s1 s2 _ H2). by apply charge_release_count. }
    all: lia.
Qed.
End release_charges.

Section release_properties.
Context {P : Platform}.
Implicit Types (s : RuntimeImpl) (l : Ledger).

(** A request that opts out of pooling never gets a pooled backing. *)
Lemma allocate_reserved_unpooled dom req al n :
  pooled_flag (req_flags req) = false →
  yields (λ x, ∀ r, x = Ok r → rec_pooled r = false) (allocate_reserved dom req al n).
Proof.
  intros Hp. unfold allocate_reserved. apply yields_bind. intros i. apply yields_bind. intros ep.
  cbv zeta. apply (yields_bind_val (λ o, o = None)).
  - unfold take_from_pool. apply yields_bind. intros s0. rewrite Hp. by apply yields_ret.
  - intros slot ->. apply yields_bind. intros [a|e]; [|by apply yields_ret].
    apply yields_bind. intros [u|e]; [|by apply yields_ret].
    apply yields_bind. intros s0. apply yields_ret. by intros r [= <-].
Qed.

(** What [Runtime::allocate] leaves: the new control block, referenced once. *)
Lemma Runtime_allocate_ok req s h :
  (Runtime_allocate true req s).1 = Ok h →
  ∃ r, (allocate_record req s).1 = Ok r
    ∧ let s1 := (Runtime_allocate true req s).2 in
      let c := size (controls (allocate_record req s).2) in
      h = mkBufferHandle true (Some c) (rec_id r) (rec_generation r) true
      ∧ ctl_at s1 c = set_refs 1 (Control_new r)
      ∧ same_ledger (allocate_record req s).2 s1.
Proof.
  unfold Runtime_allocate, guarded. rewrite bind_run. cbn [get fst snd].
  destruct (closed_ s); [done|]. rewrite bind_run.
  destruct (allocate_record req s) as [[r|e] s0]; cbn [fst snd]; [|done].
  rewrite bind_run. intros Hh. exists r. split; [done|]. cbv zeta.
  set (c := size (controls s0)). set (s1 := (register_control r s0).2) in *.
  assert ((register_control r s0).1 = c) as Hc by reflexivity. rewrite Hc in *.
  assert (controls s1 = <[c := Control_new r]> (controls s0)) as Hs1 by reflexivity.
  rewrite bind_run in *. unfold new_handle in *. rewrite bind_run in *.
  set (s2 := (retain c s1).2) in *.
  assert (ctl_at s2 c = set_refs 1 (Control_new r)) as Hctl.
  { unfold ctl_at. change (controls s2) with (alter (λ k, set_refs (refs k + 1) k) c (controls s1)).
    by rewrite lookup_alter, decide_True, Hs1, lookup_insert_eq. }
  cbn [ret get fst snd bind handle_of] in *.
  split_and!; [|done|done]. unfold handle_of in Hh. rewrite Hctl in Hh. by injection Hh as <-.
Qed.

Lemma allocate_record_unpooled req s r :
  domains_ok s → pooled_flag (req_flags req) = false → (allocate_record req s).1 = Ok r →
  rec_pooled r = false ∧ ∃ al n, allocated_record req al n r.
Proof.
  intros Hd Hp Hr. destruct (allocate_record_ok req s r Hr) as (dom & al & n & s' & Hdom & _ & Hr').
  destruct (Hd _ _ Hdom) as [Hc _]. split; [by apply (allocate_reserved_unpooled dom req al n Hp s' r Hr')|].
  exists al, n. by apply (allocate_reserved_record dom req al n Hc s' r Hr').
Qed.

(** Dropping the last reference finalizes the buffer. *)
Lemma drop_ref_last c s k :
  ctl_at s c = k → refs k = 1 → finalized k = false →
  ∃ s', same_ledger s s' ∧ cfg s' = cfg s
        ∧ (drop_ref c s).2 = (finalize_record c (rec k) true s').2.
Proof.
  intros Hk Hr Hf. unfold ctl_at in Hk.
  destruct (controls s !! c) as [k0|] eqn:E; simpl in Hk; subst k; [|done].
  unfold drop_ref. rewrite bind_run. cbn [get_ctl gets fst snd]. unfold ctl_at. rewrite E. simpl default.
  rewrite bind_run, Hr. cbn [Z.eqb Pos.eqb]. set (s1 := (upd_ctl c _ s).2).
  assert (ctl_at s1 c = set_refs 0 k0) as H1.
  { unfold ctl_at, s1. simpl. by rewrite lookup_alter, decide_True, E. }
  unfold finalize. rewrite bind_run. cbn [get_ctl gets fst snd]. rewrite H1.
  cbn [set_refs finalized rec]. rewrite Hf, bind_run.
  exists (upd_ctl c (set_finalized true) s1).2. done.
Qed.

(** C26: allocation and release balance: releasing the only handle of a buffer
    that was allocated without pooling returns every charge the allocation made,
    so that every counter of every namespace and domain is back where it was. *)
Theorem allocate_release_balanced req s h :
  accountable s req → pooled_flag (req_flags req) = false →
  (Runtime_allocate true req s).1 = Ok h →
  let s1 := (Runtime_allocate true req s).2 in
  backing_present (rec_backing (rec (ctl_at s1 (default 0%nat (h_ctl h))))) = true →
  charge (req_ns req) (req_domain req) 0 0 0 0 (ledger s) (ledger (handle_release h s1).2).
Proof.
  intros Hacc Hp Hh. cbv zeta. destruct (Runtime_allocate_ok req s h Hh) as (r & Hr & -> & Hctl & Hl).
  pose proof (charge_allocate_record req s Hacc) as H1. cbv zeta in H1. rewrite Hr in H1.
  destruct (allocate_record_unpooled req s r) as (Hpool & al' & n' & [(_ & Hns & Hdm & _ & Hfl & _) _ _ Hst]);
    [apply Hacc|done|done|].
  rewrite Hpool in H1. destruct H1 as (al & n & Hv & Hn & H1).
  assert (0 ≤ rec_committed r) as Hpos by (destruct Hv as [? _ (_ & ? & _) _ _]; lia).
  set (c := size _) in *. set (s1 := (Runtime_allocate true req s).2) in *.
  cbn [h_ctl from_option id]. rewrite Hctl. cbn [set_refs Control_new rec]. intros Hb.
  apply (charge_same _ _ _ _ _ _ _ _ _ Hl) in H1. clear Hl Hr Hh.
  unfold handle_release. cbn [h_ctl h_valid h_rt negb]. rewrite bind_run.
  cut (charge (req_ns req) (req_domain req) 0 (- n) (- n) (-1) (ledger s1) (ledger (drop_ref c s1).2)).
  { intros H2. eapply charge_eq; [| | | |eapply charge_trans; [exact H1|exact H2]]; lia. }
  destruct (drop_ref_last c s1 _ Hctl) as (s2 & Hl & _ & ->); [done..|].
  cbn [set_refs Control_new rec]. rewrite <- Hns, <- Hdm, <- Hn in H1 |- *.
  apply (charge_from_same _ _ _ _ _ _ s1 s2 _ Hl).
  pose proof (ac_committed s req Hacc) as Hcm. pose proof (ac_allocated s req Hacc) as Hat.
  pose proof (ac_allocs s req Hacc) as Hac. rewrite <- Hns in Hcm, Hat, Hac.
  rewrite <- Hdm in Hcm, Hat.
  pose proof (ch_committed _ _ _ _ _ _ _ _ H1 (rec_ns r) (rec_domain r)) as Hc1.
  pose proof (ch_allocated _ _ _ _ _ _ _ _ H1 (rec_ns r) (rec_domain r)) as Ha1.
  pose proof (ch_allocs _ _ _ _ _ _ _ _ H1 (rec_ns r)) as Hn1.
  rewrite decide_True in Hc1 by done. rewrite decide_True in Ha1 by done.
  rewrite decide_True in Hn1 by done. rewrite <- Hl in Hc1, Ha1, Hn1.
  apply charge_finalize_freed; [|lia..].
  split_and!; [done|by rewrite (proj1 (proj2 (proj2 Hst)))|].
  by rewrite Hfl, Hp, andb_false_r.
Qed.
(** Operations inside of the runtime object. *)
Definition same_machine s s' : Prop := machine s' = machine s.
#[export] Instance same_machine_preorder : PreOrder same_machine.
Proof. split; [done|]. unfold same_machine. intros ? ? ? -> ->. done. Qed.
Lemma machine_modify f : (∀ s, machine (f s) = machine s) → preserves same_machine (modify f).
Proof. intros Hf s. apply Hf. Qed.
Lemma machine_untick n : preserves same_machine (untick n).
Proof. intros s. unfold untick. simpl. by destruct (_ <? _). Qed.
Lemma machine_release_count ns : preserves same_machine (release_count ns).
Proof. by apply machine_modify. Qed.
Lemma machine_tick n : preserves same_machine (tick n).
Proof. by apply machine_modify. Qed.
Lemma machine_note e d : preserves same_machine (note e d).
Proof. by apply machine_modify. Qed.
Lemma machine_upd_ctl c f : preserves same_machine (upd_ctl c f).
Proof. by apply machine_modify. Qed.
Lemma machine_erase id : preserves same_machine (modify (λ s, set_registry (delete id (registry_ s)) s)).
Proof. by apply machine_modify. Qed.
#[local] Hint Resolve machine_untick machine_release_count machine_tick machine_note
  machine_upd_ctl machine_erase : frames.

(** The finalization of a buffer over borrowed memory touches nothing outside
    of the runtime: no backend call, no system call and no write to memory, in
    whatever state the runtime is; and a buffer wrapped with [BORROW] is such a
    buffer. *)
Theorem finalize_spares_borrowed s c b :
  rec_ownership (rec (ctl_at s c)) = Ownership.BORROWED →
  na_state (rec_backing (rec (ctl_at s c))) = None →
  machine (finalize c b s).2 = machine s
  ∧ ∀ desc dom id, ext_ownership desc = ExternalOwnership.BORROW →
      rec_ownership (wrapped_record desc dom id) = Ownership.BORROWED
      ∧ na_state (rec_backing (wrapped_record desc dom id)) = None.
Proof.
  intros Ho Hst. split; [|intros desc dom id He; simpl; by rewrite He].
  unfold finalize. rewrite bind_run. cbn [get_ctl gets fst snd].
  destruct (finalized (ctl_at s c)); [done|]. rewrite bind_run.
  unfold finalize_record. rewrite bind_run. unfold dispose_backing. rewrite bind_run.
  cbn [get fst snd]. rewrite bool_decide_eq_true_2 by done. rewrite andb_false_r.
  unfold drop_state. rewrite Hst. set (s1 := (upd_ctl c (set_finalized true) s).2).
  change (machine s) with (machine s1).
  match goal with |- machine (?m ?s2).2 = _ =>
    transitivity (machine s2); [assert (preserves same_machine m) as Hm by preserves_tac; apply Hm|] end.
  rewrite bind_run. match goal with |- machine (?m ?s2).2 = _ =>
    transitivity (machine s2); [assert (preserves same_machine m) as Hm by preserves_tac; apply Hm|] end.
  by destruct s1.
Qed.
End release_properties.

(** ** Witnesses *)
Definition plain_request : AllocationRequest := sim_request_for MemoryDomain.HOST 5000 false.
Lemma allocate_release_balanced_witness :
  ∃ h, (Runtime_allocate true plain_request sim_runtime).1 = Ok h
    ∧ host_cells (ledger (handle_release h (Runtime_allocate true plain_request sim_runtime).2).2) = (0, 0).
Proof.
  eexists. split; [vm_compute; reflexivity|].
  refine (charge_host_cells 0 0 0 0 (ledger sim_runtime) _ _).
  apply (allocate_release_balanced plain_request sim_runtime).
  - apply sim_accountable. vm_compute. reflexivity.
  - reflexivity.
  - vm_compute. reflexivity.
  - vm_compute. reflexivity.
Defined.

(** 4096 bytes of the application, wrapped without giving them away. *)
Definition borrowed_desc : ExternalMemoryDesc :=
  mkExternalMemoryDesc 65536 4096 0 MemoryDomain.HOST DeviceId_default ExternalOwnership.BORROW.
Definition sim_borrowed : RuntimeImpl := (Runtime_wrap_external true borrowed_desc sim_runtime).2.
Lemma finalize_spares_borrowed_witness :
  machine (finalize 0 true sim_borrowed).2 = machine sim_borrowed.
Proof. apply (finalize_spares_borrowed sim_borrowed 0 true); vm_compute; reflexivity. Defined.
