(* ===== verification/Ownership.v ===== *)
(** Who owns the operating system's resources.  At every point of a run, what the
    process holds is what the backings of the live buffers, of the idle pool slots and
    of the slots lost to a failed zeroing stand for, plus what the operation in progress
    has in hand: the state predicate [owns].  Each operation of the runtime is given a
    [triple] over it. *)
From S2P Require Import Prelude Types CheckedMath Platform Resources SharedBackend FileBackend.
From S2P Require Import CudaBackend Domain State Ledger Pool Lifecycle Runtime Handle Facade.
From S2P Require Import Frames RefSpec Refcount Backing Allocation Charges Release.

(** The control blocks a computation does not own, as they were at its start; none,
    unless a section says otherwise. *)
Class Hidden : Type := hidden_blocks : gmap nat Control.
#[export] Instance nothing_hidden : Hidden | 100 := (∅ : gmap nat Control).

(** What may have been lost.  Of the domains only DEVICE has a zeroing that can fail, so
    unless a section says more, any slots of that domain. *)
Class Losses : Type := losses : list Loss → Prop.
#[export] Instance device_losses : Losses | 100 := Forall (λ l, l.1 = MemoryDomain.DEVICE).
Lemma nothing_lost : device_losses [].
Proof. by constructor. Qed.
(** A request that loses no more than it may. *)
Definition affordable `{Losses} (req : AllocationRequest) : Prop :=
  req_domain req = MemoryDomain.DEVICE → ∀ a l, losses l → losses ((MemoryDomain.DEVICE, a) :: l).
Lemma device_affordable req : affordable (H := device_losses) req.
Proof. intros _ a l Hl. by constructor. Qed.
Lemma elsewhere_affordable `{Losses} req : req_domain req ≠ MemoryDomain.DEVICE → affordable req.
Proof. intros Hne Hd. congruence. Qed.

Section ownership.
Context {P : Platform} {O : OsResources P} {hide : Hidden} {may_lose : Losses}.
Implicit Types s : RuntimeImpl.

(** ** The predicate *)

Definition ctl_resources (k : Control) : list Resource :=
  if finalized k then [] else resources (rec_domain (rec k)) (rec_backing (rec k)).
Definition slots_resources (key : PoolKey) (dq : list PoolSlot) : list Resource :=
  dq ≫= λ sl, resources (key_domain key) (slot_backing sl).
(** A change of a control block outside of what its ownership depends on. *)
Record same_owner (k k' : Control) : Prop := {
  so_finalized : finalized k' = finalized k;
  so_domain : rec_domain (rec k') = rec_domain (rec k);
  so_backing : rec_backing (rec k') = rec_backing (rec k);
  so_ownership : rec_ownership (rec k') = rec_ownership (rec k);
  so_size : rec_size (rec k') = rec_size (rec k);
  so_committed : rec_committed (rec k') = rec_committed (rec k) }.
#[export] Instance same_owner_preorder : PreOrder same_owner.
Proof.
  split; [by constructor|]. intros k1 k2 k3 [H1 H2 H3 H4 H5 H6] [G1 G2 G3 G4 G5 G6].
  constructor; etrans; eassumption.
Qed.

(** What the live buffers own, and what the idle slots of the pool own. *)
Definition live_resources s : list Resource := map_bind (λ _, ctl_resources) (controls s).
Definition idle_resources s : list Resource := map_bind slots_resources (pool_ (pool s)).
(** What was lost: no operation gives it back. *)
Definition leaked_resources s : list Resource := leaked s ≫= λ l, resources l.1 l.2.
Definition other_resources s : list Resource := idle_resources s ++ leaked_resources s.

(** Of some control blocks the computation is given nothing: the backings of [hidden_blocks]
    are part of the frame. *)
Definition visible_at (c : nat) (k : Control) : list Resource :=
  if hidden_blocks !! c is Some _ then [] else ctl_resources k.
Definition visible_resources s : list Resource := map_bind visible_at (controls s).
Lemma visible_when c k : hidden_blocks !! c = None → visible_at c k = ctl_resources k.
Proof. intros Hc. unfold visible_at. by rewrite Hc. Qed.

(** The attached backends are a parameter: no operation of a running runtime changes
    them. *)
Variable bk : Backends.
Definition domain_in (d : MemoryDomain) : option IDomain :=
  match d with
  | MemoryDomain.HOST => host_ bk
  | MemoryDomain.PINNED_HOST => cuda_pinned_ bk
  | MemoryDomain.DEVICE => cuda_device_ bk
  | MemoryDomain.SHARED_HOST => shared_ bk
  | MemoryDomain.MMAP_STORAGE => file_ bk
  end.
Definition backends_owned : Prop := ∀ d dom, domain_in d = Some dom → OwnedDomain d dom.
Definition usable (d : MemoryDomain) (a : NativeAllocation) : Prop :=
  is_Some (domain_in d) ∧ fits d a.
Record record_ok (r : BufferRecord) : Prop := {
  ro_usable : usable (rec_domain r) (rec_backing r);
  ro_ownership : rec_ownership r ≠ Ownership.BORROWED;
  ro_size : is_u64 (rec_size r);
  ro_committed : is_u64 (rec_committed r);
  ro_backed : rec_committed r ≤ na_committed (rec_backing r) }.
Definition ctl_usable (k : Control) : Prop := finalized k = false → record_ok (rec k).

Record well_owned s : Prop := {
  wo_backends : backends s = bk;
  wo_dense : ∀ c, is_Some (controls s !! c) → (c < size (controls s))%nat;
  wo_live : ∀ c k, controls s !! c = Some k → ctl_usable k;
  wo_idle : ∀ key sl, sl ∈ bucket (pool s) key → usable (key_domain key) (slot_backing sl);
  wo_lost : losses (leaked s) ∧ Forall (λ l, usable l.1 l.2) (leaked s);
  wo_hidden : ∀ c k0, hidden_blocks !! c = Some k0 → ∃ k, controls s !! c = Some k ∧ same_owner k0 k }.

(** [pin] is what the operation in progress knows of the control blocks. *)
Definition owns (pin : gmap nat Control → Prop) (rs : list Resource) s : Prop :=
  well_owned s ∧ pin (controls s)
  ∧ m_holds (visible_resources s ++ other_resources s ++ rs) (machine s).
#[export] Instance owns_proper pin : Proper ((≡ₚ) ==> (=) ==> iff) (owns pin).
Proof. intros rs rs' Hp s s' <-. unfold owns. by rewrite Hp. Qed.

Lemma owns_domain pin rs s d : owns pin rs s → domain s d = domain_in d.
Proof. intros [[Hb _ _ _ _ _] _]. unfold domain, domain_in. by rewrite Hb. Qed.
Lemma owns_pin pin pin' rs s : (pin (controls s) → pin' (controls s)) → owns pin rs s → owns pin' rs s.
Proof. intros Hpin (H1 & H2 & H3). split_and!; auto. Qed.

Lemma owns_lost pin rs s : owns pin rs s → losses (leaked s).
Proof. intros [[_ _ _ _ [Hl _] _] _]. exact Hl. Qed.
Definition lost_usable (l : list Loss) : Prop := Forall (λ l, usable l.1 l.2) l.
Lemma owns_lost_usable pin rs s : owns pin rs s → lost_usable (leaked s).
Proof. intros [[_ _ _ _ [_ Hl] _] _]. exact Hl. Qed.
(** Without a device nothing is lost. *)
Lemma no_device_no_loss l :
  device_losses l → lost_usable l → domain_in MemoryDomain.DEVICE = None → l = [].
Proof.
  intros Hd Hu Hnone. destruct l as [|[d a] l]; [done|]. apply Forall_cons in Hd as [Hd _].
  apply Forall_cons in Hu as [[[dom Hdom] _] _]. cbn [fst] in *. congruence.
Qed.

(** ** Steps that hold nothing *)

Section steps.
Variable pin : gmap nat Control → Prop.

(** Only the bookkeeping changes. *)
Lemma owns_same s s' rs :
  backends s' = backends s → controls s' = controls s → pool_ (pool s') = pool_ (pool s) →
  leaked s' = leaked s → machine s' = machine s → owns pin rs s → owns pin rs s'.
Proof.
  intros H1 H2 H3 HL H4 ([W1 W2 W3 W4 W6 W5] & Hp & Hm).
  unfold owns, visible_resources, other_resources, idle_resources, leaked_resources in *.
  rewrite H2, H3, HL, H4. split; [|done].
  constructor; [by rewrite H1|by rewrite H2|by rewrite H2| |by rewrite HL|by rewrite H2]. intros key sl. unfold bucket. rewrite H3. apply W4.
Qed.
Lemma inert_modify f :
  (∀ s, backends (f s) = backends s ∧ controls (f s) = controls s
        ∧ pool_ (pool (f s)) = pool_ (pool s) ∧ leaked (f s) = leaked s ∧ machine (f s) = machine s) →
  preserves (inert_on (owns pin)) (modify f).
Proof. intros Hf s rs. destruct (Hf s) as (? & ? & ? & ? & ?). by apply owns_same. Qed.

Lemma triple_on_machine {A} pre (f : M Machine A) Φ post :
  triple m_holds pre f Φ post → triple (owns pin) pre (on_machine f) Φ post.
Proof.
  intros Hf fr s ([W1 W2 W3 W4 W6 W5] & Hp & Hm). rewrite on_machine_run. cbn [fst snd].
  set (base := visible_resources s ++ other_resources s).
  assert (∀ l, visible_resources s ++ other_resources s ++ l ++ fr ≡ₚ l ++ base ++ fr) as Hbase.
  { intros l. rewrite (app_assoc (visible_resources s)). fold base. rewrite (app_assoc base l fr).
    by rewrite (Permutation_app_comm base l), <- app_assoc. }
  rewrite Hbase in Hm. destruct (Hf _ _ Hm) as [Ha Hm']. split; [done|].
  rewrite <- Hbase in Hm'. split; [by constructor|]. by split.
Qed.
(** A call on the backing of a live control block, which is lent to it. *)
Lemma owns_lend {A} (f : M Machine A) Φ c k rs s :
  controls s !! c = Some k → hidden_blocks !! c = None → finalized k = false →
  triple m_holds (resources (rec_domain (rec k)) (rec_backing (rec k))) f Φ
    (λ _, resources (rec_domain (rec k)) (rec_backing (rec k))) →
  owns pin rs s → owns pin rs (on_machine f s).2.
Proof.
  intros Hk Hc Hlive Hf ([W1 W2 W3 W4 W6 W5] & Hp & Hm). rewrite on_machine_run. cbn [snd].
  split; [by constructor|]. split; [done|]. cbn [machine set_machine].
  change (visible_resources (set_machine ?m s)) with (visible_resources s).
  change (other_resources (set_machine ?m s)) with (other_resources s).
  unfold visible_resources in *. rewrite (map_bind_delete _ _ c k Hk), visible_when in * by done.
  unfold ctl_resources in *. rewrite Hlive, <- !app_assoc in *. by apply (Hf _ _ Hm).
Qed.
Lemma inert_on_machine {A} (f : M Machine A) :
  preserves (inert_on m_holds) f → preserves (inert_on (owns pin)) (on_machine f).
Proof.
  intros Hf s rs Hs. eapply (triple_on_machine [] f (λ _, True) (λ _, [])); [|exact Hs].
  by apply triple_inert.
Qed.

Lemma same_owner_resources c k k' : same_owner k k' → visible_at c k' = visible_at c k.
Proof. intros [H1 H2 H3 _ _ _]. unfold visible_at, ctl_resources. by rewrite H1, H2, H3. Qed.
Lemma same_owner_usable k k' : same_owner k k' → ctl_usable k → ctl_usable k'.
Proof.
  intros [H1 H2 H3 H4 H5 H6] Hk Hf. rewrite H1 in Hf. destruct (Hk Hf).
  constructor; by rewrite ?H2, ?H3, ?H4, ?H5, ?H6.
Qed.

(** Replacing a control block: the resources of the old one are in hand, and those of
    the new one must be. *)
Lemma owns_set_ctl (pin' : gmap nat Control → Prop) s c k k' rs rs' :
  controls s !! c = Some k → hidden_blocks !! c = None ∨ same_owner k k' →
  (ctl_usable k → ctl_usable k') → pin' (<[c:=k']> (controls s)) →
  visible_at c k ++ rs ≡ₚ visible_at c k' ++ rs' →
  owns pin rs s → owns pin' rs' (set_controls (<[c:=k']> (controls s)) s).
Proof.
  intros Hk Hhid Hu Hpin Hrs ([W1 W2 W3 W4 W6 W5] & _ & Hm). split; [|split; [done|]].
  - constructor; [done| | |done|done|].
    + intros c'. cbn [controls set_controls]. rewrite map_size_insert_Some, lookup_insert_is_Some by eauto.
      intros [<-|[_ Hc]]; apply W2; eauto.
    + intros c' x. cbn [controls set_controls]. rewrite lookup_insert. case_decide as Hc.
      * intros [= <-]. apply Hu. by apply (W3 c).
      * apply W3.
    + intros c' k0 Hc'. destruct (W5 c' k0 Hc') as (x & Hx & Hso). cbn [controls set_controls].
      rewrite lookup_insert. case_decide as Hc; [|by eauto]. subst c'. exists k'. split; [done|].
      rewrite Hk in Hx. injection Hx as <-. destruct Hhid as [Hn|Hn]; [congruence|by etrans].
  - cbn [machine set_controls]. unfold visible_resources, other_resources, idle_resources, leaked_resources in *. cbn [controls pool leaked set_controls].
    revert Hm. apply m_holds_perm. rewrite (map_bind_delete _ _ _ _ Hk).
    rewrite (map_bind_delete _ (<[c:=k']> (controls s)) c k') by apply lookup_insert_eq.
    rewrite delete_insert_eq. set (d := map_bind _ (delete c _)). set (i := map_bind _ (pool_ _) ++ _).
    rewrite <- !app_assoc, (Permutation_app_comm (visible_at c k)), (Permutation_app_comm (visible_at c k')).
    rewrite <- !app_assoc. do 2 apply Permutation_app_head.
    by rewrite (Permutation_app_comm rs), Hrs, (Permutation_app_comm (visible_at c k')).
Qed.

Lemma inert_upd_ctl c f :
  (∀ k, same_owner k (f k)) → (∀ m, pin m → pin (alter f c m)) →
  preserves (inert_on (owns pin)) (upd_ctl c f).
Proof.
  intros Hf Hpin s rs Hs. cbn [upd_ctl modify snd].
  destruct (controls s !! c) as [k|] eqn:Hk.
  - pose proof (Hpin _ (proj1 (proj2 Hs))) as Hp. rewrite (alter_insert_Some f _ c k Hk) in *.
    eapply owns_set_ctl; [exact Hk|by right|by apply same_owner_usable|exact Hp| |exact Hs].
    by rewrite (same_owner_resources c _ _ (Hf k)).
  - rewrite alter_None by done. by eapply owns_same; [..|exact Hs].
Qed.
(** A finalized control block owns nothing any more. *)
Definition final_at (c : nat) (m : gmap nat Control) : Prop :=
  hidden_blocks !! c = None ∧ ∃ k, m !! c = Some k ∧ finalized k = true.
End steps.

Lemma final_at_alter c f m :
  (∀ k, finalized k = true → finalized (f k) = true) → final_at c m → final_at c (alter f c m).
Proof. intros Hf (Hc & k & Hk & Hfin). split; [done|]. exists (f k). rewrite lookup_alter_eq, Hk. auto. Qed.
Lemma inert_upd_final c f :
  (∀ k, finalized k = true → finalized (f k) = true) →
  preserves (inert_on (owns (final_at c))) (upd_ctl c f).
Proof.
  intros Hf s rs Hs. destruct Hs as (Hw & Hpin & Hm) eqn:E. pose proof Hpin as (Hc & k & Hk & Hfin).
  cbn [upd_ctl modify snd]. pose proof (final_at_alter c f _ Hf Hpin) as Hp.
  rewrite (alter_insert_Some f _ c k Hk) in *.
  eapply owns_set_ctl; [exact Hk|by left| |exact Hp| |exact Hs].
  - intros _ Hfin'. by rewrite Hf in Hfin'.
  - rewrite !visible_when by done. unfold ctl_resources. by rewrite Hf, Hfin.
Qed.

(** ** The bookkeeping operations *)

Section bookkeeping.
Variable pin : gmap nat Control → Prop.
Abbreviation inert := (preserves (inert_on (owns pin))).

Lemma inert_tick_by c n : inert (tick_by c n).
Proof. by apply inert_modify. Qed.
Lemma inert_tick c : inert (tick c).
Proof. by apply inert_modify. Qed.
Lemma inert_untick c : inert (untick c).
Proof. apply inert_modify. intros s. by destruct (0 <? telem_ s c). Qed.
Lemma inert_note e d : inert (note e d).
Proof. by apply inert_modify. Qed.
Lemma inert_modify_ledger f : inert (modify_ledger f).
Proof. by apply inert_modify. Qed.
Lemma inert_registry f : inert (modify (λ s, set_registry (f s) s)).
Proof. by apply inert_modify. Qed.
Lemma inert_get_ctl c : inert (get_ctl c).
Proof. by intros s rs. Qed.
Lemma inert_next_id : inert next_id.
Proof. intros s rs. by apply owns_same. Qed.
Lemma inert_now_epoch : inert now_epoch_ms.
Proof.
  unfold now_epoch_ms. apply preserves_bind; [apply _| |intros; apply preserves_ret, _].
  apply inert_on_machine, inert_syscall. constructor.
Qed.
End bookkeeping.
#[local] Hint Resolve inert_tick_by inert_tick inert_untick inert_note inert_modify_ledger
  inert_registry inert_get_ctl inert_next_id inert_now_epoch : frames.

(** ** The backends, through their promise *)

Context (Hbk : backends_owned).

Lemma owned_domain pin rs s d dom : owns pin rs s → domain s d = Some dom → OwnedDomain d dom.
Proof. intros Hs Hd. apply Hbk. by rewrite <- (owns_domain _ _ _ d Hs). Qed.

(** Every read of the state sees the attached backends. *)
Lemma triple_get {A} pin pre (k : RuntimeImpl → M RuntimeImpl A) Φ post :
  (∀ s, backends s = bk → pin (controls s) → triple (owns pin) pre (k s) Φ post) →
  triple (owns pin) pre (let! s := get in k s) Φ post.
Proof.
  intros Hk fr s Hs. rewrite bind_run. cbn [fst snd get]. destruct Hs as ([Hb ? ? ? ? ?] & Hp & ?) eqn:E.
  by apply Hk.
Qed.
Lemma backends_domain s d : backends s = bk → domain s d = domain_in d.
Proof. intros Hb. unfold domain, domain_in. by rewrite Hb. Qed.

Section through_backends.
Variable pin : gmap nat Control → Prop.
Abbreviation inert := (preserves (inert_on (owns pin))).

(** A computation that looks up a domain first. *)
Lemma inert_get {A} (k : RuntimeImpl → M RuntimeImpl A) :
  (∀ s, backends s = bk → inert (k s)) → inert (let! s := get in k s).
Proof.
  intros Hk s rs Hs. rewrite bind_run. cbn [fst snd get]. apply Hk; [|done]. apply Hs.
Qed.

Lemma inert_cap_for d : inert (cap_for d).
Proof.
  unfold cap_for, capacity_for. apply preserves_bind; [apply _| |intros; apply preserves_ret, _].
  apply inert_get. intros s Hb. destruct (domain s d) as [dom|] eqn:Hd; [|preserves_tac].
  rewrite backends_domain in Hd by done. apply preserves_bind; [apply _| |intros; preserves_tac].
  apply inert_on_machine. by apply (Hbk d dom Hd).
Qed.
#[local] Hint Resolve inert_cap_for : frames.
Lemma inert_reserve_amount ns d n : inert (reserve_amount ns d n).
Proof. unfold reserve_amount. preserves_tac. Qed.
Lemma inert_commit_amount ns d n : inert (commit_amount ns d n).
Proof. unfold commit_amount. preserves_tac. Qed.
Lemma inert_unreserve_amount ns d n : inert (unreserve_amount ns d n).
Proof. unfold unreserve_amount. preserves_tac. Qed.
Lemma inert_checkout_amount ns d n : inert (checkout_amount ns d n).
Proof. unfold checkout_amount. preserves_tac. Qed.
Lemma inert_release_amount ns d n p : inert (release_amount ns d n p).
Proof. unfold release_amount. preserves_tac. Qed.
Lemma inert_free_accounting ns d n : inert (free_accounting ns d n).
Proof. unfold free_accounting. preserves_tac. Qed.
Lemma inert_reserve_count ns : inert (reserve_count ns).
Proof. unfold reserve_count. preserves_tac. Qed.
Lemma inert_release_count ns : inert (release_count ns).
Proof. unfold release_count. preserves_tac. Qed.
Lemma inert_create_namespace c : inert (create_namespace c).
Proof. unfold create_namespace. preserves_tac. Qed.
Lemma inert_lookup_control i g : inert (lookup_control i g).
Proof. unfold lookup_control. preserves_tac. Qed.
(** Freeing, and its two forms in the runtime. *)
Lemma triple_free d dom a :
  domain_in d = Some dom → fits d a →
  triple (owns pin) (resources d a) (on_machine (IDomain.free dom a))
    (λ r, na_state r.2 = None) (λ _, []).
Proof. intros Hd Ha. apply triple_on_machine. by apply (od_free (OwnedDomain:=Hbk d dom Hd)). Qed.
Lemma owns_discard_with d dom a :
  domain_in d = Some dom → fits d a →
  triple (owns pin) (resources d a) (discard_with dom a) (λ _, True) (λ _, []).
Proof.
  intros Hd Ha. unfold discard_with. eapply triple_bind; [by apply triple_free|].
  intros r Hr. by apply triple_inert, inert_on_machine, drop_nothing.
Qed.
Lemma owns_discard_backing d a :
  usable d a → triple (owns pin) (resources d a) (discard_backing d a) (λ _, True) (λ _, []).
Proof.
  intros [[dom Hd] Ha]. unfold discard_backing. apply triple_get. intros s Hb _.
  rewrite (backends_domain s d Hb), Hd. by apply (owns_discard_with d).
Qed.
End through_backends.
#[local] Hint Resolve inert_cap_for inert_reserve_amount inert_commit_amount inert_unreserve_amount
  inert_checkout_amount inert_release_amount inert_free_accounting inert_reserve_count
  inert_release_count inert_create_namespace inert_lookup_control : frames.

(** ** The pool *)

Section pool.
Variable pin : gmap nat Control → Prop.

Lemma idle_bucket p key :
  map_bind slots_resources (pool_ p)
  ≡ₚ slots_resources key (bucket p key) ++ map_bind slots_resources (delete key (pool_ p)).
Proof.
  unfold bucket. destruct (pool_ p !! key) as [dq|] eqn:E; simpl.
  - by apply map_bind_delete.
  - by rewrite delete_id.
Qed.
(** Replacing a bucket: the resources of the old one are in hand, and those of the
    new one must be. *)
Lemma owns_set_bucket s key dq n1 n2 rs rs' :
  (∀ sl, sl ∈ dq → sl ∈ bucket (pool s) key ∨ usable (key_domain key) (slot_backing sl)) →
  slots_resources key (bucket (pool s) key) ++ rs ≡ₚ slots_resources key dq ++ rs' →
  owns pin rs s → owns pin rs' (set_pool (mkPool (<[key:=dq]> (pool_ (pool s))) n1 n2) s).
Proof.
  intros Hdq Hrs ([W1 W2 W3 W4 W6 W5] & Hp & Hm). split; [|split; [done|]].
  - constructor; [done..| |done|done]. intros k sl. cbn [pool set_pool]. rewrite bucket_replace.
    case_decide as Hk; [subst k|apply W4]. intros Hsl. destruct (Hdq sl Hsl); [by apply W4|done].
  - cbn [machine set_pool]. unfold visible_resources, other_resources, idle_resources in *.
    change (leaked_resources (set_pool ?p s)) with (leaked_resources s).
    cbn [controls pool set_pool pool_]. revert Hm. apply m_holds_perm. apply Permutation_app_head.
    rewrite (idle_bucket (pool s) key), (map_bind_delete _ (<[key:=dq]> _) key dq) by apply lookup_insert_eq.
    rewrite delete_insert_eq, <- !app_assoc. set (rest := map_bind _ (delete _ _)).
    rewrite !(app_assoc rest (leaked_resources s)). generalize (rest ++ leaked_resources s). intros r.
    by rewrite (Permutation_app_comm r), (Permutation_app_comm r), !app_assoc, Hrs.
Qed.
Lemma slots_resources_app key l1 l2 :
  slots_resources key (l1 ++ l2) = slots_resources key l1 ++ slots_resources key l2.
Proof. apply bind_app. Qed.
Lemma slots_resources_cons key sl l :
  slots_resources key (sl :: l) = resources (key_domain key) (slot_backing sl) ++ slots_resources key l.
Proof. done. Qed.

Definition taken_resources (d : MemoryDomain) (o : option PoolSlot) : list Resource :=
  match o with Some sl => resources d (slot_backing sl) | None => [] end.
Definition taken_usable (d : MemoryDomain) (o : option PoolSlot) : Prop :=
  match o with Some sl => usable d (slot_backing sl) | None => True end.

Lemma owns_pool_take key o n :
  triple (owns pin) [] (pool_take key o n) (taken_usable (key_domain key))
    (taken_resources (key_domain key)).
Proof.
  intros fr s Hs. rewrite pool_take_run. destruct (take_first n _) as [[sl rest]|] eqn:E; [|done].
  apply take_first_Some in E as (l1 & l2 & Hdq & -> & _). cbn [fst snd taken_usable taken_resources].
  split.
  - apply (wo_idle _ (proj1 Hs)). rewrite Hdq. set_solver.
  - apply inert_tick. eapply owns_set_bucket; [| |exact Hs].
    + intros x. left. rewrite Hdq. set_solver.
    + rewrite Hdq, !slots_resources_app, slots_resources_cons, <- !app_assoc.
      apply Permutation_app_head, Permutation_app_swap_app.
Qed.
Lemma owns_pool_put key sl :
  usable (key_domain key) (slot_backing sl) →
  triple (owns pin) (resources (key_domain key) (slot_backing sl)) (pool_put key sl)
    (λ _, True) (λ _, []).
Proof.
  intros Hsl.
  assert (triple (owns pin) (resources (key_domain key) (slot_backing sl))
            (tick pool_evictions ;;; discard_backing (key_domain key) (slot_backing sl) ;;; ret false)
            (λ _, True) (λ _, [])) as Hevict.
  { apply triple_inert_bind; [eauto with frames|]. intros _.
    eapply triple_bind; [by apply owns_discard_backing|]. intros ? _. by apply triple_ret. }
  unfold pool_put. intros fr s Hs. rewrite bind_run. cbn [fst snd get]. cbv zeta.
  destruct (_ || _); [by apply Hevict|].
  rewrite bind_run. cbn [ret fst snd modify]. split; [done|].
  eapply owns_set_bucket; [| |exact Hs].
  - intros x. rewrite elem_of_app, list_elem_of_singleton. intros [?| ->]; auto.
  - rewrite slots_resources_app, slots_resources_cons, <- !app_assoc. done.
Qed.
End pool.

(** ** Allocation *)

Section allocation.
Variable pin : gmap nat Control → Prop.

Definition request_usable (req : AllocationRequest) (r : Result NativeAllocation) : Prop :=
  match r with Ok a => usable (req_domain req) a | Fail _ => True end.

Lemma owns_take_from_pool req r n :
  rec_domain r = req_domain req →
  triple (owns pin) [] (take_from_pool req r n) (taken_usable (req_domain req))
    (taken_resources (req_domain req)).
Proof.
  intros Hr. unfold take_from_pool. apply triple_get. intros s _ _.
  destruct (_ && _); [|by apply triple_ret]. rewrite <- Hr.
  eapply triple_bind; [apply (owns_pool_take pin (make_pool_key (cfg s) r))|].
  intros [sl|] Hsl; (apply triple_inert_bind; [eauto with frames|]); intros _; by apply triple_ret.
Qed.

Lemma owns_fresh_backing dom req n al :
  domain_in (req_domain req) = Some dom → is_u64 n →
  triple (owns pin) [] (fresh_backing dom req n al) (request_usable req) (held_result (req_domain req)).
Proof.
  intros Hd Hn. unfold fresh_backing.
  eapply triple_bind; [apply triple_on_machine, (od_allocate (OwnedDomain:=Hbk _ dom Hd)), Hn|].
  intros [a|e] Ha; cbn [held_result fits_result] in *.
  - apply triple_inert_bind; [eauto with frames|]. intros [u|e].
    + apply triple_ret; [|done]. split; [by eexists|done].
    + eapply triple_bind; [by apply (owns_discard_with pin (req_domain req))|]. intros u _.
      do 3 (apply triple_inert_bind; [eauto with frames|]; intros _). by apply triple_ret.
  - do 3 (apply triple_inert_bind; [eauto with frames|]; intros _). by apply triple_ret.
Qed.

(** A device backing that is lost is no longer in hand. *)
Lemma owns_lose a :
  usable MemoryDomain.DEVICE a → (∀ l, losses l → losses ((MemoryDomain.DEVICE, a) :: l)) →
  triple (owns pin) (resources MemoryDomain.DEVICE a) (lose MemoryDomain.DEVICE a) (λ _, True) (λ _, []).
Proof.
  intros Ha Hl fr s ([W1 W2 W3 W4 [W6 W7] W5] & Hp & Hm). split; [done|].
  split; [|split; [done|]].
  - constructor; [done..| |done]. split; [by apply Hl|by constructor].
  - revert Hm. unfold lose, other_resources, leaked_resources. cbn. apply m_holds_perm.
    rewrite <- !app_assoc. do 2 apply Permutation_app_head. by rewrite <- Permutation_middle.
Qed.
(** Zeroing keeps what is in hand; if it fails, a fresh backing is freed, and one from the
    pool is lost. *)
Lemma owns_zero_backing dom req n a sl :
  domain_in (req_domain req) = Some dom → fits (req_domain req) a → affordable req →
  triple (owns pin) (resources (req_domain req) a) (zero_backing dom req n a sl)
    (λ _, True) (λ z, if is_ok z then resources (req_domain req) a else []).
Proof.
  intros Hd Ha Hafford. unfold zero_backing. apply triple_get. intros s0 _ _.
  destruct (wants_zero _ _ _); [|by apply triple_ret]. pose proof (Hbk _ dom Hd) as Hdom.
  eapply (triple_bind _ _ _ (λ z, req_domain req ≠ MemoryDomain.DEVICE → is_ok z = true)
            (λ _, resources (req_domain req) a)).
  { intros fr s Hs. split.
    - intros Hne. rewrite on_machine_run. by apply (od_zero (OwnedDomain:=Hdom)).
    - apply (triple_on_machine pin _ _ _ _ (od_zero_keeps (OwnedDomain:=Hdom) a (na_committed a) Ha
        (proj1 (proj2 Ha))) fr s Hs). }
  intros [u|e] Hz.
  { apply triple_inert_bind; [eauto with frames|]. intros _. by apply triple_ret. }
  destruct (decide (req_domain req = MemoryDomain.DEVICE)) as [Hdev|Hne]; [|by specialize (Hz Hne)].
  eapply (triple_bind _ _ _ (λ _, True) (λ _, [])).
  - destruct sl as [sl|].
    + apply triple_inert_bind; [eauto with frames|]. intros _. apply triple_inert_bind.
      { apply inert_on_machine, drop_nothing. rewrite Hdev in Ha. apply Ha. }
      intros _. rewrite Hdev in *. apply owns_lose; [by split|]. intros l. by apply Hafford.
    + apply triple_inert_bind; [eauto with frames|]. intros _.
      eapply triple_bind; [by apply (owns_discard_with pin (req_domain req))|]. intros u _.
      apply triple_inert. eauto with frames.
  - intros u _. apply triple_inert_bind; [eauto with frames|]. intros _. by apply triple_ret.
Qed.

Definition record_resources (r : Result BufferRecord) : list Resource :=
  match r with Ok r => resources (rec_domain r) (rec_backing r) | Fail _ => [] end.
Definition record_usable (r : Result BufferRecord) : Prop :=
  match r with
  | Ok r => record_ok r
  | Fail _ => True
  end.

Lemma owns_allocate_reserved dom req al n :
  domain_in (req_domain req) = Some dom → is_u64 n → is_u64 (req_size req) → affordable req →
  triple (owns pin) [] (allocate_reserved dom req al n) record_usable record_resources.
Proof.
  intros Hd Hn Hsz Hafford. unfold allocate_reserved.
  do 2 (apply triple_inert_bind; [eauto with frames|]; intros ?). cbv zeta.
  eapply triple_bind; [by apply owns_take_from_pool|]. intros slot Hslot.
  eapply (triple_bind _ _ _ (request_usable req) (held_result (req_domain req))).
  { destruct slot as [sl|]; [by apply triple_ret|]. by apply owns_fresh_backing. }
  intros [na|e] Ha; cbn [held_result request_usable] in *; [|by apply triple_ret].
  eapply triple_bind; [apply owns_zero_backing; [done|apply Ha|done]|].
  intros [u|e] _; [|by apply triple_ret]. apply triple_get. intros s _ _. apply triple_ret; [|done].
  constructor; [done|done|done|apply Ha|done].
Qed.

Lemma owns_allocate_record req :
  is_u64 (req_size req) → affordable req →
  (∀ al n s, backends s = bk → validate_request s req = Ok (al, n) → is_u64 n) →
  triple (owns pin) [] (allocate_record req) record_usable record_resources.
Proof.
  intros Hsz Hafford Hval. unfold allocate_record. apply triple_get. intros s Hb _.
  destruct (closed_ s); [by apply triple_ret|].
  destruct (validate_request s req) as [[al n]|e] eqn:Hv.
  2: { apply triple_inert_bind; [eauto with frames|]. intros _. by apply triple_ret. }
  apply triple_inert_bind; [eauto with frames|]. intros [u|e].
  2: { apply triple_inert_bind; [eauto with frames|]. intros _. by apply triple_ret. }
  apply triple_inert_bind; [eauto with frames|]. intros [u'|e].
  2: { do 3 (apply triple_inert_bind; [eauto with frames|]; intros _). by apply triple_ret. }
  rewrite (backends_domain s _ Hb). destruct (domain_in (req_domain req)) as [dom|] eqn:Hd;
    [|by apply triple_ret].
  apply owns_allocate_reserved; [done| |done..]. by eapply Hval.
Qed.

(** The new control block takes what its record stands for. *)
Lemma owns_register r :
  record_usable (Ok r) →
  triple (owns (λ _, True)) (record_resources (Ok r)) (register_control r)
    (λ _, True) (λ _, []).
Proof.
  intros Hr fr s Hs. unfold register_control. rewrite bind_run. cbn [fst snd get]. cbv zeta.
  split; [done|]. rewrite bind_run.
  assert (controls s !! size (controls s) = None) as Hnew.
  { apply eq_None_not_Some. intros Hx. apply (wo_dense _ (proj1 Hs)) in Hx. lia. }
  assert (hidden_blocks !! size (controls s) = None) as Hvis.
  { apply eq_None_not_Some. intros [k0 Hk0]. destruct (wo_hidden _ (proj1 Hs) _ _ Hk0) as (k & Hk & _). congruence. }
  set (s1 := (modify _ s).2). assert (owns (λ _, True) fr s1) as Hs1.
  { destruct Hs as ([W1 W2 W3 W4 W6 W5] & _ & Hm). split; [|split; [done|]].
    - constructor; [done| | |done|done|]; intros c; unfold s1; cbn [modify snd controls set_controls].
      + rewrite map_size_insert_None by done. rewrite lookup_insert_is_Some'.
        intros [<-|Hc]; [lia|]. apply W2 in Hc. lia.
      + intros k. rewrite lookup_insert. case_decide; [by intros [= <-] _|apply W3].
      + intros k0 Hk0. destruct (W5 c k0 Hk0) as (k & Hk & Hso). exists k. split; [|done].
        rewrite lookup_insert_ne; [done|]. intros Hc. rewrite Hc in Hnew. congruence.
    - unfold s1. cbn [modify snd machine set_controls]. unfold visible_resources in *.
      change (other_resources (set_controls ?m s)) with (other_resources s).
      cbn [controls set_controls]. revert Hm. apply m_holds_perm.
      rewrite map_bind_insert by done. rewrite visible_when by done. unfold ctl_resources. cbn [finalized Control_new rec].
      rewrite <- app_assoc, (app_assoc (map_bind _ _)), Permutation_app_swap_app, <- app_assoc. done. }
  assert (preserves (inert_on (owns (λ _, True)))
    (modify (λ s0, set_registry (<[rec_id r:=size (controls s)]> (registry_ s0)) s0) ;;;
     tick total_allocations ;;; tick active_buffers ;;; tick outstanding_allocations ;;;
     tick_by bytes_requested (rec_size r) ;;; ret (size (controls s)))) as Hi by preserves_tac.
  exact (Hi s1 fr Hs1).
Qed.
End allocation.

(** ** Finalization *)

Abbreviation any := (λ _ : gmap nat Control, True).

Lemma owns_zero_on_release pin r :
  record_ok r →
  triple (owns pin) (resources (rec_domain r) (rec_backing r)) (zero_on_release r) (λ _, True)
    (λ _, resources (rec_domain r) (rec_backing r)).
Proof.
  intros [[_ Hfit] _ _ Hco _]. unfold zero_on_release. apply triple_get. intros s Hb _.
  rewrite (backends_domain s (rec_domain r) Hb).
  destruct (namespace_info s (rec_ns r)) as [nc|]; [|by apply triple_ret].
  destruct (domain_in (rec_domain r)) as [dom|] eqn:Hd; [|destruct (zeroing nc); by apply triple_ret].
  assert (triple (owns pin) (resources (rec_domain r) (rec_backing r))
    (let! _ := on_machine (IDomain.zero dom (rec_backing r) 0 (rec_committed r)) in tick zero_count)
    (λ _, True) (λ _, resources (rec_domain r) (rec_backing r))) as Hz.
  { eapply triple_bind; [by apply triple_on_machine, (od_zero_keeps (OwnedDomain:=Hbk _ dom Hd))|].
    intros ? _. apply triple_inert. eauto with frames. }
  by destruct (zeroing nc); [apply triple_ret|apply triple_ret| | |].
Qed.

Lemma present_backing d a : usable d a → backing_present a = true.
Proof. intros [_ (Hp & _)]. unfold backing_present. by rewrite (proj2 (Z.eqb_neq _ _) Hp). Qed.

(** Everything [finalize] does to the control block keeps it finalized. *)
Ltac step_inert :=
  apply triple_inert_bind;
    [first [apply inert_upd_final; done | solve [eauto with frames]]|intros _].

Lemma owns_dispose c r b :
  record_ok r →
  triple (owns (final_at c)) (resources (rec_domain r) (rec_backing r)) (dispose_backing c r b)
    (λ _, True) (λ _, []).
Proof.
  intros Hr. pose proof Hr as [Hu Ho _ _ _]. unfold dispose_backing. apply triple_get. intros s Hb _.
  rewrite (present_backing _ _ Hu), bool_decide_eq_false_2 by done. cbn [negb andb].
  destruct (_ && _).
  - eapply triple_bind; [by apply owns_zero_on_release|]. intros ? _. step_inert.
    eapply triple_bind; [by apply (owns_pool_put _ (make_pool_key (cfg s) r) (mkPoolSlot _ _ _ _))|].
    intros went _. apply triple_inert_bind; [|intros _; by apply triple_ret].
    destruct went; eauto with frames.
  - apply triple_inert_bind.
    { destruct (bool_decide _); [by apply inert_upd_final|apply preserves_ret, _]. }
    intros _. eapply triple_bind; [by apply owns_discard_backing|]. intros ? _.
    do 2 step_inert. by apply triple_ret.
Qed.
Lemma owns_finalize_record c r b :
  record_ok r →
  triple (owns (final_at c)) (resources (rec_domain r) (rec_backing r)) (finalize_record c r b)
    (λ _, True) (λ _, []).
Proof.
  intros Hr. unfold finalize_record. eapply triple_bind; [by apply owns_dispose|]. intros went _.
  apply triple_inert_bind; [by apply inert_upd_final|]. intros _.
  apply triple_inert. preserves_tac.
Qed.
(** Finalizing a buffer gives back exactly what its backing stands for. *)
Lemma owns_finalize c b rs s :
  is_Some (controls s !! c) → hidden_blocks !! c = None → owns any rs s → owns any rs (finalize c b s).2.
Proof.
  intros [k Hk] Hc Hs. unfold finalize. rewrite bind_run. cbn [fst snd get_ctl gets].
  assert (ctl_at s c = k) as -> by (unfold ctl_at; by rewrite Hk).
  destruct (finalized k) eqn:Hf; [done|]. pose proof (wo_live _ (proj1 Hs) c k Hk Hf) as Hr.
  rewrite bind_run. cbn [upd_ctl modify snd]. rewrite (alter_insert_Some _ _ c k Hk).
  assert (owns (final_at c) (resources (rec_domain (rec k)) (rec_backing (rec k)) ++ rs)
            (set_controls (<[c:=set_finalized true k]> (controls s)) s)) as Hs1.
  { eapply owns_set_ctl; [exact Hk|by left|done| | |exact Hs].
    - split; [done|]. eexists. by rewrite lookup_insert_eq.
    - rewrite !visible_when by done. unfold ctl_resources. by rewrite Hf. }
  destruct (owns_finalize_record c (rec k) b Hr rs _ Hs1) as [_ Hs2].
  by eapply owns_pin; [|exact Hs2].
Qed.
Lemma owns_drop_ref c rs s :
  is_Some (controls s !! c) → hidden_blocks !! c = None ∨ refs (ctl_at s c) ≠ 1 → owns any rs s → owns any rs (drop_ref c s).2.
Proof.
  intros Hc Hlast Hs. unfold drop_ref. rewrite bind_run. cbn [fst snd get_ctl gets]. cbv zeta.
  rewrite bind_run.
  assert (owns any rs (upd_ctl c (set_refs (refs (ctl_at s c) - 1)) s).2) as Hs1.
  { apply (inert_upd_ctl any c (set_refs _)); [by constructor|done|exact Hs]. }
  destruct (_ =? 1) eqn:H1; [|exact Hs1]. bool_prop. destruct Hlast; [|done].
  apply owns_finalize; [by apply upd_ctl_some|done|exact Hs1].
Qed.

(** ** Trimming the pool *)

Lemma discard_backing_set_pool d a p s :
  discard_backing d a (set_pool p s) = (tt, set_pool p (discard_backing d a s).2).
Proof.
  unfold discard_backing, discard_with. rewrite !bind_run. cbn [fst snd get].
  change (domain (set_pool p s) d) with (domain s d).
  destruct (domain s d) as [dom|]; rewrite ?bind_run, !on_machine_run; cbn [fst snd];
    by destruct (drop_state _ _) as [[] m].
Qed.
Lemma owns_trim_slot rs : trim_invariant (owns any rs).
Proof.
  intros key sl rest s Hb Hs. unfold pool_trim_slot. rewrite !bind_run.
  assert (usable (key_domain key) (slot_backing sl)) as Hu.
  { apply (wo_idle _ (proj1 Hs)). rewrite Hb. by left. }
  (* for what is held, the slot may as well leave the pool before it is freed *)
  set (p' := mkPool (<[key:=rest]> (pool_ (pool s))) 0 0).
  assert (owns any (resources (key_domain key) (slot_backing sl) ++ rs) (set_pool p' s)) as H0.
  { eapply owns_set_bucket; [| |exact Hs].
    - intros x Hx. left. rewrite Hb. by right.
    - rewrite Hb, slots_resources_cons, <- app_assoc. apply Permutation_app_swap_app. }
  destruct (owns_discard_backing any _ _ Hu rs _ H0) as [_ H1]. rewrite discard_backing_set_pool in H1.
  destruct (discard_backing_pool (key_domain key) (slot_backing sl) s) as [Hp _ _ _].
  eapply owns_same; [..|exact H1]; try done.
  cbn [modify snd set_pool pool pool_]. set (s1 := (discard_backing _ _ s).2) in *.
  change (pool (free_accounting _ _ _ s1).2) with (pool s1). by rewrite Hp, Hb.
Qed.
Lemma owns_pool_trim rs s :
  owns any rs s → owns any rs (pool_trim s).2 ∧ idle_resources (pool_trim s).2 = [].
Proof.
  intros Hs. destruct (pool_trim_inv _ s (owns_trim_slot rs) Hs) as [Hs' Hb]. split; [done|].
  apply map_bind_nil. intros k dq Hk. specialize (Hb k). unfold bucket in Hb. rewrite Hk in Hb.
  simpl in Hb. by subst dq.
Qed.
End ownership.

(** What may have been lost, stated another way. *)
Lemma owns_losses `{P : Platform} {O : OsResources P} {hide : Hidden} (L L' : Losses) bk pin rs s :
  owns (may_lose := L) bk pin rs s → L' (leaked s) → owns (may_lose := L') bk pin rs s.
Proof. intros ([W1 W2 W3 W4 [_ W6] W5] & Hp & Hm) Hl. split; [by constructor|]. by split. Qed.

#[export] Hint Resolve inert_tick_by inert_tick inert_untick inert_note inert_modify_ledger
  inert_registry inert_get_ctl inert_next_id inert_now_epoch inert_cap_for inert_reserve_amount
  inert_commit_amount inert_unreserve_amount inert_checkout_amount inert_release_amount
  inert_free_accounting inert_reserve_count inert_release_count inert_create_namespace
  inert_lookup_control : frames.
