(* ===== verification/Conservation.v ===== *)
(** Conservation of the operating system's resources over whole client programs:
    nothing the library obtains is leaked, and nothing is given back twice. *)
From S2P Require Import Prelude Types CheckedMath Platform Resources HostBackend SharedBackend.
From S2P Require Import FileBackend CudaBackend Domain State Sim Ledger Pool Lifecycle Runtime.
From S2P Require Import Handle Facade SimResources.
From S2P Require Import SimRuntime Frames RefSpec Refcount Clients Backing Allocation Charges.
From S2P Require Import Release Ownership.

(** ** Where slots are lost *)

Section losses.
Context {P : Platform}.
Implicit Types s : RuntimeImpl.

Definition keeps_losses s s' : Prop := leaked s' = leaked s.
#[local] Instance keeps_losses_preorder : PreOrder keeps_losses.
Proof. split; unfold keeps_losses; congruence. Qed.
(** A request for [d] that fails may lose one block; one that succeeds loses none. *)
Definition loses {A} (d : MemoryDomain) (m : M RuntimeImpl (Result A)) : Prop :=
  ∀ s, leaked (m s).2 = leaked s ∨ is_ok (m s).1 = false ∧ ∃ a, leaked (m s).2 = (d, a) :: leaked s.

Lemma loses_keep {A} d (m : M RuntimeImpl (Result A)) : preserves keeps_losses m → loses d m.
Proof. intros Hm s. left. apply Hm. Qed.
Lemma loses_after {A B} d (m : M RuntimeImpl A) (f : A → M RuntimeImpl (Result B)) :
  preserves keeps_losses m → (∀ a, loses d (f a)) → loses d (bind m f).
Proof.
  intros Hm Hf s. rewrite bind_run. specialize (Hm s). unfold keeps_losses in Hm. rewrite <- Hm. apply Hf.
Qed.
Lemma loses_then {A B} d (m : M RuntimeImpl (Result A)) (f : Result A → M RuntimeImpl (Result B)) :
  loses d m → (∀ r, preserves keeps_losses (f r)) → (∀ e s, is_ok (f (Fail e) s).1 = false) → loses d (bind m f).
Proof.
  intros Hm Hk Hf s. rewrite bind_run. specialize (Hk (m s).1 (m s).2). unfold keeps_losses in Hk. rewrite Hk.
  destruct (Hm s) as [Hs|(Hno & Ha)]; [by left|]. right. split; [|done]. destruct (m s).1; [done|]. apply Hf.
Qed.
Ltac keeps_leaf :=
  match goal with
  | |- preserves _ (modify _) => intros ?; reflexivity
  | |- preserves _ (on_machine ?f) => let s := fresh in intros s; unfold keeps_losses, on_machine; by destruct (f (machine s))
  | |- preserves _ (upd_ctl _ _) => intros ?; reflexivity
  | |- preserves _ (?m _ _ _ _) => unfold m
  | |- preserves _ (?m _ _ _) => unfold m
  | |- preserves _ (?m _ _) => unfold m
  | |- preserves _ (?m _) => unfold m
  | |- preserves _ ?m => unfold m
  end.
Ltac keeps_tac := repeat first [preserves_step | progress cbv beta zeta | keeps_leaf].
Lemma keeps_take req r n : preserves keeps_losses (take_from_pool req r n).
Proof. unfold take_from_pool. keeps_tac. Qed.
Lemma keeps_fresh dom req n al : preserves keeps_losses (fresh_backing dom req n al).
Proof. unfold fresh_backing. keeps_tac. Qed.
Ltac keeps_more := repeat first [apply keeps_take | apply keeps_fresh | preserves_step | progress cbv beta zeta | keeps_leaf].
Lemma loses_zero dom req n a slot : loses (req_domain req) (zero_backing dom req n a slot).
Proof.
  unfold zero_backing. apply loses_after; [keeps_tac|]. intros s0. destruct (wants_zero _ _ _); [|apply loses_keep; keeps_tac].
  apply loses_after; [keeps_tac|]. intros [z|e]; [apply loses_keep; keeps_tac|]. destruct slot.
  2: { apply loses_keep. keeps_tac. }
  intros s. right. rewrite !bind_run. cbn [ret fst snd]. split; [done|]. exists a. cbn [tick lose modify snd leaked].
  assert (∀ A (m : M RuntimeImpl A) s, preserves keeps_losses m → leaked (m s).2 = leaked s) as Hkeep by (intros ??? Hm; apply Hm).
  change (leaked (lose (req_domain req) a (on_machine (drop_state a) (free_accounting (req_ns req) (req_domain req) (na_committed a) s).2).2).2
    = (req_domain req, a) :: leaked s).
  cbn [lose modify snd leaked]. f_equal.
  rewrite (Hkeep _ (on_machine _)) by keeps_tac. apply Hkeep. keeps_tac.
Qed.
Lemma loses_record req : loses (req_domain req) (allocate_record req).
Proof.
  unfold allocate_record, allocate_reserved.
  repeat first [ apply loses_after; [solve [keeps_more]|intros ?] | apply loses_then; [apply loses_zero| |] |
    match goal with |- loses _ (if ?b then _ else _) => destruct b | |- loses _ (match ?x with _ => _ end) => destruct x end
    | apply loses_keep; solve [keeps_more] ].
  all: try done. intros []; keeps_more. Qed.
Lemma loses_allocate req : loses (req_domain req) (Runtime_allocate true req).
Proof.
  unfold Runtime_allocate, guarded. apply loses_after; [by intros ?|]. intros s0.
  destruct (closed_ s0); [by apply loses_keep; intros ?|].
  apply loses_then; [apply loses_record| |done]. intros []; keeps_more.
Qed.
End losses.

(** ** Conservation *)

Section conservation.
Context {P : Platform} {O : OsResources P} {hide : Hidden} {may_lose : Losses}.
Implicit Types s : RuntimeImpl.
Context (bk : Backends) (Hbk : backends_owned bk).

Abbreviation any := (λ _ : gmap nat Control, True).
Abbreviation holding := (owns bk any).

(** ** Migration *)

(** The end of a migration: the release of the old authority. *)
Definition retire (target : MemoryDomain) (r : BufferRecord) : M RuntimeImpl unit :=
  (if backing_present (rec_backing r) then
     discard_backing (rec_domain r) (rec_backing r) ;;;
     free_accounting (rec_ns r) (rec_domain r) (rec_committed r)
   else on_machine (drop_state (rec_backing r))) ;;;
  tick migration_count ;;;
  note "migrate" (MemoryDomain.MemoryDomain_to_string (rec_domain r) +:+ " -> "
                  +:+ MemoryDomain.MemoryDomain_to_string target +:+ " id="
                  +:+ pretty (lo (rec_id r))).
Lemma owns_retire target r :
  record_ok bk r →
  triple holding (resources (rec_domain r) (rec_backing r)) (retire target r) (λ _, True) (λ _, []).
Proof.
  intros [Hu _ _ _ _]. unfold retire. rewrite (present_backing _ _ _ Hu).
  eapply (triple_bind _ _ _ (λ _, True) (λ _, [])).
  - eapply triple_bind; [by apply owns_discard_backing|]. intros ? _. apply triple_inert. eauto with frames.
  - intros ? _. apply triple_inert. preserves_tac.
Qed.
Lemma retire_keeps target r s :
  controls (retire target r s).2 = controls s ∧ pool_ (pool (retire target r s).2) = pool_ (pool s)
  ∧ leaked (retire target r s).2 = leaked s.
Proof.
  split.
  - assert (preserves quiet (retire target r)) as Hq by (unfold retire; preserves_tac).
    by rewrite (q_controls _ _ (Hq s)).
  - unfold retire. rewrite !bind_run. destruct (backing_present _); [|by rewrite on_machine_run].
    rewrite !bind_run. set (s2 := (discard_backing _ _ s).2).
    change (pool_ (pool s2) = pool_ (pool s) ∧ leaked s2 = leaked s). unfold s2.
    by destruct (discard_backing_pool (rec_domain r) (rec_backing r) s) as [-> _ _ ->].
Qed.

Section migration.
Variables (c : nat) (k : Control) (target : MemoryDomain) (tdom : IDomain).
Hypothesis Htarget : domain_in bk target = Some tdom.
Hypothesis Hlive : finalized k = false.
Let at_k (m : gmap nat Control) : Prop := m !! c = Some k.

(** The fill keeps the new backing, or gives it back. *)
Lemma owns_migrate_fill r n nb :
  fits target nb →
  triple (owns bk at_k) (resources target nb) (migrate_fill r tdom target n nb) (λ _, True)
    (λ st, if is_ok st then resources target nb else []).
Proof.
  intros Hnb. unfold migrate_fill. cbv zeta.
  assert (triple (owns bk at_k) (resources target nb) (discard_with tdom nb) (λ _, True) (λ _, [])) as Hd
    by by apply owns_discard_with.
  assert (∀ e, triple (owns bk at_k) (resources target nb)
    (discard_with tdom nb ;;; unreserve_amount (rec_ns r) target n ;;; ret (rethrow e))
    (λ _, True) (λ st : Status, if is_ok st then resources target nb else [])) as Hfail.
  { intros e. eapply triple_bind; [exact Hd|]. intros ? _.
    apply triple_inert_bind; [eauto with frames|]. intros _. by apply triple_ret. }
  eapply triple_bind; [apply triple_on_machine, triple_copy_into; [done|lia]|].
  intros [u|e] _; [|apply Hfail].
  apply triple_inert_bind; [eauto with frames|]. intros [u'|e]; [|apply Hfail].
  eapply triple_bind.
  { apply triple_on_machine, (od_verify_keeps (OwnedDomain:=Hbk _ _ Htarget)); [done|apply Hnb]. }
  intros [v|e] _; [by apply triple_ret|]. eapply triple_bind; [by apply triple_free|].
  intros fr Hfr. cbv beta in Hfr.
  apply triple_inert_bind; [destruct (bool_decide _); [apply preserves_ret, _|eauto with frames]|].
  intros ?. apply triple_inert_bind; [eauto with frames|]. intros ?.
  apply triple_inert_bind; [by apply inert_on_machine, drop_nothing|]. intros _. by apply triple_ret.
Qed.

(** Nothing that the process holds overlaps [l] any more. *)
Definition gone (l rs : list Resource) s : Prop :=
  ∀ r0 r, r0 ∈ l → r ∈ visible_resources s ++ other_resources s ++ rs → apart r0 r.
Lemma holding_gone l rs s : holding (l ++ rs) s → gone l rs s.
Proof.
  intros (_ & _ & Hm) r0 r Hr0 Hr. apply elem_of_Permutation in Hr0 as [l' Hl].
  rewrite (app_assoc (visible_resources s)), Permutation_app_swap_app, <- app_assoc, Hl in Hm.
  apply (held_apart r0 r _ _ Hm). set_solver.
Qed.
Lemma gone_same l rs s s' :
  controls s' = controls s → pool_ (pool s') = pool_ (pool s) → leaked s' = leaked s →
  gone l rs s → gone l rs s'.
Proof.
  intros H1 H2 H3. unfold gone, visible_resources, other_resources, idle_resources, leaked_resources.
  by rewrite H1, H2, H3.
Qed.
Definition migrated_ok (r : BufferRecord) (nb : NativeAllocation) : Prop :=
  fits target nb ∧ record_ok bk r.
(** The swap: the control block owns the new backing, the old one is in hand. *)
Lemma owns_rebind tdev nb rs s :
  hidden_blocks !! c = None → migrated_ok (rec k) nb → owns bk at_k (resources target nb ++ rs) s →
  holding (resources (rec_domain (rec k)) (rec_backing (rec k)) ++ rs)
    (set_controls (<[c := set_rec (λ _, migrated_record (rec k) tdom target tdev nb) k]> (controls s)) s).
Proof.
  intros Hvis [Hnb [Hu Ho Hsz Hco Hba]] Hs. pose proof (proj1 (proj2 Hs)) as Hk. unfold at_k in Hk.
  eapply owns_set_ctl; [exact Hk|by left| |done| |exact Hs].
  - intros _ _. constructor; [|exact Ho|exact Hsz|apply Hnb|done]. split; [by eexists|exact Hnb].
  - rewrite !visible_when by done. unfold ctl_resources. cbn [finalized set_rec rec].
    rewrite Hlive. apply Permutation_app_swap_app.
Qed.
Lemma migrate_commit_split tdev nb s :
  controls s !! c = Some k →
  migrate_commit c (rec k) tdom target tdev nb s
  = retire target (rec k)
      (set_controls (<[c := set_rec (λ _, migrated_record (rec k) tdom target tdev nb) k]> (controls s)) s).
Proof.
  intros Hk. unfold migrate_commit. rewrite bind_run. cbn [upd_ctl modify snd].
  by rewrite (alter_insert_Some _ _ c k Hk).
Qed.
Lemma owns_migrate_commit tdev nb rs s :
  hidden_blocks !! c = None → migrated_ok (rec k) nb → owns bk at_k (resources target nb ++ rs) s →
  let s' := (migrate_commit c (rec k) tdom target tdev nb s).2 in
  holding rs s' ∧ gone (resources (rec_domain (rec k)) (rec_backing (rec k))) rs s'.
Proof.
  intros Hvis Hok Hs. cbv zeta. pose proof (owns_rebind tdev nb rs s Hvis Hok Hs) as Hs1. destruct Hok as [_ Hr].
  rewrite migrate_commit_split by apply Hs. set (s1 := set_controls _ s) in *. clearbody s1.
  split; [apply (owns_retire target (rec k) Hr rs s1 Hs1)|]. apply holding_gone in Hs1.
  destruct (retire_keeps target (rec k) s1) as (? & ? & ?). by eapply gone_same.
Qed.

(** A migration that takes place gives the old backing back; one that does not leaves
    the buffer alone. *)
Lemma owns_migrate rs s :
  controls s !! c = Some k → holding rs s →
  let q := migrate c target s in
  hidden_blocks !! c = None ∨ is_ok q.1 = false ∨ rec_domain (rec k) = target →
  holding rs q.2 ∧ (is_ok q.1 = true → rec_domain (rec k) ≠ target →
                    gone (resources (rec_domain (rec k)) (rec_backing (rec k))) rs q.2).
Proof.
  intros Hk Hs. cbv zeta. unfold migrate. rewrite bind_run. cbn [fst snd get]. cbv zeta.
  assert (ctl_at s c = k) as -> by (unfold ctl_at; by rewrite Hk).
  destruct (closed_ s); [done|]. destruct (bool_decide _) eqn:Hd; [by bool_prop|]. destruct (_ || _); [done|].
  bool_prop.
  destruct (_ || _); [split; [by apply (inert_tick bk any)|done]|].
  rewrite (owns_domain _ _ _ _ target Hs), Htarget.
  pose proof (wo_live _ _ (proj1 Hs) c k Hk Hlive) as Hr.
  assert (owns bk at_k rs s) as Hs0 by (by eapply owns_pin; [|exact Hs]).
  set (n := if rec_committed (rec k) =? 0 then rec_size (rec k) else rec_committed (rec k)).
  assert (is_u64 n) as Hn by (unfold n; destruct (_ =? 0); apply Hr).
  rewrite bind_run. pose proof (inert_reserve_amount bk Hbk at_k (rec_ns (rec k)) target n s rs Hs0) as H1.
  destruct (reserve_amount _ _ _ s) as [[u|e] s1]; cbn [fst snd] in *;
    [|split; [by eapply owns_pin; [|exact H1]|done]].
  rewrite bind_run.
  pose proof (triple_on_machine bk at_k _ _ _ _ (od_allocate (OwnedDomain:=Hbk _ _ Htarget) n
    (rec_alignment (rec k)) Hn) rs s1 H1) as [Hnb H2].
  destruct (on_machine _ s1) as [[nb|e] s2]; cbn [fst snd fits_result held_result] in *.
  2: { rewrite bind_run. split; [|done]. by eapply owns_pin; [|eapply (inert_unreserve_amount bk at_k), H2]. }
  rewrite bind_run. destruct (owns_migrate_fill (rec k) n nb Hnb rs s2 H2) as [_ H3].
  destruct (migrate_fill _ _ _ _ _ s2) as [[u'|e] s3]; cbn [fst snd is_ok] in *;
    [|split; [by eapply owns_pin; [|exact H3]|done]].
  rewrite bind_run. intros [Hvis|[?|?]]; [|done..]. set (tdev := if bool_decide (target = _) then _ else _).
  destruct (owns_migrate_commit tdev nb rs s3 Hvis (conj Hnb Hr) H3). by split.
Qed.
End migration.

(** ** Import *)

Lemma owns_register_result r rs s :
  record_ok bk r → holding (resources (rec_domain r) (rec_backing r) ++ rs) s →
  holding rs (register_control r s).2.
Proof. intros Hr Hs. by apply (owns_register bk r Hr rs s). Qed.

Lemma owns_import desc ns label :
  is_u64 (d_size desc) → triple holding [] (import_descriptor desc ns label) (λ _, True) (λ _, []).
Proof.
  intros Hsz. unfold import_descriptor. apply triple_get. intros s Hb _.
  destruct (import_rejects s desc ns); [by apply triple_ret|].
  do 2 (apply triple_inert_bind; [eauto with frames|]; intros ?).
  destruct (handle_domain (d_domain desc)) eqn:Hh.
  - rewrite (backends_domain bk s _ Hb). destruct (domain_in bk (d_domain desc)) as [dom|] eqn:Hd;
      [|by apply triple_ret].
    eapply triple_bind; [apply triple_on_machine, (od_import (OwnedDomain:=Hbk _ _ Hd)), Hsz|].
    intros [na|e] Hna; cbn [fits_result held_result] in *; [|by apply triple_ret].
    destruct (_ <? _) eqn:Hsmall; bool_prop.
    + eapply triple_bind; [apply triple_on_machine, triple_drop_state; [done|]|].
      { destruct (d_domain desc); try done; auto. }
      intros ? _. by apply triple_ret.
    + cbv zeta. apply triple_inert_bind; [destruct (_ && _); preserves_tac|]. intros ?.
      do 2 (apply triple_inert_bind; [eauto with frames|]; intros ?).
      eapply triple_bind; [apply (owns_register bk (imported_record desc ns label _ _ na))|].
      * constructor; [split; [by eexists|done]|done..].
      * intros ? _. by apply triple_ret.
  - apply triple_inert. preserves_tac.
Qed.
(** ** The operations of a client *)

(** [managed] operations: sizes are machine words; memory of the application is not
    wrapped, and the backends stay attached (no shutdown). *)
Definition managed (o : ClientOp) : Prop :=
  match o with
  | OAllocate req => is_u64 (req_size req) ∧ is_u64 (req_alignment req)
  | OImport desc _ _ => is_u64 (d_size desc)
  | OWrapExternal _ | OShutdown => False
  | _ => True
  end.

Lemma inert_retain pin c :
  (∀ m, pin m → pin (alter (λ k, set_refs (refs k + 1) k) c m)) →
  preserves (inert_on (owns bk pin)) (retain c).
Proof. intros Hpin. apply inert_upd_ctl; [by constructor|done]. Qed.
Lemma inert_new_handle c : preserves (inert_on holding) (new_handle c).
Proof. unfold new_handle. apply preserves_bind; [apply _|by apply inert_retain|]. intros. preserves_tac. Qed.
Lemma inert_handle_result r : preserves (inert_on holding) (handle_result r).
Proof.
  unfold handle_result. destruct r; [|apply preserves_ret, _].
  apply preserves_bind; [apply _|apply inert_new_handle|]. intros. apply preserves_ret, _.
Qed.
(** A change of the protocol members or of the state of a control block. *)
Lemma inert_upd c f : (∀ k, same_owner k (f k)) → preserves (inert_on holding) (upd_ctl c f).
Proof. intros Hf. by apply inert_upd_ctl. Qed.
Lemma inert_with_handle {A} h chk (k : nat → M RuntimeImpl (Result A)) :
  (∀ c, preserves (inert_on holding) (k c)) → preserves (inert_on holding) (with_handle h chk k).
Proof.
  intros Hk. unfold with_handle. apply preserves_bind; [apply _|apply preserves_get, _|].
  intros s. destruct (chk s), (h_ctl h); apply Hk || apply preserves_ret, _.
Qed.
(** A call of an attached backend, through its promise. *)
Lemma inert_on_domain {A B} d (f : IDomain → M Machine A) (k : A → M RuntimeImpl B) (x : M RuntimeImpl B) s :
  backends s = bk → (∀ dom, OwnedDomain d dom → preserves (inert_on m_holds) (f dom)) →
  (∀ a, preserves (inert_on holding) (k a)) → preserves (inert_on holding) x →
  preserves (inert_on holding)
    (match domain s d with Some dom => let! a := on_machine (f dom) in k a | None => x end).
Proof.
  intros Hb Hf Hk Hx. rewrite (backends_domain bk s d Hb). destruct (domain_in bk d) as [dom|] eqn:Hd; [|done].
  apply preserves_bind; [apply _| |exact Hk]. by apply inert_on_machine, Hf, Hbk.
Qed.

Lemma inert_export_descriptor c : preserves (inert_on holding) (export_descriptor c).
Proof.
  unfold export_descriptor. apply (inert_get bk). intros s Hb. cbv zeta.
  destruct (negb _); [preserves_tac|]. rewrite (backends_domain bk s _ Hb).
  destruct (domain_in bk _) as [dom|] eqn:Hd; [|preserves_tac].
  apply preserves_bind; [apply _| |intros; preserves_tac]. destruct (handle_domain _); [|preserves_tac].
  apply preserves_bind; [apply _| |intros; preserves_tac].
  by apply inert_on_machine, (od_export_inert (OwnedDomain:=Hbk _ _ Hd)).
Qed.
Lemma inert_handle_map h a : preserves (inert_on holding) (handle_map h a).
Proof.
  apply inert_with_handle. intros c. apply (inert_get bk). intros s Hb. cbv zeta.
  destruct (bool_decide _); [preserves_tac|].
  apply (inert_on_domain (rec_domain (rec (ctl_at s c))) (λ dom, IDomain.map dom _ a)); [done| | |preserves_tac].
  - intros dom Hdom. apply od_map_inert.
  - intros [p|e]; [|preserves_tac].
    apply preserves_bind; [apply _|by apply inert_upd|intros _].
    apply preserves_bind; [apply _|destruct (valid_transition _ _); [by apply inert_upd|preserves_tac]|intros ?].
    apply preserves_bind; [apply _|by apply inert_retain|intros ?]. preserves_tac.
Qed.
(** The control block behind a handle of the client, lent to a call. *)
Lemma handle_block rs s ts h c :
  sound s ts → THandle h ∈ ts → h_ctl h = Some c → holding rs s →
  ∃ k, controls s !! c = Some k ∧ ctl_at s c = k ∧ finalized k = false ∧ record_ok bk (rec k).
Proof.
  intros Hs Ht Hc Hh. destruct (handle_live s ts h c Hs Ht Hc) as (k & Hk & Hf & _).
  destruct (abs_live s c k Hk) as [Hf' [k' Hk']]. rewrite Hf in Hf'. unfold ctl_at in *. rewrite Hk' in *.
  exists k'. split_and!; [done..|]. by apply (wo_live _ _ (proj1 Hh) c k' Hk').
Qed.
Definition unhidden (h : BufferHandle) : Prop := ∀ c, h_ctl h = Some c → hidden_blocks !! c = None.

(** A verification of device memory writes to it. *)
Definition verifies s (h : BufferHandle) : Prop := ∀ c, h_ctl h = Some c →
  hidden_blocks !! c = None ∨ rec_domain (rec (ctl_at s c)) ≠ MemoryDomain.DEVICE.
Lemma holding_verify rs s ts h :
  sound s ts → THandle h ∈ ts → verifies s h → holding rs s → holding rs (handle_verify h s).2.
Proof.
  intros Hs Ht Hv Hh. unfold handle_verify.
  match goal with |- context [with_handle h _ ?f s] =>
    destruct (with_handle_cases h (validate_alive h) f s) as [[e ->]|(c & Hc & _ & ->)]; [done|] end.
  destruct (handle_block rs s ts h c Hs Ht Hc Hh) as (k & Hk & Hat & Hlive & Hr).
  rewrite 2!bind_run. cbn [fst snd get]. set (s1 := (tick _ s).2).
  assert (holding rs s1) as H1 by by apply (inert_tick bk any).
  change (ctl_at s1 c) with (ctl_at s c). rewrite Hat. cbv zeta.
  rewrite (owns_domain _ _ _ _ _ H1). destruct (domain_in bk _) as [dom|] eqn:Hd; [|done].
  destruct (bool_decide _); [done|]. rewrite bind_run. set (s2 := (on_machine _ s1).2).
  assert (holding rs s2) as H2.
  { destruct (Hv c Hc) as [Hvis|Hcpu].
    - eapply owns_lend; [exact Hk|exact Hvis|exact Hlive| |exact H1].
      apply (od_verify_keeps (OwnedDomain:=Hbk _ _ Hd)); apply Hr.
    - rewrite Hat in Hcpu. apply inert_on_machine; [|exact H1].
      by apply (od_verify_inert (OwnedDomain:=Hbk _ _ Hd)). }
  revert H2. generalize s2. clear. intros s2 H2.
  match goal with |- holding rs (?m s2).2 => assert (preserves (inert_on holding) m) as Hm by preserves_tac end.
  by apply Hm.
Qed.
Lemma holding_copy_from rs s ts h src off n :
  sound s ts → THandle h ∈ ts → unhidden h → holding rs s → holding rs (handle_copy_from h src off n s).2.
Proof.
  intros Hs Ht Hv Hh. unfold handle_copy_from.
  match goal with |- context [with_handle h ?chk ?f s] =>
    destruct (with_handle_cases h chk f s) as [[e ->]|(c & Hc & _ & ->)]; [done|] end.
  destruct (handle_block rs s ts h c Hs Ht Hc Hh) as (k & Hk & Hat & Hlive & Hr).
  destruct (src =? 0); [done|]. rewrite bind_run. cbn [fst snd get]. cbv zeta. rewrite Hat.
  destruct (_ <? n); [done|]. destruct (range_in_bounds _ _ _) eqn:Hb; cbn [negb]; [|done].
  rewrite bind_run. set (s1 := (on_machine _ s).2).
  assert (holding rs s1) as H1.
  { eapply owns_lend; [exact Hk|by apply Hv|exact Hlive| |exact Hh]. apply triple_copy_into; [apply Hr|].
    etrans; [|by apply (ro_backed bk)]. apply range_in_bounds_le; [apply Hr|done]. }
  revert H1. generalize s1. clear. intros s1 H1.
  match goal with |- holding rs (?m s1).2 => assert (preserves (inert_on holding) m) as Hm by preserves_tac end.
  by apply Hm.
Qed.
(** The destination of a [copy_to] is the application's. *)
Lemma inert_handle_copy_to h dst off n :
  (∀ a, dst + off ≤ a < dst + off + n → os_writable a) →
  preserves (inert_on holding) (handle_copy_to h dst off n).
Proof.
  intros Hw. apply inert_with_handle. intros c. destruct (dst =? 0); [preserves_tac|].
  apply (inert_get bk). intros s _. cbv zeta. destruct (_ || _); [preserves_tac|]. destruct (negb _); [preserves_tac|].
  apply preserves_bind; [apply _| |intros; preserves_tac].
  apply inert_on_machine. eapply writes_free; [apply writes_copy_memory|exact Hw].
Qed.
Lemma inert_handle_view h off len a : preserves (inert_on holding) (handle_view h off len a).
Proof.
  apply inert_with_handle. intros c. apply preserves_bind; [apply _|eauto with frames|intros k]. cbv zeta.
  destruct (negb _); [preserves_tac|]. destruct (len =? 0); [preserves_tac|].
  destruct (_ && _); [preserves_tac|].
  apply preserves_bind; [apply _|by apply inert_retain|intros ?]. preserves_tac.
Qed.
Lemma inert_acquire kind h : preserves (inert_on holding) (acquire kind h).
Proof.
  apply inert_with_handle. intros c. apply preserves_bind; [apply _|eauto with frames|intros k].
  destruct (lease_busy kind k); [preserves_tac|].
  apply preserves_bind; [apply _|apply inert_upd; by destruct kind|intros ?].
  apply preserves_bind; [apply _|by apply inert_upd|intros ?].
  apply preserves_bind; [apply _|by apply inert_retain|intros ?]. preserves_tac.
Qed.

(** ** Releasing *)

(** A reference that may be given up: the last one of a hidden control block may not. *)
Definition droppable s (t : Token) : Prop :=
  ∀ r, token_ref t = Some r → hidden_blocks !! ref_ctl r = None ∨ refs (ctl_at s (ref_ctl r)) ≠ 1.
Lemma refs_upd_ctl c c' f s : (∀ k, refs (f k) = refs k) → refs (ctl_at (upd_ctl c f s).2 c') = refs (ctl_at s c').
Proof.
  intros Hf. unfold ctl_at. cbn [upd_ctl modify snd controls set_controls]. rewrite lookup_alter.
  case_decide; [subst c'|done]. destruct (controls s !! c); simpl; [by rewrite Hf|done].
Qed.
Lemma holding_drop rs s ts t r :
  sound s (t :: ts) → token_ref t = Some r → droppable s t → holding rs s → holding rs (drop_ref (ref_ctl r) s).2.
Proof.
  intros Hs Ht Hd Hh. destruct (sound_live s _ t r Hs ltac:(set_solver) Ht) as (k & Hk & _).
  apply owns_drop_ref; [done| |by apply Hd|done]. by eapply abs_live.
Qed.
Lemma holding_handle_reset rs s ts h :
  sound s (THandle h :: ts) → droppable s (THandle h) → holding rs s →
  holding rs (handle_reset h s).2.
Proof.
  intros Hs Hd Hh. unfold handle_reset. rewrite bind_run. cbn [ret fst snd].
  destruct (h_ctl h) as [c|] eqn:Hc; [|done]. destruct (_ && _); [|done].
  apply (holding_drop rs s ts (THandle h) (mkRef c None)); [done| |done..]. simpl. by rewrite Hc.
Qed.
(** Two changes of a control block before its reference is dropped. *)
Lemma holding_upd2_drop {A} rs s ts t r f g (m : M RuntimeImpl A) :
  sound s (t :: ts) → token_ref t = Some r →
  (∀ k, same_owner k (f k) ∧ refs (f k) = refs k) → (∀ k, same_owner k (g k) ∧ refs (g k) = refs k) →
  preserves (inert_on holding) m → (∀ s', controls (m s').2 = controls s') →
  droppable s t → holding rs s →
  holding rs (drop_ref (ref_ctl r) (m (upd_ctl (ref_ctl r) g (upd_ctl (ref_ctl r) f s).2).2).2).2.
Proof.
  intros Hs Ht Hf Hg Hm Hsame Hd Hh.
  destruct (sound_live s _ t r Hs ltac:(set_solver) Ht) as (k & Hk & _).
  apply abs_live in Hk as [_ Hk]. apply owns_drop_ref; [done| | |].
  - rewrite Hsame. by apply upd_ctl_some, upd_ctl_some.
  - unfold ctl_at. rewrite Hsame. fold (ctl_at (upd_ctl (ref_ctl r) g (upd_ctl (ref_ctl r) f s).2).2 (ref_ctl r)).
    rewrite !refs_upd_ctl by apply Hf || apply Hg. by apply Hd.
  - apply Hm, inert_upd; [apply Hg|]. apply inert_upd; [apply Hf|done].
Qed.
Lemma same_owner_remove_lease kind k : same_owner k (remove_lease kind k) ∧ refs (remove_lease kind k) = refs k.
Proof. destruct kind; unfold remove_lease; by destruct (0 <? _). Qed.
Lemma same_owner_settle k : same_owner k (settle_lease_state k) ∧ refs (settle_lease_state k) = refs k.
Proof. unfold settle_lease_state. by destruct (_ && _). Qed.

Lemma inert_unmap (r : BufferRecord) :
  preserves (inert_on holding)
    (let! s := get in
     (if na_host_map (rec_backing r) =? 0 then ret tt else
      match domain s (rec_domain r) with
      | Some dom => let! _ := on_machine (IDomain.unmap dom (rec_backing r)
                                            (na_host_map (rec_backing r))) in ret tt
      | None => ret tt
      end)).
Proof.
  apply (inert_get bk). intros s Hb. destruct (_ =? 0); [preserves_tac|].
  rewrite (backends_domain bk s _ Hb). destruct (domain_in bk _) as [dom|] eqn:Hd; [|preserves_tac].
  apply preserves_bind; [apply _| |intros; preserves_tac].
  by apply inert_on_machine, (od_unmap_inert (OwnedDomain:=Hbk _ _ Hd)).
Qed.
Lemma holding_map_release rs s ts m :
  sound s (TMap m :: ts) → droppable s (TMap m) → holding rs s → holding rs (map_release m s).2.
Proof.
  intros Hs Hdrop Hh. unfold map_release. destruct (map_ctl m) as [c|] eqn:Hc; [|done].
  rewrite 3!bind_run. cbn [get fst snd]. cbv zeta.
  match goal with |- context [bind (if na_host_map (rec_backing (rec (ctl_at ?x c))) =? 0 then _ else _) _ ?x] =>
    set (s2 := x) end.
  rewrite !bind_run. cbn [ret fst snd].
  assert (is_Some (controls s !! c)) as Hsome.
  { destruct (sound_live s _ (TMap m) (mkRef c None) Hs ltac:(set_solver)) as (k & Hk & _);
      [simpl; by rewrite Hc|]. by eapply abs_live. }
  assert (holding rs s2 ∧ is_Some (controls s2 !! c) ∧ refs (ctl_at s2 c) = refs (ctl_at s c)) as (H2 & Hs2 & Hr2).
  { split; [|split; [by do 2 apply upd_ctl_some|]].
    - apply inert_upd, inert_upd; [..|done]; intros k; cbv beta; by destruct (_ : bool).
    - unfold s2. rewrite !refs_upd_ctl; [done|..]; intros k; cbv beta; by destruct (_ : bool). }
  set (r := rec (ctl_at s2 c)).
  match goal with |- context [tick unmap_count (?u s2).2] => set (um := u) end.
  assert (quiet s2 (um s2).2) as Hq by (assert (preserves quiet um) as Hp by (unfold um; preserves_tac); apply Hp).
  assert (holding rs (um s2).2) as H3 by exact (inert_unmap r s2 rs H2).
  apply owns_drop_ref; [done|..|by apply (inert_tick bk any)].
  - change (controls (tick unmap_count (um s2).2).2) with (controls (um s2).2). by rewrite (q_controls _ _ Hq).
  - assert (ctl_at (tick unmap_count (um s2).2).2 c = ctl_at s2 c) as ->.
    { unfold ctl_at. change (controls (tick unmap_count (um s2).2).2) with (controls (um s2).2).
      by rewrite (q_controls _ _ Hq). }
    rewrite Hr2. apply (Hdrop (mkRef c None)). simpl. by rewrite Hc.
Qed.
Lemma holding_destroy rs s ts t :
  sound s (t :: ts) → droppable s t → holding rs s → holding rs (destroy t s).2.
Proof.
  intros Hs Hd Hh. destruct t as [h|l|m|v]; cbn [destroy]; rewrite bind_run; cbn [ret fst snd].
  - by eapply holding_handle_reset.
  - unfold lease_release. destruct (lease_ctl l) as [c|] eqn:Hc; [|done].
    rewrite !bind_run. cbn [ret fst snd].
    apply (holding_upd2_drop rs s ts (TLease l) (mkRef c (Some (lease_kind l))) _ _ get); try done.
    + simpl. by rewrite Hc.
    + apply same_owner_remove_lease.
    + apply same_owner_settle.
    + apply preserves_get, _.
  - by eapply holding_map_release.
  - unfold view_release. destruct (view_ctl v) as [c|] eqn:Hc; [|done]. rewrite bind_run. cbn [ret fst snd].
    apply (holding_drop rs s ts (TView v) (mkRef c None)); [done| |done..]. simpl. by rewrite Hc.
Qed.

(** ** A step of the system *)

Context (Hcon : ∀ d dom, domain_in bk d = Some dom → DomainContract dom ∧ IDomain.domain dom = d).

Lemma validated_word req al n s :
  backends s = bk → is_u64 (req_size req) → is_u64 (req_alignment req) →
  validate_request s req = Ok (al, n) → is_u64 n.
Proof.
  intros Hb Hsz Hal Hv. assert (domains_ok s) as Hd.
  { intros d dom. rewrite (backends_domain bk s d Hb). apply Hcon. }
  destruct (validate_request_ok s req al n Hd Hsz Hal Hv) as [H1 _ Hn Hsmall _].
  destruct Hn as (_ & Hge & _). unfold is_u64, two64, two48 in *. lia.
Qed.
Lemma holding_allocate rs s req :
  is_u64 (req_size req) → is_u64 (req_alignment req) → affordable req →
  holding rs s → holding rs (Runtime_allocate true req s).2.
Proof.
  intros Hsz Hal Haff Hh. unfold Runtime_allocate, guarded. rewrite bind_run. cbn [fst snd get].
  destruct (closed_ s); [done|]. rewrite bind_run.
  destruct (owns_allocate_record bk Hbk any req Hsz Haff) with (fr := rs) (s := s) as [Hr H1]; [|done|].
  { intros al n s' Hb. by apply validated_word. }
  destruct (allocate_record req s) as [[r|e] s1]; cbn [fst snd record_usable record_resources] in *; [|done].
  rewrite bind_run. destruct (owns_register bk r Hr rs s1 H1) as [_ H2].
  rewrite bind_run. cbn [ret snd]. by apply inert_new_handle.
Qed.
(** A migration that does not take place leaves the buffer alone. *)
Definition migrates s (h : BufferHandle) (t : MemoryDomain) : Prop := ∀ c, h_ctl h = Some c →
  hidden_blocks !! c = None ∨ is_ok (migrate c t s).1 = false ∨ rec_domain (rec (ctl_at s c)) = t.
Lemma holding_migrate rs s ts h t :
  sound s ts → THandle h ∈ ts → migrates s h t → holding rs s → holding rs (Runtime_migrate true h t s).2.
Proof.
  intros Hs Ht Hmig Hh. unfold Runtime_migrate, guarded.
  destruct (with_handle_cases h (validate_alive h)
    (λ c, let! r := migrate c t in handle_result r) s) as [[e ->]|(c & Hc & _ & ->)]; [done|].
  rewrite bind_run. apply inert_handle_result.
  destruct (handle_block rs s ts h c Hs Ht Hc Hh) as (k & Hk & Hat & Hf & _).
  destruct (domain_in bk t) as [tdom|] eqn:Hd.
  { apply (owns_migrate c k t tdom Hd Hf rs s Hk Hh). specialize (Hmig c Hc). by rewrite Hat in Hmig. }
  unfold migrate. rewrite bind_run. cbn [fst snd get]. cbv zeta. rewrite (owns_domain _ _ _ _ t Hh), Hd.
  destruct (closed_ s); [done|]. destruct (bool_decide _); [done|]. destruct (_ || _); [done|].
  destruct (_ || _); [|done]. rewrite bind_run. by apply (inert_tick bk any).
Qed.

(** What an operation may not do to a hidden control block: move or write its backing,
    or give up the last reference to it.  A request may be for no more than can be lost. *)
Definition drops (o : ClientOp) : list Token :=
  match o with ORelease h | OMove h _ => [THandle h] | ODestroy t => [t] | _ => [] end.
Definition spares (o : ClientOp) s : Prop :=
  Forall (droppable s) (drops o)
  ∧ match o with
    | OAllocate req => affordable req
    | OMigrate h t => migrates s h t
    | OCopyFrom h _ _ _ => unhidden h
    | OVerify h => verifies s h
    | OCopyTo _ d off n => ∀ a, d + off ≤ a < d + off + n → os_writable a
    | _ => True
    end.

Lemma holding_step o rs s rest :
  managed o → spares o s → sound s (consumes o ++ rest) → (∀ t, t ∈ borrows o → t ∈ consumes o ++ rest) →
  holding rs s → holding rs (client_op o s).2.
Proof.
  intros Hm [Hdr Hsp] Hs Hb Hh.
  destruct o as [req|desc|desc ns l|h t|h|h|h off len a|h a|kind h|h|h|h d off n|h src off n|h
                |this o|t| |c|i|]; cbn [client_op consumes borrows managed drops app] in *;
    try done; rewrite ?Forall_singleton in Hdr; rewrite ?bind_run; cbn [ret snd].
  - destruct Hm; by apply holding_allocate.
  - unfold Runtime_import, guarded. rewrite bind_run. apply inert_handle_result.
    exact (proj2 (owns_import desc ns l Hm rs s Hh)).
  - eapply holding_migrate; [done| |done..]. apply Hb. set_solver.
  - apply inert_with_handle; [apply inert_export_descriptor|done].
  - apply inert_with_handle; [|done]. intros c. apply preserves_bind; [apply _|by apply inert_retain|].
    intros. apply preserves_ret, _.
  - by apply inert_handle_view.
  - by apply inert_handle_map.
  - by apply inert_acquire.
  - eapply holding_verify; [done| |done..]. apply Hb. set_solver.
  - apply inert_with_handle; [|done]. intros c. preserves_tac.
  - by apply inert_handle_copy_to.
  - eapply holding_copy_from; [done| |done..]. apply Hb. set_solver.
  - unfold handle_release. destruct (h_ctl h) as [c|] eqn:Hc; [|done]. destruct (negb _); [done|].
    rewrite bind_run. cbn [ret snd]. destruct (h_rt h); [|done].
    apply (holding_drop rs s rest (THandle h) (mkRef c None)); [done| |done..]. simpl. by rewrite Hc.
  - unfold handle_move_assign. rewrite bind_run. cbn [ret snd]. by eapply holding_handle_reset.
  - by eapply holding_destroy.
  - unfold Runtime_pool_trim, guarded. by apply owns_pool_trim.
  - by apply (inert_create_namespace bk any c).
  - unfold Runtime_invalidate. by rewrite (finalize_by_id_refused s rest i Hs).
Qed.

End conservation.

(** ** Nothing hidden *)

Section teardown.
Context {P : Platform} {O : OsResources P} {may_lose : Losses}.
Implicit Types s : RuntimeImpl.
Context (bk : Backends) (Hbk : backends_owned bk).
Abbreviation holding := (owns bk (λ _, True)).

Lemma droppable_all s t : droppable s t.
Proof. intros r _. by left. Qed.
Lemma verifies_all s h : verifies s h.
Proof. intros c _. by left. Qed.
Definition affords (o : ClientOp) : Prop :=
  match o with OAllocate req => affordable req | _ => True end.
Lemma spares_all `{!Unguarded O} o s : affords o → spares o s.
Proof.
  intros Ho. split; [apply Forall_true; intros; apply droppable_all|].
  destruct o; try done; intros ? *; try apply all_writable; by left.
Qed.
Lemma visible_all s : visible_resources s = live_resources s.
Proof. done. Qed.

(** Destroying every object and trimming the pool. *)
Definition teardown (ts : list Token) : M RuntimeImpl unit :=
  iterM destroy ts ;;; let! _ := Runtime_pool_trim true in ret tt.
Lemma holding_destroy_all rs s ts :
  sound s ts → holding rs s →
  sound (iterM destroy ts s).2 [] ∧ holding rs (iterM destroy ts s).2.
Proof.
  revert s. induction ts as [|t ts IH]; intros s Hs Hh; [done|]. cbn [iterM]. rewrite bind_run.
  apply IH; [by apply destroy_sound|]. eapply holding_destroy; [done..|apply droppable_all|done].
Qed.
Lemma no_tokens_no_live s : sound s [] → live_resources s = [].
Proof.
  intros Hs. apply map_bind_nil. intros c k Hk. unfold ctl_resources.
  assert (actls (abs s) !! c = Some (abs_ctl (ctl_at s c))) as Hc by (apply abs_present; by eexists).
  destruct (co_ctl _ _ _ _ (so_coherent _ _ Hs) c _ Hc) as [_ _ H3 _ _].
  assert (finalized (ctl_at s c) = true) as Hf by by apply H3.
  unfold ctl_at in Hf. rewrite Hk in Hf. simpl in Hf. by rewrite Hf.
Qed.
(** Once no object refers to a runtime, its pool and what was lost are all it has. *)
Lemma trimmed_holds rs s :
  sound s [] → holding rs s → m_holds (leaked_resources (pool_trim s).2 ++ rs) (machine (pool_trim s).2).
Proof.
  intros Hs Hh. destruct (owns_pool_trim bk Hbk rs s Hh) as [(_ & _ & Hm) Hi].
  assert (live_resources (pool_trim s).2 = live_resources s) as Hl.
  { unfold live_resources. by rewrite (q_controls _ _ (quiet_pool_trim s)). }
  unfold other_resources in Hm. by rewrite Hi, visible_all, Hl, (no_tokens_no_live s Hs) in Hm.
Qed.
Lemma teardown_holds s ts :
  sound s ts → holding [] s →
  let s' := (teardown ts s).2 in losses (leaked s') ∧ m_holds (leaked_resources s') (machine s').
Proof.
  intros Hs Hh. unfold teardown. rewrite !bind_run. cbn [ret snd].
  destruct (holding_destroy_all [] s ts Hs Hh) as [Hs1 Hh1]. set (s1 := (iterM destroy ts s).2) in *.
  unfold Runtime_pool_trim, guarded. split.
  - by eapply owns_lost, (owns_pool_trim bk Hbk [] s1 Hh1).
  - rewrite <- (app_nil_r (leaked_resources _)). by apply trimmed_holds.
Qed.

End teardown.

(** ** Whole programs *)

Section programs.
Context {P : Platform} {O : OsResources P} `{!Unguarded O}.
Implicit Types s : RuntimeImpl.

(** [sys_step], restricted to managed operations. *)
Inductive managed_step : RuntimeImpl * list Token → RuntimeImpl * list Token → Prop :=
  | managed_step_op o s ts rest :
      managed o → ts ≡ₚ consumes o ++ rest → (∀ t, t ∈ borrows o → t ∈ ts) →
      id_counter_ s < two64 - 1 →
      managed_step (s, ts) ((client_op o s).2, (client_op o s).1 ++ rest).
(** From the constructor. *)
Definition managed_reachable (c : RuntimeConfig) (seed : Z) (m : Machine) s (ts : list Token) : Prop :=
  rtc managed_step ((RuntimeImpl_new c seed m).1, []) (s, ts).

Lemma new_holds c seed m rs :
  m_holds rs m → m_holds rs (machine (RuntimeImpl_new c seed m).1).
Proof.
  intros Hm. assert (machine (RuntimeImpl_new c seed m).1 = (RuntimeImpl_new c seed m).2) as ->.
  { unfold RuntimeImpl_new. by rewrite !bind_run. }
  assert (preserves (inert_on m_holds) (RuntimeImpl_new c seed)) as Hi; [|by apply Hi].
  unfold RuntimeImpl_new, attach_cuda, cuda_available, CudaDeviceDomain_new, cuda_device_count,
    attach_shared_and_file_backends, FileBackedDomain_new, HostDomain_new, system_physical_bytes.
  preserves_tac.
Qed.
Lemma new_owned c seed m d dom :
  domain (RuntimeImpl_new c seed m).1 d = Some dom → OwnedDomain d dom.
Proof.
  unfold RuntimeImpl_new. rewrite !bind_run. cbn [ret fst snd].
  unfold attach_cuda, attach_shared_and_file_backends.
  destruct d; cbn [domain backends host_ cuda_device_ cuda_pinned_ shared_ file_ fst snd].
  - destruct (enable_host c); [|done]. rewrite bind_run. cbn [ret fst]. intros [= <-]. apply _.
  - destruct (negb has_cuda); [done|]. rewrite bind_run. destruct (negb _); [done|].
    rewrite !bind_run. cbn [ret fst snd]. intros [= <-]. apply _.
  - destruct (negb has_cuda); [done|]. rewrite bind_run. destruct (negb _); [done|].
    rewrite !bind_run. cbn [ret fst snd]. intros [= <-]. apply _.
  - destruct (enable_file c); rewrite ?bind_run; cbn [ret fst snd];
      (destruct (enable_shared c); [|done]); intros [= <-]; apply _.
  - destruct (enable_file c); rewrite ?bind_run; cbn [ret fst snd]; [|done]. intros [= <-]. apply _.
Qed.

Lemma managed_step_sys p q : managed_step p q → sys_step p q.
Proof. by intros [o s ts rest _ Hp Hb Hn]; constructor. Qed.

(** A new runtime owns nothing and has lost nothing; the process may hold [rs] besides. *)
Lemma new_owns `{may_lose : Losses} c seed m rs :
  losses [] → m_holds rs m →
  let s0 := (RuntimeImpl_new c seed m).1 in
  backends_owned (backends s0) ∧ sound s0 [] ∧ owns (backends s0) (λ _, True) rs s0.
Proof.
  intros H0 Hm. set (s0 := (RuntimeImpl_new c seed m).1). cbv zeta.
  assert (fresh_runtime s0 ∧ controls s0 = ∅ ∧ pool_ (pool s0) = ∅ ∧ leaked s0 = []) as (Hf & Hc & Hp & Hl).
  { unfold s0, RuntimeImpl_new. rewrite !bind_run. by repeat split. }
  split; [intros d dom; apply new_owned|]. split; [by apply fresh_sound|]. split; [|split; [done|]].
  - constructor; [done|by intros ?; rewrite Hc, lookup_empty; intros []|by intros ??; rewrite Hc, lookup_empty|
      |by rewrite Hl|done].
    intros key sl. unfold bucket. rewrite Hp, lookup_empty. by intros ?%not_elem_of_nil.
  - unfold visible_resources, other_resources, idle_resources, leaked_resources.
    rewrite Hc, Hp, Hl, !map_bind_empty. by apply new_holds.
Qed.
Lemma affords_device o : affords o.
Proof. destruct o; try done. apply device_affordable. Qed.
(** The invariant of every managed program. *)
Lemma managed_reachable_owns c seed m s ts :
  m_holds [] m → managed_reachable c seed m s ts →
  sound s ts ∧ backends_owned (backends (RuntimeImpl_new c seed m).1)
  ∧ owns (backends (RuntimeImpl_new c seed m).1) (λ _, True) [] s.
Proof.
  intros Hm Hr. destruct (new_owns c seed m [] nothing_lost Hm) as (Hown & Hf & H0).
  set (s0 := (RuntimeImpl_new c seed m).1) in *.
  assert (∀ d dom, domain_in (backends s0) d = Some dom → DomainContract dom ∧ IDomain.domain dom = d)
    as Hcon by (intros d dom; apply (RuntimeImpl_new_domains c seed m)).
  assert (∀ p q, rtc managed_step p q → sound p.1 p.2 → owns (backends s0) (λ _, True) [] p.1 →
    sound q.1 q.2 ∧ owns (backends s0) (λ _, True) [] q.1) as Hind.
  { induction 1 as [|p p' q Hst _ IH]; [done|]. intros Hs Ho.
    pose proof (managed_step_sys _ _ Hst) as Hsys.
    destruct Hst as [o s1 ts1 rest Hman Hperm Hb Hn]. cbn [fst snd] in *.
    apply IH; [by eapply sys_step_sound|].
    apply (holding_step _ Hown Hcon o [] s1 rest); [done|apply spares_all, affords_device|by eapply sound_perm| |done].
    intros t Ht. rewrite <- Hperm. by apply Hb. }
  destruct (Hind _ _ Hr Hf H0). done.
Qed.

(** * Properties *)

(** A request for another domain than DEVICE loses nothing, and no other operation does. *)
Definition loses_nothing (o : ClientOp) : Prop :=
  ∀ req, o = OAllocate req → req_domain req ≠ MemoryDomain.DEVICE.
Lemma step_keeps_leaked c seed m s ts o rest :
  m_holds [] m → managed_reachable c seed m s ts → managed o → loses_nothing o →
  ts ≡ₚ consumes o ++ rest → (∀ t, t ∈ borrows o → t ∈ ts) →
  leaked (client_op o s).2 = leaked s.
Proof.
  intros Hm Hr Hman Ho Hp Hb. destruct (managed_reachable_owns c seed m s ts Hm Hr) as (Hs & Hown & Hh).
  pose (L := (λ l, l = leaked s) : Losses).
  apply (owns_losses _ L) in Hh; [|done]. apply (sound_perm _ _ _ Hp) in Hs.
  eapply (owns_lost (may_lose := L)), (holding_step (may_lose := L)); [exact Hown| |exact Hman| |exact Hs| |exact Hh].
  - intros d dom. apply (RuntimeImpl_new_domains c seed m).
  - apply spares_all. destruct o; try done. by apply elsewhere_affordable, Ho.
  - intros t Ht. rewrite <- Hp. by apply Hb.
Qed.

(** C2: no double free, and no leak but one. In every state that a managed client program
    can reach from the constructor of a runtime, whichever operations of the backends and
    calls of the system failed on the way, what the process holds of the operating system
    (heap blocks, kernel handles, views, device and pinned memory) is exactly what the
    backings of the unfinalized buffers, of the idle pool slots and of the lost slots
    stand for.  A slot is lost when it is taken from the pool for a request and zeroing it
    for its new owner fails; that happens to device memory only, so nothing is lost if no
    device is attached, and a managed operation that is not a DEVICE request never loses
    anything; a request that is granted loses nothing either, and one that is refused at
    most one block. *)
Theorem resources_exactly_owned (c : RuntimeConfig) (seed : Z) (m : Machine) (s : RuntimeImpl)
    (ts : list Token) :
  m_holds [] m → managed_reachable c seed m s ts →
  m_holds (live_resources s ++ idle_resources s ++ leaked_resources s) (machine s)
  ∧ Forall (λ l, l.1 = MemoryDomain.DEVICE) (leaked s)
  ∧ (domain s MemoryDomain.DEVICE = None → leaked s = [])
  ∧ (∀ o rest, managed o → loses_nothing o → ts ≡ₚ consumes o ++ rest → (∀ t, t ∈ borrows o → t ∈ ts) →
       leaked (client_op o s).2 = leaked s)
  ∧ (∀ req, let q := client_op (OAllocate req) s in
       leaked q.2 = leaked s ∨ q.1 = [] ∧ ∃ a, leaked q.2 = (req_domain req, a) :: leaked s).
Proof.
  intros Hm Hr. destruct (managed_reachable_owns c seed m s ts Hm Hr) as (_ & _ & Hh).
  pose proof (owns_domain _ _ _ _ MemoryDomain.DEVICE Hh) as Hd.
  pose proof (owns_lost _ _ _ _ Hh) as Hl. pose proof (owns_lost_usable _ _ _ _ Hh) as Hu.
  destruct Hh as (_ & _ & Hres). split_and!.
  - by rewrite app_nil_r in Hres.
  - exact Hl.
  - rewrite Hd. by apply (no_device_no_loss _ _ Hl Hu).
  - intros o rest. by apply (step_keeps_leaked c seed m s ts).
  - intros req. cbv zeta. cbn [client_op]. rewrite bind_run.
    destruct (loses_allocate req s) as [Hk|[Hno Ha]]; [by left|].
    right. split; [|exact Ha]. by destruct (Runtime_allocate true req s).1.
Qed.

(** C17: buffers never overlap. In every such state the blocks of two different
    unfinalized buffers are disjoint. *)
Theorem live_buffers_disjoint (c : RuntimeConfig) (seed : Z) (m : Machine) (s : RuntimeImpl)
    (ts : list Token) (c1 c2 : nat) (k1 k2 : Control) :
  m_holds [] m → managed_reachable c seed m s ts → c1 ≠ c2 →
  controls s !! c1 = Some k1 → controls s !! c2 = Some k2 →
  finalized k1 = false → finalized k2 = false →
  let a1 := rec_backing (rec k1) in
  let a2 := rec_backing (rec k2) in
  na_pointer a1 + na_committed a1 ≤ na_pointer a2 ∨ na_pointer a2 + na_committed a2 ≤ na_pointer a1.
Proof.
  intros Hm Hr Hne H1 H2 Hf1 Hf2. cbv zeta.
  destruct (managed_reachable_owns c seed m s ts Hm Hr) as (_ & _ & [_ _ Hlive _ _ _] & _ & Hh).
  destruct (Hlive _ _ H1 Hf1) as [[_ Hu1] _ _ _ _]. destruct (Hlive _ _ H2 Hf2) as [[_ Hu2] _ _ _ _].
  rewrite visible_all in Hh. unfold live_resources in Hh. rewrite (map_bind_delete _ _ c1 k1 H1) in Hh.
  rewrite (map_bind_delete _ (delete c1 _) c2 k2) in Hh by by rewrite lookup_delete_ne.
  unfold ctl_resources at 1 2 in Hh. rewrite Hf1, Hf2 in Hh.
  destruct (fits_extent _ _ Hu1) as (r1 & l1 & E1 & X1). destruct (fits_extent _ _ Hu2) as (r2 & l2 & E2 & X2).
  rewrite E1, E2 in Hh. cbn [app] in Hh. rewrite <- !app_assoc in Hh. cbn [app] in Hh. rewrite <- Permutation_middle in Hh.
  apply os_apart in Hh. unfold apart in Hh. by rewrite X1, X2 in Hh.
Qed.

(** C3: everything is given back. From every such state, destroying the remaining
    objects of the client (in the order of the list; any permutation of them is such
    a list) and trimming the pool loses nothing more, and leaves the process holding the
    device slots that were lost before, and nothing else; so nothing at all if no zeroing
    of a device slot has failed. *)
Theorem teardown_returns_everything (c : RuntimeConfig) (seed : Z) (m : Machine) (s : RuntimeImpl)
    (ts ts' : list Token) :
  m_holds [] m → managed_reachable c seed m s ts → ts' ≡ₚ ts →
  let s' := (teardown ts' s).2 in
  leaked s' = leaked s ∧ Forall (λ l, l.1 = MemoryDomain.DEVICE) (leaked s)
  ∧ m_holds (leaked_resources s) (machine s').
Proof.
  intros Hm Hr Hp. destruct (managed_reachable_owns c seed m s ts Hm Hr) as (Hs & Hown & Hh). cbv zeta.
  pose proof (owns_lost _ _ _ _ Hh) as Hdev.
  apply (owns_losses _ (λ l, l = leaked s)) in Hh; [|done]. apply (sound_perm _ _ ts') in Hs; [|done].
  destruct (teardown_holds (may_lose := λ l, l = leaked s) _ Hown s ts' Hs Hh) as [Hl Hres].
  split_and!; [exact Hl|exact Hdev|]. unfold leaked_resources in *. by rewrite <- Hl.
Qed.

(** C27: the backends own exactly what they return. For every domain of a constructed
    runtime, an allocation that fails leaves the resources of the process as they
    were, whatever call failed; one that succeeds holds in addition exactly the
    resources of the allocation, which are not null, and freeing it gives exactly
    those back. *)
Theorem backends_allocate_exactly (c : RuntimeConfig) (seed : Z) (d : MemoryDomain) (dom : IDomain)
    (n al : Z) (rs : list Resource) (m m0 : Machine) :
  domain (RuntimeImpl_new c seed m0).1 d = Some dom → is_u64 n → m_holds rs m →
  match IDomain.allocate dom n al m with
  | (Fail _, m') => m_holds rs m'
  | (Ok a, m') =>
      na_pointer a ≠ 0 ∧ na_committed a = n ∧ m_holds (resources d a ++ rs) m'
      ∧ m_holds rs ((let! r := IDomain.free dom a in drop_state r.2) m').2
  end.
Proof.
  intros Hd Hn Hm. pose proof (new_owned c seed m0 d dom Hd) as Hown.
  destruct (RuntimeImpl_new_domains c seed m0 d dom Hd) as [Hcon _].
  destruct (od_allocate n al Hn rs m Hm) as [Hfits Hholds].
  pose proof (dc_allocate n al m) as Hval.
  destruct (IDomain.allocate dom n al m) as [[a|e] m']; cbn [fst snd fits_result held_result] in *; [|done].
  destruct (Hval a eq_refl) as (Hc & _). split_and!; [apply Hfits|done|done|].
  by apply (triple_discard_with d dom a).
Qed.

End programs.

(** ** A managed program on the concrete platform: a pooled heap buffer and a shared
    segment *)

Lemma sys_run_managed `{P : Platform} ops s ts s' ts' :
  Forall managed ops → sys_run ops s ts = Some (s', ts') → rtc managed_step (s, ts) (s', ts').
Proof.
  intros Hm. revert s ts. induction Hm as [|o ops Ho _ IH]; intros s ts; simpl; [by intros [= -> ->]|].
  destruct (_ && _) eqn:E; [|done]. bool_prop. intros Hrun. eapply rtc_l; [|by apply IH].
  apply managed_step_op; [done|by rewrite H| |done].
  intros t Ht. rewrite List.forallb_forall in H1. eapply bool_decide_eq_true, H1. by apply list_elem_of_In.
Qed.

(** The state after a list of operations on the concrete runtime. *)
Definition sim_after (ops : list ClientOp) : RuntimeImpl * list Token :=
  default (sim_runtime, []) (sys_run ops sim_runtime []).
Lemma sim_after_reachable ops :
  Forall managed ops → bool_decide (is_Some (snd <$> sys_run ops sim_runtime [])) = true →
  managed_reachable RuntimeConfig_default 7 sim_machine (sim_after ops).1 (sim_after ops).2.
Proof.
  intros Hm Hok. unfold managed_reachable. fold sim_runtime. unfold sim_after.
  pose proof (sys_run_managed ops sim_runtime []) as Hrun.
  destruct (sys_run ops sim_runtime []) as [[s ts]|]; [by apply Hrun|done].
Qed.

Definition sim_program : list ClientOp :=
  [OAllocate sim_request; OAllocate (sim_request_for MemoryDomain.SHARED_HOST 4096 false)].
Definition sim_two : RuntimeImpl * list Token := sim_after sim_program.
Lemma sim_two_reachable :
  managed_reachable RuntimeConfig_default 7 sim_machine sim_two.1 sim_two.2.
Proof. apply sim_after_reachable; [|by vm_compute]. repeat constructor; simpl; unfold is_u64, two64; lia. Qed.
Lemma sim_two_controls :
  (finalized <$> controls sim_two.1 !! 0%nat) = Some false
  ∧ (finalized <$> controls sim_two.1 !! 1%nat) = Some false.
Proof. split; vm_compute; reflexivity. Qed.
Lemma sim_two_held : length (sim_held (os (machine sim_two.1))) = 3%nat.
Proof. vm_compute. reflexivity. Qed.

(** A device whose calls fail: a pooled device buffer is destroyed, and its slot is lost
    when the next request wants it zeroed. *)
Definition sim_failing : Machine :=
  mkMachine (mkSimWorld sim_stride [] [] ∅ 1000 false true) (λ _, 170) 0 None 0 None.
Definition sim_device_request (z : option ZeroingPolicy) : AllocationRequest :=
  mkAllocationRequest kDefaultNamespace MemoryDomain.DEVICE (mkDeviceId BackendId.CUDA 0) 5000 0
    AccessMode.READ_WRITE (mkAllocationFlags false true true 0) "device" z.
Definition sim_lossy_start : RuntimeImpl := (RuntimeImpl_new RuntimeConfig_default 7 sim_failing).1.
Definition sim_lossy_one : RuntimeImpl := (client_op (OAllocate (sim_device_request None)) sim_lossy_start).2.
Definition sim_lossy_two : RuntimeImpl := (client_op (ODestroy (THandle sim_handle)) sim_lossy_one).2.
Definition sim_lossy : RuntimeImpl :=
  (client_op (OAllocate (sim_device_request (Some ZeroingPolicy.ALWAYS))) sim_lossy_two).2.
Lemma sim_failing_holds : m_holds [] sim_failing.
Proof. split; [done|]. constructor; cbn; [unfold sim_stride; split; [lia|by exists 1]|constructor|constructor]. Qed.
Lemma sim_lossy_tokens :
  (client_op (OAllocate (sim_device_request None)) sim_lossy_start).1 = [THandle sim_handle]
  ∧ (client_op (ODestroy (THandle sim_handle)) sim_lossy_one).1 = []
  ∧ (client_op (OAllocate (sim_device_request (Some ZeroingPolicy.ALWAYS))) sim_lossy_two).1 = []
  ∧ id_counter_ sim_lossy_start = 1 ∧ id_counter_ sim_lossy_one = 2 ∧ id_counter_ sim_lossy_two = 2.
Proof. split_and!; vm_compute; reflexivity. Qed.
Lemma managed_step_got `{P : Platform} o s rest got n :
  managed o → (client_op o s).1 = got → (∀ t, t ∈ borrows o → t ∈ consumes o ++ rest) →
  id_counter_ s = n → n < two64 - 1 → managed_step (s, consumes o ++ rest) ((client_op o s).2, got ++ rest).
Proof. intros Hm <- Hb <- Hn. by apply managed_step_op. Qed.
Lemma sim_lossy_managed z : managed (OAllocate (sim_device_request z)).
Proof. split; cbn; unfold is_u64, two64; lia. Qed.
Lemma sim_lossy_one_reachable :
  managed_reachable RuntimeConfig_default 7 sim_failing sim_lossy_one [THandle sim_handle].
Proof.
  destruct sim_lossy_tokens as (T1 & _ & _ & I1 & _ & _).
  exact (rtc_once _ _ (managed_step_got _ _ [] _ _ (sim_lossy_managed _) T1 (λ t Ht, match not_elem_of_nil t Ht with end) I1 eq_refl)).
Qed.
Lemma sim_lossy_reachable : managed_reachable RuntimeConfig_default 7 sim_failing sim_lossy [].
Proof.
  destruct sim_lossy_tokens as (_ & T2 & T3 & _ & I2 & I3).
  assert (∀ l : list Token, ∀ t, t ∈ [] → t ∈ l) as Hnone by (intros l t []%not_elem_of_nil).
  pose proof (managed_step_got (ODestroy (THandle sim_handle)) _ [] _ _ I T2 (Hnone _) I2 eq_refl) as S2.
  pose proof (managed_step_got _ _ [] _ _ (sim_lossy_managed _) T3 (Hnone _) I3 eq_refl) as S3.
  unfold managed_reachable. etransitivity; [exact sim_lossy_one_reachable|]. exact (rtc_l _ _ _ _ S2 (rtc_once _ _ S3)).
Qed.
Lemma sim_lossy_leaks :
  length (leaked sim_lossy) = 1%nat ∧ length (sim_held (os (machine sim_lossy))) = 1%nat.
Proof. split; vm_compute; reflexivity. Qed.

Lemma resources_exactly_owned_witness :
  length (live_resources sim_two.1 ++ idle_resources sim_two.1 ++ leaked_resources sim_two.1) = 3%nat
  ∧ sim_held (os (machine sim_lossy)) ≡ₚ live_resources sim_lossy ++ idle_resources sim_lossy
                                         ++ leaked_resources sim_lossy
  ∧ length (leaked sim_lossy) = 1%nat.
Proof.
  destruct (resources_exactly_owned RuntimeConfig_default 7 sim_machine sim_two.1 sim_two.2
              sim_start_holds sim_two_reachable) as [[Hp _] _].
  destruct (resources_exactly_owned RuntimeConfig_default 7 sim_failing sim_lossy []
              sim_failing_holds sim_lossy_reachable) as [[Hq _] _].
  split; [exact (eq_trans (Permutation_length Hp) sim_two_held)|]. split; [|exact (proj1 sim_lossy_leaks)].
  symmetry. exact Hq.
Defined.
Lemma live_buffers_disjoint_witness :
  ∃ k1 k2, controls sim_two.1 !! 0%nat = Some k1 ∧ controls sim_two.1 !! 1%nat = Some k2
    ∧ let a1 := rec_backing (rec k1) in
      let a2 := rec_backing (rec k2) in
      (na_pointer a1 + na_committed a1 ≤ na_pointer a2 ∨ na_pointer a2 + na_committed a2 ≤ na_pointer a1).
Proof.
  destruct sim_two_controls as [H1 H2].
  apply fmap_Some in H1 as (k1 & Hk1 & Hf1). apply fmap_Some in H2 as (k2 & Hk2 & Hf2).
  exists k1, k2. split; [exact Hk1|]. split; [exact Hk2|].
  exact (live_buffers_disjoint RuntimeConfig_default 7 sim_machine sim_two.1 sim_two.2 0 1 k1 k2
           sim_start_holds sim_two_reachable ltac:(done) Hk1 Hk2 (eq_sym Hf1) (eq_sym Hf2)).
Defined.
Lemma sim_two_keeps : leaked_resources sim_two.1 = [].
Proof. vm_compute. reflexivity. Qed.
Lemma teardown_returns_everything_witness :
  sim_held (os (machine (teardown (reverse sim_two.2) sim_two.1).2)) = [].
Proof.
  destruct (teardown_returns_everything RuntimeConfig_default 7 sim_machine sim_two.1 sim_two.2
              (reverse sim_two.2) sim_start_holds sim_two_reachable (reverse_Permutation _)) as (_ & _ & Hp & _).
  rewrite sim_two_keeps in Hp. apply Permutation_nil. exact Hp.
Defined.
Lemma backends_allocate_exactly_witness :
  ∃ dom, domain sim_runtime MemoryDomain.MMAP_STORAGE = Some dom
    ∧ match IDomain.allocate dom 4096 0 sim_machine with
      | (Fail _, m') => m_holds [] m'
      | (Ok a, m') =>
          na_pointer a ≠ 0 ∧ na_committed a = 4096
          ∧ m_holds (resources MemoryDomain.MMAP_STORAGE a ++ []) m'
          ∧ m_holds [] ((let! r := IDomain.free dom a in drop_state r.2) m').2
      end.
Proof.
  eexists. split; [reflexivity|].
  apply (backends_allocate_exactly RuntimeConfig_default 7 MemoryDomain.MMAP_STORAGE _ 4096 0 []
           sim_machine sim_machine); [reflexivity|unfold is_u64, two64; lia|apply sim_start_holds].
Defined.
