(* ===== verification/Isolation.v ===== *)
(** A buffer keeps its memory while others work.  The operations of a client that
    leave a buffer alone are run beside its backing, which is put under a guard: the
    ownership theorems hold of them unchanged, and the guard says that nobody wrote to
    the backing. *)
From S2P Require Import Prelude Types CheckedMath Platform Resources HostBackend SharedBackend.
From S2P Require Import FileBackend CudaBackend Domain State Sim Ledger Pool Lifecycle Runtime.
From S2P Require Import Handle Facade SimResources SimRuntime Frames RefSpec Refcount Clients.
From S2P Require Import Backing Allocation Charges Release Ownership Conservation.

Section isolation.
Context {P : Platform}.
Implicit Types s : RuntimeImpl.

(** The operation does not migrate the buffer, copy into it, verify its device memory
    (which writes to it) or copy to its addresses. *)
Definition leaves_alone (c : nat) (o : ClientOp) s : Prop :=
  match o with
  | OMigrate h t => h_ctl h ≠ Some c ∨ is_ok (migrate c t s).1 = false ∨ rec_domain (rec (ctl_at s c)) = t
  | OCopyFrom h _ _ _ => h_ctl h ≠ Some c
  | OVerify h => h_ctl h ≠ Some c ∨ rec_domain (rec (ctl_at s c)) ≠ MemoryDomain.DEVICE
  | OCopyTo _ d off n =>
      let a := rec_backing (rec (ctl_at s c)) in
      d + off + n ≤ na_pointer a ∨ na_pointer a + na_committed a ≤ d + off
  | _ => True
  end.
(** A managed step that leaves the buffer alone, after which the client still has an
    object of it. *)
Inductive sparing_step (c : nat) : RuntimeImpl * list Token → RuntimeImpl * list Token → Prop :=
  | sparing_step_op o s ts rest :
      managed o → ts ≡ₚ consumes o ++ rest → (∀ t, t ∈ borrows o → t ∈ ts) →
      id_counter_ s < two64 - 1 → leaves_alone c o s →
      (∃ t, t ∈ (client_op o s).1 ++ rest ∧ refers_to c t) →
      sparing_step c (s, ts) ((client_op o s).2, (client_op o s).1 ++ rest).

(** ** References *)

(** A reference that is not the only one is not the last one. *)
Lemma not_last s t t' ts r :
  sound s (t :: ts) → token_ref t = Some r → t' ∈ ts → refers_to (ref_ctl r) t' →
  refs (ctl_at s (ref_ctl r)) ≠ 1.
Proof.
  intros Hs Ht Hin Hr. apply fmap_Some in Hr as (r' & Ht' & Hr').
  destruct (sound_live s _ t r Hs ltac:(by left) Ht) as (k & Hk & _).
  pose proof (cc_refs _ _ _ _ _ (co_ctl _ _ _ _ (so_coherent _ _ Hs) _ _ Hk)) as Hc.
  rewrite (abs_ctl_at s _ k Hk) in Hc. cbn [a_refs abs_ctl spec_of sp_refs] in Hc.
  rewrite (refs_of_some _ _ _ Ht), count_refs_cons in Hc.
  unfold uses in Hc. rewrite decide_True in Hc by done.
  pose proof (count_refs_elem (ref_ctl r) r' (refs_of ts) (refs_of_elem _ _ _ Hin Ht') (eq_sym Hr')). lia.
Qed.
(** What an operation returns of the object it drops refers to nothing. *)
Lemma kept_elsewhere o s rest t t' c :
  sound s (consumes o ++ rest) → t ∈ drops o → t' ∈ (client_op o s).1 ++ rest → refers_to c t' →
  ∃ l, consumes o = t :: l ∧ t' ∈ l ++ rest.
Proof.
  intros Hs Ht Hin Hr. destruct o; cbn [drops consumes client_op] in *; try by apply not_elem_of_nil in Ht.
  - apply list_elem_of_singleton in Ht as ->. exists []. split; [done|]. rewrite bind_run in Hin. cbn [ret fst app] in *.
    apply elem_of_cons in Hin as [->|Hin]; [|done]. unfold refers_to, handle_release in Hr. cbn [token_ref] in Hr.
    destruct (h_ctl h) as [x|] eqn:Hc; [|cbn in Hr; by rewrite Hc in Hr].
    pose proof (so_tokens _ _ Hs) as Hok. apply Forall_cons in Hok as [Hok _].
    destruct (Hok x Hc) as (_ & Hv & _). rewrite Hv in Hr. cbn [negb] in Hr. by rewrite bind_run in Hr.
  - apply list_elem_of_singleton in Ht as ->. eexists. split; [done|]. unfold handle_move_assign in Hin.
    rewrite !bind_run in Hin. cbn [ret fst snd app] in *. apply elem_of_cons in Hin as [->|Hin]; [by left|].
    apply elem_of_cons in Hin as [->|Hin]; [done|]. by right.
  - apply list_elem_of_singleton in Ht as ->. exists []. split; [done|]. by rewrite bind_run in Hin.
Qed.

(** ** Beside a buffer *)

Section beside.
Context {O : OsResources P} `{!Unguarded O} (bk : Backends) (c : nat) (k : Control) (m0 : Memory).
Definition block : list Resource := resources (rec_domain (rec k)) (rec_backing (rec k)).
Definition beside : OsResources P := guarded_os block m0.
Definition only : Hidden := ({[c := k]} : gmap nat Control).
(** What a computation holds that is not given the buffer. *)
Definition holding_beside (rs : list Resource) s : Prop :=
  owns (O := beside) (hide := only) bk (λ _, True) rs s.

Lemma only_lookup c' k' : hidden_blocks (Hidden := only) !! c' = Some k' ↔ c = c' ∧ k = k'.
Proof. unfold hidden_blocks, only. apply lookup_singleton_Some. Qed.
Lemma only_other c' : c' ≠ c → hidden_blocks (Hidden := only) !! c' = None.
Proof. intros Hne. by apply lookup_singleton_ne. Qed.
Lemma owns_beside rs s :
  owns bk (λ _, True) rs s → controls s !! c = Some k → finalized k = false → mem (machine s) = m0 →
  holding_beside rs s.
Proof.
  intros ([W1 W2 W3 W4 W6 W5] & _ & Hm) Hk Hlive Hmem. split; [|split; [done|]].
  - constructor; [done..|]. intros c' k0 Hc. apply only_lookup in Hc as [<- <-]. by exists k.
  - split; [|by rewrite <- Hmem]. rewrite visible_all in Hm. unfold live_resources, visible_resources in *.
    rewrite (map_bind_delete _ _ c k Hk) in Hm. rewrite (map_bind_delete _ _ c k Hk), <- !app_assoc in *.
    unfold ctl_resources at 1 in Hm. rewrite Hlive in Hm. unfold visible_at at 1, hidden_blocks, only.
    rewrite lookup_singleton_eq. cbn [app].
    rewrite (map_bind_ext (visible_at (hide := only)) (λ _, ctl_resources)); [exact Hm|].
    intros c' k' Hk'. apply visible_when, only_other. by apply lookup_delete_Some in Hk' as [? _].
Qed.
(** What the guard says of the buffer. *)
Lemma beside_kept rs s :
  holding_beside rs s →
  (∃ k', controls s !! c = Some k' ∧ same_owner k k') ∧ undisturbed block m0 (mem (machine s)).
Proof. intros ([_ _ _ _ _ W5] & _ & _ & Hu). split; [|done]. by apply W5, only_lookup. Qed.

Lemma sparing_spares rs o s rest :
  holding_beside rs s → fits (rec_domain (rec k)) (rec_backing (rec k)) → sound s (consumes o ++ rest) →
  leaves_alone c o s → (∃ t, t ∈ (client_op o s).1 ++ rest ∧ refers_to c t) →
  spares (O := beside) (hide := only) o s.
Proof.
  intros Hh Hfit Hs Hl (t' & Hin & Hr'). split.
  - apply Forall_forall. intros t Ht r Hr. destruct (decide (ref_ctl r = c)) as [Hc|Hne]; [|left; by apply only_other].
    right. rewrite <- Hc in Hr'. destruct (kept_elsewhere o s rest t t' (ref_ctl r) Hs Ht Hin Hr') as (l & Hl' & Hin'). rewrite Hl' in Hs.
    by eapply not_last.
  - destruct o; cbn [leaves_alone] in Hl; try done; try (by apply device_affordable);
      try (intros c' Hc'; apply only_other; congruence).
    1, 2: intros c' Hc'; destruct (decide (c' = c)) as [Heq|Hne]; [|left; by apply only_other];
      rewrite Heq in *; right; by destruct Hl as [Hl|Hl].
    destruct (beside_kept rs s Hh) as [(k' & Hk' & [_ _ Hb _ _ _]) _]. cbv zeta in Hl.
    assert (ctl_at s c = k') as Hat by (unfold ctl_at; by rewrite Hk'). rewrite Hat, Hb in Hl. intros a Ha. split; [apply all_writable|]. intros r Hr Hw.
    pose proof (fits_within _ _ _ _ Hfit Hr Hw). lia.
Qed.

(** ** Runs *)

Lemma sparing_sys_step p q : sparing_step c p q → sys_step p q.
Proof. by intros [o s ts rest _ Hp Hb Hn _ _]; constructor. Qed.
Lemma sparing_run rs p q :
  (∀ d dom, domain_in bk d = Some dom → OwnedDomain (O := beside) d dom) →
  (∀ d dom, domain_in bk d = Some dom → DomainContract dom ∧ IDomain.domain dom = d) →
  fits (rec_domain (rec k)) (rec_backing (rec k)) → rtc (sparing_step c) p q →
  sound p.1 p.2 → holding_beside rs p.1 → holding_beside rs q.1.
Proof.
  intros Hbk Hcon Hfit. induction 1 as [|p p' q Hst _ IH]; [done|]. intros Hs Hh.
  pose proof (sparing_sys_step _ _ Hst) as Hsys. destruct Hst as [o s ts rest Hm Hp Hb Hn Hl Hk].
  cbn [fst snd] in *. apply IH; [by eapply sys_step_sound|].
  assert (sound s (consumes o ++ rest)) as Hs' by by eapply sound_perm.
  apply (holding_step (O := beside) (hide := only) bk Hbk Hcon o rs s rest Hm); [|done| |done].
  - by eapply sparing_spares.
  - intros t Ht. rewrite <- Hp. by apply Hb.
Qed.
End beside.

(** From a state that a managed program can reach. *)
Lemma reachable_beside {O : OsResources P} `{!Unguarded O} cfg seed m s s' ts ts' c k :
  m_holds [] m → managed_reachable cfg seed m s ts →
  controls s !! c = Some k → finalized k = false → rtc (sparing_step c) (s, ts) (s', ts') →
  holding_beside (backends (RuntimeImpl_new cfg seed m).1) c k (mem (machine s)) [] s'.
Proof.
  intros Hm Hr Hk Hlive Hrun. destruct (managed_reachable_owns cfg seed m s ts Hm Hr) as (Hs & _ & Hh).
  pose proof (wo_live _ _ (proj1 Hh) c k Hk Hlive) as [[_ Hfit] _ _ _ _].
  apply (sparing_run _ c k _ [] (s, ts) (s', ts')); try done.
  - intros d dom. apply new_owned.
  - intros d dom. apply (RuntimeImpl_new_domains cfg seed m).
  - by apply owns_beside.
Qed.

(** The memory of a buffer that nobody but the process can write to. *)
Definition private_block (k : Control) (a : Z) : Prop :=
  let b := rec_backing (rec k) in
  rec_domain (rec k) ≠ MemoryDomain.SHARED_HOST ∧ rec_domain (rec k) ≠ MemoryDomain.MMAP_STORAGE
  ∧ na_pointer b ≤ a < na_pointer b + na_committed b.
Lemma private_undisturbed k a m m' :
  private_block k a → undisturbed (block k) m m' → m' a = m a.
Proof.
  unfold private_block, block, resources. intros (Hs & Hf & Ha) Hu.
  destruct (rec_domain (rec k)); try done; by eapply Hu; [left|..].
Qed.

(** ** Migration *)

Lemma live_retain c s : live_resources (retain c s).2 ≡ₚ live_resources s.
Proof.
  unfold live_resources. cbn [retain upd_ctl modify snd controls set_controls]. by apply map_bind_alter.
Qed.
Lemma migrate_disabled {O : OsResources P} bk rs c k target s :
  owns bk (λ _, True) rs s → controls s !! c = Some k → rec_domain (rec k) ≠ target →
  domain_in bk target = None → is_ok (migrate c target s).1 = false.
Proof.
  intros Hh Hk Hne Hd. unfold migrate. rewrite bind_run. cbn [fst snd get]. cbv zeta.
  assert (ctl_at s c = k) as -> by (unfold ctl_at; by rewrite Hk).
  rewrite bool_decide_eq_false_2, (owns_domain _ _ _ _ target Hh), Hd by done.
  by repeat case_match.
Qed.

(** * Properties *)

(** C18: isolation of buffers. From any state that a managed program can reach, let the
    client run any further operations that do not move a given live buffer, copy
    into it or (in device memory) verify it, copying to addresses of its own only, while
    it keeps at least one object of it. Then the buffer is still there with the backing, the domain and
    the sizes it had, whatever was allocated, released, pooled, zeroed or moved besides;
    and if its memory is private (not a shared or a file mapping), every byte of it is
    what it was. *)
Theorem live_buffer_undisturbed {O : OsResources P} `{!Unguarded O} (cfg : RuntimeConfig) (seed : Z)
    (m : Machine) s s' (ts ts' : list Token) (c : nat) (k : Control) :
  m_holds [] m → managed_reachable cfg seed m s ts →
  controls s !! c = Some k → finalized k = false → rtc (sparing_step c) (s, ts) (s', ts') →
  ∃ k', controls s' !! c = Some k' ∧ same_owner k k'
    ∧ ∀ a, private_block k a → mem (machine s') a = mem (machine s) a.
Proof.
  intros Hm Hr Hk Hlive Hrun. pose proof (reachable_beside _ _ _ _ _ _ _ _ _ Hm Hr Hk Hlive Hrun) as Hh.
  destruct (beside_kept _ _ _ _ _ _ Hh) as [(k' & Hk' & Hso) Hu]. exists k'. split_and!; [done|done|].
  intros a Ha. by eapply private_undisturbed.
Qed.

(** The other side: a migration gives the old block back at once, and takes no notice of
    maps and views of it, which keep their pointers ([migrate] asks for write and
    exclusive leases only, and neither [BufferMap::data] nor [BufferView::data] looks at
    the generation). After a migration to another domain nothing that the process
    holds contains an address of the old block. *)
Theorem migration_frees_under_maps {O : OsResources P} `{!Unguarded O} (cfg : RuntimeConfig) (seed : Z)
    (m : Machine) s s' (ts : list Token) (h h' : BufferHandle) (target : MemoryDomain) (c : nat) (k : Control) (a : Z) :
  m_holds [] m → managed_reachable cfg seed m s ts →
  THandle h ∈ ts → h_ctl h = Some c → controls s !! c = Some k → rec_domain (rec k) ≠ target →
  Runtime_migrate true h target s = (Ok h', s') →
  let b := rec_backing (rec k) in
  na_pointer b ≤ a < na_pointer b + na_committed b →
  ∀ r, r ∈ live_resources s' ++ other_resources s' → ¬ within r a.
Proof.
  intros Hm Hr Hin Hc Hk Hne Hmig. cbv zeta. intros Ha r Hres Hw.
  destruct (managed_reachable_owns cfg seed m s ts Hm Hr) as (Hs & Hown & Hh).
  set (bk := backends (RuntimeImpl_new cfg seed m).1) in *.
  destruct (handle_block bk [] s ts h c Hs Hin Hc Hh) as (k' & Hk' & _ & Hlive & Hrec). simplify_eq.
  destruct (fits_extent _ _ (proj2 (ro_usable _ _ Hrec))) as (r0 & rest & Hr0 & He).
  assert (within r0 a) as Hw0 by (unfold within; by rewrite He).
  unfold Runtime_migrate, guarded in Hmig.
  destruct (with_handle_cases h (validate_alive h) (λ c, let! r := migrate c target in handle_result r) s)
    as [[e He']|(c' & Hc' & _ & He')]; rewrite He' in Hmig; [done|]. rewrite Hc in Hc'. injection Hc' as <-.
  rewrite bind_run in Hmig. destruct (domain_in bk target) as [tdom|] eqn:Hd.
  - destruct (owns_migrate bk Hown c k target tdom Hd Hlive [] s Hk Hh) as [_ Hgone]; [by left|].
    destruct (migrate c target s) as [[c'|e] s1]; [|done]. cbn [fst snd is_ok] in *. injection Hmig as _ <-.
    change (r ∈ live_resources (retain c' s1).2 ++ other_resources s1) in Hres. rewrite live_retain in Hres. apply (apart_within r0 r a); [|done|done].
    apply (Hgone eq_refl Hne); [by rewrite Hr0; left|]. rewrite app_nil_r. exact Hres.
  - assert (is_ok (migrate c target s).1 = false) as Hno by by apply (migrate_disabled bk [] c k target).
    by destruct (migrate c target s) as [[]].
Qed.
End isolation.

(** ** A run on the concrete platform *)

#[export] Instance managed_dec o : Decision (managed o).
Proof. destruct o; simpl; unfold is_u64; apply _. Defined.
#[export] Instance leaves_alone_dec `{P : Platform} c o s : Decision (leaves_alone c o s).
Proof. destruct o; simpl; apply _. Defined.

Fixpoint remove_token (t : Token) (ts : list Token) : list Token :=
  match ts with [] => [] | u :: ts' => if bool_decide (u = t) then ts' else u :: remove_token t ts' end.
(** A client that picks its operations by the objects it has; [None] if a step is not
    a sparing one. *)
Fixpoint sparing_script `{P : Platform} (c : nat) (ops : list (list Token → ClientOp)) (s : RuntimeImpl)
    (ts : list Token) : option (RuntimeImpl * list Token) :=
  match ops with
  | [] => Some (s, ts)
  | f :: ops' =>
      let o := f ts in
      let rest := foldr remove_token ts (consumes o) in
      let r := client_op o s in
      if bool_decide (managed o) && bool_decide (ts ≡ₚ consumes o ++ rest)
         && bool_decide (Forall (λ t, t ∈ ts) (borrows o)) && (id_counter_ s <? two64 - 1)
         && bool_decide (leaves_alone c o s) && bool_decide (Exists (refers_to c) (r.1 ++ rest))
      then sparing_script c ops' r.2 (r.1 ++ rest)
      else None
  end.
Lemma sparing_script_run `{P : Platform} c ops s ts p :
  sparing_script c ops s ts = Some p → rtc (sparing_step c) (s, ts) p.
Proof.
  revert s ts. induction ops as [|f ops IH]; intros s ts; cbn [sparing_script]; [by intros [= <-]|]. cbv zeta.
  destruct (_ && _) eqn:E; [|done]. bool_prop. intros Hrun. eapply rtc_l; [|by apply IH].
  rewrite Forall_forall in *. rewrite Exists_exists in *.
  by constructor.
Qed.
Definition nth_token (n : nat) (ts : list Token) : Token := default (THandle BufferHandle_empty) (ts !! n).
Definition nth_handle (n : nat) (ts : list Token) : BufferHandle :=
  match nth_token n ts with THandle h => h | _ => BufferHandle_empty end.

(** Beside the two buffers of [sim_two]: a second handle on the first, given up again,
    and a third buffer, filled, moved to pinned memory, copied out and released; at the
    end the pool is trimmed. *)
Definition sim_neighbour : list (list Token → ClientOp) :=
  [λ ts, OShare (nth_handle 1 ts); λ ts, ODestroy (nth_token 0 ts);
   λ _, OAllocate sim_request; λ ts, OCopyFrom (nth_handle 0 ts) 64 0 4096;
   λ ts, OMigrate (nth_handle 0 ts) MemoryDomain.PINNED_HOST; λ ts, OCopyTo (nth_handle 0 ts) 64 0 4096;
   λ ts, ORelease (nth_handle 0 ts); λ ts, ODestroy (nth_token 0 ts); λ ts, ODestroy (nth_token 0 ts);
   λ _, OPoolTrim].
Definition sim_beside : RuntimeImpl * list Token :=
  default (sim_runtime, []) (sparing_script 0 sim_neighbour sim_two.1 sim_two.2).
Lemma sim_beside_run : rtc (sparing_step 0) (sim_two.1, sim_two.2) (sim_beside.1, sim_beside.2).
Proof.
  assert (bool_decide (is_Some (snd <$> sparing_script 0 sim_neighbour sim_two.1 sim_two.2)) = true) as Hok
    by (vm_compute; reflexivity).
  unfold sim_beside. pose proof (sparing_script_run 0 sim_neighbour sim_two.1 sim_two.2) as Hrun.
  destruct (sparing_script 0 sim_neighbour sim_two.1 sim_two.2) as [[s ts]|]; [by apply Hrun|done].
Qed.
Definition block_shape (k : Control) : bool * MemoryDomain * Z * Z :=
  (finalized k, rec_domain (rec k), na_pointer (rec_backing (rec k)), na_committed (rec_backing (rec k))).
Lemma sim_block :
  ∃ k, controls sim_two.1 !! 0%nat = Some k ∧ (false, MemoryDomain.HOST, sim_stride, 5056) = block_shape k.
Proof. apply (fmap_Some block_shape). vm_compute. reflexivity. Qed.
Lemma live_buffer_undisturbed_witness :
  telem_ sim_beside.1 copy_count = 2 ∧ telem_ sim_beside.1 migration_count = 1
  ∧ ∀ i, 0 ≤ i < 5056 →
      mem (machine sim_beside.1) (sim_stride + i) = mem (machine sim_two.1) (sim_stride + i).
Proof.
  split; [vm_compute; reflexivity|]. split; [vm_compute; reflexivity|]. intros i Hi.
  destruct sim_block as (k & Hc & Hk). injection Hk as Hf Hd Hp Hn.
  destruct (live_buffer_undisturbed RuntimeConfig_default 7 sim_machine sim_two.1 sim_beside.1
              sim_two.2 sim_beside.2 0 k sim_start_holds sim_two_reachable Hc (eq_sym Hf) sim_beside_run)
    as (k' & _ & _ & Hmem).
  apply Hmem. unfold private_block. rewrite <- Hd, <- Hp, <- Hn. split; [done|]. split; [done|]. lia.
Defined.

(** ** A map that outlives its block *)

Definition sim_mapped : RuntimeImpl * list Token :=
  sim_after [OAllocate sim_request; OMap sim_handle AccessMode.READ_WRITE].
Definition sim_map : BufferMap := mkBufferMap (Some 0%nat) 1 AccessMode.READ_WRITE sim_stride.
Definition sim_moved : Result BufferHandle * RuntimeImpl :=
  Runtime_migrate true sim_handle MemoryDomain.PINNED_HOST sim_mapped.1.
Lemma sim_mapped_reachable : managed_reachable RuntimeConfig_default 7 sim_machine sim_mapped.1 sim_mapped.2.
Proof. apply sim_after_reachable; [|by vm_compute]. repeat constructor; simpl; unfold is_u64, two64; lia. Qed.
Lemma sim_mapped_tokens : sim_mapped.2 = [TMap sim_map; THandle sim_handle].
Proof. vm_compute. reflexivity. Qed.
Lemma sim_mapped_block :
  ∃ k, controls sim_mapped.1 !! 0%nat = Some k ∧ (false, MemoryDomain.HOST, sim_stride, 5056) = block_shape k.
Proof. apply (fmap_Some block_shape). vm_compute. reflexivity. Qed.
(** The client still has the map, and no resource of the process contains its pointer. *)
Lemma migration_frees_under_maps_witness :
  TMap sim_map ∈ sim_mapped.2 ∧ is_ok sim_moved.1 = true
  ∧ Forall (λ r, ¬ within r (map_data sim_map)) (live_resources sim_moved.2 ++ other_resources sim_moved.2).
Proof.
  rewrite sim_mapped_tokens. split; [by left|]. split; [vm_compute; reflexivity|].
  destruct sim_mapped_block as (k & Hk & Hsh). injection Hsh as Hf Hd Hp Hn.
  assert (is_ok sim_moved.1 = true) as Hok by (vm_compute; reflexivity).
  destruct sim_moved as [[h'|e] s'] eqn:Hmov; [|done]. unfold sim_moved in Hmov.
  apply Forall_forall. intros r.
  apply (migration_frees_under_maps RuntimeConfig_default 7 sim_machine sim_mapped.1 s' sim_mapped.2
    sim_handle h' MemoryDomain.PINNED_HOST 0 k (map_data sim_map) sim_start_holds sim_mapped_reachable).
  - rewrite sim_mapped_tokens. right. by left.
  - done.
  - exact Hk.
  - by rewrite <- Hd.
  - exact Hmov.
  - rewrite <- Hp, <- Hn. cbn. unfold sim_stride. lia.
Defined.
