(* ===== verification/Zeroing.v ===== *)
(** Zeroing (src/runtime.cpp, the policy of [allocate_record]): when the policy in
    force asks for it, the whole backing of a new buffer is zero, so that no bytes
    of a previous owner can be read. *)
From S2P Require Import Prelude Types CheckedMath Platform HostBackend SharedBackend.
From S2P Require Import FileBackend CudaBackend Domain State Sim Ledger Pool Lifecycle Runtime.
From S2P Require Import Handle Facade SimRuntime Frames Allocation Charges Release.

Section zeroing.
Context {P : Platform}.
Implicit Types s : RuntimeImpl.

(** Operations that neither create namespaces nor put backings into the pool. *)
Record policy_kept s s' : Prop := {
  pk_nss : nss_ (ledger s') = nss_ (ledger s);
  pk_pool k sl : sl ∈ bucket (pool s') k → sl ∈ bucket (pool s) k }.
#[export] Instance policy_kept_preorder : PreOrder policy_kept.
Proof.
  split; [by constructor|]. intros s1 s2 s3 [H1 P1] [H2 P2].
  constructor; [by rewrite H2|]. auto.
Qed.
Lemma policy_kept_modify f :
  (∀ s, nss_ (ledger (f s)) = nss_ (ledger s) ∧ pool (f s) = pool s) → preserves policy_kept (modify f).
Proof. intros Hf s. destruct (Hf s) as [H1 H2]. constructor; simpl; [done|by rewrite H2]. Qed.
Lemma policy_kept_on_machine {A} (f : M Machine A) : preserves policy_kept (on_machine f).
Proof. intros s. unfold on_machine. by destruct (f (machine s)). Qed.
Lemma policy_kept_tick c : preserves policy_kept (tick c).
Proof. by apply policy_kept_modify. Qed.
Lemma policy_kept_ledger f : (∀ l, nss_ (f l) = nss_ l) → preserves policy_kept (modify_ledger f).
Proof. intros Hf. apply policy_kept_modify. intros s. simpl. by rewrite Hf. Qed.
Lemma policy_kept_next_id : preserves policy_kept next_id.
Proof. by intros s. Qed.
#[local] Hint Resolve policy_kept_on_machine policy_kept_tick policy_kept_next_id : frames.
Ltac policy_tac :=
  repeat first
    [ progress cbv zeta | preserves_step
    | apply policy_kept_ledger; intros; rewrite ?nss_update_peak; done
    | solve [eauto 2 with frames] ].
Lemma policy_kept_cap_for d : preserves policy_kept (cap_for d).
Proof. unfold cap_for, capacity_for. policy_tac. Qed.
#[local] Hint Resolve policy_kept_cap_for : frames.
Lemma policy_kept_reserve_amount ns d n : preserves policy_kept (reserve_amount ns d n).
Proof. unfold reserve_amount. policy_tac. Qed.
Lemma policy_kept_reserve_count ns : preserves policy_kept (reserve_count ns).
Proof. unfold reserve_count. policy_tac. Qed.
Lemma policy_kept_commit_amount ns d n : preserves policy_kept (commit_amount ns d n).
Proof. unfold commit_amount. policy_tac. Qed.
Lemma policy_kept_unreserve ns d n : preserves policy_kept (unreserve_amount ns d n).
Proof. unfold unreserve_amount. policy_tac. Qed.
Lemma policy_kept_release_count ns : preserves policy_kept (release_count ns).
Proof. intros s. constructor; [|done]. simpl. by destruct (0 <? _). Qed.
Lemma policy_kept_checkout ns d n : preserves policy_kept (checkout_amount ns d n).
Proof. unfold checkout_amount. policy_tac. Qed.
Lemma policy_kept_discard dom a : preserves policy_kept (discard_with dom a).
Proof. unfold discard_with. policy_tac. Qed.
Lemma policy_kept_pool_take k o n : preserves policy_kept (pool_take k o n).
Proof.
  intros s. rewrite pool_take_run. destruct (take_first _ _) as [[sl rest]|] eqn:E; [|done].
  apply take_first_Some in E as (l1 & l2 & E & -> & _).
  constructor; [done|]. intros k' sl' Hin. change (sl' ∈ bucket (mkPool (<[k := l1 ++ l2]> (pool_ (pool s)))
    (sat_sub (pool_idle_bytes_ (pool s)) (slot_bytes sl)) (if 0 <? pool_object_count_ (pool s)
     then pool_object_count_ (pool s) - 1 else pool_object_count_ (pool s))) k') in Hin.
  rewrite bucket_replace in Hin. case_decide; [subst k'|done].
  rewrite E. apply elem_of_app in Hin. rewrite elem_of_app, elem_of_cons. tauto.
Qed.
#[local] Hint Resolve policy_kept_reserve_amount policy_kept_reserve_count policy_kept_commit_amount
  policy_kept_unreserve policy_kept_release_count policy_kept_checkout policy_kept_discard
  policy_kept_pool_take : frames.
Lemma policy_kept_take_from_pool req r n : preserves policy_kept (take_from_pool req r n).
Proof. unfold take_from_pool. policy_tac. Qed.
Lemma policy_kept_fresh_backing dom req n al : preserves policy_kept (fresh_backing dom req n al).
Proof. unfold fresh_backing. policy_tac. Qed.
Lemma policy_kept_now_epoch : preserves policy_kept now_epoch_ms.
Proof. unfold now_epoch_ms. policy_tac. Qed.

(** The cases in which the policy demands a zeroed backing: always, on every
    allocation, or because the backing comes from a pool in which nothing belongs
    to the requesting namespace. *)
Definition must_zero s (req : AllocationRequest) (pooled : bool) : Prop :=
  match effective_policy s req with
  | ZeroingPolicy.ON_ALLOCATE | ZeroingPolicy.ALWAYS => True
  | ZeroingPolicy.ON_CROSS_OWNER_REUSE =>
      pooled = true ∧ ∀ k sl, sl ∈ bucket (pool s) k → slot_last_owner sl ≠ req_ns req
  | _ => False
  end.
Lemma must_zero_kept s s' req b : policy_kept s s' → must_zero s req b → must_zero s' req b.
Proof.
  intros [Hn Hp]. unfold must_zero. rewrite (effective_policy_nss s s') by done.
  destruct (effective_policy s req); try done. intros [-> H]. split; [done|]. eauto.
Qed.

(** The bytes of a backing are all zero. *)
Definition zeroed s (a : NativeAllocation) : Prop :=
  bytes_at (mem (machine s)) (na_host_map a) (na_committed a)
  = replicate (Z.to_nat (na_committed a)) 0.

Lemma zero_backing_zeroes dom req n a slot s :
  CpuDomain dom → na_host_map a ≠ 0 → is_u64 (na_committed a) →
  wants_zero (effective_policy s req) (slot_last_owner <$> slot) (req_ns req) = true →
  zeroed (zero_backing dom req n a slot s).2 a.
Proof.
  intros Hc Hm Hu Hw. unfold zero_backing. rewrite bind_run. cbn [get fst snd]. rewrite Hw.
  rewrite bind_run. unfold on_machine.
  rewrite (cd_zero a 0 (na_committed a)) by (done || by apply out_of_span_whole).
  cbn [fst snd ok_status]. rewrite bind_run. cbn [ret snd]. unfold zeroed.
  change (mem (machine (tick _ _).2)) with (memset (na_host_map a + 0) 0 (na_committed a) (mem (machine s))).
  rewrite Z.add_0_r. apply bytes_at_memset.
Qed.

Lemma allocate_reserved_zeroes dom req al n s r :
  CpuDomain dom → (allocate_reserved dom req al n s).1 = Ok r → must_zero s req (rec_pooled r) →
  na_host_map (rec_backing r) ≠ 0 → is_u64 (rec_committed r) →
  zeroed (allocate_reserved dom req al n s).2 (rec_backing r).
Proof.
  intros Hc. unfold allocate_reserved. rewrite 3!bind_run. cbv zeta.
  set (s1 := (next_id s).2). set (s2 := (now_epoch_ms s1).2).
  assert (policy_kept s s2) as K2
    by (transitivity s1; [apply policy_kept_next_id|apply policy_kept_now_epoch]).
  set (r0 := fresh_record _ _ _ _ _).
  pose proof (policy_kept_take_from_pool req r0 n s2) as K3.
  pose proof (take_from_pool_slot req r0 n s2) as Hslot.
  destruct (take_from_pool req r0 n s2) as [slot s3]. cbn [fst snd] in *. rewrite bind_run.
  set (mb := match slot with Some sl => _ | None => _ end).
  assert (policy_kept s3 (mb s3).2) as K4.
  { unfold mb. destruct slot; [done|apply policy_kept_fresh_backing]. }
  assert (policy_kept s (mb s3).2) as K by (transitivity s2; [done|]; by transitivity s3).
  destruct (mb s3) as [[a|e] s4] eqn:Emb; cbn [fst snd] in *; [|done].
  rewrite bind_run. intros Hr Hz Hm Hu. revert Hr Hz Hm Hu.
  pose proof (λ Ha Hb Hw, zero_backing_zeroes dom req n a slot s4 Hc Ha Hb Hw) as Hzero.
  destruct (zero_backing dom req n a slot s4) as [[u|e] s5]; cbn [fst snd] in *; [|done].
  rewrite bind_run. cbn [get ret fst snd]. intros [= <-]. cbn [attach_backing rec_pooled rec_backing rec_committed].
  intros Hz Hm Hu. apply Hzero; [done|done|].
  destruct (K) as [Kn Kp]. rewrite (effective_policy_nss s s4) by done.
  unfold must_zero in Hz. destruct (effective_policy s req); try done. destruct Hz as [Hp Hown].
  destruct slot as [sl|]; [|done]. simpl. destruct (Hslot sl eq_refl) as [k Hk].
  destruct K2 as [_ K2p]. specialize (Hown k sl (K2p k sl Hk)).
  destruct (slot_last_owner sl =? req_ns req) eqn:E; bool_prop; done.
Qed.

(** C28: a buffer never shows what the policy says must not be seen: when the
    policy in force is [ON_ALLOCATE] or [ALWAYS], or it is [ON_CROSS_OWNER_REUSE]
    and the backing was reused from a pool that holds nothing of the requesting
    namespace, every committed byte of the new buffer is zero (on the domains the
    CPU addresses). *)
Theorem new_buffer_zeroed req s r dom :
  domain s (req_domain req) = Some dom → CpuDomain dom →
  (allocate_record req s).1 = Ok r → must_zero s req (rec_pooled r) →
  na_host_map (rec_backing r) ≠ 0 → is_u64 (rec_committed r) →
  zeroed (allocate_record req s).2 (rec_backing r).
Proof.
  intros Hdom Hc. unfold allocate_record. rewrite bind_run. cbn [get fst snd].
  destruct (closed_ s); [done|]. destruct (validate_request s req) as [[al n]|e];
    [|by rewrite bind_run].
  rewrite bind_run. pose proof (policy_kept_reserve_count (req_ns req) s) as K1.
  destruct (reserve_count _ s) as [[u|e] s1]; cbn [fst snd] in *; [|by rewrite bind_run].
  rewrite bind_run. pose proof (policy_kept_reserve_amount (req_ns req) (req_domain req) n s1) as K2.
  destruct (reserve_amount _ _ _ s1) as [[u2|e] s2]; cbn [fst snd] in *; [|by rewrite !bind_run].
  rewrite Hdom. intros Hr Hz. apply allocate_reserved_zeroes; [done|done|].
  eapply must_zero_kept; [|exact Hz]. by transitivity s1.
Qed.
End zeroing.

(** ** Witness: a request of another namespace is served from [sim_idle]'s pool *)
Definition foreign_request : AllocationRequest :=
  mkAllocationRequest 2 MemoryDomain.HOST (mkDeviceId BackendId.HOST_MALLOC (-1)) 5000 0
    AccessMode.READ_WRITE (mkAllocationFlags false true true 0) "foreign" None.
Lemma sim_idle_owner k sl : sl ∈ bucket (pool sim_idle) k → slot_last_owner sl ≠ 2.
Proof.
  assert (bool_decide (map_Forall (λ _ b, Forall (λ sl, slot_last_owner sl ≠ 2) b) (pool_ (pool sim_idle)))
          = true) as H by (vm_compute; reflexivity).
  apply bool_decide_eq_true in H. unfold bucket. revert H.
  generalize (pool_ (pool sim_idle)). intros m H. destruct (m !! k) as [b|] eqn:E; simpl; [|by intros ?%not_elem_of_nil].
  specialize (H k b E). rewrite Forall_forall in H. apply H.
Qed.
Lemma sim_idle_policy :
  effective_policy sim_idle foreign_request = ZeroingPolicy.ON_CROSS_OWNER_REUSE.
Proof. vm_compute. reflexivity. Qed.
Lemma new_buffer_zeroed_witness :
  ∃ r, (allocate_record foreign_request sim_idle).1 = Ok r ∧ rec_pooled r = true
       ∧ zeroed (allocate_record foreign_request sim_idle).2 (rec_backing r).
Proof.
  eexists. split; [vm_compute; reflexivity|]. split; [reflexivity|].
  eapply (new_buffer_zeroed foreign_request sim_idle).
  - reflexivity.
  - apply _.
  - vm_compute. reflexivity.
  - unfold must_zero. rewrite sim_idle_policy. split; [reflexivity|]. exact sim_idle_owner.
  - vm_compute. discriminate.
  - vm_compute. split; [discriminate|reflexivity].
Defined.
