(* ===== verification/Migration.v ===== *)
(** Migration (src/runtime.cpp, [RuntimeImpl::migrate]): what it makes of the control
    blocks and the registry in any state, on success and on failure, and what becomes of
    the handles.  What it makes of the bytes is in Contents.v. *)
From S2P Require Import Prelude Types CheckedMath Platform HostBackend SharedBackend.
From S2P Require Import FileBackend CudaBackend Domain State Sim Ledger Pool Lifecycle Runtime.
From S2P Require Import Handle Facade SimRuntime Frames Allocation Charges Release.

Section migration.
Context {P : Platform}.
Implicit Types (s : RuntimeImpl) (r : BufferRecord).

(** A copy between blocks the CPU addresses is a [memcpy]. *)
Lemma cpu_copy_run dst src len m :
  ∃ m', copy_memory dst src len false false m = (ok_status, m')
        ∧ ∀ a, mem m' a = memcpy dst src len (mem m) a.
Proof.
  unfold copy_memory. destruct (len =? 0) eqn:E.
  - exists m. split; [done|]. intros a. bool_prop. subst len. symmetry. apply memmove_out. lia.
  - rewrite andb_false_r. eexists. by split.
Qed.

(** The checksum does not cover itself. *)
Lemma meta_crc_of_set z r : meta_crc_of (set_rec_meta_crc z r) = meta_crc_of r.
Proof.
  unfold meta_crc_of, set_rec_meta_crc.
  cbn [rec_id rec_generation rec_domain rec_size rec_alignment]. reflexivity.
Qed.
Lemma rec_meta_crc_set z r : rec_meta_crc (set_rec_meta_crc z r) = z.
Proof. reflexivity. Qed.
Lemma migrated_record_crc r tdom target tdev nb :
  rec_meta_crc (migrated_record r tdom target tdev nb)
  = meta_crc_of (migrated_record r tdom target tdev nb).
Proof. unfold migrated_record. by rewrite meta_crc_of_set, rec_meta_crc_set. Qed.

(** A migration that changes something swaps the record of its control block, and nothing
    else. *)
Lemma migrate_outcome s c k target c' :
  controls s !! c = Some k → rec_domain (rec k) ≠ target → (migrate c target s).1 = Ok c' →
  let s' := (migrate c target s).2 in
  c' = c ∧ registry_ s' = registry_ s
  ∧ ∃ tdom tdev nb, domain s target = Some tdom
      ∧ controls s' = <[c := set_rec (λ _, migrated_record (rec k) tdom target tdev nb) k]> (controls s).
Proof.
  intros Hk Hne. cbv zeta. unfold migrate. rewrite bind_run. cbn [get fst snd].
  assert (ctl_at s c = k) as -> by (unfold ctl_at; by rewrite Hk).
  destruct (closed_ s); [done|]. cbv zeta. set (r := rec k) in *.
  rewrite bool_decide_eq_false_2 by done. destruct (_ || _); [done|].
  destruct (_ || _); [by rewrite bind_run|]. destruct (domain s target) as [tdom|]; [|done].
  set (n := if rec_committed r =? 0 then _ else _). set (tdev := if bool_decide _ then _ else _).
  rewrite bind_run. pose proof (quiet_reserve_amount (rec_ns r) target n s) as Q1.
  destruct (reserve_amount (rec_ns r) target n s) as [[u|e] s1]; cbn [fst snd] in *; [|done].
  rewrite bind_run. pose proof (quiet_on_machine (IDomain.allocate tdom n (rec_alignment r)) s1) as Q2.
  destruct (on_machine (IDomain.allocate _ _ _) s1) as [[nb|e] s2]; cbn [fst snd] in *;
    [|by rewrite bind_run].
  rewrite bind_run. pose proof (quiet_migrate_fill r tdom target n nb s2) as Q3.
  destruct (migrate_fill r tdom target n nb s2) as [[u2|e] s3]; cbn [fst snd is_ok] in *; [|done].
  rewrite bind_run. cbn [ret fst snd]. intros [= <-].
  assert (quiet s s3) as Q by (do 2 (etransitivity; [eassumption|]); done).
  unfold migrate_commit. rewrite bind_run. set (s4 := (upd_ctl c _ s3).2).
  assert (controls s4 = <[c := set_rec (λ _, migrated_record r tdom target tdev nb) k]> (controls s)) as Hctl.
  { unfold s4. cbn [upd_ctl modify snd controls set_controls]. rewrite (q_controls _ _ Q).
    by rewrite (alter_insert_Some _ _ _ _ Hk). }
  match goal with |- context [(?f s4).2] =>
    assert (quiet s4 (f s4).2) as Q4 by (assert (preserves quiet f) as H by preserves_tac; apply H) end.
  rewrite (q_registry _ _ Q4), (q_controls _ _ Q4), Hctl. split; [done|].
  split; [exact (q_registry _ _ Q)|]. by exists tdom, tdev, nb.
Qed.
(** A migration that fails changes no control block and no registry entry. *)
Lemma migrate_failed s c target e :
  (migrate c target s).1 = Fail e → quiet s (migrate c target s).2.
Proof.
  unfold migrate. rewrite bind_run. cbn [get fst snd]. destruct (closed_ s); [done|]. cbv zeta.
  set (k := ctl_at s c). set (r := rec k). destruct (bool_decide _); [done|]. destruct (_ || _); [done|].
  destruct (_ || _); [intros _; rewrite bind_run; apply quiet_tick|].
  destruct (domain s target) as [tdom|]; [|done]. set (n := if rec_committed r =? 0 then _ else _).
  set (tdev := if bool_decide _ then _ else _).
  rewrite bind_run. pose proof (quiet_reserve_amount (rec_ns r) target n s) as Q1.
  destruct (reserve_amount (rec_ns r) target n s) as [[u|e1] s1]; cbn [fst snd] in *; [|done].
  rewrite bind_run. pose proof (quiet_on_machine (IDomain.allocate tdom n (rec_alignment r)) s1) as Q2.
  destruct (on_machine (IDomain.allocate _ _ _) s1) as [[nb|e1] s2]; cbn [fst snd] in *.
  - rewrite bind_run. pose proof (quiet_migrate_fill r tdom target n nb s2) as Q3.
    destruct (migrate_fill r tdom target n nb s2) as [[u2|e2] s3]; cbn [fst snd] in *; [by rewrite bind_run|].
    intros _. do 2 (etransitivity; [eassumption|]). done.
  - intros _. rewrite bind_run. do 2 (etransitivity; [eassumption|]). apply quiet_unreserve_amount.
Qed.

(** C32: a migration retires the handles of the previous generation: every handle
    that was good before is refused as [stale_generation] afterwards, and the
    handle the migration returns is good and names the same buffer. *)
Theorem migration_retires_handles s h c target h' :
  h_ctl h = Some c → is_Some (controls s !! c) → validate_alive h s = ok_status →
  is_u64 (h_gen h) → rec_domain (rec (ctl_at s c)) ≠ target →
  (Runtime_migrate true h target s).1 = Ok h' →
  let s' := (Runtime_migrate true h target s).2 in
  validate_alive h s' = fail ErrorCode.stale_generation "stale generation"
  ∧ validate_alive h' s' = ok_status ∧ h_id h' = rec_id (rec (ctl_at s c)).
Proof.
  intros Hc Hk Hal Hg Hne. cbv zeta. unfold Runtime_migrate, guarded, with_handle.
  rewrite bind_run. cbn [get fst snd]. rewrite Hal, Hc. cbn [ok_status]. rewrite bind_run.
  destruct Hk as [k0 Hk0]. pose proof (migrate_outcome s c k0 target) as Ho.
  assert (ctl_at s c = k0) as Hat by (unfold ctl_at; by rewrite Hk0).
  destruct (migrate c target s) as [[c'|e] s1]; cbn [fst snd] in *; [|done].
  destruct (Ho c' Hk0 ltac:(by rewrite <- Hat) eq_refl) as (-> & _ & tdom & tdev & nb & _ & Hctls).
  assert (finalized (ctl_at s1 c) = finalized (ctl_at s c) ∧ rec_id (rec (ctl_at s1 c)) = rec_id (rec (ctl_at s c))
          ∧ rec_generation (rec (ctl_at s1 c)) = u64 (rec_generation (rec (ctl_at s c)) + 1)
          ∧ rec_state (rec (ctl_at s1 c)) = BufferState.ALLOCATED) as (Hf & Hid & Hgen & Hst).
  { rewrite Hat. unfold ctl_at. by rewrite Hctls, lookup_insert_eq. }
  cbn [handle_result]. rewrite !bind_run. unfold new_handle. rewrite !bind_run.
  cbn [get ret fst snd]. set (s2 := (retain c s1).2).
  assert (rec (ctl_at s2 c) = rec (ctl_at s1 c) ∧ finalized (ctl_at s2 c) = finalized (ctl_at s1 c)) as [Hr2 Hf2].
  { unfold s2, ctl_at. simpl. rewrite lookup_alter, decide_True by done. by destruct (controls s1 !! c). }
  unfold validate_alive in Hal. rewrite Hc in Hal.
  destruct (h_valid h) eqn:Hv; [|done]. cbn [negb] in Hal.
  destruct (finalized (ctl_at s c)) eqn:Hfs; [done|].
  destruct (h_gen h =? rec_generation (rec (ctl_at s c))) eqn:Hgs; [|done]. bool_prop.
  intros [= <-]. unfold validate_alive, handle_of. cbn [h_ctl h_valid h_gen h_id negb].
  rewrite Hc, Hv, Hf2, Hr2, Hf, Hid, Hgen, Hst, Z.eqb_refl. cbn [negb dead_state].
  split_and!; [|done|done].
  destruct (h_gen h =? u64 _) eqn:E; [|done]. bool_prop. exfalso.
  rewrite <- Hgs in E. unfold u64, is_u64, two64 in *.
  destruct (decide (h_gen h = 18446744073709551615)) as [Hmax|Hmax];
    [rewrite Hmax in E; by vm_compute in E|].
  rewrite Z.mod_small in E; lia.
Qed.
End migration.

(** ** Witnesses: a host buffer of the concrete platform moves to shared memory *)

Definition sim_plain : RuntimeImpl := (Runtime_allocate true plain_request sim_runtime).2.
Definition sim_plain_handle : BufferHandle := mkBufferHandle true (Some 0%nat) (mkBufferId 1007 1) 1 true.
Lemma migration_retires_handles_witness :
  ∃ h', (Runtime_migrate true sim_plain_handle MemoryDomain.SHARED_HOST sim_plain).1 = Ok h'
    ∧ validate_alive sim_plain_handle
        (Runtime_migrate true sim_plain_handle MemoryDomain.SHARED_HOST sim_plain).2
      = fail ErrorCode.stale_generation "stale generation".
Proof.
  eexists. split; [vm_compute; reflexivity|].
  eapply (migration_retires_handles sim_plain sim_plain_handle 0 MemoryDomain.SHARED_HOST).
  - reflexivity.
  - vm_compute. by eexists.
  - vm_compute. reflexivity.
  - by vm_compute.
  - vm_compute. discriminate.
  - vm_compute. reflexivity.
Defined.

(** A migration gives the borrowed block of the application to the allocator's
    [free], which the finalization never does. *)
Lemma migration_frees_borrowed_memory :
  sim_freed (os (machine sim_borrowed)) = []
  ∧ sim_freed (os (machine (migrate 0 MemoryDomain.SHARED_HOST sim_borrowed).2))
    = [ext_pointer borrowed_desc].
Proof. split; vm_compute; reflexivity. Qed.
