(* ===== verification/Access.v ===== *)
(** Access to the contents of a buffer through its handle (src/buffer.cpp):
    bounded views, and the copies into and out of a buffer. *)
From S2P Require Import Prelude Types CheckedMath Platform HostBackend SharedBackend.
From S2P Require Import FileBackend CudaBackend Domain State Sim Ledger Pool Lifecycle Runtime.
From S2P Require Import Handle Facade SimRuntime Frames Allocation Charges Release Migration.

Section access.
Context {P : Platform}.
Implicit Types (s : RuntimeImpl) (h : BufferHandle).

Lemma alive_control h s : validate_alive h s = ok_status → ∃ c, h_ctl h = Some c.
Proof. unfold validate_alive. destruct (h_ctl h) as [c|]; [by eexists|done]. Qed.

(** [ensure_valid] is [validate_alive] and the write permission. *)
Lemma ensure_valid_iff h want s c :
  h_ctl h = Some c →
  ensure_valid h want s = ok_status ↔
  validate_alive h s = ok_status
  ∧ (want = AccessMode.WRITE → rec_access (rec (ctl_at s c)) ≠ AccessMode.READ).
Proof.
  intros Hc. unfold ensure_valid. rewrite Hc. cbn [from_option id].
  destruct (validate_alive h s) as [[]|e]; [|split; [done|by intros []]].
  destruct (bool_decide (want = _)) eqn:E1; cbn [andb].
  - apply bool_decide_eq_true in E1. case_bool_decide as E2.
    + split; [done|]. intros [_ H]. by destruct (H E1).
    + done.
  - apply bool_decide_eq_false in E1. done.
Qed.

(** [view] is granted exactly when it is harmless: on a live handle of the
    current generation, for a non-empty range within the size of the buffer, and
    for writing only if the buffer is not read-only.  A granted view covers
    exactly the requested range of the backing block. *)
Theorem view_granted_exactly h s c offset len access :
  h_ctl h = Some c → is_u64 offset → is_u64 len → is_u64 (rec_size (rec (ctl_at s c))) →
  let r := rec (ctl_at s c) in
  let x := (handle_view h offset len access s).1 in
  (is_ok x = true ↔
     validate_alive h s = ok_status ∧ 0 < len ∧ offset + len ≤ rec_size r
     ∧ (access = AccessMode.WRITE → rec_access r ≠ AccessMode.READ))
  ∧ ∀ v, x = Ok v →
      view_off v = offset ∧ view_len v = len ∧ view_access v = access ∧ view_ctl v = Some c
      ∧ (na_host_map (rec_backing r) ≠ 0 → view_data v = na_host_map (rec_backing r) + offset)
      ∧ (na_host_map (rec_backing r) = 0 → view_data v = 0).
Proof.
  intros Hc Ho Hl Hs. cbv zeta. set (r := rec (ctl_at s c)) in *.
  unfold handle_view, with_handle. rewrite bind_run. cbn [get fst snd].
  pose proof (ensure_valid_iff h access s c Hc) as He. fold r in He.
  destruct (ensure_valid h access s) as [[]|e].
  2: { split; [|done]. split; [done|]. intros (H1 & _ & _ & H2).
       pose proof (proj2 He (conj H1 H2)) as Hno. done. }
  destruct (proj1 He eq_refl) as [Hal Hw]. rewrite Hc. rewrite bind_run. cbn [get_ctl gets fst snd].
  fold r. cbv zeta. destruct (range_in_bounds offset len (rec_size r)) eqn:Hr; cbn [negb].
  2: { split; [|done]. split; [done|]. intros (_ & _ & Hle & _). exfalso.
       apply (range_in_bounds_spec _ _ _ Ho Hl Hs) in Hle. congruence. }
  apply (range_in_bounds_spec _ _ _ Ho Hl Hs) in Hr.
  destruct (len =? 0) eqn:E0; bool_prop.
  { split; [|done]. split; [done|]. lia. }
  assert (bool_decide (access = AccessMode.WRITE) && bool_decide (rec_access r = AccessMode.READ) = false) as ->.
  { destruct (bool_decide (access = _)) eqn:E1; [|done]. apply bool_decide_eq_true in E1.
    by rewrite bool_decide_eq_false_2 by auto. }
  rewrite bind_run. cbn [ret fst]. split.
  - split; [|done]. intros _. unfold is_u64 in *. split_and!; [done|lia|done|done].
  - intros v [= <-]. cbn [view_off view_len view_access view_ctl view_data].
    split_and!; try done; intros H; destruct (_ =? 0) eqn:E; bool_prop; done.
Qed.

(** What a granted [copy_from] and [copy_to] of a CPU-addressable buffer do. *)
Lemma copy_from_ok h s c src off len :
  h_ctl h = Some c → rec_domain (rec (ctl_at s c)) ≠ MemoryDomain.DEVICE →
  is_ok (handle_copy_from h src off len s).1 = true →
  let s' := (handle_copy_from h src off len s).2 in
  let r := rec (ctl_at s c) in
  len ≤ rec_size r ∧ ensure_valid h AccessMode.WRITE s = ok_status
  ∧ quiet s s' ∧ (∀ a, mem (machine s') a = memcpy (na_base (rec_backing r)) (src + off) len (mem (machine s)) a).
Proof.
  intros Hc Hd. cbv zeta. pose proof (quiet_handle_copy_from h src off len s) as Hq. revert Hq.
  unfold handle_copy_from, with_handle. rewrite bind_run. cbn [get fst snd].
  destruct (ensure_valid h AccessMode.WRITE s) as [[]|e]; [|done]. rewrite Hc.
  destruct (src =? 0); [done|]. rewrite bind_run. cbn [get fst snd]. cbv zeta.
  set (r := rec (ctl_at s c)) in *. destruct (rec_size r <? len) eqn:E; [done|].
  destruct (negb _); [done|]. rewrite bool_decide_eq_false_2 by done. rewrite bind_run.
  rewrite on_machine_run.
  destruct (cpu_copy_run (na_base (rec_backing r)) (src + off) len (machine s)) as (m & -> & Hm).
  cbn [fst snd ok_status]. intros Hq _. bool_prop. split_and!; [done|done|exact Hq|exact Hm].
Qed.
Lemma copy_to_ok h s c dst off len :
  h_ctl h = Some c → rec_domain (rec (ctl_at s c)) ≠ MemoryDomain.DEVICE →
  is_ok (handle_copy_to h dst off len s).1 = true →
  let s' := (handle_copy_to h dst off len s).2 in
  let r := rec (ctl_at s c) in
  quiet s s' ∧ (∀ a, mem (machine s') a = memcpy (dst + off) (na_base (rec_backing r)) len (mem (machine s)) a).
Proof.
  intros Hc Hd. cbv zeta. pose proof (quiet_handle_copy_to h dst off len s) as Hq. revert Hq.
  unfold handle_copy_to, with_handle. rewrite bind_run. cbn [get fst snd].
  destruct (ensure_valid h AccessMode.READ s) as [[]|e]; [|done]. rewrite Hc.
  destruct (dst =? 0); [done|]. rewrite bind_run. cbn [get fst snd]. cbv zeta.
  set (r := rec (ctl_at s c)) in *. destruct (_ || _); [done|].
  destruct (negb _); [done|]. rewrite bool_decide_eq_false_2 by done. rewrite bind_run.
  rewrite on_machine_run.
  destruct (cpu_copy_run (dst + off) (na_base (rec_backing r)) len (machine s)) as (m & -> & Hm).
  cbn [fst snd ok_status]. intros Hq _. split; [exact Hq|exact Hm].
Qed.

(** Copying [len] bytes into a buffer and copying [len] bytes out again gives
    the bytes that went in, at the address asked for; the copy in never exceeds
    the size of the buffer and needs write permission, and between them the two
    copies write nothing but the first [len] bytes of the buffer and the
    destination. *)
Theorem copy_round_trip h s c src src_off dst dst_off len :
  h_ctl h = Some c → rec_domain (rec (ctl_at s c)) ≠ MemoryDomain.DEVICE →
  let s1 := (handle_copy_from h src src_off len s).2 in
  let s2 := (handle_copy_to h dst dst_off len s1).2 in
  let r := rec (ctl_at s c) in
  is_ok (handle_copy_from h src src_off len s).1 = true →
  is_ok (handle_copy_to h dst dst_off len s1).1 = true →
  bytes_at (mem (machine s2)) (dst + dst_off) len
    = bytes_at (mem (machine s)) (src + src_off) len
  ∧ len ≤ rec_size r ∧ rec_access r ≠ AccessMode.READ
  ∧ ∀ a, in_range (na_base (rec_backing r)) len a = false →
         in_range (dst + dst_off) len a = false →
         mem (machine s2) a = mem (machine s) a.
Proof.
  intros Hc Hd. cbv zeta. intros H1 H2.
  destruct (copy_from_ok h s c src src_off len Hc Hd H1) as (Hlen & Hv & Hq & Hm1).
  set (s1 := (handle_copy_from h src src_off len s).2) in *. set (r := rec (ctl_at s c)) in *.
  assert (rec (ctl_at s1 c) = r) as Hr by (by rewrite (quiet_ctl_at _ _ c Hq)).
  destruct (copy_to_ok h s1 c dst dst_off len Hc) as (_ & Hm2); [by rewrite Hr|done|].
  rewrite Hr in Hm2. set (s2 := (handle_copy_to h dst dst_off len s1).2) in *.
  split_and!.
  - rewrite <- (bytes_at_memmove (mem (machine s)) (na_base (rec_backing r)) (src + src_off) len).
    rewrite <- (bytes_at_memmove _ (dst + dst_off) (na_base (rec_backing r)) len).
    apply bytes_at_ext. intros a Ha. rewrite Hm2. unfold memcpy, memmove at 1 2.
    destruct (in_range (dst + dst_off) len a); rewrite Hm1; done.
  - done.
  - by apply (proj2 (proj1 (ensure_valid_iff h AccessMode.WRITE s c Hc) Hv)).
  - intros a Ha Hb. rewrite Hm2. unfold memcpy, memmove. rewrite Hb, Hm1.
    unfold memcpy, memmove. by rewrite Ha.
Qed.
End access.

(** ** Witnesses *)
Lemma view_granted_exactly_witness :
  is_ok (handle_view sim_plain_handle 100 200 AccessMode.READ sim_plain).1 = true.
Proof.
  apply (view_granted_exactly sim_plain_handle sim_plain 0 100 200 AccessMode.READ).
  - reflexivity.
  - by vm_compute.
  - by vm_compute.
  - by vm_compute.
  - split_and!; vm_compute; done.
Defined.

(** 16 bytes from address 0x10000 into the buffer, and from there to 0x20000. *)
Lemma copy_round_trip_witness :
  let s1 := (handle_copy_from sim_plain_handle 65536 0 16 sim_plain).2 in
  let s2 := (handle_copy_to sim_plain_handle 131072 0 16 s1).2 in
  bytes_at (mem (machine s2)) 131072 16 = bytes_at (mem (machine sim_plain)) 65536 16.
Proof.
  refine (proj1 (copy_round_trip sim_plain_handle sim_plain 0 65536 0 131072 0 16 _ _ _ _)).
  - reflexivity.
  - vm_compute. discriminate.
  - vm_compute. reflexivity.
  - vm_compute. reflexivity.
Defined.
