(* ===== verification/Contents.v ===== *)
(** Buffers are byte arrays.  For the buffers in host and pinned memory, each operation
    of a client is compared with its meaning on lists of bytes: a copy into a buffer
    overwrites the beginning of its list, and every other operation, migration
    included, leaves the list as it is.  And what migrations do to the bytes of the
    buffer they move, from and to every domain for which that can be said. *)
From S2P Require Import Prelude Types CheckedMath Platform Resources HostBackend SharedBackend.
From S2P Require Import FileBackend CudaBackend Domain State Sim Ledger Pool Lifecycle Runtime.
From S2P Require Import Handle Facade SimResources SimRuntime Frames RefSpec Refcount Clients.
From S2P Require Import Backing Allocation Charges Release Ownership Conservation Isolation.
From S2P Require Import Migration Access.

(** Memory of the process alone that the CPU addresses. *)
Definition cpu_private (d : MemoryDomain) : Prop :=
  d = MemoryDomain.HOST ∨ d = MemoryDomain.PINNED_HOST.

(** Memory of the process alone. *)
Definition process_private (d : MemoryDomain) : Prop := cpu_private d ∨ d = MemoryDomain.DEVICE.

Section contents.
Context {P : Platform}.
Implicit Types s : RuntimeImpl.

(** What cudaMemcpy is documented to do: where it reports success, and the areas do not
    overlap, the bytes of the source are copied to the destination. *)
Definition cuda_copies : Prop :=
  ∀ dst src n kind w, (∀ a, dst ≤ a < dst + n → ¬ (src ≤ a < src + n)) →
    (cudaMemcpy dst src n kind w).1 = cudaSuccess →
    bytes_at (cudaMemcpy dst src n kind w).2.2 dst n = bytes_at w.2 src n.
(** Memory that a migration to CPU memory can read. *)
Definition copyable (d : MemoryDomain) : Prop := cpu_private d ∨ d = MemoryDomain.DEVICE ∧ cuda_copies.

Definition contents s (c : nat) : list Z :=
  let r := rec (ctl_at s c) in bytes_at (mem (machine s)) (na_base (rec_backing r)) (rec_committed r).
(** The meaning of an operation for the bytes [b] of the buffer behind [c]. *)
Definition after_op (o : ClientOp) s (c : nat) (b : list Z) : list Z :=
  match o with
  | OCopyFrom h src off n =>
      if bool_decide (h_ctl h = Some c) && is_ok (handle_copy_from h src off n s).1
      then bytes_at (mem (machine s)) (src + off) n ++ drop (Z.to_nat n) b else b
  | _ => b
  end.
(** The application copies to its own memory, not to that of the buffer, and moves the
    buffer only to such memory. *)
Definition stays_private (c : nat) (o : ClientOp) s : Prop :=
  match o with
  | OCopyTo _ _ _ _ => leaves_alone c o s
  | OMigrate h t => h_ctl h = Some c → cpu_private t
  | _ => True
  end.
(** A managed step, with its meaning for the bytes of the buffer, after which the client
    still has an object of it. *)
Inductive array_step (c : nat) :
    RuntimeImpl * list Token * list Z → RuntimeImpl * list Token * list Z → Prop :=
  | array_step_op o s ts rest b :
      managed o → ts ≡ₚ consumes o ++ rest → (∀ t, t ∈ borrows o → t ∈ ts) →
      id_counter_ s < two64 - 1 → stays_private c o s →
      (∃ t, t ∈ (client_op o s).1 ++ rest ∧ refers_to c t) →
      array_step c (s, ts, b) ((client_op o s).2, (client_op o s).1 ++ rest, after_op o s c b).

(** ** Lists of bytes *)

Lemma length_bytes_at m p n : length (bytes_at m p n) = Z.to_nat n.
Proof. unfold bytes_at. by rewrite length_fmap, length_seqZ. Qed.
Lemma bytes_at_app m p n1 n2 :
  0 ≤ n1 → 0 ≤ n2 → bytes_at m p (n1 + n2) = bytes_at m p n1 ++ bytes_at m (p + n1) n2.
Proof. intros H1 H2. unfold bytes_at. by rewrite seqZ_app, fmap_app by done. Qed.
Lemma take_bytes_at m p n n' : n ≤ n' → take (Z.to_nat n) (bytes_at m p n') = bytes_at m p n.
Proof.
  intros Hn. destruct (decide (0 ≤ n)) as [H0|H0].
  - replace n' with (n + (n' - n)) by lia. rewrite bytes_at_app by lia.
    by rewrite take_app_length' by by rewrite length_bytes_at.
  - assert (Z.to_nat n = 0%nat) as -> by lia. symmetry. apply nil_length_inv. rewrite length_bytes_at. lia.
Qed.
(** A copy to the beginning of a block. *)
Lemma bytes_at_overwrite m p src n len :
  n ≤ len → bytes_at (memmove p src n m) p len = bytes_at m src n ++ drop (Z.to_nat n) (bytes_at m p len).
Proof.
  intros Hn. destruct (decide (0 ≤ n)) as [H0|H0].
  - replace len with (n + (len - n)) by lia. rewrite !bytes_at_app by lia.
    rewrite drop_app_length' by by rewrite length_bytes_at. f_equal; [apply bytes_at_memmove|].
    apply bytes_at_ext. intros a Ha. apply memmove_out. lia.
  - assert (Z.to_nat n = 0%nat) as -> by lia. rewrite (nil_length_inv (bytes_at m src n)) by (rewrite length_bytes_at; lia).
    apply bytes_at_ext. intros a Ha. apply memmove_out. lia.
Qed.

(** ** Putting what is in hand aside *)

Lemma owns_guard {O : OsResources P} {hide : Hidden} bk pin g rs s :
  owns bk pin (g ++ rs) s → owns (O := guarded_os g (mem (machine s))) bk pin rs s.
Proof.
  intros (Hw & Hp & Hm). split; [done|]. split; [done|]. split; [|done].
  revert Hm. apply m_holds_perm. rewrite (app_assoc (visible_resources s)), (app_assoc (visible_resources s)).
  apply Permutation_app_swap_app.
Qed.
Lemma guard_kept {O : OsResources P} {hide : Hidden} bk pin g m0 rs s :
  owns (O := guarded_os g m0) bk pin rs s → undisturbed g m0 (mem (machine s)).
Proof. by intros (_ & _ & _ & Hu). Qed.

Lemma block_bytes d a m m' n :
  process_private d → fits d a → n ≤ na_committed a → undisturbed (resources d a) m m' →
  bytes_at m' (na_base a) n = bytes_at m (na_base a) n.
Proof.
  intros Hd Ha Hn Hu. rewrite (fits_base d a Ha). apply bytes_at_ext. intros x Hx.
  assert (∃ r, resources d a = [r] ∧ private r = true ∧ extent r = Some (na_pointer a, na_committed a))
    as (r & Hr & Hp & He) by (destruct Hd as [[-> | ->]| ->]; by eexists).
  apply (Hu r); [rewrite Hr; by left|done|]. unfold within. rewrite He. lia.
Qed.

(** ** Migration of a buffer *)

Section migration.
Context {O : OsResources P} (bk : Backends).
Context (Hbk : ∀ O' : OsResources P, backends_owned (O := O') bk).
Variables (c : nat) (k : Control) (target : MemoryDomain) (tdom : IDomain).
Hypothesis Htarget : domain_in bk target = Some tdom.
Hypothesis Hlive : finalized k = false.
Hypothesis Hsrc : copyable (rec_domain (rec k)).
Hypothesis Hdst : cpu_private target.
Let at_k (m : gmap nat Control) : Prop := m !! c = Some k.

Lemma not_device d : cpu_private d → d ≠ MemoryDomain.DEVICE.
Proof. by intros [-> | ->]. Qed.

Lemma copyable_private d : copyable d → process_private d.
Proof. intros [Hd|[Hd _]]; [by left|by right]. Qed.

(** The new block and that of the buffer. *)
Lemma live_apart nb rs s :
  fits target nb → record_ok bk (rec k) → owns bk at_k (resources target nb ++ rs) s →
  let b := rec_backing (rec k) in
  na_pointer nb + na_committed nb ≤ na_pointer b ∨ na_pointer b + na_committed b ≤ na_pointer nb.
Proof.
  intros Hnb [[_ Hb] _ _ _ _] (_ & Hk & Hm). cbv zeta. unfold visible_resources in Hm.
  rewrite (map_bind_delete _ _ c k Hk), visible_when in Hm by done. unfold ctl_resources in Hm. rewrite Hlive in Hm.
  destruct (fits_extent _ _ Hnb) as (r1 & l1 & E1 & X1). destruct (fits_extent _ _ Hb) as (r2 & l2 & E2 & X2).
  set (rest := map_bind _ _) in Hm. set (other := other_resources s) in Hm. rewrite E1, E2 in Hm.
  assert (apart r1 r2) as Ha.
  { apply (os_apart r1 r2 ((l2 ++ rest) ++ other ++ l1 ++ rs) (os (machine s), mem (machine s))).
    revert Hm. apply m_holds_perm. cbn [app]. rewrite <- !app_assoc. cbn [app]. rewrite Permutation_swap.
    constructor. rewrite (Permutation_middle l2). apply Permutation_app_head.
    rewrite (Permutation_middle rest). apply Permutation_app_head. by rewrite <- Permutation_middle. }
  unfold apart in Ha. by rewrite X1, X2 in Ha.
Qed.

(** A copy through the driver, and the wait for it. *)
Lemma cuda_copy_contents n kind nb rs s :
  cuda_copies → fits target nb → record_ok bk (rec k) → n ≤ rec_committed (rec k) → n ≤ na_committed nb →
  owns bk at_k (resources target nb ++ rs) s →
  let src := na_base (rec_backing (rec k)) in
  let m1 := (syscall (cudaMemcpy (na_base nb) src n kind) (machine s)).2 in
  (syscall (cudaMemcpy (na_base nb) src n kind) (machine s)).1 = cudaSuccess →
  bytes_at (mem (syscall cudaDeviceSynchronize m1).2) (na_base nb) n = bytes_at (mem (machine s)) src n.
Proof.
  intros Hcopies Hnb Hr Hn1 Hn2 Hs. cbv zeta. set (src := na_base (rec_backing (rec k))).
  pose proof (live_apart nb rs s Hnb Hr Hs) as Hapart. pose proof (ro_backed _ _ Hr) as Hle.
  pose proof (fits_base _ _ Hnb) as Hnbase. pose proof (fits_base _ _ (proj2 (ro_usable _ _ Hr)) : src = _) as Hsrcb.
  destruct (syscall_run (cudaMemcpy (na_base nb) src n kind) (machine s)) as [-> Hst].
  set (m1 := (syscall _ (machine s)).2) in *. intros He.
  assert (m_holds (resources target nb ++ rs ++ visible_resources s ++ other_resources s) (machine s)) as Hm.
  { destruct Hs as (_ & _ & Hm). revert Hm. apply m_holds_perm. rewrite (app_assoc (visible_resources s)).
    by rewrite (Permutation_app_comm (visible_resources s ++ _)), <- app_assoc. }
  destruct (fits_extent _ _ Hnb) as (r1 & l1 & E1 & X1).
  assert (m_holds (resources target nb ++ rs ++ visible_resources s ++ other_resources s) m1) as Hm1.
  { apply writes_cuda_memcpy; [|exact Hm]. apply (may_write_extent r1 _ (na_pointer nb) (na_committed nb)); [|done|lia..].
    rewrite E1. by left. }
  rewrite (block_bytes target nb (mem m1)); [|by left|done|done|].
  - replace (mem m1) with (cudaMemcpy (na_base nb) src n kind (os (machine s), mem (machine s))).2.2
      by (by rewrite <- Hst).
    apply (Hcopies (na_base nb) src n kind); [|exact He].
    intros a Ha. cbv zeta in Hapart. rewrite Hnbase, Hsrcb in *. lia.
  - destruct (syscall_run cudaDeviceSynchronize m1) as [_ Hst2].
    pose proof (os_quiet [] _ _ (resources target nb ++ rs ++ visible_resources s ++ other_resources s) (os m1, mem m1)
      (quiet_inert _ _ inert_sync) Hm1) as Hu. rewrite <- Hst2 in Hu.
    eapply undisturbed_fewer; [|exact Hu]. set_solver.
Qed.

(** The copy is there when the new block has been filled, committed and verified. *)
Lemma copy_contents n src_dev nb rs s :
  (src_dev = true → cuda_copies) → fits target nb → record_ok bk (rec k) → n ≤ rec_committed (rec k) → n ≤ na_committed nb →
  owns bk at_k (resources target nb ++ rs) s →
  let q := copy_memory (na_base nb) (na_base (rec_backing (rec k))) n false src_dev (machine s) in
  is_ok q.1 = true → bytes_at (mem q.2) (na_base nb) n = bytes_at (mem (machine s)) (na_base (rec_backing (rec k))) n.
Proof.
  intros Hcopies Hnb Hr Hn1 Hn2 Hs. cbv zeta. unfold copy_memory. destruct (n =? 0) eqn:E0.
  { bool_prop. by subst n. }
  destruct (has_cuda && (false || src_dev)) eqn:Ecuda.
  - apply andb_prop in Ecuda as [_ Hdev]. rewrite bind_run. match goal with |- context [cudaMemcpy _ _ _ ?x] => set (kind := x) end.
    pose proof (cuda_copy_contents n kind nb rs s (Hcopies Hdev) Hnb Hr Hn1 Hn2 Hs) as Hc. cbv zeta in Hc.
    destruct (syscall (cudaMemcpy _ _ _ _) (machine s)) as [e m1]; cbn [fst snd] in *.
    destruct (e =? cudaSuccess) eqn:Ee; cbn [negb]; [|done]. bool_prop. rewrite bind_run.
    specialize (Hc Ee). destruct (syscall cudaDeviceSynchronize m1) as [e2 m2]; cbn [fst snd] in *.
    by destruct (negb (e2 =? cudaSuccess)).
  - intros _. cbn. apply bytes_at_memmove.
Qed.
Lemma fill_contents n nb rs s :
  fits target nb → record_ok bk (rec k) → owns bk at_k (resources target nb ++ rs) s →
  is_ok (migrate_fill (rec k) tdom target n nb s).1 = true →
  let len := Z.min (rec_committed (rec k)) (na_committed nb) in
  bytes_at (mem (machine (migrate_fill (rec k) tdom target n nb s).2)) (na_base nb) len
  = bytes_at (mem (machine s)) (na_base (rec_backing (rec k))) len.
Proof.
  intros Hnb Hr Hs. cbv zeta. unfold migrate_fill.
  rewrite (bool_decide_eq_false_2 (target = _)) by by apply not_device.
  set (len := Z.min _ _). set (src_dev := bool_decide _).
  assert (src_dev = true → cuda_copies) as Hcopies.
  { intros Hd%bool_decide_eq_true. destruct Hsrc as [Hc|[_ Hc]]; [by apply not_device in Hc|done]. }
  pose proof (copy_contents len src_dev nb rs s Hcopies Hnb Hr ltac:(lia) ltac:(lia) Hs) as Hcopy.
  destruct (triple_on_machine bk at_k _ _ _ _
    (triple_copy_into target nb (na_base (rec_backing (rec k))) len false src_dev Hnb ltac:(lia)) rs s Hs) as [_ H1].
  rewrite bind_run. rewrite (on_machine_run (copy_memory _ _ _ _ _)) in *. cbv zeta in Hcopy.
  destruct (copy_memory _ _ _ _ _ (machine s)) as [[u0|e0] m]; cbn [fst snd is_ok] in *; [|by rewrite !bind_run].
  specialize (Hcopy eq_refl). rewrite <- Hcopy.
  set (s1 := set_machine m s) in *. pose proof (owns_guard bk at_k _ _ _ H1) as G1.
  change (mem (machine s1)) with (mem m) in G1.
  rewrite bind_run. pose proof (inert_commit_amount (O := guarded_os (resources target nb) (mem m)) bk at_k
    (rec_ns (rec k)) target (na_committed nb) s1 rs G1) as G2.
  destruct (commit_amount _ _ _ s1) as [[u|e] s2]; cbn [fst snd] in *; [|by rewrite !bind_run].
  rewrite bind_run.
  pose proof (inert_on_machine (O := guarded_os (resources target nb) (mem m)) bk at_k _
    (od_verify_inert (OwnedDomain := Hbk _ _ _ Htarget) nb 0 (na_committed nb) (not_device _ Hdst)) s2 rs G2) as G3.
  destruct (on_machine _ s2) as [[u2|e] s3]; cbn [fst snd] in *; [|by rewrite !bind_run].
  intros _. cbn [ret snd].
  by rewrite (block_bytes target nb (mem m) _ len (or_introl Hdst) Hnb ltac:(lia) (guard_kept _ _ _ _ _ _ G3)).
Qed.
(** The new block is not touched when the old one is given back. *)
Lemma commit_contents tdev nb rs s n :
  fits target nb → record_ok bk (rec k) → n ≤ na_committed nb → owns bk at_k (resources target nb ++ rs) s →
  let s' := (migrate_commit c (rec k) tdom target tdev nb s).2 in
  (∃ k', controls s' !! c = Some k' ∧ same_owner (set_rec (λ _, migrated_record (rec k) tdom target tdev nb) k) k')
  ∧ bytes_at (mem (machine s')) (na_base nb) n = bytes_at (mem (machine s)) (na_base nb) n.
Proof.
  intros Hnb Hr Hn Hs. cbv zeta. rewrite migrate_commit_split by apply Hs.
  pose proof (owns_rebind bk c k target tdom Htarget Hlive tdev nb rs s eq_refl (conj Hnb Hr) Hs) as H1.
  set (k' := set_rec _ k) in *. set (s1 := set_controls _ s) in *.
  assert (controls s1 !! c = Some k') as Hk' by apply lookup_insert_eq.
  pose proof (owns_beside bk c k' (mem (machine s)) _ s1 H1 Hk' Hlive eq_refl) as G1.
  pose proof (owns_retire (O := beside k' (mem (machine s))) (hide := only c k') bk (Hbk _) target (rec k) Hr rs s1 G1) as [_ G2].
  destruct (beside_kept _ _ _ _ _ _ G2) as [Hc Hu]. split; [exact Hc|].
  apply (block_bytes target nb); [by left|done..].
Qed.
Lemma migrate_contents s :
  controls s !! c = Some k → owns bk (λ _, True) [] s → DomainContract tdom →
  rec_domain (rec k) ≠ target → is_ok (migrate c target s).1 = true →
  let s' := (migrate c target s).2 in
  ∃ k', controls s' !! c = Some k' ∧ finalized k' = false ∧ rec_domain (rec k') = target
    ∧ rec_committed (rec k) ≤ rec_committed (rec k')
    ∧ bytes_at (mem (machine s')) (na_base (rec_backing (rec k'))) (rec_committed (rec k))
      = bytes_at (mem (machine s)) (na_base (rec_backing (rec k))) (rec_committed (rec k)).
Proof.
  intros Hk Hs Hcon Hne. cbv zeta.
  pose proof (wo_live _ _ (proj1 Hs) c k Hk Hlive) as Hr. pose proof (ro_usable _ _ Hr) as [_ Hfit].
  pose proof (owns_beside bk c k (mem (machine s)) [] s Hs Hk Hlive eq_refl) as B0.
  unfold migrate. rewrite bind_run. cbn [fst snd get]. cbv zeta.
  assert (ctl_at s c = k) as -> by (unfold ctl_at; by rewrite Hk).
  destruct (closed_ s); [done|]. rewrite bool_decide_eq_false_2 by done. destruct (_ || _); [done|].
  destruct (_ || _); [done|]. rewrite (owns_domain _ _ _ _ target Hs), Htarget.
  assert (owns bk at_k [] s) as Hs0 by (by eapply owns_pin; [|exact Hs]).
  set (n := if rec_committed (rec k) =? 0 then rec_size (rec k) else rec_committed (rec k)).
  assert (is_u64 n) as Hn by (unfold n; destruct (_ =? 0); apply Hr).
  rewrite bind_run. pose proof (inert_reserve_amount bk (Hbk _) at_k (rec_ns (rec k)) target n s [] Hs0) as H1.
  pose proof (inert_reserve_amount (O := beside k (mem (machine s))) (hide := only c k) bk (Hbk _) _ (rec_ns (rec k)) target n s [] B0) as B1.
  destruct (reserve_amount _ _ _ s) as [[u|e] s1]; cbn [fst snd] in *; [|done]. rewrite bind_run.
  pose proof (triple_on_machine bk at_k _ _ _ _ (od_allocate (OwnedDomain := Hbk _ _ _ Htarget) n
    (rec_alignment (rec k)) Hn) [] s1 H1) as [Hnb H2].
  pose proof (triple_on_machine (O := beside k (mem (machine s))) (hide := only c k) bk _ _ _ _ _
    (od_allocate (OwnedDomain := Hbk (beside k (mem (machine s))) _ _ Htarget) n
    (rec_alignment (rec k)) Hn) [] s1 B1) as [_ B2].
  pose proof (dc_allocate n (rec_alignment (rec k)) (machine s1)) as Hval.
  rewrite (on_machine_run (IDomain.allocate _ _ _)) in *.
  destruct (IDomain.allocate tdom n (rec_alignment (rec k)) (machine s1)) as [[nb|e] m2];
    cbn [fst snd fits_result held_result] in *; [|by rewrite bind_run].
  set (s2 := set_machine m2 s1) in *. destruct (Hval nb eq_refl) as (Hnn & _).
  assert (rec_committed (rec k) ≤ na_committed nb) as Hle.
  { rewrite Hnn. unfold n. destruct (_ =? 0) eqn:E; bool_prop; [|lia]. rewrite E. apply Hr. }
  rewrite bind_run. destruct (owns_migrate_fill bk (Hbk _) c k target tdom Htarget (rec k) n nb Hnb [] s2 H2) as [_ H3].
  pose proof (fill_contents n nb [] s2 Hnb Hr H2) as Hcopy.
  destruct (migrate_fill _ _ _ _ _ s2) as [[[]|e] s3]; cbn [fst snd is_ok] in *; [|done].
  rewrite bind_run. cbn [ret fst snd]. intros _.
  set (tdev := if bool_decide (target = _) then _ else _).
  destruct (commit_contents tdev nb [] s3 (rec_committed (rec k)) Hnb Hr Hle H3) as [(k' & Hk' & Hso) Hb].
  exists k'. split; [exact Hk'|]. split; [by rewrite (so_finalized _ _ Hso)|].
  split; [by rewrite (so_domain _ _ Hso)|]. rewrite (so_backing _ _ Hso), (so_committed _ _ Hso). split; [exact Hle|].
  change (rec_backing (rec (set_rec _ k))) with nb. rewrite Hb. specialize (Hcopy eq_refl). cbv zeta in Hcopy.
  rewrite Z.min_l in Hcopy by done. rewrite Hcopy.
  apply (block_bytes _ _ _ _ _ (copyable_private _ Hsrc) Hfit (ro_backed _ _ Hr)). exact (guard_kept _ _ _ _ _ _ B2).
Qed.
End migration.

(** ** One operation *)

(** An operation leaves the buffer alone, or moves it, or is a copy into it. *)
Lemma alone_or c o s :
  cpu_private (rec_domain (rec (ctl_at s c))) → stays_private c o s →
  leaves_alone c o s
  ∨ (∃ h t, o = OMigrate h t ∧ h_ctl h = Some c ∧ is_ok (migrate c t s).1 = true
            ∧ rec_domain (rec (ctl_at s c)) ≠ t ∧ cpu_private t)
  ∨ (∃ h src off n, o = OCopyFrom h src off n ∧ h_ctl h = Some c).
Proof.
  intros Hd Hout. destruct o; cbn [leaves_alone stays_private] in *; auto.
  - destruct (decide (h_ctl h = Some c)); [|auto]. destruct (decide (rec_domain (rec (ctl_at s c)) = target)); [auto|].
    destruct (is_ok (migrate c target s).1) eqn:E; eauto 10.
  - left. right. by apply not_device.
  - destruct (decide (h_ctl h = Some c)); eauto 10.
Qed.

(** A copy into the buffer that is refused changes nothing. *)
Lemma copy_from_refused h s c src off n :
  h_ctl h = Some c → rec_domain (rec (ctl_at s c)) ≠ MemoryDomain.DEVICE →
  is_ok (handle_copy_from h src off n s).1 = false → (handle_copy_from h src off n s).2 = s.
Proof.
  intros Hc Hd. unfold handle_copy_from.
  match goal with |- context [with_handle h ?chk ?f s] =>
    destruct (with_handle_cases h chk f s) as [[e ->]|(c' & Hc' & _ & ->)]; [done|] end.
  rewrite Hc in Hc'. injection Hc' as <-. destruct (src =? 0); [done|]. rewrite bind_run. cbn [fst snd get]. cbv zeta.
  destruct (_ <? n); [done|]. destruct (negb _); [done|]. rewrite bool_decide_eq_false_2 by done.
  rewrite bind_run, on_machine_run.
  destruct (cpu_copy_run (na_base (rec_backing (rec (ctl_at s c)))) (src + off) n (machine s)) as (m & -> & _). done.
Qed.
Lemma copy_from_len h s c src off n :
  h_ctl h = Some c → is_u64 (rec_committed (rec (ctl_at s c))) →
  is_ok (handle_copy_from h src off n s).1 = true → n ≤ rec_committed (rec (ctl_at s c)).
Proof.
  intros Hc Hu. unfold handle_copy_from.
  match goal with |- context [with_handle h ?chk ?f s] =>
    destruct (with_handle_cases h chk f s) as [[e ->]|(c' & Hc' & _ & ->)]; [done|] end.
  rewrite Hc in Hc'. injection Hc' as <-. destruct (src =? 0); [done|]. rewrite bind_run. cbn [fst snd get]. cbv zeta.
  destruct (_ <? n); [done|]. destruct (range_in_bounds _ _ _) eqn:Hb; [|done]. intros _. by apply range_in_bounds_le.
Qed.

Lemma alone_after c o s b : leaves_alone c o s → after_op o s c b = b.
Proof. destruct o; cbn [leaves_alone after_op]; try done. intros Hc. by rewrite bool_decide_eq_false_2. Qed.
Lemma ctl_at_some s c k : controls s !! c = Some k → ctl_at s c = k.
Proof. intros Hk. unfold ctl_at. by rewrite Hk. Qed.
Lemma contents_at s c k :
  controls s !! c = Some k →
  contents s c = bytes_at (mem (machine s)) (na_base (rec_backing (rec k))) (rec_committed (rec k)).
Proof. intros Hk. unfold contents. by rewrite (ctl_at_some _ _ _ Hk). Qed.

(** The buffer behind [c] is live, in private memory, and begins with the bytes [b]. *)
Definition holds_array (c : nat) (b : list Z) s : Prop :=
  ∃ k, controls s !! c = Some k ∧ finalized k = false ∧ cpu_private (rec_domain (rec k))
    ∧ b `prefix_of` contents s c.

Lemma array_retain c b c' s : holds_array c b s → holds_array c b (retain c' s).2.
Proof.
  intros (k & Hk & Hlive & Hd & Hb). rewrite (contents_at _ _ _ Hk) in Hb.
  unfold holds_array, retain. cbn [upd_ctl modify snd controls set_controls].
  destruct (decide (c' = c)) as [->|Hne].
  - eexists. rewrite lookup_alter_eq, Hk. split; [done|]. split; [exact Hlive|]. split; [exact Hd|].
    rewrite (contents_at _ c (set_refs (refs k + 1) k)); [exact Hb|].
    cbn [controls set_controls]. by rewrite lookup_alter_eq, Hk.
  - exists k. rewrite lookup_alter_ne by done. split_and!; [done..|].
    rewrite (contents_at _ c k); [exact Hb|]. cbn [controls set_controls]. by rewrite lookup_alter_ne.
Qed.

Section steps.
Context {O : OsResources P} `{!Unguarded O} (cfg : RuntimeConfig) (seed : Z) (m0 : Machine).
Hypothesis Hm0 : m_holds [] m0.
Let bk : Backends := backends (RuntimeImpl_new cfg seed m0).1.
Variables (c : nat) (b : list Z).

Lemma alone_step s ts s' ts' :
  managed_reachable cfg seed m0 s ts → holds_array c b s → sparing_step c (s, ts) (s', ts') → holds_array c b s'.
Proof.
  intros Hr (k & Hk & Hlive & Hd & Hb) Hst.
  destruct (managed_reachable_owns cfg seed m0 s ts Hm0 Hr) as (_ & _ & Hh).
  pose proof (wo_live _ _ (proj1 Hh) c k Hk Hlive) as Hrec. pose proof (ro_usable _ _ Hrec) as [_ Hfit].
  pose proof (reachable_beside cfg seed m0 s s' ts ts' c k Hm0 Hr Hk Hlive (rtc_once _ _ Hst)) as Hbe.
  destruct (beside_kept bk c k (mem (machine s)) [] s' Hbe) as [(k' & Hk' & Hso) Hu].
  exists k'. rewrite (so_finalized _ _ Hso), (so_domain _ _ Hso). split_and!; [done..|].
  rewrite (contents_at _ _ _ Hk'), (so_backing _ _ Hso), (so_committed _ _ Hso).
  rewrite (block_bytes (rec_domain (rec k)) _ (mem (machine s))); [|by left|done|apply Hrec|exact Hu].
  by rewrite <- (contents_at s c k Hk).
Qed.

Lemma migrate_step h t s ts :
  managed_reachable cfg seed m0 s ts → holds_array c b s → h_ctl h = Some c →
  is_ok (migrate c t s).1 = true → rec_domain (rec (ctl_at s c)) ≠ t → cpu_private t →
  holds_array c b (Runtime_migrate true h t s).2.
Proof.
  intros Hr Hb0 Hc Hok Hne Ht. unfold Runtime_migrate, guarded.
  destruct (with_handle_cases h (validate_alive h) (λ c, let! r := migrate c t in handle_result r) s)
    as [[e ->]|(c' & Hc' & _ & ->)]; [done|]. rewrite Hc in Hc'. injection Hc' as <-.
  destruct Hb0 as (k & Hk & Hlive & Hd & Hb). rewrite (ctl_at_some s c k Hk) in Hne.
  destruct (managed_reachable_owns cfg seed m0 s ts Hm0 Hr) as (_ & _ & Hh).
  destruct (domain_in bk t) as [tdom|] eqn:Htd;
    [|by rewrite (migrate_disabled bk [] c k t s Hh Hk Hne Htd) in Hok].
  assert (∀ O' : OsResources P, backends_owned (O := O') bk) as Hbk by (intros O' d dom; apply new_owned).
  destruct (migrate_contents bk Hbk c k t tdom Htd Hlive (or_introl Hd) Ht s Hk Hh
    (proj1 (RuntimeImpl_new_domains cfg seed m0 t tdom Htd)) Hne Hok) as (k' & Hk' & Hf' & Hd' & Hle & Hbytes).
  rewrite bind_run. destruct (migrate c t s) as [[c'|e] s1]; [|done]. cbn [fst snd handle_result] in *.
  unfold new_handle. rewrite !bind_run. cbn [ret fst snd get]. apply array_retain.
  exists k'. rewrite Hd'. split_and!; [done..|]. etrans; [exact Hb|].
  rewrite (contents_at _ _ _ Hk), (contents_at _ _ _ Hk'), <- Hbytes.
  rewrite <- (take_bytes_at _ _ _ _ Hle). by eexists; rewrite take_drop.
Qed.

Lemma copy_from_step h src off n s ts :
  managed_reachable cfg seed m0 s ts → holds_array c b s → h_ctl h = Some c →
  holds_array c (after_op (OCopyFrom h src off n) s c b) (handle_copy_from h src off n s).2.
Proof.
  intros Hr (k & Hk & Hlive & Hd & Hb) Hc. cbn [after_op]. rewrite bool_decide_eq_true_2 by done. cbn [andb].
  destruct (managed_reachable_owns cfg seed m0 s ts Hm0 Hr) as (_ & _ & Hh).
  pose proof (wo_live _ _ (proj1 Hh) c k Hk Hlive) as Hrec. pose proof (ctl_at_some _ _ _ Hk) as Hat.
  assert (rec_domain (rec (ctl_at s c)) ≠ MemoryDomain.DEVICE) as Hcpu by (rewrite Hat; by apply not_device).
  destruct (is_ok (handle_copy_from h src off n s).1) eqn:Hok.
  2: { rewrite (copy_from_refused h s c src off n Hc Hcpu Hok). by exists k. }
  destruct (copy_from_ok h s c src off n Hc Hcpu Hok) as (_ & _ & Hq & Hmem).
  pose proof (copy_from_len h s c src off n Hc ltac:(rewrite Hat; apply Hrec) Hok) as Hn. rewrite Hat in *.
  set (s' := (handle_copy_from h src off n s).2) in *.
  assert (controls s' !! c = Some k) as Hk' by (by rewrite (q_controls _ _ Hq)).
  exists k. split_and!; [done..|]. rewrite (contents_at _ _ _ Hk'), (contents_at _ _ _ Hk) in *.
  erewrite (bytes_at_ext (mem (machine s'))) by (intros; apply Hmem). unfold memcpy.
  rewrite bytes_at_overwrite by done. apply prefix_app. destruct Hb as [l Hl]. rewrite Hl, skipn_app. by eexists.
Qed.

Lemma array_step_holds s ts s' ts' b' :
  managed_reachable cfg seed m0 s ts → array_step c (s, ts, b) (s', ts', b') → holds_array c b s →
  managed_reachable cfg seed m0 s' ts' ∧ holds_array c b' s'.
Proof.
  intros Hr Hst Hb. inversion Hst as [o s0 ts0 rest b0 Hm Hp Hbo Hn Hpr Hk]; subst.
  split; [eapply rtc_r; [exact Hr|]; by constructor|].
  assert (cpu_private (rec_domain (rec (ctl_at s c)))) as Hd
    by (destruct Hb as (k & Hk' & _ & Hd & _); by rewrite (ctl_at_some _ _ _ Hk')).
  destruct (alone_or c o s Hd Hpr) as [Hl|[(h & t & -> & Hc & Hok & Hne & Ht)|(h & src & off & n & -> & Hc)]].
  - rewrite (alone_after _ _ _ _ Hl). eapply alone_step; [exact Hr|exact Hb|]. by constructor.
  - cbn [client_op]. rewrite bind_run. by eapply migrate_step.
  - cbn [client_op]. rewrite bind_run. by eapply copy_from_step.
Qed.
End steps.

(** * Properties *)

(** C4: a buffer is a byte array. Let the client of a managed program run any further
    operations while it keeps an object of a live buffer in host or pinned memory,
    writes to the buffer by [copy_from] only and migrates it, if at all, between these
    domains. Beside the run, keep a list of bytes that starts as the contents of the
    buffer and that each granted [copy_from] to it overwrites from the beginning,
    whatever else happens (allocations, releases, the pool and its zeroing, copies of
    other buffers, migrations with their failures). At the end the buffer begins with
    that list; and a granted [copy_to] of it delivers the beginning of the list. *)
Theorem buffer_is_byte_array {O : OsResources P} `{!Unguarded O} (cfg : RuntimeConfig) (seed : Z)
    (m : Machine) s s' (ts ts' : list Token) (c : nat) (k : Control) (b : list Z) :
  m_holds [] m → managed_reachable cfg seed m s ts →
  controls s !! c = Some k → finalized k = false → cpu_private (rec_domain (rec k)) →
  rtc (array_step c) (s, ts, contents s c) (s', ts', b) →
  b `prefix_of` contents s' c
  ∧ ∀ h dst off n, h_ctl h = Some c → n ≤ Z.of_nat (length b) →
      is_ok (handle_copy_to h dst off n s').1 = true →
      bytes_at (mem (machine (handle_copy_to h dst off n s').2)) (dst + off) n = take (Z.to_nat n) b.
Proof.
  intros Hm Hr Hk Hlive Hd Hrun.
  assert (∀ p q, rtc (array_step c) p q → managed_reachable cfg seed m p.1.1 p.1.2 →
            holds_array c p.2 p.1.1 → holds_array c q.2 q.1.1) as Hind.
  { clear -Hm Unguarded0. induction 1 as [|[[s1 ts1] b1] [[s2 ts2] b2] q Hst _ IH]; [done|]. intros Hr Hb.
    destruct (array_step_holds cfg seed m Hm c b1 s1 ts1 s2 ts2 b2 Hr Hst Hb). by apply IH. }
  destruct (Hind _ _ Hrun Hr) as (k' & Hk' & _ & Hd' & Hb); [by exists k|]. cbn [fst snd] in *.
  split; [exact Hb|]. intros h dst off n Hc Hn Hok.
  pose proof (ctl_at_some _ _ _ Hk') as Hat.
  destruct (copy_to_ok h s' c dst off n Hc) as [_ Hmem]; [rewrite Hat; by apply not_device|exact Hok|].
  erewrite bytes_at_ext by (intros; apply Hmem). unfold memcpy. rewrite bytes_at_memmove.
  destruct Hb as [l Hl]. rewrite Hat in *. rewrite (contents_at _ _ _ Hk') in Hl.
  destruct (decide (0 < n)) as [Hpos|Hneg].
  2: { assert (Z.to_nat n = 0%nat) as -> by lia. apply nil_length_inv. rewrite length_bytes_at. lia. }
  rewrite <- (take_bytes_at _ _ n (rec_committed (rec k'))), Hl; [by rewrite take_app_le by lia|].
  apply (f_equal length) in Hl. rewrite length_app, length_bytes_at in Hl. lia.
Qed.
(** C25: a migration that takes place moves the buffer and nothing else, in any state and
    between any two domains: it is the same buffer (same control block, identity,
    namespace, size, alignment, access, flags and label) in the next generation,
    [ALLOCATED], bound to the target domain, with a metadata checksum that fits its new
    record; no other control block and no registry entry changes. And if the state is
    one that a managed program can reach, the bytes that a live buffer held are the bytes
    it holds: this for the targets whose memory nobody but the process writes to and
    that [verify] does not write (host and pinned memory), from host, pinned and, where
    cudaMemcpy does what it is documented to do, device memory. (Another process may
    write to a shared or a file mapping, and the verification of device memory copies
    an area onto itself, of which the CUDA documentation says nothing.) *)
Theorem migrate_moves_contents {O : OsResources P} `{!Unguarded O} s (c c' : nat) (k : Control)
    (target : MemoryDomain) :
  controls s !! c = Some k → rec_domain (rec k) ≠ target → (migrate c target s).1 = Ok c' →
  let s' := (migrate c target s).2 in
  let r := rec k in let r' := rec (ctl_at s' c) in
  c' = c ∧ rec_id r' = rec_id r ∧ rec_ns r' = rec_ns r ∧ rec_size r' = rec_size r
  ∧ rec_alignment r' = rec_alignment r ∧ rec_access r' = rec_access r ∧ rec_flags r' = rec_flags r
  ∧ rec_label r' = rec_label r ∧ rec_generation r' = u64 (rec_generation r + 1)
  ∧ rec_state r' = BufferState.ALLOCATED ∧ rec_domain r' = target ∧ rec_meta_crc r' = meta_crc_of r'
  ∧ controls s' = <[c := set_rec (λ _, r') k]> (controls s) ∧ registry_ s' = registry_ s
  ∧ ∀ cfg seed m (ts : list Token), m_holds [] m → managed_reachable cfg seed m s ts → finalized k = false →
      copyable (rec_domain r) → cpu_private target →
      rec_committed r ≤ rec_committed r'
      ∧ bytes_at (mem (machine s')) (na_base (rec_backing r')) (rec_committed r)
        = bytes_at (mem (machine s)) (na_base (rec_backing r)) (rec_committed r).
Proof.
  intros Hk Hne Hok. cbv zeta.
  destruct (migrate_outcome s c k target c' Hk Hne Hok) as (-> & Hreg & tdom & tdev & nb & Htd & Hctl).
  pose proof (migrated_record_crc (rec k) tdom target tdev nb) as Hcrc.
  set (r' := migrated_record _ _ _ _ _) in *.
  assert (rec (ctl_at (migrate c target s).2 c) = r') as -> by (unfold ctl_at; by rewrite Hctl, lookup_insert_eq).
  split; [reflexivity|]. do 10 (split; [reflexivity|]). split; [exact Hcrc|]. split; [exact Hctl|]. split; [exact Hreg|].
  intros cfg seed m ts Hm Hr Hlive Hsrc Hdst.
  destruct (managed_reachable_owns cfg seed m s ts Hm Hr) as (_ & _ & Hh).
  rewrite (owns_domain _ _ _ _ target Hh) in Htd.
  destruct (migrate_contents (backends (RuntimeImpl_new cfg seed m).1) (λ O' d dom, new_owned cfg seed m d dom)
    c k target tdom Htd Hlive Hsrc Hdst s Hk Hh (proj1 (RuntimeImpl_new_domains cfg seed m target tdom Htd)) Hne)
    as (k' & Hk' & _ & _ & Hb); [by rewrite Hok|].
  assert (rec k' = r') as <- by (rewrite Hctl, lookup_insert_eq in Hk'; by injection Hk' as <-).
  exact Hb.
Qed.

(** C31: a failed migration leaves the buffer as it was, in any state and between any two
    domains, whether the reservation, the allocation, the copy (through the driver, where
    device memory takes part), the commit or the verification failed: no control block
    and no registry entry changes, so the binding, the generation and every handle stay
    good. And if the state is one that a managed program can reach, every byte of a live
    buffer in memory that only the process writes to (host, pinned or device memory) is
    what it was. *)
Theorem failed_migration_keeps_buffer {O : OsResources P} `{!Unguarded O} s (c : nat)
    (target : MemoryDomain) (e : Error) :
  (migrate c target s).1 = Fail e →
  let s' := (migrate c target s).2 in
  controls s' = controls s ∧ registry_ s' = registry_ s
  ∧ ∀ cfg seed m (ts : list Token) k a, m_holds [] m → managed_reachable cfg seed m s ts →
      controls s !! c = Some k → finalized k = false → private_block k a →
      mem (machine s') a = mem (machine s) a.
Proof.
  intros Hfail. cbv zeta. pose proof (migrate_failed s c target e Hfail) as Q.
  split; [apply Q|]. split; [apply Q|]. intros cfg seed m ts k a Hm Hr Hk Hlive Ha.
  destruct (managed_reachable_owns cfg seed m s ts Hm Hr) as (_ & _ & Hh).
  set (bk := backends (RuntimeImpl_new cfg seed m).1) in *.
  pose proof (owns_beside bk c k (mem (machine s)) [] s Hh Hk Hlive eq_refl) as B.
  destruct (domain_in bk target) as [tdom|] eqn:Htd.
  - destruct (owns_migrate (O := beside k (mem (machine s))) (hide := only c k) bk (λ d dom, new_owned cfg seed m d dom)
      c k target tdom Htd Hlive [] s Hk B) as [B' _]; [right; left; by rewrite Hfail|].
    destruct (beside_kept _ _ _ _ _ _ B') as [_ Hu]. by eapply private_undisturbed.
  - unfold migrate. rewrite bind_run. cbn [fst snd get]. cbv zeta. rewrite (owns_domain _ _ _ _ target Hh), Htd.
    by repeat case_match.
Qed.
End contents.

(** ** A run on the concrete platform *)

#[export] Instance stays_private_dec `{P : Platform} c o s : Decision (stays_private c o s).
Proof. destruct o; cbn [stays_private]; unfold cpu_private; apply _. Defined.

(** A client that picks its operations by the objects it has; [None] if a step is not
    an array step. *)
Fixpoint array_script `{P : Platform} (c : nat) (ops : list (list Token → ClientOp))
    (p : RuntimeImpl * list Token * list Z) : option (RuntimeImpl * list Token * list Z) :=
  match ops with
  | [] => Some p
  | f :: ops' =>
      let '(s, ts, b) := p in
      let o := f ts in
      let rest := foldr remove_token ts (consumes o) in
      let r := client_op o s in
      if bool_decide (managed o) && bool_decide (ts ≡ₚ consumes o ++ rest)
         && bool_decide (Forall (λ t, t ∈ ts) (borrows o)) && (id_counter_ s <? two64 - 1)
         && bool_decide (stays_private c o s) && bool_decide (Exists (refers_to c) (r.1 ++ rest))
      then array_script c ops' (r.2, r.1 ++ rest, after_op o s c b)
      else None
  end.
Lemma array_script_run `{P : Platform} c ops p q : array_script c ops p = Some q → rtc (array_step c) p q.
Proof.
  revert p. induction ops as [|f ops IH]; intros [[s ts] b]; cbn [array_script]; [by intros [= <-]|]. cbv zeta.
  destruct (_ && _) eqn:E; [|done]. bool_prop. intros Hrun. eapply rtc_l; [|by apply IH].
  rewrite Forall_forall in *. rewrite Exists_exists in *. by constructor.
Qed.

(** On a zeroed buffer: a copy into it, a migration to pinned memory and a further
    copy, with another buffer that comes and goes. *)
Definition sim_blank_request : AllocationRequest :=
  mkAllocationRequest kDefaultNamespace MemoryDomain.HOST (mkDeviceId BackendId.HOST_MALLOC (-1))
    256 0 AccessMode.READ_WRITE (mkAllocationFlags false true true 0) "blank" (Some ZeroingPolicy.ALWAYS).
Definition sim_blank : RuntimeImpl * list Token := sim_after [OAllocate sim_blank_request].
Definition sim_writer : list (list Token → ClientOp) :=
  [λ ts, OCopyFrom (nth_handle 0 ts) 64 0 16; λ _, OAllocate sim_request;
   λ ts, OMigrate (nth_handle 1 ts) MemoryDomain.PINNED_HOST;
   λ ts, OCopyFrom (nth_handle 0 ts) sim_stride 32 4; λ ts, ODestroy (nth_token 1 ts)].
Definition sim_written : RuntimeImpl * list Token * list Z :=
  default (sim_runtime, [], []) (array_script 0 sim_writer (sim_blank.1, sim_blank.2, contents sim_blank.1 0)).
Lemma sim_blank_reachable : managed_reachable RuntimeConfig_default 7 sim_machine sim_blank.1 sim_blank.2.
Proof. apply sim_after_reachable; [|by vm_compute]. repeat constructor; simpl; unfold is_u64, two64; lia. Qed.
Lemma sim_blank_block :
  ∃ k, controls sim_blank.1 !! 0%nat = Some k ∧ (false, MemoryDomain.HOST, sim_stride, 256) = block_shape k.
Proof. apply (fmap_Some block_shape). vm_compute. reflexivity. Qed.
Lemma sim_written_run :
  rtc (array_step 0) (sim_blank.1, sim_blank.2, contents sim_blank.1 0) (sim_written.1.1, sim_written.1.2, sim_written.2).
Proof.
  assert (bool_decide (is_Some (snd <$> array_script 0 sim_writer
    (sim_blank.1, sim_blank.2, contents sim_blank.1 0))) = true) as Hok by (vm_compute; reflexivity).
  unfold sim_written. pose proof (array_script_run 0 sim_writer (sim_blank.1, sim_blank.2, contents sim_blank.1 0)) as Hrun.
  destruct (array_script 0 sim_writer _) as [[[s ts] b]|]; [by apply Hrun|done].
Qed.
Lemma sim_written_bytes : sim_written.2 = replicate 4 0 ++ replicate 12 170 ++ replicate 240 0.
Proof. vm_compute. reflexivity. Qed.
(** The copy out delivers the bytes of both copies in and of the zeroing. *)
Definition sim_read_handle : BufferHandle := nth_handle 0 sim_written.1.2.
Lemma buffer_is_byte_array_witness :
  telem_ sim_written.1.1 migration_count = 1
  ∧ bytes_at (mem (machine (handle_copy_to sim_read_handle 64 0 20 sim_written.1.1).2)) 64 20
    = replicate 4 0 ++ replicate 12 170 ++ replicate 4 0.
Proof.
  split; [vm_compute; reflexivity|]. destruct sim_blank_block as (k & Hk & Hsh). injection Hsh as Hf Hd _ _.
  destruct (buffer_is_byte_array RuntimeConfig_default 7 sim_machine sim_blank.1 sim_written.1.1 sim_blank.2
    sim_written.1.2 0 k sim_written.2 sim_start_holds sim_blank_reachable Hk (eq_sym Hf)
    (or_introl (eq_sym Hd)) sim_written_run) as [_ Hread].
  refine (eq_trans (Hread sim_read_handle 64 0 20 _ _ _) _).
  - vm_compute. reflexivity.
  - rewrite sim_written_bytes. vm_compute. discriminate.
  - vm_compute. reflexivity.
  - rewrite sim_written_bytes. vm_compute. reflexivity.
Defined.

(** ** Migrations of a host buffer and of a device buffer *)

Lemma sim_copies : cuda_copies.
Proof.
  intros dst src n kind [w h] _. cbn. unfold sim_memop. destruct (sim_fail_memset w); [done|].
  intros _. apply bytes_at_memmove.
Qed.
Definition sim_device : RuntimeImpl * list Token := sim_after [OAllocate (sim_device_request None)].
Lemma sim_device_reachable : managed_reachable RuntimeConfig_default 7 sim_machine sim_device.1 sim_device.2.
Proof. apply sim_after_reachable; [|by vm_compute]. repeat constructor; simpl; unfold is_u64, two64; lia. Qed.
Lemma sim_device_block :
  ∃ k, controls sim_device.1 !! 0%nat = Some k ∧ (false, MemoryDomain.DEVICE, sim_stride, 5120) = block_shape k.
Proof. apply (fmap_Some block_shape). vm_compute. reflexivity. Qed.
(** The beginning of a buffer after a migration, as long as the buffer was before. *)
Definition sim_moved_bytes (target : MemoryDomain) s : list Z :=
  let s' := (migrate 0 target s).2 in
  bytes_at (mem (machine s')) (na_base (rec_backing (rec (ctl_at s' 0)))) (rec_committed (rec (ctl_at s 0))).
Lemma sim_blank_bytes : contents sim_blank.1 0 = replicate 256 0.
Proof. vm_compute. reflexivity. Qed.
Lemma migrate_moves_contents_witness :
  sim_moved_bytes MemoryDomain.PINNED_HOST sim_blank.1 = replicate 256 0
  ∧ sim_moved_bytes MemoryDomain.HOST sim_device.1 = contents sim_device.1 0.
Proof.
  destruct sim_blank_block as (k & Hk & Hsh). injection Hsh as Hf Hd _ _.
  destruct sim_device_block as (k2 & Hk2 & Hsh2). injection Hsh2 as Hf2 Hd2 _ _.
  unfold sim_moved_bytes. rewrite (ctl_at_some _ _ _ Hk), (ctl_at_some _ _ _ Hk2), <- sim_blank_bytes.
  rewrite (contents_at _ _ _ Hk), (contents_at _ _ _ Hk2). split.
  - destruct (migrate_moves_contents sim_blank.1 0 0 k MemoryDomain.PINNED_HOST Hk
      ltac:(by rewrite <- Hd) ltac:(vm_compute; reflexivity)) as (_ & _ & _ & _ & _ & _ & _ & _ & _ & _ & _ & _ & _ & _ & Hb).
    exact (proj2 (Hb _ _ _ _ sim_start_holds sim_blank_reachable (eq_sym Hf) (or_introl (or_introl (eq_sym Hd)))
      (or_intror eq_refl))).
  - destruct (migrate_moves_contents sim_device.1 0 0 k2 MemoryDomain.HOST Hk2
      ltac:(by rewrite <- Hd2) ltac:(vm_compute; reflexivity)) as (_ & _ & _ & _ & _ & _ & _ & _ & _ & _ & _ & _ & _ & _ & Hb).
    exact (proj2 (Hb _ _ _ _ sim_start_holds sim_device_reachable (eq_sym Hf2)
      (or_intror (conj (eq_sym Hd2) sim_copies)) (or_introl eq_refl))).
Defined.
(** The copy from the failing device is refused by the driver. *)
Lemma sim_lossy_block :
  ∃ k, controls sim_lossy_one !! 0%nat = Some k ∧ (false, MemoryDomain.DEVICE, sim_stride, 5120) = block_shape k.
Proof. apply (fmap_Some block_shape). vm_compute. reflexivity. Qed.
Lemma failed_migration_keeps_buffer_witness :
  (migrate 0 MemoryDomain.HOST sim_lossy_one).1
    = Fail (mkError ErrorCode.backend_failure "")
  ∧ ∀ i, 0 ≤ i < 5120 →
      mem (machine (migrate 0 MemoryDomain.HOST sim_lossy_one).2) (sim_stride + i)
      = mem (machine sim_lossy_one) (sim_stride + i).
Proof.
  assert ((migrate 0 MemoryDomain.HOST sim_lossy_one).1
    = Fail (mkError ErrorCode.backend_failure "")) as Hfail by (vm_compute; reflexivity).
  split; [exact Hfail|]. intros i Hi.
  destruct sim_lossy_block as (k & Hk & Hsh). injection Hsh as Hf Hd Hp Hn.
  destruct (failed_migration_keeps_buffer sim_lossy_one 0 MemoryDomain.HOST _ Hfail) as (_ & _ & Hmem).
  apply (Hmem _ _ _ _ k _ sim_failing_holds sim_lossy_one_reachable Hk (eq_sym Hf)).
  unfold private_block. rewrite <- Hd, <- Hp, <- Hn. split; [done|]. split; [done|]. lia.
Defined.
