(* ===== verification/Exchange.v ===== *)
(** Export and import (src/export.cpp): which descriptors an import accepts, what
    it builds from them, and that a buffer exported within its runtime is found
    again. *)
From S2P Require Import Prelude Types CheckedMath Platform HostBackend SharedBackend.
From S2P Require Import FileBackend CudaBackend Domain State Sim Ledger Pool Lifecycle Runtime.
From S2P Require Import Handle Facade SimRuntime Frames Allocation Charges Release Migration.

Section exchange.
Context {P : Platform}.
Implicit Types (s : RuntimeImpl) (desc : ExportDescriptor).

(** What a descriptor must satisfy to be imported into a namespace. *)
Record importable s desc (ns : Z) : Prop := {
  im_open : closed_ s = false;
  im_version : d_format_version desc = kExportFormatVersion;
  im_size : d_size desc ≠ 0 ∧ d_size desc ≤ two48;
  im_alignment : d_alignment desc = 0
                 ∨ Z.land (d_alignment desc) (u64 (d_alignment desc - 1)) = 0;
  im_target : ∃ t, namespace_info s ns = Some t ∧ allow_import t = true;
  im_same : d_ns desc = ns }.

Lemma import_rejects_iff s desc ns : import_rejects s desc ns = None ↔ importable s desc ns.
Proof.
  unfold import_rejects. split.
  - destruct (closed_ s) eqn:E0; [done|]. destruct (negb (_ =? kExportFormatVersion)) eqn:E1; [done|].
    destruct (d_size desc =? 0) eqn:E2; [done|]. change (Z.shiftl 1 48) with two48.
    destruct (two48 <? _) eqn:E3; [done|]. destruct (negb _ && negb _) eqn:E4; [done|].
    destruct (namespace_info s ns) as [t|] eqn:E5; [|done].
    destruct (match namespace_info s (d_ns desc) with Some _ => _ | None => _ end); [done|].
    destruct (negb (allow_import t)) eqn:E6; [done|]. destruct (negb (d_ns desc =? ns)) eqn:E7; [done|].
    intros _. apply negb_false_iff in E1, E6, E7. apply andb_false_iff in E4. bool_prop.
    constructor; try done; [|by eexists].
    destruct E4 as [E4|E4]; apply negb_false_iff in E4; bool_prop; auto.
  - intros [H0 H1 [H2 H3] H4 (t & H5 & H6) H7]. rewrite H0, H1, Z.eqb_refl. cbn [negb].
    destruct (d_size desc =? 0) eqn:E2; bool_prop; [done|]. change (Z.shiftl 1 48) with two48.
    destruct (two48 <? _) eqn:E3; bool_prop; [lia|].
    assert (negb (d_alignment desc =? 0) && negb (Z.land (d_alignment desc) (u64 (d_alignment desc - 1)) =? 0)
            = false) as ->.
    { destruct H4 as [H4|H4]; rewrite H4; cbn; [done|by rewrite andb_false_r]. }
    rewrite H7, H5, H6, Z.eqb_refl. done.
Qed.

(** C35: an import succeeds only for a well-formed descriptor of the namespace it
    is imported into, and only if that namespace allows imports: no descriptor
    crosses namespaces.  What it yields is a new buffer with the access mode, size
    and domain of the descriptor, owned as [IMPORTED], whose backing has at least
    the declared size; or, for a descriptor of a process-local buffer, the
    registered buffer of that identity and generation. *)
Theorem import_guarded s desc ns label c :
  (import_descriptor desc ns label s).1 = Ok c →
  let s' := (import_descriptor desc ns label s).2 in
  importable s desc ns
  ∧ if handle_domain (d_domain desc)
    then let r := rec (ctl_at s' c) in
         c = size (controls s) ∧ rec_ns r = ns ∧ rec_access r = d_access desc
         ∧ rec_size r = d_size desc ∧ rec_domain r = d_domain desc
         ∧ rec_ownership r = Ownership.IMPORTED ∧ rec_state r = BufferState.IMPORTED
         ∧ rec_generation r = 1 ∧ d_size desc ≤ na_committed (rec_backing r)
    else d_handle_kind desc = "local"%string ∧ registry_ s !! d_buffer_id desc = Some c
         ∧ rec_generation (rec (ctl_at s c)) = d_generation desc.
Proof.
  cbv zeta. unfold import_descriptor. rewrite bind_run. cbn [get fst snd].
  destruct (import_rejects s desc ns) as [e|] eqn:Hr; [done|]. apply import_rejects_iff in Hr.
  intros Hok. split; [done|]. revert Hok. rewrite bind_run. set (s1 := (next_id s).2).
  assert (controls s1 = controls s ∧ registry_ s1 = registry_ s) as [C1 R1] by done.
  rewrite bind_run. pose proof (quiet_now_epoch_ms s1) as Q2.
  set (s2 := (now_epoch_ms s1).2) in *. generalize dependent s2. intros s2 Q2.
  pose proof (q_controls _ _ Q2) as C2. pose proof (q_registry _ _ Q2) as R2. rewrite C1 in C2. rewrite R1 in R2.
  destruct (handle_domain (d_domain desc)).
  - destruct (domain s (d_domain desc)) as [dom|]; [|done]. rewrite bind_run.
    pose proof (quiet_on_machine (IDomain.import_handle dom (d_handle desc) (d_size desc)
                  (if d_alignment desc =? 0 then 64 else d_alignment desc)) s2) as Q3.
    destruct (on_machine _ s2) as [[na|e] s3]; cbn [fst snd] in *; [|done].
    destruct (na_committed na <? d_size desc) eqn:E; [by rewrite bind_run|]. bool_prop.
    rewrite bind_run. set (m := if (_ && _) then _ else _).
    assert (quiet s3 (m s3).2) as Q4
      by (assert (preserves quiet m) as H by (unfold m; preserves_tac); apply H).
    generalize dependent (m s3).2. intros s4 Q4. rewrite bind_run. rewrite bind_run. rewrite bind_run.
    pose proof (quiet_tick import_count s4) as Q5. set (s5 := (tick _ s4).2) in *.
    match goal with |- context [(note ?a ?b s5).2] => pose proof (quiet_note a b s5) as Q6;
      generalize dependent (note a b s5).2 end. intros s6 Q6.
    assert (controls s6 = controls s) as C6.
    { by rewrite (q_controls _ _ Q6), (q_controls _ _ Q5), (q_controls _ _ Q4), (q_controls _ _ Q3). }
    cbn [ret fst snd]. intros [= <-].
    change (register_control _ s6).1 with (size (controls s6)).
    set (r := imported_record _ _ _ _ _ _). rewrite C6.
    assert (rec (ctl_at (register_control r s6).2 (size (controls s))) = r) as ->.
    { unfold ctl_at. change (controls (register_control r s6).2)
        with (<[size (controls s6) := Control_new r]> (controls s6)). by rewrite C6, lookup_insert_eq. }
    by split_and!.
  - destruct (String.eqb _ _) eqn:E; [|done]. apply String.eqb_eq in E.
    rewrite bind_run. unfold lookup_control. rewrite bind_run. cbn [get fst snd]. rewrite R2.
    destruct (registry_ s !! d_buffer_id desc) as [c0|]; [|by rewrite bind_run].
    destruct (negb _) eqn:Eg; [by rewrite bind_run|].
    cbn [ret fst snd]. rewrite bind_run. cbn [ret fst snd]. intros [= <-].
    apply negb_false_iff in Eg. bool_prop. split_and!; [done|done|].
    unfold ctl_at in *. by rewrite <- C2.
Qed.

Lemma export_descriptor_local s c d :
  (export_descriptor c s).1 = Ok d → handle_domain (rec_domain (rec (ctl_at s c))) = false →
  let r := rec (ctl_at s c) in
  exportable (rec_flags r) = true
  ∧ d_format_version d = kExportFormatVersion ∧ d_buffer_id d = rec_id r
  ∧ d_generation d = rec_generation r ∧ d_ns d = rec_ns r ∧ d_domain d = rec_domain r
  ∧ d_size d = rec_size r ∧ d_alignment d = rec_alignment r ∧ d_access d = rec_access r
  ∧ d_handle_kind d = "local"%string ∧ d_integrity_crc d = meta_crc_of r.
Proof.
  cbv zeta. unfold export_descriptor. rewrite bind_run. cbn [get fst snd].
  set (r := rec (ctl_at s c)). destruct (exportable (rec_flags r)) eqn:Ex; [|done].
  destruct (domain s (rec_domain r)) as [dom|]; [|done]. cbn [negb]. intros Hok Hh. revert Hok.
  rewrite Hh. rewrite bind_run. cbn [ret fst snd]. rewrite !bind_run. cbn [ret fst snd].
  intros [= <-].
  cbn [d_format_version d_buffer_id d_generation d_ns d_domain d_size d_alignment d_access
       d_handle_kind d_integrity_crc].
  by split_and!.
Qed.

(** C36: a process-local buffer comes back from a round trip: exporting it and
    importing the descriptor into its namespace yields its own control block, not
    a copy, as long as the runtime is open, the namespace still allows imports
    and the buffer is registered; neither step changes a control block. *)
Theorem local_export_import_round_trip s c d label t :
  let r := rec (ctl_at s c) in
  let s1 := (export_descriptor c s).2 in
  (export_descriptor c s).1 = Ok d → handle_domain (rec_domain r) = false →
  closed_ s = false → registry_ s !! rec_id r = Some c →
  0 < rec_size r ≤ two48 → power_of_two (rec_alignment r) → rec_alignment r < two64 →
  namespace_info s (rec_ns r) = Some t → allow_import t = true →
  (import_descriptor d (rec_ns r) label s1).1 = Ok c
  ∧ controls (import_descriptor d (rec_ns r) label s1).2 = controls s.
Proof.
  cbv zeta. intros Hok Hh Ho Hreg Hsz Hal Hal2 Hns Him.
  destruct (export_descriptor_local s c d Hok Hh) as (_ & Hv & Hid & Hg & Hn & Hd & Hs & Ha & _ & Hk & _).
  pose proof (quiet_export_descriptor c s) as Q.
  assert (ledger (export_descriptor c s).2 = ledger s) as Hl.
  { revert Hok. unfold export_descriptor. rewrite bind_run. cbn [get fst snd].
    destruct (negb _); [done|]. destruct (domain s _) as [dom|]; [|done]. rewrite Hh, bind_run.
    cbn [ret fst snd]. by rewrite !bind_run. }
  set (s1 := (export_descriptor c s).2) in *. set (r := rec (ctl_at s c)) in *.
  assert (import_rejects s1 d (rec_ns r) = None) as Hr.
  { apply import_rejects_iff. constructor.
    - by rewrite (ss_closed _ _ (q_static _ _ Q)).
    - done.
    - rewrite Hs. lia.
    - right. rewrite Ha. destruct Hal as (j & Hj & Hal). rewrite Hal in *.
      pose proof (Z.pow_pos_nonneg 2 j ltac:(lia) Hj). rewrite u64_small by (unfold is_u64; lia).
      apply land_pred_zero; [lia|]. by exists j.
    - exists t. unfold namespace_info. by rewrite Hl.
    - done. }
  unfold import_descriptor. rewrite bind_run. cbn [get fst snd]. rewrite Hr.
  rewrite bind_run. set (s2 := (next_id s1).2).
  assert (controls s2 = controls s ∧ registry_ s2 = registry_ s) as [C2 R2].
  { split; [apply (q_controls _ _ Q)|apply (q_registry _ _ Q)]. }
  rewrite bind_run. pose proof (quiet_now_epoch_ms s2) as Q3.
  set (s3 := (now_epoch_ms s2).2) in *. generalize dependent s3. intros s3 Q3.
  rewrite Hd, Hh, Hk. change (String.eqb "local" "local") with true. cbv iota. rewrite bind_run. unfold lookup_control. rewrite bind_run.
  cbn [get fst snd]. rewrite Hid, Hg, (q_registry _ _ Q3), R2, Hreg.
  assert (ctl_at s3 c = ctl_at s c) as -> by (unfold ctl_at; by rewrite (q_controls _ _ Q3), C2).
  fold r. rewrite Z.eqb_refl. cbn [negb ret fst snd]. rewrite bind_run. cbn [ret fst snd].
  split; [done|]. change (controls (tick import_count s3).2) with (controls s3).
  by rewrite (q_controls _ _ Q3).
Qed.
End exchange.

(** ** Witnesses *)
Definition sim_descriptor : ExportDescriptor :=
  match (export_descriptor 0 sim_plain).1 with
  | Ok d => d
  | Fail _ => mkExportDescriptor 0 BufferId_zero 0 0 BackendId.HOST_MALLOC MemoryDomain.HOST
                DeviceId_default 0 0 AccessMode.READ "" "" 0 false false 0 ""
  end.
Lemma import_guarded_witness :
  importable sim_plain sim_descriptor kDefaultNamespace.
Proof.
  refine (proj1 (import_guarded sim_plain sim_descriptor kDefaultNamespace "again" 0 _)).
  vm_compute. reflexivity.
Defined.

Lemma local_export_import_round_trip_witness :
  (import_descriptor sim_descriptor kDefaultNamespace "again" (export_descriptor 0 sim_plain).2).1
  = Ok 0%nat.
Proof.
  refine (proj1 (local_export_import_round_trip sim_plain 0 sim_descriptor "again" def_namespace
                   _ _ _ _ _ _ _ _ _)).
  - vm_compute. reflexivity.
  - vm_compute. reflexivity.
  - vm_compute. reflexivity.
  - vm_compute. reflexivity.
  - vm_compute. done.
  - exists 6. vm_compute. done.
  - vm_compute. done.
  - vm_compute. reflexivity.
  - reflexivity.
Defined.
