(* ===== verification/Telemetry.v ===== *)
(** Observability (src/runtime.cpp, "Telemetry"; src/stats.cpp): the decision log
    stays bounded whatever the clients do, and the byte gauges of the statistics
    report the ledger. *)
From S2P Require Import Prelude Types CheckedMath Platform SharedBackend FileBackend State Sim.
From S2P Require Import Ledger Pool Lifecycle Runtime Handle Facade SimRuntime Frames RefSpec.
From S2P Require Import Refcount Clients.

(** The counters of [telem_] that only [telemetry] fills in. *)
Definition gauge (c : Counter) : bool :=
  match c with
  | host_bytes | pinned_host_bytes | device_bytes | shared_host_bytes | file_backed_bytes => true
  | _ => false
  end.

Section tidy.
Context {P : Platform}.
Implicit Types s : RuntimeImpl.

(** The counters and the identity counter are 64-bit words. *)
Definition words s : Prop := (∀ c, is_u64 (telem_ s c)) ∧ is_u64 (id_counter_ s).
(** The log does not outgrow its bound, no gauge is incremented, words stay words. *)
Definition log_bound : nat := 4097.
Record tidy s s' : Prop := {
  td_log : (length (dec_ s) ≤ log_bound → length (dec_ s') ≤ log_bound)%nat;
  td_gauge c : gauge c = true → telem_ s' c = telem_ s c;
  td_words : words s → words s' }.
#[export] Instance tidy_preorder : PreOrder tidy.
Proof.
  split; [by constructor|]. intros s1 s2 s3 [H1 G1 W1] [H2 G2 W2].
  constructor; [auto| |auto]. intros c Hc. by rewrite G2, G1.
Qed.

Lemma tidy_modify f :
  (∀ s, dec_ (f s) = dec_ s ∧ telem_ (f s) = telem_ s ∧ id_counter_ (f s) = id_counter_ s) →
  preserves tidy (modify f).
Proof.
  intros Hf s. destruct (Hf s) as (H1 & H2 & H3).
  constructor; simpl; unfold words; rewrite ?H1, ?H2, ?H3; done.
Qed.
(** A counter gets a word. *)
Lemma tidy_set_counter c v s :
  gauge c = false → (words s → is_u64 v) → tidy s (set_telem (set_counter c v (telem_ s)) s).
Proof.
  intros Hc Hv. constructor; [done| |].
  - intros c' Hc'. simpl. unfold set_counter. case_decide; [subst; congruence|done].
  - intros Hw. split; [|apply Hw]. intros c'. simpl. unfold set_counter.
    case_decide; [by apply Hv|apply Hw].
Qed.
Lemma tidy_on_machine {A} (f : M Machine A) : preserves tidy (on_machine f).
Proof. intros s. unfold on_machine. by destruct (f (machine s)). Qed.
Lemma tidy_tick_by c n : gauge c = false → preserves tidy (tick_by c n).
Proof. intros Hc s. apply tidy_set_counter; [done|]. intros _. apply u64_range. Qed.
Lemma tidy_tick c : gauge c = false → preserves tidy (tick c).
Proof. apply tidy_tick_by. Qed.
Lemma tidy_untick c : gauge c = false → preserves tidy (untick c).
Proof.
  intros Hc s. unfold untick. simpl. destruct (0 <? _) eqn:E; [|done]. bool_prop.
  apply tidy_set_counter; [done|]. intros [Hw _]. specialize (Hw c). unfold is_u64 in *. lia.
Qed.
Lemma tidy_note e d : preserves tidy (note e d).
Proof.
  intros s. constructor; [|done|done]. unfold note, modify. simpl. intros Hl. rewrite length_app. simpl.
  unfold log_bound in *. destruct (4096 <? _) eqn:E; bool_prop; [|lia].
  rewrite length_tl. lia.
Qed.
Lemma tidy_upd_ctl c f : preserves tidy (upd_ctl c f).
Proof. by apply tidy_modify. Qed.
Lemma tidy_modify_ledger f : preserves tidy (modify_ledger f).
Proof. by apply tidy_modify. Qed.
Lemma tidy_next_id : preserves tidy next_id.
Proof. intros s. constructor; [done|done|]. intros [Hw _]. split; [done|]. apply u64_range. Qed.
End tidy.

#[export] Hint Resolve tidy_on_machine tidy_note tidy_upd_ctl tidy_modify_ledger tidy_next_id : frames.
Ltac tidy_tac :=
  repeat first
    [ progress cbv zeta
    | apply tidy_tick_by; reflexivity | apply tidy_tick; reflexivity | apply tidy_untick; reflexivity
    | preserves_step
    | apply tidy_modify; done
    | solve [eauto 2 with frames] ].

Section tidy_operations.
Context {P : Platform}.
Implicit Types s : RuntimeImpl.

Lemma tidy_cap_for d : preserves tidy (cap_for d).
Proof. unfold cap_for, capacity_for. tidy_tac. Qed.
#[local] Hint Resolve tidy_cap_for : frames.
Lemma tidy_reserve_amount ns d n : preserves tidy (reserve_amount ns d n).
Proof. unfold reserve_amount. tidy_tac. Qed.
Lemma tidy_commit_amount ns d n : preserves tidy (commit_amount ns d n).
Proof. unfold commit_amount. tidy_tac. Qed.
Lemma tidy_reserve_count ns : preserves tidy (reserve_count ns).
Proof. unfold reserve_count. tidy_tac. Qed.
Lemma tidy_unreserve_amount ns d n : preserves tidy (unreserve_amount ns d n).
Proof. unfold unreserve_amount. tidy_tac. Qed.
Lemma tidy_checkout_amount ns d n : preserves tidy (checkout_amount ns d n).
Proof. unfold checkout_amount. tidy_tac. Qed.
Lemma tidy_release_amount ns d n b : preserves tidy (release_amount ns d n b).
Proof. unfold release_amount. tidy_tac. Qed.
Lemma tidy_free_accounting ns d n : preserves tidy (free_accounting ns d n).
Proof. unfold free_accounting. tidy_tac. Qed.
Lemma tidy_release_count ns : preserves tidy (release_count ns).
Proof. unfold release_count. tidy_tac. Qed.
Lemma tidy_discard_with dom a : preserves tidy (discard_with dom a).
Proof. unfold discard_with. tidy_tac. Qed.
#[local] Hint Resolve tidy_reserve_amount tidy_commit_amount tidy_reserve_count tidy_unreserve_amount
  tidy_checkout_amount tidy_release_amount tidy_free_accounting tidy_release_count
  tidy_discard_with : frames.
Lemma tidy_discard_backing d a : preserves tidy (discard_backing d a).
Proof. unfold discard_backing. tidy_tac. Qed.
#[local] Hint Resolve tidy_discard_backing : frames.
Lemma tidy_pool_take k o n : preserves tidy (pool_take k o n).
Proof. unfold pool_take. tidy_tac. Qed.
Lemma tidy_pool_put k sl : preserves tidy (pool_put k sl).
Proof. unfold pool_put. tidy_tac. Qed.
Lemma tidy_pool_trim : preserves tidy pool_trim.
Proof. unfold pool_trim, pool_trim_over, pool_trim_bucket, pool_trim_slot. tidy_tac. Qed.
Lemma tidy_now_epoch : preserves tidy now_epoch_ms.
Proof. unfold now_epoch_ms. tidy_tac. Qed.
#[local] Hint Resolve tidy_pool_take tidy_pool_put tidy_pool_trim tidy_now_epoch : frames.

Lemma tidy_allocate_record req : preserves tidy (allocate_record req).
Proof.
  unfold allocate_record, allocate_reserved, take_from_pool, fresh_backing, zero_backing. tidy_tac.
Qed.
Lemma tidy_register_control r : preserves tidy (register_control r).
Proof. unfold register_control. tidy_tac. Qed.
Lemma tidy_new_handle c : preserves tidy (new_handle c).
Proof. unfold new_handle, retain. tidy_tac. Qed.
#[local] Hint Resolve tidy_allocate_record tidy_register_control tidy_new_handle : frames.
Lemma tidy_finalize c b : preserves tidy (finalize c b).
Proof. unfold finalize, finalize_record, dispose_backing, zero_on_release. tidy_tac. Qed.
#[local] Hint Resolve tidy_finalize : frames.
Lemma tidy_drop_ref c : preserves tidy (drop_ref c).
Proof. unfold drop_ref. tidy_tac. Qed.
Lemma tidy_lookup id g : preserves tidy (lookup_control id g).
Proof. unfold lookup_control. tidy_tac. Qed.
#[local] Hint Resolve tidy_drop_ref tidy_lookup : frames.
Lemma tidy_migrate_fill r dom t n nb : preserves tidy (migrate_fill r dom t n nb).
Proof. unfold migrate_fill. tidy_tac. Qed.
#[local] Hint Resolve tidy_migrate_fill : frames.
Lemma tidy_migrate c t : preserves tidy (migrate c t).
Proof. unfold migrate, migrate_commit. tidy_tac. Qed.
Lemma tidy_export c : preserves tidy (export_descriptor c).
Proof. unfold export_descriptor. tidy_tac. Qed.
Lemma tidy_import desc ns l : preserves tidy (import_descriptor desc ns l).
Proof. unfold import_descriptor. tidy_tac. Qed.
Lemma tidy_wrap desc : preserves tidy (wrap_external desc).
Proof. unfold wrap_external. tidy_tac. Qed.
Lemma tidy_shutdown : preserves tidy shutdown.
Proof. unfold shutdown, pool_trim_to_zero, destroy_domain. tidy_tac. Qed.
#[local] Hint Resolve tidy_migrate tidy_export tidy_import tidy_wrap tidy_shutdown : frames.
Lemma tidy_lease_release l : preserves tidy (lease_release l).
Proof. unfold lease_release. tidy_tac. Qed.
Lemma tidy_map_release m : preserves tidy (map_release m).
Proof. unfold map_release. tidy_tac. Qed.
Lemma tidy_view_release v : preserves tidy (view_release v).
Proof. unfold view_release. tidy_tac. Qed.
Lemma tidy_handle_reset h : preserves tidy (handle_reset h).
Proof. unfold handle_reset. tidy_tac. Qed.
#[local] Hint Resolve tidy_lease_release tidy_map_release tidy_view_release tidy_handle_reset : frames.

Lemma tidy_client_op o : preserves tidy (client_op o).
Proof.
  destruct o; simpl;
    unfold Runtime_allocate, Runtime_wrap_external, Runtime_import, Runtime_migrate,
      Runtime_export_buffer, Runtime_pool_trim, Runtime_create_namespace, Runtime_invalidate,
      Runtime_shutdown, guarded, handle_result, handle_share, handle_view, handle_map, acquire,
      handle_verify, handle_checksum, handle_copy_to, handle_copy_from, handle_release,
      handle_move_assign, destroy, finalize_by_id, finalize_call, create_namespace, with_handle,
      retain; tidy_tac.
Qed.
End tidy_operations.

Section telemetry_properties.
Context {P : Platform}.
Implicit Types s : RuntimeImpl.

(** The states clients can bring a newly constructed runtime into. *)
Definition run_of (c : RuntimeConfig) (seed : Z) (m : Machine) s (ts : list Token) : Prop :=
  rtc sys_step ((RuntimeImpl_new c seed m).1, []) (s, ts).
Lemma rtc_tidy x y : rtc sys_step x y → tidy x.1 y.1.
Proof.
  induction 1 as [x|x y z Hstep _ IH]; [done|]. transitivity y.1; [|done].
  destruct Hstep as [o s ts rest _ _ _]. apply tidy_client_op.
Qed.
Lemma run_of_tidy c seed m s ts : run_of c seed m s ts → tidy (RuntimeImpl_new c seed m).1 s.
Proof.
  unfold run_of. intros Hr. apply (rtc_tidy _ _ Hr).
Qed.
Lemma new_runtime_log c seed m :
  dec_ (RuntimeImpl_new c seed m).1 = [] ∧ ∀ n, telem_ (RuntimeImpl_new c seed m).1 n = 0.
Proof. unfold RuntimeImpl_new. by rewrite !bind_run. Qed.

(** The decision log is bounded: however long clients use a runtime and
    whatever they do with it, the log never holds more than 4097 entries (one more
    than the 4096 the code compares with, because the test comes before the
    insertion). *)
Theorem decision_log_bounded c seed m s ts :
  run_of c seed m s ts → (length (decisions s) ≤ 4097)%nat.
Proof.
  intros Hr. apply run_of_tidy in Hr as [Hlog _]. apply Hlog.
  rewrite (proj1 (new_runtime_log c seed m)). simpl. unfold log_bound. lia.
Qed.

(** The gauge that reports a domain. *)
Definition gauge_of (d : MemoryDomain) : Counter :=
  match d with
  | MemoryDomain.HOST => host_bytes
  | MemoryDomain.PINNED_HOST => pinned_host_bytes
  | MemoryDomain.DEVICE => device_bytes
  | MemoryDomain.SHARED_HOST => shared_host_bytes
  | MemoryDomain.MMAP_STORAGE => file_backed_bytes
  end.
Lemma u64_split a : u64 a = a + (- (a / two64)) * two64.
Proof. unfold u64. pose proof (Z.div_mod a two64 ltac:(done)). lia. Qed.
Lemma u64_sum5 a b c d e :
  u64 (u64 a + u64 b + u64 c + u64 d + u64 e) = u64 (a + b + c + d + e).
Proof.
  rewrite (u64_split a), (u64_split b), (u64_split c), (u64_split d), (u64_split e).
  set (ka := a / two64). set (kb := b / two64). set (kc := c / two64).
  set (kd := d / two64). set (ke := e / two64).
  replace (_ + _) with (a + b + c + d + e + (- ka - kb - kc - kd - ke) * two64) by lia.
  unfold u64. by rewrite Z_mod_plus_full.
Qed.

(** The statistics of a runtime report its ledger: at every point of every
    client run, the gauge of a domain is the sum, over the namespaces, of the
    bytes committed in that domain, [bytes_committed] is the sum of the five
    gauges, and [active_buffers] counts the registered buffers; [runtime_stats]
    returns these very numbers. *)
Theorem stats_report_ledger c seed m s ts :
  run_of c seed m s ts →
  let t := telemetry s in
  (∀ d, t (gauge_of d) = u64 (domain_total (ledger s) d))
  ∧ t bytes_committed = u64 (sum_list (domain_total (ledger s)) MemoryDomain.MemoryDomain_all)
  ∧ t active_buffers = Z.of_nat (size (registry_ s))
  ∧ t peak_bytes = peak_committed_ (ledger s)
  ∧ t pooled_bytes = pool_idle_bytes_ (pool s)
  ∧ ∃ st, (runtime_stats s).1 = Ok st ∧ st_counter st = t ∧ st_closed st = closed_ s.
Proof.
  intros Hr. apply run_of_tidy in Hr as [_ Hg]. cbv zeta.
  assert (∀ n, gauge n = true → telem_ s n = 0) as Hz.
  { intros n Hn. rewrite Hg by done. apply new_runtime_log. }
  assert (∀ d, telemetry s (gauge_of d) = u64 (domain_total (ledger s) d)) as Hd.
  { intros []; simpl; by rewrite Hz. }
  split_and!; [done| |done|done|done|].
  - transitivity (u64 (telemetry s (gauge_of MemoryDomain.HOST) + telemetry s (gauge_of MemoryDomain.PINNED_HOST)
                       + telemetry s (gauge_of MemoryDomain.DEVICE) + telemetry s (gauge_of MemoryDomain.SHARED_HOST)
                       + telemetry s (gauge_of MemoryDomain.MMAP_STORAGE))); [done|].
    rewrite !Hd, u64_sum5. simpl. f_equal. lia.
  - unfold runtime_stats. rewrite bind_run. cbn [get fst snd]. rewrite bind_run. by eexists.
Qed.

Lemma count_refs_length c rs : count_refs c rs ≤ Z.of_nat (length rs).
Proof.
  induction rs as [|r rs IH]; [done|]. rewrite count_refs_cons. pose proof (uses_range c r). cbn [length]. lia.
Qed.
Lemma refs_of_length ts : (length (refs_of ts) ≤ length ts)%nat.
Proof.
  induction ts as [|t ts IH]; [done|]. destruct (token_ref t) as [r|] eqn:Ht.
  - rewrite (refs_of_some _ _ _ Ht). cbn [length]. lia.
  - rewrite (refs_of_none _ _ Ht). cbn [length]. lia.
Qed.

(** C38: the counters are what their C++ types can hold. At every point of every client
    run, all telemetry counters and the identity counter are 64-bit words, and in every
    control block the reference count is between 0 and the number of objects clients
    hold and each lease counter is between 0 and the reference count (so an [int] is
    enough for them as long as there are fewer than 2^31 objects). *)
Theorem counters_are_words c seed m s ts :
  run_of c seed m s ts →
  (∀ n, is_u64 (telem_ s n)) ∧ is_u64 (id_counter_ s)
  ∧ ∀ b k, controls s !! b = Some k →
      0 ≤ refs k ≤ Z.of_nat (length ts)
      ∧ 0 ≤ read_leases k ≤ refs k ∧ 0 ≤ write_leases k ≤ refs k ∧ 0 ≤ exclusive_leases k ≤ refs k.
Proof.
  intros Hr. pose proof (run_of_tidy _ _ _ _ _ Hr) as [_ _ Hw].
  assert (fresh_runtime (RuntimeImpl_new c seed m).1 ∧ id_counter_ (RuntimeImpl_new c seed m).1 = 1) as [Hf Hid]
    by (unfold RuntimeImpl_new; rewrite !bind_run; by repeat split).
  destruct Hw as [Hw1 Hw2].
  { split; [|by rewrite Hid]. intros n. rewrite (proj2 (new_runtime_log c seed m)). done. }
  split; [done|]. split; [done|]. intros b k Hk.
  pose proof (reachable_sound s ts (ex_intro _ _ (conj Hf Hr))) as Hs.
  assert (actls (abs s) !! b = Some (abs_ctl k)) as Hb by (rewrite abs_lookup, Hk; done).
  destruct (co_ctl _ _ _ _ (so_coherent _ _ Hs) b _ Hb) as [H1 H2 _ _ _]. cbn in H1.
  pose proof (count_refs_nonneg b (refs_of ts)). pose proof (count_refs_length b (refs_of ts)).
  pose proof (refs_of_length ts).
  assert (∀ kind, 0 ≤ a_leases kind (abs_ctl k) ≤ refs k) as Hl.
  { intros kind. rewrite H2, H1. split; [apply count_leases_nonneg|apply count_leases_le]. }
  split; [lia|]. exact (conj (Hl LeaseKind.READ) (conj (Hl LeaseKind.WRITE) (Hl LeaseKind.EXCLUSIVE))).
Qed.
End telemetry_properties.

(** ** Witnesses *)
Lemma sim_run_of : run_of RuntimeConfig_default 7 sim_machine sim_runtime [].
Proof. apply rtc_refl. Qed.
Lemma sim_allocated_run_of :
  run_of RuntimeConfig_default 7 sim_machine
    (client_op (OAllocate sim_request) sim_runtime).2
    ((client_op (OAllocate sim_request) sim_runtime).1 ++ []).
Proof.
  eapply rtc_l; [|apply rtc_refl]. apply sys_step_op; [reflexivity| |by vm_compute].
  intros t Ht. by apply not_elem_of_nil in Ht.
Qed.
Lemma decision_log_bounded_witness :
  (length (decisions (client_op (OAllocate sim_request) sim_runtime).2) ≤ 4097)%nat.
Proof. exact (decision_log_bounded _ _ _ _ _ sim_allocated_run_of). Defined.
Lemma stats_report_ledger_witness :
  telemetry (client_op (OAllocate sim_request) sim_runtime).2 host_bytes
  = u64 (domain_total (ledger (client_op (OAllocate sim_request) sim_runtime).2) MemoryDomain.HOST).
Proof. exact (proj1 (stats_report_ledger _ _ _ _ _ sim_allocated_run_of) MemoryDomain.HOST). Defined.
Lemma counters_are_words_witness :
  is_u64 (telem_ (client_op (OAllocate sim_request) sim_runtime).2 total_allocations).
Proof. exact (proj1 (counters_are_words _ _ _ _ _ sim_allocated_run_of) total_allocations). Defined.
