(* ===== verification/Concurrency.v ===== *)
(** Threads.  The other files run each operation in one step; here the operations on
    one control block are cut into their atomic accesses (the reference count and the
    [finalized] flag are atomics, the rest of the block is guarded by [ctl->mtx] or read
    without it, the registry by [registry_mtx_]) and any number of threads interleave
    them.

    A thread is a program counter [Pc] and the objects it owns; [thread_step] is one
    access, [None] when the thread is blocked or has nothing to do.  [conc_step] lets
    any thread move, in any order.  Commands a client may give at [Ready] are
    [Command]s; the [stable] ones obtain references only from references. *)
From S2P Require Import Prelude Types CheckedMath Platform State Ledger Pool Lifecycle Runtime Handle Facade RefSpec Refcount Clients.

(** What the threads share: the control block, who holds its mutex, whether the
    registry lists it, and how often its backing has been disposed of.  The last two
    fields are a record of the past: the backings the block has been bound to, and
    those it has given up, in order. *)
Record Shared : Set := mkShared {
  sh_ctl : Control; sh_mtx : option nat; sh_registered : bool; sh_disposals : nat;
  sh_bound : list NativeAllocation; sh_left : list NativeAllocation }.
Definition set_sh_ctl (f : Control → Control) (sh : Shared) : Shared :=
  mkShared (f (sh_ctl sh)) (sh_mtx sh) (sh_registered sh) (sh_disposals sh) (sh_bound sh) (sh_left sh).
Definition set_sh_mtx (o : option nat) (sh : Shared) : Shared :=
  mkShared (sh_ctl sh) o (sh_registered sh) (sh_disposals sh) (sh_bound sh) (sh_left sh).
Definition bind_backing (b : NativeAllocation) (sh : Shared) : Shared :=
  mkShared (sh_ctl sh) (sh_mtx sh) (sh_registered sh) (sh_disposals sh) (sh_bound sh ++ [b]) (sh_left sh).
Definition let_go (b : NativeAllocation) (sh : Shared) : Shared :=
  mkShared (sh_ctl sh) (sh_mtx sh) (sh_registered sh) (sh_disposals sh) (sh_bound sh) (sh_left sh ++ [b]).

(** What a migration has made when it comes to the swap. *)
Record Binding : Set := mkBinding {
  bind_backend : BackendId; bind_device : DeviceId; bind_alloc : NativeAllocation }.

(** The methods of a handle.  What the backends and the ledger answer is decided by the
    caller: whether the domain of the buffer is enabled and grants a map, and what a migration
    has allocated, filled and verified ([None] if one of its stages fails) and whether
    the runtime is open when it asks.  The copies are of pointers that are not null. *)
Inductive Method : Set :=
  | MShare
  | MAcquire (k : LeaseKind)
  | MView (off len : Z) (access : AccessMode)
  | MMap (access : AccessMode) (enabled granted : bool)
  | MCopyTo (off len : Z)
  | MCopyFrom (len : Z)
  | MVerify (enabled : bool) | MChecksum
  | MExport (enabled : bool)
  | MMigrate (target : MemoryDomain) (opened : bool) (new : option Binding).

(** Where a thread is inside an operation; [g] is the generation of the handle. *)
Inductive Pc : Set :=
  | Ready
  | NewRetain                                   (* Runtime::allocate, after register_control *)
  | SetGen (n : nat)                            (* h.gen_ = ctl->rec.generation *)
  | Load (g : Z) (m : Method) | Check (g : Z) (m : Method)  (* validate_alive *)
  | Access (m : Method)                         (* ensure_valid *)
  | ShareAdd (g : Z)                            (* BufferHandle::share *)
  | AcqLock (k : LeaseKind) | AcqTest (k : LeaseKind) | AcqRetain (k : LeaseKind)   (* acquire_* *)
  | Bounds (m : Method) | ViewData | ViewAdd    (* BufferHandle::view *)
  | MapDomain (enabled granted : bool) | MapLock (granted : bool) | MapTest (granted : bool)
  | MapUnlock | MapAdd                          (* BufferHandle::map *)
  | CopyPtr | CopyGo (a : NativeAllocation)     (* copy_to, copy_from *)
  | InsDomain (m : Method) | InsRead            (* verify, checksum *)
  | ExpMeta (enabled : bool) | ExpHandle (d : MemoryDomain) (enabled : bool)
  | ExpDone (d d' : MemoryDomain)               (* export_descriptor *)
  | MigLock (t : MemoryDomain) (new : option Binding) | MigTest (t : MemoryDomain) (new : option Binding)
  | MigSwap (t : MemoryDomain) (b : Binding) | MigFree (old : NativeAllocation)
  | MigUnlock | MigGen | MigAdd (g : Z)         (* Runtime::migrate *)
  | RelLock (n : nat) | RelDec (n : nat) | RelUnlock (n : nat)  (* BufferLease, BufferMap::release *)
  | DropSub (n : nat)                           (* drop_ref *)
  | FinLock | FinXchg | FinDispose | FinErase   (* finalize *)
  | Unlock                                      (* the end of a lock_guard *)
  | ImpFind (g : Z) | ImpRetain                 (* import of a local descriptor *)
  | InvFind | InvLock | InvRefs | InvFinal | InvStore | FinRelock   (* finalize_by_id *)
  | SweepFind | SweepLoad.                      (* shutdown *)
#[export] Instance Ready_dec p : Decision (p = Ready).
Proof. destruct p; first [by left|by right]. Defined.

(** The objects of a thread: a handle with its generation, a lease, a map, a view. *)
Inductive Obj : Set := HHandle (g : Z) | HLease (kd : LeaseKind) | HMap | HView.
#[export] Instance Obj_eq_dec : EqDecision Obj.
Proof. solve_decision. Defined.
Record Thread : Set := mkThread { pc : Pc; held : list Obj }.

Inductive Command : Set :=
  | CCall (n : nat) (m : Method)    (* on its [n]th object, a handle *)
  | CDrop (n : nat)                 (* release or destruction of its [n]th object *)
  | CImport (g : Z) | CInvalidate | CSweep.
Definition stable (c : Command) : Prop :=
  match c with CCall _ _ | CDrop _ => True | _ => False end.

(** All but [Runtime::invalidate]. *)
Definition returning (c : Command) : Prop := c ≠ CInvalidate.

(** The operation a command starts; [None] if the thread lacks the object for it. *)
Definition start (c : Command) (hs : list Obj) : option Pc :=
  match c with
  | CCall n m => match hs !! n with Some (HHandle g) => Some (Load g m) | _ => None end
  | CDrop n => match hs !! n with
               | Some (HHandle _ | HView) => Some (DropSub n)
               | Some (HLease _ | HMap) => Some (RelLock n)
               | None => None
               end
  | CImport g => Some (ImpFind g)
  | CInvalidate => Some InvFind
  | CSweep => Some SweepFind
  end.

(** Taking [ctl->mtx]: blocked while anyone holds it, the thread itself included. *)
Definition lock (i : nat) (sh : Shared) : option Shared :=
  match sh_mtx sh with None => Some (set_sh_mtx (Some i) sh) | Some _ => None end.
(** A guarded region that only reads is one step, possible while the mutex is free. *)
Definition guarded_read (sh : Shared) : option Shared :=
  match sh_mtx sh with None => Some sh | Some _ => None end.
Definition add_refs (n : Z) : Shared → Shared := set_sh_ctl (λ k, set_refs (refs k + n) k).
Definition take_lease (kind : LeaseKind) : Shared → Shared :=
  set_sh_ctl (λ k, set_rec (λ r, set_rec_state (lease_state kind (rec_state r)) r) (add_lease kind k)).
Definition give_lease (kind : LeaseKind) : Shared → Shared :=
  set_sh_ctl (λ k, settle_lease_state (remove_lease kind k)).

(** The guarded region of [BufferHandle::map], and that of [BufferMap::release] ([unmap]
    does nothing in any domain). *)
Definition mapped (r : BufferRecord) : BufferRecord :=
  let r' := set_rec_map_count (rec_map_count r + 1) r in
  if valid_transition (rec_state r) BufferState.MAPPED then set_rec_state BufferState.MAPPED r' else r'.
Definition unmapped (r : BufferRecord) : BufferRecord :=
  let r' := if 0 <? rec_map_count r then set_rec_map_count (rec_map_count r - 1) r else r in
  if (rec_map_count r' =? 0) && bool_decide (rec_state r' = BufferState.MAPPED)
  then set_rec_state BufferState.ALLOCATED r' else r'.
Definition take_map : Shared → Shared := set_sh_ctl (set_rec mapped).
Definition give_map : Shared → Shared := set_sh_ctl (set_rec unmapped).

(** The swap of a migration. *)
Definition rebound (t : MemoryDomain) (b : Binding) (r : BufferRecord) : BufferRecord :=
  let nb := bind_alloc b in
  let r1 := mkBufferRecord (rec_id r) (u64 (rec_generation r + 1)) (rec_ns r) t
    (bind_backend b) (bind_device b) (rec_size r) (na_committed nb) (rec_alignment r) (rec_flags r)
    (rec_access r) false (rec_ownership r) BufferState.ALLOCATED nb false (rec_exported r)
    (rec_map_count r) (rec_created_epoch r) (rec_label r) (rec_meta_crc r) in
  set_rec_meta_crc (meta_crc_of r1) r1.
Definition swap (t : MemoryDomain) (b : Binding) (sh : Shared) : Shared :=
  bind_backing (bind_alloc b) (set_sh_ctl (set_rec (rebound t b)) sh).

(** [dispose_backing] and the assignment of [RELEASED], both under the mutex. *)
Definition dispose (sh : Shared) : Shared :=
  mkShared (set_rec (λ r, set_rec_state BufferState.RELEASED (set_rec_backing NativeAllocation_default r))
              (sh_ctl sh))
    (sh_mtx sh) (sh_registered sh) (S (sh_disposals sh)) (sh_bound sh)
    (sh_left sh ++ [rec_backing (rec (sh_ctl sh))]).
Definition erase (sh : Shared) : Shared :=
  mkShared (sh_ctl sh) (sh_mtx sh) false (sh_disposals sh) (sh_bound sh) (sh_left sh).

(** ** The tests of the methods *)

(** Where a method goes from [validate_alive], and from [ensure_valid]. *)
Definition alive_next (g : Z) (m : Method) : Pc :=
  match m with
  | MShare => ShareAdd g
  | MAcquire kd => AcqLock kd
  | MMigrate t opened new => if opened then MigLock t new else Ready
  | MVerify _ | MChecksum => InsDomain m
  | MExport enabled => ExpMeta enabled
  | _ => Access m
  end.
Definition wanted (m : Method) : AccessMode :=
  match m with
  | MView _ _ access | MMap access _ _ => access
  | MCopyFrom _ => AccessMode.WRITE
  | _ => AccessMode.READ
  end.
Definition access_next (m : Method) : Pc :=
  match m with MMap _ enabled granted => MapDomain enabled granted | _ => Bounds m end.
(** The second test of [view], [copy_to] and [copy_from]. *)
Definition in_bounds (m : Method) (r : BufferRecord) : bool :=
  match m with
  | MView off len access =>
      range_in_bounds off len (rec_size r) && negb (len =? 0)
      && negb (bool_decide (access = AccessMode.WRITE) && bool_decide (rec_access r = AccessMode.READ))
  | MCopyTo off len =>
      negb ((rec_size r <? off) || (u64 (rec_size r - off) <? len)) && range_in_bounds 0 len (rec_committed r)
  | MCopyFrom len => negb (rec_size r <? len) && range_in_bounds 0 len (rec_committed r)
  | _ => true
  end.
Definition bounds_next (m : Method) : Pc := match m with MView _ _ _ => ViewData | _ => CopyPtr end.

(** One access of thread [i] in each operation; [None] when it has to wait. *)
Section accesses.
Context (i : nat) (sh : Shared) (hs : list Obj).
Let k : Control := sh_ctl sh.
Let r : BufferRecord := rec k.
Let goto (p : Pc) : Thread := mkThread p hs.
(** A test under a mutex of its own. *)
Let test (b : bool) (p : Pc) : option (Shared * Thread) :=
  (λ sh', (sh', goto (if b then p else Ready))) <$> guarded_read sh.

(** [validate_alive] and [ensure_valid]. *)
Definition valid_step (p : Pc) : option (Shared * Thread) :=
  match p with
  | Load g m => Some (sh, goto (if finalized k then Ready else Check g m))
  | Check g m => test ((g =? rec_generation r) && negb (dead_state (rec_state r))) (alive_next g m)
  | Access m =>
      test (negb (bool_decide (wanted m = AccessMode.WRITE) && bool_decide (rec_access r = AccessMode.READ)))
        (access_next m)
  | Bounds m => test (in_bounds m r) (bounds_next m)
  | _ => None
  end.
(** The handle that [Runtime::allocate], [import] and [migrate] return reads its
    generation without the mutex. *)
Definition handle_step (p : Pc) : option (Shared * Thread) :=
  match p with
  | NewRetain => Some (add_refs 1 sh, mkThread (SetGen (length hs)) (hs ++ [HHandle 0]))
  | SetGen n => Some (sh, mkThread Ready (<[n := HHandle (rec_generation r)]> hs))
  | _ => None
  end.
(** [BufferHandle::share] after the test of the handle. *)
Definition share_step (p : Pc) : option (Shared * Thread) :=
  match p with
  | ShareAdd g => Some (add_refs 1 sh, mkThread Ready (hs ++ [HHandle g]))
  | _ => None
  end.
(** [BufferHandle::acquire_read], [acquire_write], [acquire_exclusive]: the lease is
    counted and retained under the mutex. *)
Definition acquire_step (p : Pc) : option (Shared * Thread) :=
  match p with
  | AcqLock kd => (λ sh', (sh', goto (AcqTest kd))) <$> lock i sh
  | AcqTest kd =>
      if lease_busy kd k then Some (sh, goto Unlock)
      else Some (take_lease kd sh, goto (AcqRetain kd))
  | AcqRetain kd => Some (add_refs 1 sh, mkThread Unlock (hs ++ [HLease kd]))
  | _ => None
  end.
(** [BufferHandle::view] after its tests. *)
Definition view_step (p : Pc) : option (Shared * Thread) :=
  match p with
  | ViewData => test true ViewAdd
  | ViewAdd => Some (add_refs 1 sh, mkThread Ready (hs ++ [HView]))
  | _ => None
  end.
(** [BufferHandle::map] after its tests: the domain is read without the mutex, and the
    reference taken after it. *)
Definition map_step (p : Pc) : option (Shared * Thread) :=
  match p with
  | MapDomain enabled granted =>
      Some (sh, goto (if bool_decide (rec_domain r = MemoryDomain.DEVICE) || negb enabled then Ready
                      else MapLock granted))
  | MapLock granted => (λ sh', (sh', goto (MapTest granted))) <$> lock i sh
  | MapTest granted => if granted then Some (take_map sh, goto MapUnlock) else Some (sh, goto Unlock)
  | MapUnlock => Some (set_sh_mtx None sh, goto MapAdd)
  | MapAdd => Some (add_refs 1 sh, mkThread Ready (hs ++ [HMap]))
  | _ => None
  end.
(** [BufferHandle::copy_to] and [copy_from] after their tests: the backing is read and
    the bytes are copied without the mutex; while the thread is at [CopyGo], it copies. *)
Definition copy_step (p : Pc) : option (Shared * Thread) :=
  match p with
  | CopyPtr => Some (sh, goto (CopyGo (rec_backing r)))
  | CopyGo _ => Some (sh, goto Ready)
  | _ => None
  end.
(** [BufferHandle::verify] and [checksum] after the test of the handle. *)
Definition inspect_step (p : Pc) : option (Shared * Thread) :=
  match p with
  | InsDomain m =>
      let go := match m with
                | MVerify enabled => enabled
                | _ => negb (bool_decide (rec_domain r = MemoryDomain.DEVICE))
                end in
      Some (sh, goto (if go then InsRead else Ready))
  | InsRead => test true Ready
  | _ => None
  end.
(** [export_descriptor] reads the record without the mutex, first for the descriptor and
    then for its handle; at [ExpDone] the thread has a descriptor of domain [d] with a
    handle of domain [d']. *)
Definition export_step (p : Pc) : option (Shared * Thread) :=
  match p with
  | ExpMeta enabled => Some (sh, goto (if exportable (rec_flags r) then ExpHandle (rec_domain r) enabled else Ready))
  | ExpHandle d enabled => Some (sh, goto (if enabled then ExpDone d (rec_domain r) else Ready))
  | ExpDone _ _ => Some (sh, goto Ready)
  | _ => None
  end.
(** [RuntimeImpl::migrate] and [Runtime::migrate] after the test of the handle. *)
Definition migrate_step (p : Pc) : option (Shared * Thread) :=
  match p with
  | MigLock t new => (λ sh', (sh', goto (MigTest t new))) <$> lock i sh
  | MigTest t new =>
      Some (sh, goto (
        if bool_decide (rec_domain r = t) then MigUnlock
        else if bool_decide (rec_state r = BufferState.RELEASED)
                || bool_decide (rec_state r = BufferState.INVALID) then Unlock
        else if (0 <? write_leases k) || (0 <? exclusive_leases k) then Unlock
        else match new with Some b => MigSwap t b | None => Unlock end))
  | MigSwap t b => Some (swap t b sh, goto (MigFree (rec_backing r)))
  | MigFree old => Some (let_go old sh, goto MigUnlock)
  | MigUnlock => Some (set_sh_mtx None sh, goto MigGen)
  | MigGen => Some (sh, goto (MigAdd (rec_generation r)))
  | MigAdd g => Some (add_refs 1 sh, mkThread Ready (hs ++ [HHandle g]))
  | _ => None
  end.
(** [BufferLease::release] and [BufferMap::release] up to their [drop_ref]; until then
    the object is a mere reference. *)
Definition release_step (p : Pc) : option (Shared * Thread) :=
  match p with
  | RelLock n => (λ sh', (sh', goto (RelDec n))) <$> lock i sh
  | RelDec n =>
      match hs !! n with
      | Some (HLease kd) => Some (give_lease kd sh, mkThread (RelUnlock n) (<[n := HView]> hs))
      | Some HMap => Some (give_map sh, mkThread (RelUnlock n) (<[n := HView]> hs))
      | _ => None
      end
  | RelUnlock n => Some (set_sh_mtx None sh, goto (DropSub n))
  | _ => None
  end.
(** [drop_ref]: the thread whose decrement finds 1 finalizes. *)
Definition drop_step (n : nat) : option (Shared * Thread) :=
  Some (add_refs (-1) sh, mkThread (if refs k =? 1 then FinLock else Ready) (delete n hs)).
(** [finalize]. *)
Definition finalize_step (p : Pc) : option (Shared * Thread) :=
  match p with
  | FinLock | FinRelock => (λ sh', (sh', goto FinXchg)) <$> lock i sh
  | FinXchg =>
      if finalized k then Some (sh, goto Unlock)
      else Some (set_sh_ctl (set_finalized true) sh, goto FinDispose)
  | FinDispose => Some (dispose sh, goto FinErase)
  | FinErase => Some (erase sh, goto Unlock)
  | _ => None
  end.
(** [import_descriptor] of a local descriptor with [lookup], and [Runtime::import] around it. *)
Definition import_step (p : Pc) : option (Shared * Thread) :=
  match p with
  | ImpFind g =>
      Some (sh, goto (if sh_registered sh && (g =? rec_generation r) then ImpRetain else Ready))
  | ImpRetain => Some (add_refs 1 sh, mkThread (SetGen (length hs)) (hs ++ [HHandle 0]))
  | _ => None
  end.
(** [finalize_by_id], up to the call of [finalize]. *)
Definition invalidate_step (p : Pc) : option (Shared * Thread) :=
  match p with
  | InvFind => Some (sh, goto (if sh_registered sh then InvLock else Ready))
  | InvLock => (λ sh', (sh', goto InvRefs)) <$> lock i sh
  | InvRefs => Some (sh, goto (if 0 <? refs k then Unlock else InvFinal))
  | InvFinal => Some (sh, goto (if finalized k then Unlock else InvStore))
  | InvStore => Some (set_sh_ctl (set_refs 0) sh, goto FinRelock)
  | _ => None
  end.
(** The loop of [shutdown], on this block. *)
Definition sweep_step (p : Pc) : option (Shared * Thread) :=
  match p with
  | SweepFind => Some (sh, goto (if sh_registered sh then SweepLoad else Ready))
  | SweepLoad => Some (sh, goto (if refs k =? 0 then FinLock else Ready))
  | _ => None
  end.
End accesses.

(** One access of thread [i]; [c] is what its client asks for when it is [Ready]. *)
Definition thread_step (i : nat) (c : Command) (sh : Shared) (th : Thread)
    : option (Shared * Thread) :=
  let hs := held th in
  match pc th with
  | Ready => (λ p, (sh, mkThread p hs)) <$> start c hs
  | Unlock => Some (set_sh_mtx None sh, mkThread Ready hs)
  | (Load _ _ | Check _ _ | Access _ | Bounds _) as p => valid_step sh hs p
  | (NewRetain | SetGen _) as p => handle_step sh hs p
  | ShareAdd _ as p => share_step sh hs p
  | (AcqLock _ | AcqTest _ | AcqRetain _) as p => acquire_step i sh hs p
  | (ViewData | ViewAdd) as p => view_step sh hs p
  | (MapDomain _ _ | MapLock _ | MapTest _ | MapUnlock | MapAdd) as p => map_step i sh hs p
  | (CopyPtr | CopyGo _) as p => copy_step sh hs p
  | (InsDomain _ | InsRead) as p => inspect_step sh hs p
  | (ExpMeta _ | ExpHandle _ _ | ExpDone _ _) as p => export_step sh hs p
  | (MigLock _ _ | MigTest _ _ | MigSwap _ _ | MigFree _ | MigUnlock | MigGen | MigAdd _) as p =>
      migrate_step i sh hs p
  | (RelLock _ | RelDec _ | RelUnlock _) as p => release_step i sh hs p
  | DropSub n => drop_step sh hs n
  | (FinLock | FinXchg | FinDispose | FinErase | FinRelock) as p => finalize_step i sh hs p
  | (ImpFind _ | ImpRetain) as p => import_step sh hs p
  | (InvFind | InvLock | InvRefs | InvFinal | InvStore) as p => invalidate_step i sh hs p
  | (SweepFind | SweepLoad) as p => sweep_step sh hs p
  end.

Definition System : Set := Shared * list Thread.

(** Any thread moves; or a thread moves one of its objects to another. *)
Inductive conc_step (ok : Command → Prop) : System → System → Prop :=
  | conc_thread i c sh sh' ths th th' :
      ths !! i = Some th → (pc th = Ready → ok c) → thread_step i c sh th = Some (sh', th') →
      conc_step ok (sh, ths) (sh', <[i := th']> ths)
  | conc_give i j sh ths hi hj n x :
      i ≠ j → ths !! i = Some (mkThread Ready hi) → ths !! j = Some (mkThread Ready hj) →
      hi !! n = Some x →
      conc_step ok (sh, ths)
        (sh, <[j := mkThread Ready (hj ++ [x])]> (<[i := mkThread Ready (delete n hi)]> ths)).

(** A buffer has just been registered by [Runtime::allocate] on thread 0, which has
    not retained it yet; the other threads have no object. *)
Definition conc_start (r : BufferRecord) (others : nat) : System :=
  (mkShared (Control_new r) None true 0 [rec_backing r] [],
   mkThread NewRetain [] :: replicate others (mkThread Ready [])).
Definition conc_reachable (ok : Command → Prop) (r : BufferRecord) (n : nat) (S : System) : Prop :=
  rtc (conc_step ok) (conc_start r n) S.

(** A schedule: which thread moves, and what its client asks for if it is [Ready]. *)
Fixpoint run (sched : list (nat * Command)) (S : System) : option System :=
  match sched with
  | [] => Some S
  | (i, c) :: rest =>
      match S.2 !! i with
      | None => None
      | Some th =>
          match thread_step i c S.1 th with
          | None => None
          | Some (sh', th') => run rest (sh', <[i := th']> S.2)
          end
      end
  end.
(** Thread [i] moves [n] times. *)
Definition moves (n i : nat) (c : Command) : list (nat * Command) := replicate n (i, c).

(** A thread goes on with the operation it is in. *)
Inductive busy_step : System → System → Prop :=
  | busy i c sh sh' ths th th' :
      ths !! i = Some th → pc th ≠ Ready → thread_step i c sh th = Some (sh', th') →
      busy_step (sh, ths) (sh', <[i := th']> ths).
(** How many accesses an operation has left, at most. *)
Definition rank (th : Thread) : Z :=
  match pc th with
  | Ready => 0
  | SetGen _ | ShareAdd _ | ViewAdd | MapAdd | CopyGo _ | InsRead | ExpDone _ _ | MigAdd _ | Unlock => 1
  | NewRetain | ImpRetain | AcqRetain _ | ViewData | MapUnlock | CopyPtr | InsDomain _ | ExpHandle _ _ | MigGen
  | FinErase => 2
  | ImpFind _ | AcqTest _ | Bounds _ | MapTest _ | ExpMeta _ | MigUnlock | FinDispose => 3
  | AcqLock _ | MapLock _ | MigFree _ | FinXchg => 4
  | MapDomain _ _ | MigSwap _ _ | FinLock | FinRelock => 5
  | Access _ | MigTest _ _ | DropSub _ | InvStore | SweepLoad => 6
  | MigLock _ _ | RelUnlock _ | InvFinal | SweepFind => 7
  | Check _ _ | RelDec _ | InvRefs => 8
  | Load _ _ | RelLock _ | InvLock => 9
  | InvFind => 10
  end.
Definition quiet (S : System) : Prop := ∀ i th, S.2 !! i = Some th → pc th = Ready.
(** The backing that a migration has replaced and not given back yet. *)
Definition transit (p : Pc) : list NativeAllocation := match p with MigFree old => [old] | _ => [] end.
Definition in_transit (S : System) : list NativeAllocation :=
  match sh_mtx S.1 ≫= (S.2 !!.) with Some th => transit (pc th) | None => [] end.
(** The backing, and where the earlier ones went. *)
Definition backing_intact (S : System) : Prop :=
  if decide (sh_disposals S.1 = 0%nat)
  then sh_bound S.1 = sh_left S.1 ++ in_transit S ++ [rec_backing (rec (sh_ctl S.1))]
  else sh_bound S.1 = sh_left S.1 ∧ rec_backing (rec (sh_ctl S.1)) = NativeAllocation_default
       ∧ rec_state (rec (sh_ctl S.1)) = BufferState.RELEASED.

(** * Invariants *)

Definition b2z (b : bool) : Z := if b then 1 else 0.
Definition at_pc (f : Pc → bool) (th : Thread) : Z := b2z (f (pc th)).

Definition creating (p : Pc) : bool := match p with NewRetain => true | _ => false end.
(** On the way to the [finalized.exchange]. *)
Definition arriving (p : Pc) : bool := match p with FinLock | FinXchg => true | _ => false end.
Definition disposing (p : Pc) : bool := match p with FinDispose => true | _ => false end.
Definition erasing (p : Pc) : bool := match p with FinDispose | FinErase => true | _ => false end.
Definition in_lock (p : Pc) : bool :=
  match p with
  | AcqTest _ | AcqRetain _ | MapTest _ | MapUnlock | MigTest _ _ | MigSwap _ _ | MigFree _ | MigUnlock
  | RelDec _ | RelUnlock _ | FinXchg | FinDispose | FinErase | Unlock
  | InvRefs | InvFinal | InvStore | FinRelock => true
  | _ => false
  end.
(** In the commit of a migration. *)
Definition committing (p : Pc) : bool := match p with MigSwap _ _ | MigFree _ => true | _ => false end.
(** The program counters of the stable commands. *)
Definition stable_pc (p : Pc) : bool :=
  match p with
  | ImpFind _ | ImpRetain | InvFind | InvLock | InvRefs | InvFinal | InvStore | FinRelock
  | SweepFind | SweepLoad => false
  | _ => true
  end.
(** An object whose release is a [drop_ref] alone. *)
Definition bare (x : Obj) : Prop := x = HView ∨ ∃ g, x = HHandle g.
(** What a program counter knows of the objects of its thread. *)
Definition pc_holds (p : Pc) (hs : list Obj) : Prop :=
  match p with
  | Load _ _ | Check _ _ | Access _ | ShareAdd _ | AcqLock _ | AcqTest _ | AcqRetain _ | Bounds _
  | ViewData | ViewAdd | MapDomain _ _ | MapLock _ | MapTest _ | MapUnlock | MapAdd | CopyPtr | CopyGo _
  | InsDomain _ | InsRead | ExpMeta _ | ExpHandle _ _ | ExpDone _ _
  | MigLock _ _ | MigTest _ _ | MigSwap _ _ | MigFree _ | MigUnlock | MigGen | MigAdd _ => hs ≠ []
  | SetGen n => ∃ g, hs !! n = Some (HHandle g)
  | RelLock n | RelDec n => (∃ kd, hs !! n = Some (HLease kd)) ∨ hs !! n = Some HMap
  | RelUnlock n => hs !! n = Some HView
  | DropSub n => ∃ x, hs !! n = Some x ∧ bare x
  | NewRetain => hs = []
  | _ => True
  end.

Definition lease_counter (kd : LeaseKind) (k : Control) : Z :=
  match kd with
  | LeaseKind.READ => read_leases k
  | LeaseKind.WRITE => write_leases k
  | LeaseKind.EXCLUSIVE => exclusive_leases k
  end.
Definition is_lease (kd : LeaseKind) (x : Obj) : Z := b2z (bool_decide (x = HLease kd)).
(** The leases of a kind a thread owns or has just counted. *)
Definition leases_of (kd : LeaseKind) (th : Thread) : Z :=
  sum_list (is_lease kd) (held th)
  + match pc th with AcqRetain kd' => b2z (bool_decide (kd' = kd)) | _ => 0 end.
Definition refs_held (th : Thread) : Z := Z.of_nat (length (held th)).

(** Readers exclude writers: a lease is only counted when the counters allow it. *)
Definition exclusion (k : Control) : Prop :=
  0 < write_leases k + exclusive_leases k →
  read_leases k + write_leases k + exclusive_leases k = 1.
(** Creation, the way to the flag, the flag, or live references: one at a time. *)
Definition phase (S : System) : Prop :=
  sum_list (at_pc creating) S.2 + sum_list (at_pc arriving) S.2
  + b2z (finalized (sh_ctl S.1)) + b2z (0 <? refs (sh_ctl S.1)) = 1.
(** What a migration that has passed its tests knows until it leaves the mutex. *)
Definition swappable (k : Control) : Prop :=
  rec_state (rec k) ≠ BufferState.RELEASED ∧ write_leases k ≤ 0 ∧ exclusive_leases k ≤ 0.
(** What holds whatever the commands. *)
Record guarded_inv (S : System) : Prop := {
  gi_disposals :
    Z.of_nat (sh_disposals S.1) + sum_list (at_pc disposing) S.2 = b2z (finalized (sh_ctl S.1));
  gi_erased :
    b2z (negb (sh_registered S.1)) + sum_list (at_pc erasing) S.2 = b2z (finalized (sh_ctl S.1));
  gi_leases kd : lease_counter kd (sh_ctl S.1) = sum_list (leases_of kd) S.2;
  gi_exclusion : exclusion (sh_ctl S.1);
  gi_pc i th : S.2 !! i = Some th → pc_holds (pc th) (held th);
  gi_mutex i th : S.2 !! i = Some th → (in_lock (pc th) = true ↔ sh_mtx S.1 = Some i);
  gi_owner i : sh_mtx S.1 = Some i → is_Some (S.2 !! i);
  gi_swap i th : S.2 !! i = Some th → committing (pc th) = true → swappable (sh_ctl S.1) }.

(** What holds in addition when only stable commands are given. *)
Record stable_inv (S : System) : Prop := {
  si_refs : refs (sh_ctl S.1) = sum_list refs_held S.2;
  si_phase : phase S;
  si_pc i th : S.2 !! i = Some th → stable_pc (pc th) = true }.

(** Open one access of a thread: a goal per path. *)
Ltac open_step H :=
  unfold thread_step, valid_step, handle_step, share_step, acquire_step, view_step, map_step, copy_step, inspect_step,
    export_step, migrate_step,
    release_step, drop_step, finalize_step, import_step, invalidate_step, alive_next, access_next, bounds_next, sweep_step, start, lock, guarded_read in H; cbn [pc held] in H;
  repeat match type of H with
  | context [match ?x with _ => _ end] => destruct x eqn:?; cbn [fmap option_fmap option_map] in H
  end; simplify_eq/=.
(** The sum of a measure after one thread has moved. *)
Ltac sums Hi :=
  repeat match goal with
  | |- context [sum_list ?f (<[?i := ?th]> ?ths)] => rewrite (sum_list_insert f ths i _ th Hi)
  end; unfold at_pc, refs_held; cbn.

Section steps.
Implicit Types (sh : Shared) (ths : list Thread) (th : Thread).

Lemma at_pc_nonneg f th : 0 ≤ at_pc f th.
Proof. unfold at_pc. destruct (f (pc th)); simpl; lia. Qed.
Lemma at_pc_le f ths i th : ths !! i = Some th → at_pc f th ≤ sum_list (at_pc f) ths.
Proof. apply sum_list_elem. intros. apply at_pc_nonneg. Qed.
Lemma is_lease_nonneg kd x : 0 ≤ is_lease kd x.
Proof. unfold is_lease. destruct (bool_decide _); simpl; lia. Qed.
Lemma leases_of_nonneg kd th : 0 ≤ leases_of kd th.
Proof.
  unfold leases_of. pose proof (sum_list_nonneg (is_lease kd) (held th) ltac:(intros; apply is_lease_nonneg)).
  destruct (pc th); try lia. destruct (bool_decide _); simpl; lia.
Qed.

Lemma finalized_add_lease kd k : finalized (add_lease kd k) = finalized k.
Proof. by destruct kd. Qed.
Lemma finalized_give_lease kd k : finalized (settle_lease_state (remove_lease kd k)) = finalized k.
Proof. unfold settle_lease_state. destruct kd; cbn; by repeat case_match. Qed.

(** The flag, the disposals and the registry entry. *)
Lemma thread_step_disposals i c sh sh' ths th th' :
  ths !! i = Some th → thread_step i c sh th = Some (sh', th') →
  Z.of_nat (sh_disposals sh) + sum_list (at_pc disposing) ths = b2z (finalized (sh_ctl sh)) →
  b2z (negb (sh_registered sh)) + sum_list (at_pc erasing) ths = b2z (finalized (sh_ctl sh)) →
  Z.of_nat (sh_disposals sh') + sum_list (at_pc disposing) (<[i := th']> ths) = b2z (finalized (sh_ctl sh'))
  ∧ b2z (negb (sh_registered sh')) + sum_list (at_pc erasing) (<[i := th']> ths)
    = b2z (finalized (sh_ctl sh')).
Proof.
  intros Hi Hst Hd He. destruct th as [p hs]. pose proof (at_pc_le erasing ths i _ Hi) as Hle.
  destruct sh as [k mtx reg dis].
  destruct p; open_step Hst; cbn in *; sums Hi; unfold at_pc in *; cbn in *;
    rewrite ?finalized_add_lease, ?finalized_give_lease in *;
    destruct (finalized k); try destruct reg; cbn in *; try discriminate; try (split; lia).
Qed.

(** What a thread is doing fits what it owns. *)
Lemma thread_step_pc i c sh sh' th th' :
  thread_step i c sh th = Some (sh', th') → pc_holds (pc th) (held th) →
  pc_holds (pc th') (held th').
Proof.
  intros Hst Hp. destruct th as [p hs]. destruct sh as [k mtx reg dis].
  destruct p; open_step Hst; cbn in *; unfold bare; try done; try (by intros ->); eauto using list_lookup_insert_eq, lookup_lt_Some.
  exists 0. by apply list_lookup_middle.
Qed.

(** The mutex: the threads in a guarded region are the one that holds it. *)
Lemma thread_step_mutex i c sh sh' th th' :
  thread_step i c sh th = Some (sh', th') →
  (in_lock (pc th) = true ↔ sh_mtx sh = Some i) →
  (in_lock (pc th') = true ↔ sh_mtx sh' = Some i)
  ∧ ∀ j, j ≠ i → (sh_mtx sh' = Some j ↔ sh_mtx sh = Some j).
Proof.
  intros Hst Hm. destruct th as [p hs]. destruct sh as [k mtx reg dis].
  destruct p; open_step Hst; cbn in *; naive_solver.
Qed.

(** The lease counters move with the leases of the thread. *)
Lemma lease_counter_add kd kd' k :
  lease_counter kd (add_lease kd' k) = lease_counter kd k + b2z (bool_decide (kd' = kd)).
Proof. unfold b2z. case_bool_decide; destruct kd, kd'; cbn; try congruence; lia. Qed.
Lemma lease_counter_give kd kd' k :
  0 < lease_counter kd' k →
  lease_counter kd (settle_lease_state (remove_lease kd' k))
  = lease_counter kd k - b2z (bool_decide (kd' = kd)).
Proof.
  intros H. trans (lease_counter kd (remove_lease kd' k)).
  { unfold settle_lease_state. destruct kd; by case_match. }
  unfold b2z. case_bool_decide; destruct kd, kd'; cbn in *; try congruence; case_match; cbn; lia.
Qed.
Lemma is_lease_le kd x hs n : hs !! n = Some x → is_lease kd x ≤ sum_list (is_lease kd) hs.
Proof. apply sum_list_elem. intros. apply is_lease_nonneg. Qed.
Lemma is_lease_handle kd g : is_lease kd (HHandle g) = 0.
Proof. done. Qed.
Lemma is_lease_map kd : is_lease kd HMap = 0.
Proof. done. Qed.
Lemma is_lease_view kd : is_lease kd HView = 0.
Proof. done. Qed.
Lemma bare_no_lease kd x : bare x → is_lease kd x = 0.
Proof. by intros [->|[g ->]]. Qed.
Lemma is_lease_lease kd kd' : is_lease kd (HLease kd') = b2z (bool_decide (kd' = kd)).
Proof. unfold is_lease, b2z. repeat case_bool_decide; congruence. Qed.
Lemma lease_counter_set_refs kd n k : lease_counter kd (set_refs n k) = lease_counter kd k.
Proof. by destruct kd. Qed.
Lemma lease_counter_set_finalized kd b k : lease_counter kd (set_finalized b k) = lease_counter kd k.
Proof. by destruct kd. Qed.
Lemma lease_counter_set_rec kd f k : lease_counter kd (set_rec f k) = lease_counter kd k.
Proof. by destruct kd. Qed.
Create Rewrite HintDb leases.
#[local] Hint Rewrite @sum_list_snoc is_lease_handle is_lease_map is_lease_view is_lease_lease lease_counter_set_refs
  lease_counter_set_finalized lease_counter_set_rec lease_counter_add : leases.

Lemma thread_step_leases i c sh sh' th th' kd :
  thread_step i c sh th = Some (sh', th') → pc_holds (pc th) (held th) →
  (∀ kd', leases_of kd' th ≤ lease_counter kd' (sh_ctl sh)) →
  lease_counter kd (sh_ctl sh') - leases_of kd th' = lease_counter kd (sh_ctl sh) - leases_of kd th.
Proof.
  intros Hst Hp Hle. destruct th as [p hs]. destruct sh as [k mtx reg dis].
  destruct p; open_step Hst; cbn [pc held sh_ctl sh_mtx] in *; unfold leases_of in *;
    cbn [pc held pc_holds sh_ctl add_refs take_lease give_lease take_map give_map swap bind_backing let_go
         set_sh_ctl dispose] in *;
    autorewrite with leases; try lia; try (unfold sum_list; simpl; lia).
  - by cbn.
  - destruct Hp as [g Hg]. rewrite (sum_list_insert _ _ _ _ _ Hg), !is_lease_handle. lia.
  - match goal with H : hs !! _ = Some (HLease ?l') |- _ => rename H into Hn, l' into l end.
    rewrite (sum_list_insert _ _ _ _ _ Hn), is_lease_view, is_lease_lease, lease_counter_give; [lia|].
    pose proof (is_lease_le l _ _ _ Hn) as Hl. rewrite is_lease_lease, bool_decide_true in Hl by done.
    specialize (Hle l). cbn in *. lia.
  - match goal with H : hs !! _ = Some HMap |- _ => rename H into Hn end.
    rewrite (sum_list_insert _ _ _ _ _ Hn), is_lease_view, is_lease_map. lia.
  - destruct Hp as (x & Hx & Hb). rewrite (sum_list_delete _ _ _ _ Hx), bare_no_lease by done. lia.
  - destruct Hp as (x & Hx & Hb). rewrite (sum_list_delete _ _ _ _ Hx), bare_no_lease by done. lia.
Qed.

Lemma exclusion_add kd k :
  (∀ kd', 0 ≤ lease_counter kd' k) → lease_busy kd k = false → exclusion (add_lease kd k).
Proof.
  intros Hn Hb. pose proof (Hn LeaseKind.READ). pose proof (Hn LeaseKind.WRITE).
  pose proof (Hn LeaseKind.EXCLUSIVE). unfold exclusion. destruct kd; cbn in *; lia.
Qed.
Lemma exclusion_give kd k :
  (∀ kd', 0 ≤ lease_counter kd' k) → exclusion k →
  exclusion (settle_lease_state (remove_lease kd k)).
Proof.
  intros Hn He. pose proof (Hn LeaseKind.READ). pose proof (Hn LeaseKind.WRITE).
  pose proof (Hn LeaseKind.EXCLUSIVE).
  assert (exclusion (remove_lease kd k)) as Hr by (unfold exclusion in *; destruct kd; cbn in *; case_match; cbn; lia).
  unfold settle_lease_state. by case_match.
Qed.
Lemma thread_step_exclusion i c sh sh' th th' :
  thread_step i c sh th = Some (sh', th') → (∀ kd, 0 ≤ lease_counter kd (sh_ctl sh)) →
  exclusion (sh_ctl sh) → exclusion (sh_ctl sh').
Proof.
  intros Hst Hn He. destruct th as [p hs]. destruct sh as [k mtx reg dis].
  destruct p; open_step Hst; cbn [sh_ctl] in *; try exact He.
  - by apply exclusion_add.
  - by apply exclusion_give.
Qed.

(** Without the mutex nobody changes the record or the leases. *)
Lemma thread_step_outside i c sh sh' th th' :
  thread_step i c sh th = Some (sh', th') → in_lock (pc th) = false →
  rec (sh_ctl sh') = rec (sh_ctl sh) ∧ (∀ kd, lease_counter kd (sh_ctl sh') = lease_counter kd (sh_ctl sh))
  ∧ sh_disposals sh' = sh_disposals sh ∧ sh_bound sh' = sh_bound sh ∧ sh_left sh' = sh_left sh.
Proof.
  intros Hst Hl. destruct th as [p hs]. destruct sh as [k mtx reg dis].
  destruct p; open_step Hst; cbn in *; try done; split_and!; try done; by intros [].
Qed.
Lemma thread_step_swappable i c sh sh' th th' :
  thread_step i c sh th = Some (sh', th') → (committing (pc th) = true → swappable (sh_ctl sh)) →
  committing (pc th') = true → swappable (sh_ctl sh').
Proof.
  intros Hst Hs Hc. destruct th as [p hs]. destruct sh as [k mtx reg dis].
  destruct p; open_step Hst; cbn in *; try done; bool_prop; unfold swappable in *; cbn in *; naive_solver lia.
Qed.
Lemma swappable_outside k k' :
  rec k' = rec k → (∀ kd, lease_counter kd k' = lease_counter kd k) → swappable k → swappable k'.
Proof.
  intros Hr Hl. pose proof (Hl LeaseKind.WRITE). pose proof (Hl LeaseKind.EXCLUSIVE).
  unfold swappable. cbn in *. rewrite Hr. intros (? & ? & ?). split_and!; [done|lia|lia].
Qed.

(** References and objects, for the stable commands. *)
Lemma thread_step_stable i c sh sh' th th' :
  thread_step i c sh th = Some (sh', th') → (pc th = Ready → stable c) → stable_pc (pc th) = true →
  stable_pc (pc th') = true.
Proof.
  intros Hst Hc Hp. destruct th as [p hs]. destruct sh as [k mtx reg dis].
  destruct p; open_step Hst; cbn in *; try done; by specialize (Hc eq_refl).
Qed.
Lemma refs_add_lease kd k : refs (add_lease kd k) = refs k.
Proof. by destruct kd. Qed.
Lemma refs_give_lease kd k : refs (settle_lease_state (remove_lease kd k)) = refs k.
Proof. unfold settle_lease_state. destruct kd; cbn; by repeat case_match. Qed.
Lemma length_delete_Z {A} (l : list A) n x :
  l !! n = Some x → Z.of_nat (length (delete n l)) = Z.of_nat (length l) - 1.
Proof. intros Hn. rewrite length_delete by eauto. apply lookup_lt_Some in Hn. lia. Qed.
Lemma thread_step_refs i c sh sh' th th' :
  thread_step i c sh th = Some (sh', th') → stable_pc (pc th) = true → pc_holds (pc th) (held th) →
  refs (sh_ctl sh') - refs_held th' = refs (sh_ctl sh) - refs_held th.
Proof.
  intros Hst Hs Hp. destruct th as [p hs]. destruct sh as [k mtx reg dis].
  destruct p; open_step Hst; unfold refs_held; cbn in *; try discriminate;
    try match goal with H : ∃ x, _ ∧ bare x |- _ => destruct H as (x & Hx & _) end;
    rewrite ?length_app, ?length_insert, ?refs_add_lease, ?refs_give_lease, ?(length_delete_Z _ _ _ Hx);
    cbn; lia.
Qed.

(** Creation, then references, then the way to the flag, then the flag. *)
Lemma thread_step_phase i c sh sh' ths th th' :
  ths !! i = Some th → thread_step i c sh th = Some (sh', th') →
  stable_pc (pc th) = true → pc_holds (pc th) (held th) →
  refs_held th ≤ refs (sh_ctl sh) → phase (sh, ths) → phase (sh', <[i := th']> ths).
Proof.
  intros Hi Hst Hs Hp Hr Hph. pose proof (at_pc_le creating ths i _ Hi).
  pose proof (at_pc_le arriving ths i _ Hi).
  pose proof (sum_list_nonneg (at_pc creating) ths ltac:(intros; apply at_pc_nonneg)).
  pose proof (sum_list_nonneg (at_pc arriving) ths ltac:(intros; apply at_pc_nonneg)).
  destruct th as [p hs]. destruct sh as [k mtx reg dis]. unfold phase, refs_held in *.
  destruct p; open_step Hst; cbn in *; try discriminate; sums Hi; unfold at_pc in *; cbn in *;
    rewrite ?finalized_add_lease, ?finalized_give_lease, ?refs_add_lease, ?refs_give_lease in *;
    repeat match goal with _ : context [b2z (0 <? ?e)] |- _ => destruct (0 <? e) eqn:?
           | |- context [b2z (0 <? ?e)] => destruct (0 <? e) eqn:? end;
    try (destruct hs as [|x hs]; [done|]); destruct (finalized k); cbn in *; try discriminate; lia.
Qed.
End steps.

(** ** The invariants are kept, whatever the order *)

Lemma give_sum (f : Thread → Z) i j ths hi hj n x :
  i ≠ j → ths !! i = Some (mkThread Ready hi) → ths !! j = Some (mkThread Ready hj) →
  f (mkThread Ready (delete n hi)) + f (mkThread Ready (hj ++ [x]))
  = f (mkThread Ready hi) + f (mkThread Ready hj) →
  sum_list f (<[j := mkThread Ready (hj ++ [x])]> (<[i := mkThread Ready (delete n hi)]> ths))
  = sum_list f ths.
Proof.
  intros Hij Hi Hj Hf.
  rewrite (sum_list_insert _ _ j (mkThread Ready hj)) by by rewrite list_lookup_insert_ne.
  rewrite (sum_list_insert _ _ i _ _ Hi). lia.
Qed.
(** Handing an object over changes no sum of the invariants. *)
Lemma give_leases kd hi hj n x :
  hi !! n = Some x →
  leases_of kd (mkThread Ready (delete n hi)) + leases_of kd (mkThread Ready (hj ++ [x]))
  = leases_of kd (mkThread Ready hi) + leases_of kd (mkThread Ready hj).
Proof. intros Hn. unfold leases_of; cbn [held pc]. rewrite sum_list_snoc, (sum_list_delete _ _ _ _ Hn). lia. Qed.
Lemma give_refs hi hj n x :
  hi !! n = Some x →
  refs_held (mkThread Ready (delete n hi)) + refs_held (mkThread Ready (hj ++ [x]))
  = refs_held (mkThread Ready hi) + refs_held (mkThread Ready hj).
Proof. intros Hn. unfold refs_held; cbn [held]. rewrite length_app, (length_delete_Z _ _ _ Hn). cbn. lia. Qed.

Lemma leases_of_le S i th kd :
  guarded_inv S → S.2 !! i = Some th → leases_of kd th ≤ lease_counter kd (sh_ctl S.1).
Proof.
  intros HI Hi. rewrite (gi_leases _ HI). apply (sum_list_elem _ _ i); [|done].
  intros. apply leases_of_nonneg.
Qed.
Lemma lease_counter_nonneg S kd : guarded_inv S → 0 ≤ lease_counter kd (sh_ctl S.1).
Proof. intros HI. rewrite (gi_leases _ HI). apply sum_list_nonneg. intros. apply leases_of_nonneg. Qed.

(** A thread of the updated list is the one that moved, or was there before. *)
Lemma insert_threads (ths : list Thread) i j th th' :
  <[i := th']> ths !! j = Some th → (j = i ∧ th = th') ∨ (j ≠ i ∧ ths !! j = Some th).
Proof. intros H. apply list_lookup_insert_Some in H. naive_solver. Qed.

Lemma guarded_inv_step ok S S' : conc_step ok S S' → guarded_inv S → guarded_inv S'.
Proof.
  intros Hst HI. destruct Hst as [i c sh sh' ths th th' Hi _ Hst|i j sh ths hi hj n x Hij Hi Hj Hn].
  - pose proof (gi_pc _ HI i th Hi) as Hp.
    destruct (thread_step_disposals _ _ _ _ _ _ _ Hi Hst (gi_disposals _ HI) (gi_erased _ HI)) as [Hd He].
    destruct (thread_step_mutex _ _ _ _ _ _ Hst (gi_mutex _ HI i th Hi)) as [Hm Hm'].
    split; cbn [fst snd]; try done.
    + intros kd. rewrite (sum_list_insert _ _ _ _ _ Hi). pose proof (gi_leases _ HI kd) as Hl. cbn [fst snd] in Hl.
      pose proof (thread_step_leases _ _ _ _ _ _ kd Hst Hp (λ kd', leases_of_le _ _ _ kd' HI Hi)). lia.
    + apply (thread_step_exclusion _ _ _ _ _ _ Hst); [|apply (gi_exclusion _ HI)].
      intros kd. apply (lease_counter_nonneg _ kd HI).
    + intros j tj [[-> ->]|[Hj Htj]]%insert_threads; [by eapply thread_step_pc|by apply (gi_pc _ HI j)].
    + intros j tj [[-> ->]|[Hj Htj]]%insert_threads; [done|].
      rewrite Hm' by done. apply (gi_mutex _ HI j tj Htj).
    + intros j Hj. rewrite list_lookup_insert_is_Some. destruct (decide (j = i)) as [->|Hne]; [eauto|].
      apply Hm' in Hj; [|done]. apply (gi_owner _ HI j Hj).
    + intros j tj [[-> ->]|[Hj Htj]]%insert_threads Hc.
      * eapply thread_step_swappable; [exact Hst|apply (gi_swap _ HI i th Hi)|done].
      * assert (in_lock (pc th) = false) as Hout.
        { assert (in_lock (pc tj) = true) as Hl by by destruct (pc tj).
          apply (gi_mutex _ HI j tj Htj) in Hl. destruct (in_lock (pc th)) eqn:E; [|done].
          apply (gi_mutex _ HI i th Hi) in E. congruence. }
        destruct (thread_step_outside _ _ _ _ _ _ Hst Hout) as (? & ? & _).
        eapply swappable_outside; [done..|]. apply (gi_swap _ HI j tj Htj Hc).
  - split; cbn [fst snd].
    + rewrite give_sum by done. apply (gi_disposals _ HI).
    + rewrite give_sum by done. apply (gi_erased _ HI).
    + intros kd. rewrite give_sum by eauto using give_leases. apply (gi_leases _ HI).
    + apply (gi_exclusion _ HI).
    + intros k tk [[-> ->]|[Hk [[-> ->]|[Hk' Htk]]%insert_threads]]%insert_threads; try done.
      by apply (gi_pc _ HI k).
    + intros k tk [[-> ->]|[Hk [[-> ->]|[Hk' Htk]]%insert_threads]]%insert_threads.
      * apply (gi_mutex _ HI j _ Hj).
      * apply (gi_mutex _ HI i _ Hi).
      * apply (gi_mutex _ HI k _ Htk).
    + intros k Hk. apply (gi_owner _ HI) in Hk. by rewrite !list_lookup_insert_is_Some.
    + intros k tk [[-> ->]|[Hk [[-> ->]|[Hk' Htk]]%insert_threads]]%insert_threads; try done.
      apply (gi_swap _ HI k _ Htk).
Qed.

(** An invariant of every step holds wherever the steps lead. *)
Lemma rtc_preserves {A} (R : A → A → Prop) (I : A → Prop) x y :
  (∀ x y, R x y → I x → I y) → I x → rtc R x y → I y.
Proof. intros HI Hx. induction 1; eauto. Qed.
Lemma conc_start_threads r n i th :
  (conc_start r n).2 !! i = Some th → (i = 0%nat ∧ th = mkThread NewRetain []) ∨ (i ≠ 0%nat ∧ th = mkThread Ready []).
Proof. destruct i; cbn; [naive_solver|]. intros [-> _]%lookup_replicate. naive_solver. Qed.
Lemma conc_start_sum (f : Thread → Z) r n :
  f (mkThread Ready []) = 0 → sum_list f (conc_start r n).2 = f (mkThread NewRetain []).
Proof.
  intros Hf. unfold conc_start. cbn [snd].
  change (f (mkThread NewRetain []) + sum_list f (replicate n (mkThread Ready [])) = f (mkThread NewRetain [])).
  rewrite sum_list_replicate by done. lia.
Qed.
Lemma guarded_inv_start r n : guarded_inv (conc_start r n).
Proof.
  split; try (rewrite conc_start_sum by done; done).
  - intros kd. rewrite conc_start_sum by done. by destruct kd.
  - unfold exclusion. cbn. lia.
  - intros i th [[-> ->]|[? ->]]%conc_start_threads; done.
  - intros i th [[-> ->]|[? ->]]%conc_start_threads; done.
  - done.
  - by intros i th [[-> ->]|[? ->]]%conc_start_threads.
Qed.
Lemma guarded_reachable ok r n S : conc_reachable ok r n S → guarded_inv S.
Proof.
  intros H. apply (rtc_preserves _ _ _ _ (guarded_inv_step ok) (guarded_inv_start r n) H).
Qed.

Lemma refs_held_nonneg th : 0 ≤ refs_held th.
Proof. unfold refs_held. lia. Qed.
Lemma refs_held_le S i th : stable_inv S → S.2 !! i = Some th → refs_held th ≤ refs (sh_ctl S.1).
Proof.
  intros HI Hi. rewrite (si_refs _ HI). apply (sum_list_elem _ _ i); [|done]. apply refs_held_nonneg.
Qed.
Lemma stable_inv_step S S' :
  conc_step stable S S' → guarded_inv S → stable_inv S → stable_inv S'.
Proof.
  intros Hst HG HI. destruct Hst as [i c sh sh' ths th th' Hi Hc Hst|i j sh ths hi hj n x Hij Hi Hj Hn].
  - pose proof (gi_pc _ HG i th Hi) as Hp. pose proof (si_pc _ HI i th Hi) as Hs.
    split; cbn [fst snd].
    + rewrite (sum_list_insert _ _ _ _ _ Hi). pose proof (si_refs _ HI) as Hr. cbn [fst snd] in Hr.
      pose proof (thread_step_refs _ _ _ _ _ _ Hst Hs Hp). lia.
    + eapply thread_step_phase; eauto using si_phase. apply (refs_held_le _ i _ HI Hi).
    + intros j tj [[-> ->]|[Hj Htj]]%insert_threads; [by eapply thread_step_stable|by apply (si_pc _ HI j)].
  - split; cbn [fst snd].
    + rewrite give_sum by eauto using give_refs. apply (si_refs _ HI).
    + unfold phase. cbn [fst snd]. rewrite !give_sum by done. apply (si_phase _ HI).
    + intros k tk [[-> ->]|[Hk [[-> ->]|[Hk' Htk]]%insert_threads]]%insert_threads; try done.
      by apply (si_pc _ HI k).
Qed.
Lemma stable_inv_start r n : stable_inv (conc_start r n).
Proof.
  split.
  - by rewrite conc_start_sum.
  - unfold phase. by rewrite !conc_start_sum.
  - by intros i th [[-> ->]|[? ->]]%conc_start_threads.
Qed.
Lemma stable_reachable r n S : conc_reachable stable r n S → guarded_inv S ∧ stable_inv S.
Proof.
  intros H.
  assert (∀ S S', conc_step stable S S' → guarded_inv S ∧ stable_inv S → guarded_inv S' ∧ stable_inv S') as Hst
    by (intros ?? Hst [??]; eauto using guarded_inv_step, stable_inv_step).
  apply (rtc_preserves _ _ _ _ Hst (conj (guarded_inv_start r n) (stable_inv_start r n)) H).
Qed.

Lemma run_reachable ok sched S S' :
  Forall (λ ic, ok ic.2) sched → run sched S = Some S' → rtc (conc_step ok) S S'.
Proof.
  revert S. induction sched as [|[i c] rest IH]; intros [sh ths] Hok; cbn.
  { intros [= ->]. done. }
  inversion Hok as [|?? Hc Hrest]; subst. destruct (ths !! i) as [th|] eqn:Hi; [|done].
  destruct (thread_step i c sh th) as [[sh' th']|] eqn:Hst; [|done]. intros Hrun.
  eapply rtc_l; [by eapply conc_thread|by apply IH].
Qed.

(** ** The backing *)
Lemma rec_remove_lease kd k : rec (remove_lease kd k) = rec k.
Proof. destruct kd; cbn; by case_match. Qed.
Lemma rec_backing_give_lease kd k :
  rec_backing (rec (settle_lease_state (remove_lease kd k))) = rec_backing (rec k).
Proof. unfold settle_lease_state. case_match; cbn; by rewrite rec_remove_lease. Qed.
Lemma rec_state_give_lease kd k :
  rec_state (rec k) = BufferState.RELEASED →
  rec_state (rec (settle_lease_state (remove_lease kd k))) = BufferState.RELEASED.
Proof.
  intros Hr. unfold settle_lease_state. rewrite rec_remove_lease, Hr, andb_false_r.
  by rewrite rec_remove_lease.
Qed.
Lemma mapped_kept r : rec_backing (mapped r) = rec_backing r ∧
  (rec_state r = BufferState.RELEASED → rec_state (mapped r) = BufferState.RELEASED).
Proof. unfold mapped. case_match eqn:E; split; try done; cbn. intros Hr. rewrite Hr in E. done. Qed.
Lemma unmapped_kept r : rec_backing (unmapped r) = rec_backing r ∧
  (rec_state r = BufferState.RELEASED → rec_state (unmapped r) = BufferState.RELEASED).
Proof. unfold unmapped. repeat case_match; bool_prop; split; try done; cbn in *; congruence. Qed.

(** The steps that move the backing are the disposal and the commit of a migration. *)
Definition rebinding (p : Pc) : bool :=
  match p with FinDispose | MigSwap _ _ | MigFree _ => true | _ => false end.
Lemma thread_step_backing i c sh sh' th th' :
  thread_step i c sh th = Some (sh', th') → rebinding (pc th) = false →
  sh_disposals sh' = sh_disposals sh ∧ sh_bound sh' = sh_bound sh ∧ sh_left sh' = sh_left sh
  ∧ rec_backing (rec (sh_ctl sh')) = rec_backing (rec (sh_ctl sh))
  ∧ (rec_state (rec (sh_ctl sh)) = BufferState.RELEASED →
     rec_state (rec (sh_ctl sh')) = BufferState.RELEASED)
  ∧ transit (pc th) = [] ∧ transit (pc th') = [].
Proof.
  intros Hst Hp. destruct th as [p hs]. destruct sh as [k mtx reg dis].
  destruct p; open_step Hst; cbn in *; try done; split_and!; try done.
  - by destruct k0.
  - destruct k0; cbn; by intros ->.
  - apply mapped_kept.
  - apply mapped_kept.
  - apply rec_backing_give_lease.
  - apply rec_state_give_lease.
  - apply unmapped_kept.
  - apply unmapped_kept.
Qed.
Lemma in_transit_at (S : System) i th :
  S.2 !! i = Some th → sh_mtx S.1 = Some i → in_transit S = transit (pc th).
Proof. intros Hi Hm. unfold in_transit. rewrite Hm. cbn. by rewrite Hi. Qed.
Lemma transit_in_lock p : in_lock p = false → transit p = [].
Proof. by destruct p. Qed.
(** A step of a thread that has nothing in transit. *)
Lemma in_transit_kept i c sh sh' ths th th' :
  ths !! i = Some th → (in_lock (pc th) = true ↔ sh_mtx sh = Some i) →
  thread_step i c sh th = Some (sh', th') → transit (pc th) = [] → transit (pc th') = [] →
  in_transit (sh', <[i := th']> ths) = in_transit (sh, ths).
Proof.
  intros Hi Hm Hst Ht Ht'. destruct (thread_step_mutex _ _ _ _ _ _ Hst Hm) as [_ Hother]. unfold in_transit. cbn [fst snd].
  assert (∀ m, m = Some i ∨ m = None → match m ≫= (ths !!.) with Some th => transit (pc th) | None => [] end = []) as H1
    by (intros m [-> | ->]; cbn; [by rewrite Hi|done]).
  assert (∀ m, m = Some i ∨ m = None →
    match m ≫= (<[i := th']> ths !!.) with Some th => transit (pc th) | None => [] end = []) as H2.
  { intros m [-> | ->]; cbn; [|done]. rewrite list_lookup_insert_eq by by eapply lookup_lt_Some. done. }
  destruct (sh_mtx sh') as [j|] eqn:E'; [destruct (decide (j = i)) as [->|Hj]|].
  - rewrite H2 by auto. symmetry. apply H1. destruct (sh_mtx sh) as [j|] eqn:E; [|auto].
    destruct (decide (j = i)) as [->|Hj]; [auto|]. destruct (Hother j Hj) as [_ Hb]. specialize (Hb eq_refl); congruence.
  - destruct (Hother j Hj) as [-> _]; [|done]. cbn. by rewrite list_lookup_insert_ne.
  - rewrite H2 by auto. symmetry. apply H1. destruct (sh_mtx sh) as [j|] eqn:E; [|auto].
    destruct (decide (j = i)) as [->|Hj]; [auto|]. destruct (Hother j Hj) as [_ Hb]. specialize (Hb eq_refl); congruence.
Qed.
(** A disposal, or a step of a commit: the backing has not been disposed of. *)
Lemma rebinding_undisposed sh ths i th :
  guarded_inv (sh, ths) → backing_intact (sh, ths) → ths !! i = Some th → rebinding (pc th) = true →
  sh_mtx sh = Some i ∧ sh_disposals sh = 0%nat.
Proof.
  intros HI Hb Hi Hp.
  assert (sh_mtx sh = Some i) as Hm by (apply (gi_mutex _ HI i th Hi); by destruct (pc th)). split; [done|].
  unfold backing_intact in Hb. case_decide as Hd; [done|]. destruct Hb as (_ & _ & Hrel). cbn in *.
  destruct (disposing (pc th)) eqn:E.
  - pose proof (gi_disposals _ HI) as Hsum. pose proof (at_pc_le disposing ths i _ Hi) as Hle.
    assert (at_pc disposing th = 1) as Hone by (unfold at_pc; by rewrite E). cbn [fst snd] in Hsum.
    assert (b2z (finalized (sh_ctl sh)) ≤ 1) by (unfold b2z; case_match; lia). lia.
  - destruct (gi_swap _ HI i th Hi) as [Hn _]; [by destruct (pc th)|done].
Qed.
Lemma backing_intact_step ok S S' :
  conc_step ok S S' → guarded_inv S → backing_intact S → backing_intact S'.
Proof.
  intros Hst HI Hb.
  destruct Hst as [i c sh sh' ths th th' Hi _ Hst|i j sh ths hi hj n x Hij Hi Hj Hn].
  - destruct (rebinding (pc th)) eqn:Hp.
    + destruct (rebinding_undisposed _ _ _ _ HI Hb Hi Hp) as [Hm Hd]. unfold backing_intact in Hb. cbn [fst] in Hb.
      rewrite decide_True, (in_transit_at _ i th) in Hb by done.
      assert (<[i := th']> ths !! i = Some th') as Hi' by (apply list_lookup_insert_eq; by eapply lookup_lt_Some).
      unfold backing_intact. cbn [fst].
      destruct th as [p hs]. destruct sh as [k mtx reg dis bd lf]. cbn in Hm, Hd. subst mtx dis.
      destruct p; try done; open_step Hst; cbn in *; try done; rewrite (in_transit_at (_, _) i _ Hi') by done; cbn.
      all: by rewrite <- ?app_assoc.
    + destruct (thread_step_backing _ _ _ _ _ _ Hst Hp) as (Hd & Hbd & Hlf & Hbk & Hrel & Ht & Ht').
      pose proof (in_transit_kept _ _ _ _ _ _ _ Hi (gi_mutex _ HI i th Hi) Hst Ht Ht') as Htr.
      unfold backing_intact in *. cbn [fst snd] in *. rewrite Htr, Hd, Hbd, Hlf, Hbk. case_decide; naive_solver.
  - assert (in_transit (sh, <[j := mkThread Ready (hj ++ [x])]> (<[i := mkThread Ready (delete n hi)]> ths))
            = in_transit (sh, ths)) as Htr; [|unfold backing_intact in *; by rewrite Htr].
    unfold in_transit. cbn [fst snd]. destruct (sh_mtx sh) as [k|] eqn:Hm; [|done]. cbn.
    assert (k ≠ i) by (intros ->; by apply (gi_mutex _ HI i _ Hi) in Hm).
    assert (k ≠ j) by (intros ->; by apply (gi_mutex _ HI j _ Hj) in Hm).
    by rewrite !list_lookup_insert_ne.
Qed.
Lemma backing_reachable ok r n S : conc_reachable ok r n S → backing_intact S.
Proof.
  intros H.
  assert (∀ S S', conc_step ok S S' → guarded_inv S ∧ backing_intact S →
          guarded_inv S' ∧ backing_intact S') as Hst
    by (intros ?? Hst [??]; eauto using guarded_inv_step, backing_intact_step).
  assert (backing_intact (conc_start r n)) as H0 by done.
  apply (rtc_preserves _ _ _ _ Hst (conj (guarded_inv_start r n) H0) H).
Qed.

(** ** Progress *)
Lemma rank_nonneg th : 0 ≤ rank th.
Proof. unfold rank. destruct (pc th); lia. Qed.
Lemma thread_step_rank i c sh sh' th th' :
  thread_step i c sh th = Some (sh', th') → pc th ≠ Ready → rank th' < rank th.
Proof.
  intros Hst Hp. destruct th as [p hs]. destruct sh as [k mtx reg dis].
  destruct p; open_step Hst; unfold rank; cbn; repeat case_match; try lia; done.
Qed.
Definition work (S : System) : Z := sum_list rank S.2.
Lemma busy_step_work S S' : busy_step S S' → work S' < work S.
Proof.
  intros [i c sh sh' ths th th' Hi Hp Hst]. unfold work. cbn [snd].
  rewrite (sum_list_insert _ _ _ _ _ Hi). pose proof (thread_step_rank _ _ _ _ _ _ Hst Hp). lia.
Qed.
Lemma busy_step_conc ok S S' : busy_step S S' → conc_step ok S S'.
Proof. intros [i c sh sh' ths th th' Hi Hp Hst]. by apply (conc_thread ok i c _ _ _ th). Qed.

(** Without [invalidate], whoever holds the mutex is not waiting for it. *)
Definition invalidating (p : Pc) : bool :=
  match p with InvFind | InvLock | InvRefs | InvFinal | InvStore | FinRelock => true | _ => false end.
Definition no_relock (S : System) : Prop :=
  ∀ i th, S.2 !! i = Some th → invalidating (pc th) = false.
Lemma thread_step_returning i c sh sh' th th' :
  thread_step i c sh th = Some (sh', th') → (pc th = Ready → returning c) → invalidating (pc th) = false →
  invalidating (pc th') = false.
Proof.
  intros Hst Hc Hp. destruct th as [p hs]. destruct sh as [k mtx reg dis].
  destruct p; open_step Hst; cbn in *; try done; by specialize (Hc eq_refl).
Qed.
Lemma returning_reachable r n S : conc_reachable returning r n S → guarded_inv S ∧ no_relock S.
Proof.
  intros H. split; [by eapply guarded_reachable|]. refine (rtc_preserves _ no_relock _ _ _ _ H).
  - intros S1 S2 Hst HI.
    destruct Hst as [i c sh sh' ths th th' Hi Hc Hst|i j sh ths hi hj m x Hij Hi Hj Hm]; intros k tk; cbn [snd].
    + intros [[-> ->]|[Hk Htk]]%insert_threads; [|by apply (HI k)].
      eapply thread_step_returning; [exact Hst|exact Hc|by apply (HI i)].
    + intros [[-> ->]|[Hk [[-> ->]|[Hk' Htk]]%insert_threads]]%insert_threads; [done..|by apply (HI k)].
  - by intros i th [[-> ->]|[? ->]]%conc_start_threads.
Qed.

(** A thread that is not waiting for the mutex can move. *)
Definition waits (p : Pc) : bool :=
  match p with
  | Check _ _ | Access _ | Bounds _ | ViewData | InsRead | AcqLock _ | MapLock _ | MigLock _ _
  | RelLock _ | FinLock | FinRelock | InvLock => true
  | _ => false
  end.
Lemma thread_step_enabled i sh th :
  pc th ≠ Ready → pc_holds (pc th) (held th) → (waits (pc th) = true → sh_mtx sh = None) →
  ∃ sh' th', thread_step i CSweep sh th = Some (sh', th').
Proof.
  intros Hp Hh Hw. destruct th as [p hs]. unfold thread_step, valid_step, handle_step, share_step, acquire_step, view_step, map_step,
    copy_step, inspect_step, export_step, migrate_step, release_step, drop_step, finalize_step, import_step, invalidate_step, sweep_step,
    lock, guarded_read.
  destruct p; cbn in *; try done; try (rewrite Hw by done); cbn; repeat case_match; try (by do 2 eexists);
    try (destruct Hh as [[kd Hh]|Hh]; congruence).
Qed.
Lemma busy_or_quiet S :
  guarded_inv S → no_relock S → quiet S ∨ ∃ S', busy_step S S'.
Proof.
  intros HG HI. destruct S as [sh ths].
  assert (∀ i th, ths !! i = Some th → pc th ≠ Ready → (waits (pc th) = true → sh_mtx sh = None) →
          ∃ S', busy_step (sh, ths) S') as Hgo.
  { intros i th Hi Hp Hw. destruct (thread_step_enabled i sh th Hp (gi_pc _ HG _ _ Hi) Hw) as (sh' & th' & Hst).
    eexists. by eapply busy. }
  destruct (sh_mtx sh) as [i|] eqn:Hm.
  - destruct (gi_owner _ HG i Hm) as [th Hi]. right. apply (Hgo i th Hi).
    + apply (gi_mutex _ HG i th Hi) in Hm. by destruct (pc th).
    + apply (gi_mutex _ HG i th Hi) in Hm. pose proof (HI i th Hi). by destruct (pc th).
  - destruct (decide (Exists (λ th, pc th ≠ Ready) ths)) as [He|He].
    + apply Exists_exists in He as (th & [i Hi]%list_elem_of_lookup & Hp). right. by apply (Hgo i th).
    + left. intros i th Hi. apply dec_stable. intros Hp. apply He, Exists_exists.
      eauto using list_elem_of_lookup_2.
Qed.
