(* ===== verification/Interleavings.v ===== *)
(** What the threads of Concurrency.v guarantee whatever their order: at most one
    disposal, exclusive writers, no dangling object for the commands that obtain
    references from references, no deadlock and no divergence without [invalidate]; what
    the other commands can break; and that a release that is not interrupted is the
    sequential one. *)
From S2P Require Import Prelude Types Platform State Ledger Pool Lifecycle Runtime Handle Facade RefSpec Refcount Clients SimRuntime Sim Frames.
From S2P Require Import Concurrency.

(** ** Leases of every kind *)
Definition any_lease (x : Obj) : Z :=
  is_lease LeaseKind.READ x + is_lease LeaseKind.WRITE x + is_lease LeaseKind.EXCLUSIVE x.
Definition any_leases (th : Thread) : Z :=
  leases_of LeaseKind.READ th + leases_of LeaseKind.WRITE th + leases_of LeaseKind.EXCLUSIVE th.
Lemma any_lease_nonneg x : 0 ≤ any_lease x.
Proof.
  unfold any_lease. pose proof (is_lease_nonneg LeaseKind.READ x).
  pose proof (is_lease_nonneg LeaseKind.WRITE x). pose proof (is_lease_nonneg LeaseKind.EXCLUSIVE x). lia.
Qed.
Lemma any_lease_lease kd : any_lease (HLease kd) = 1.
Proof. by destruct kd. Qed.
Lemma any_leases_nonneg th : 0 ≤ any_leases th.
Proof.
  unfold any_leases. pose proof (leases_of_nonneg LeaseKind.READ th).
  pose proof (leases_of_nonneg LeaseKind.WRITE th). pose proof (leases_of_nonneg LeaseKind.EXCLUSIVE th). lia.
Qed.
Lemma leases_of_held kd th : sum_list (is_lease kd) (held th) ≤ leases_of kd th.
Proof. unfold leases_of, b2z. destruct (pc th); repeat case_match; lia. Qed.
Lemma any_leases_held th : sum_list any_lease (held th) ≤ any_leases th.
Proof.
  unfold any_lease, any_leases. rewrite !sum_list_add. pose proof (leases_of_held LeaseKind.READ th).
  pose proof (leases_of_held LeaseKind.WRITE th). pose proof (leases_of_held LeaseKind.EXCLUSIVE th). lia.
Qed.
(** With a write or exclusive lease there is one lease in all. *)
Lemma all_leases_one S i a th ka :
  guarded_inv S → S.2 !! i = Some th → held th !! a = Some (HLease ka) → ka ≠ LeaseKind.READ →
  sum_list any_leases S.2 = 1.
Proof.
  intros HI Hi Ha Hk. unfold any_leases. rewrite !sum_list_add, <- !(gi_leases _ HI).
  pose proof (gi_exclusion _ HI) as He. unfold exclusion in He.
  pose proof (leases_of_le _ _ _ ka HI Hi). pose proof (leases_of_held ka th).
  pose proof (is_lease_le ka _ _ _ Ha) as Hl. rewrite is_lease_lease, bool_decide_true in Hl by done.
  pose proof (lease_counter_nonneg _ LeaseKind.WRITE HI). pose proof (lease_counter_nonneg _ LeaseKind.EXCLUSIVE HI).
  destruct ka; cbn in *; [done|lia|lia].
Qed.

Section interleavings.
Context {ok : Command → Prop} {r : BufferRecord} {n : nat}.


(** C7: under every interleaving a write or exclusive lease is the only lease there is. *)
Theorem writers_exclude S i j ti tj a b ka kb :
  conc_reachable ok r n S →
  S.2 !! i = Some ti → held ti !! a = Some (HLease ka) →
  S.2 !! j = Some tj → held tj !! b = Some (HLease kb) →
  ka ≠ LeaseKind.READ → i = j ∧ a = b.
Proof.
  intros H Hi Ha Hj Hb Hk. pose proof (guarded_reachable _ _ _ _ H) as HI.
  pose proof (all_leases_one S i a ti ka HI Hi Ha Hk) as H1.
  destruct (decide (i = j)) as [<-|Hij].
  - split; [done|]. destruct (decide (a = b)) as [|Hab]; [done|exfalso]. simplify_eq.
    pose proof (sum_list_two any_lease _ _ _ _ _ any_lease_nonneg Hab Ha Hb).
    pose proof (any_leases_held ti). pose proof (sum_list_elem any_leases _ _ _ any_leases_nonneg Hi).
    rewrite !any_lease_lease in *. lia.
  - exfalso. pose proof (sum_list_two any_leases _ _ _ _ _ any_leases_nonneg Hij Hi Hj).
    pose proof (any_leases_held ti). pose proof (any_leases_held tj).
    pose proof (sum_list_elem any_lease _ _ _ any_lease_nonneg Ha).
    pose proof (sum_list_elem any_lease _ _ _ any_lease_nonneg Hb).
    rewrite !any_lease_lease in *. lia.
Qed.
End interleavings.

Section stable_commands.
Context {r : BufferRecord} {n : nat}.

Lemma not_finalized S : guarded_inv S → finalized (sh_ctl S.1) = false →
  sh_disposals S.1 = 0%nat ∧ sh_registered S.1 = true.
Proof.
  intros HI Hf. pose proof (gi_disposals _ HI) as Hd. pose proof (gi_erased _ HI) as He.
  pose proof (sum_list_nonneg (at_pc disposing) S.2 ltac:(intros; apply at_pc_nonneg)).
  pose proof (sum_list_nonneg (at_pc erasing) S.2 ltac:(intros; apply at_pc_nonneg)).
  rewrite Hf in Hd, He. cbn in Hd, He. destruct (sh_registered S.1); cbn in *; split; try done; lia.
Qed.

(** While a thread owns an object the buffer is not finalized. *)
Lemma held_live S i th :
  guarded_inv S → stable_inv S → S.2 !! i = Some th → held th ≠ [] → finalized (sh_ctl S.1) = false.
Proof.
  intros HG HI Hi Hh. pose proof (refs_held_le _ _ _ HI Hi) as Hr. pose proof (si_phase _ HI) as Hp. unfold phase in Hp.
  assert (0 < refs_held th) by (unfold refs_held; destruct (held th); cbn; [done|lia]).
  pose proof (sum_list_nonneg (at_pc creating) S.2 ltac:(intros; apply at_pc_nonneg)).
  pose proof (sum_list_nonneg (at_pc arriving) S.2 ltac:(intros; apply at_pc_nonneg)).
  rewrite (proj2 (Z.ltb_lt 0 (refs (sh_ctl S.1)))) in Hp by lia.
  destruct (finalized (sh_ctl S.1)); cbn in Hp; [lia|done].
Qed.

(** C5: however the threads interleave the methods of the handle (sharing, leasing, viewing,
    mapping, copying, migrating), handing over and dropping, the count is the number of objects, and while there is one the buffer is registered,
    not finalized, and its backing is the one it was bound to last. *)
Theorem no_object_dangles S i th :
  conc_reachable stable r n S → S.2 !! i = Some th → held th ≠ [] →
  refs (sh_ctl S.1) = sum_list refs_held S.2
  ∧ finalized (sh_ctl S.1) = false ∧ sh_registered S.1 = true ∧ sh_disposals S.1 = 0%nat
  ∧ last (sh_bound S.1) = Some (rec_backing (rec (sh_ctl S.1))).
Proof.
  intros H Hi Hh. destruct (stable_reachable _ _ _ H) as [HG HI].
  pose proof (held_live _ _ _ HG HI Hi Hh) as Hf.
  destruct (not_finalized _ HG Hf) as [Hd Hreg].
  pose proof (backing_reachable _ _ _ _ H) as Hb. unfold backing_intact in Hb. rewrite decide_True in Hb by done.
  split; [apply (si_refs _ HI)|]. split_and!; try done. by rewrite Hb, app_assoc, last_snoc.
Qed.

Lemma quiet_sum (f : Thread → Z) (S : System) :
  (∀ i th, S.2 !! i = Some th → f th = 0) → sum_list f S.2 = 0.
Proof.
  destruct S as [sh ths]. cbn. induction ths as [|th ths IH]; intros Hf; [done|].
  unfold sum_list in *. cbn. rewrite (Hf 0%nat th), IH; [done| |done]. intros i. apply (Hf (S i)).
Qed.

(** When every operation has returned and nobody owns anything, the buffer is
    disposed of, exactly once, off the registry, and the mutex is free. *)
Theorem last_drop_disposes S :
  conc_reachable stable r n S → quiet S → (∀ i th, S.2 !! i = Some th → held th = []) →
  sh_disposals S.1 = 1%nat ∧ finalized (sh_ctl S.1) = true ∧ sh_registered S.1 = false
  ∧ refs (sh_ctl S.1) = 0 ∧ sh_mtx S.1 = None.
Proof.
  intros H Hq Hh. destruct (stable_reachable _ _ _ H) as [HG HI].
  assert (∀ f, f Ready = false → sum_list (at_pc f) S.2 = 0) as Hz.
  { intros f Hf. apply quiet_sum. intros i th Hi. unfold at_pc. by rewrite (Hq _ _ Hi), Hf. }
  assert (refs (sh_ctl S.1) = 0) as Hr.
  { rewrite (si_refs _ HI). apply quiet_sum. intros i th Hi. unfold refs_held. by rewrite (Hh _ _ Hi). }
  pose proof (si_phase _ HI) as Hp. unfold phase in Hp. rewrite !Hz, Hr in Hp by done.
  pose proof (gi_disposals _ HG) as Hd. pose proof (gi_erased _ HG) as He. rewrite !Hz in Hd, He by done.
  destruct (finalized (sh_ctl S.1)); cbn in *; [|lia].
  repeat split; try done; [lia|by destruct (sh_registered S.1)|].
  destruct (sh_mtx S.1) as [i|] eqn:Hm; [|done]. destruct (gi_owner _ HG i Hm) as [th Hi].
  apply (gi_mutex _ HG i th Hi) in Hm. by rewrite (Hq _ _ Hi) in Hm.
Qed.

Lemma run_to_quiet S :
  conc_reachable returning r n S → ∃ S', rtc busy_step S S' ∧ quiet S'.
Proof.
  remember (Z.to_nat (work S)) as w eqn:Hw. revert S Hw.
  induction (lt_wf w) as [w _ IH]. intros S -> H. destruct (returning_reachable _ _ _ H) as [HG HI].
  destruct (busy_or_quiet S HG HI) as [Hq|[S' Hst]]; [by exists S|].
  pose proof (busy_step_work _ _ Hst).
  pose proof (sum_list_nonneg rank S'.2 ltac:(intros; apply rank_nonneg)).
  destruct (IH (Z.to_nat (work S')) ltac:(unfold work in *; lia) S' eq_refl) as (S'' & Hs & Hq).
  - eapply rtc_r; [exact H|by apply busy_step_conc].
  - exists S''. split; [by eapply rtc_l|done].
Qed.
Lemma busy_steps_bounded k S S' : nsteps busy_step k S S' → Z.of_nat k ≤ work S.
Proof.
  induction 1 as [S|k S1 S2 S3 Hst _ IH].
  - apply sum_list_nonneg. intros. apply rank_nonneg.
  - pose proof (busy_step_work _ _ Hst). lia.
Qed.

(** C9: no deadlock and no divergence, but for [Runtime::invalidate]: whatever the threads
    do with the other operations (allocation, the methods of the handle, handing over,
    dropping, import of a local descriptor, shutdown), every operation that has been
    started returns.  From every reachable state the threads can run until all are
    [Ready]; until then, whatever the schedule, some thread can move; and no schedule can
    keep them busy for more than ten accesses per thread.  [Runtime::invalidate] has to be
    excluded: it takes the mutex of the block and calls [finalize], which takes it again
    (src/runtime.cpp, [finalize_by_id]). *)
Theorem operations_complete S :
  conc_reachable returning r n S →
  (∃ S', rtc busy_step S S' ∧ quiet S')
  ∧ (∀ S', rtc busy_step S S' → quiet S' ∨ ∃ S'', busy_step S' S'')
  ∧ (∀ k S', nsteps busy_step k S S' → Z.of_nat k ≤ 10 * Z.of_nat (length S.2)).
Proof.
  intros H. split; [by apply run_to_quiet|]. split.
  - intros S' Hs. assert (conc_reachable returning r n S') as H'.
    { unfold conc_reachable in *. etrans; [exact H|]. eapply rtc_subrel; [|done]. intros ??. apply busy_step_conc. }
    destruct (returning_reachable _ _ _ H'). by apply busy_or_quiet.
  - intros k S' Hk%busy_steps_bounded. etransitivity; [done|]. unfold work.
    induction S.2 as [|th ths IH]; [done|].
    change (rank th + sum_list rank ths ≤ 10 * Z.of_nat (length (th :: ths))). cbn [length].
    assert (rank th ≤ 10) by (unfold rank; destruct (pc th); lia). lia.
Qed.
End stable_commands.

(** ** What the stable commands leave out *)

(** Thread 0 retains its new handle, then drops it, alone. *)
Definition keep : list (nat * Command) := moves 2 0 (CDrop 0).
Definition drop_last : list (nat * Command) := moves 7 0 (CDrop 0).
Definition is_import (c : Command) : Prop := (∃ g, c = CImport g) ∨ stable c.
Definition is_sweep (c : Command) : Prop := c = CSweep ∨ stable c.
Definition is_invalidate (c : Command) : Prop := c = CInvalidate ∨ stable c.

Ltac allowed :=
  unfold keep, drop_last, moves; cbn [replicate app];
  repeat (apply Forall_cons; split; [first [by left|by right|by left; eexists]|]); by apply Forall_nil.
Ltac two_quiet := intros [|[|?]] ?; cbn; naive_solver.

(** [import_descriptor] finds the block and [Runtime::import] retains it in two steps:
    the last reference can go in between, and the importer owns a handle to a block
    that has been finalized and whose memory is gone. *)
Theorem import_races_with_last_drop r :
  ∃ S th, conc_reachable is_import r 1 S ∧ quiet S ∧ S.2 !! 1%nat = Some th ∧ held th = [HHandle (rec_generation r)]
    ∧ sh_disposals S.1 = 1%nat ∧ sh_registered S.1 = false
    ∧ rec_backing (rec (sh_ctl S.1)) = NativeAllocation_default.
Proof.
  eexists _, _. split.
  - apply (run_reachable _ (keep ++ moves 2 1 (CImport (rec_generation r)) ++ drop_last
                            ++ moves 2 1 (CImport (rec_generation r)))); [allowed|].
    cbn. rewrite (Z.eqb_refl (rec_generation r)). reflexivity.
  - split; [two_quiet|done].
Qed.

(** [Runtime::allocate] registers the block, with no reference, before it retains it: a
    [shutdown] in between finalizes it, and the allocation succeeds with a handle to a
    released buffer. *)
Theorem shutdown_races_with_allocate r :
  ∃ S th, conc_reachable is_sweep r 1 S ∧ quiet S ∧ S.2 !! 0%nat = Some th ∧ held th = [HHandle (rec_generation r)]
    ∧ sh_disposals S.1 = 1%nat ∧ sh_registered S.1 = false
    ∧ rec_backing (rec (sh_ctl S.1)) = NativeAllocation_default.
Proof.
  eexists _, _. split.
  - by apply (run_reachable _ (moves 8 1 CSweep ++ keep)); [allowed|].
  - split; [two_quiet|done].
Qed.

(** A thread that waits for the mutex it holds itself. *)
Definition stuck (i : nat) (S : System) : Prop :=
  (∃ hs, S.2 !! i = Some (mkThread FinRelock hs)) ∧ sh_mtx S.1 = Some i ∧ sh_disposals S.1 = 0%nat.
Lemma stuck_step ok i S S' : conc_step ok S S' → guarded_inv S → stuck i S → stuck i S'.
Proof.
  intros Hst HG ([hs Hs] & Hm & Hd).
  destruct Hst as [j c sh sh' ths th th' Hj _ Hst|j k sh ths hj hk m x Hjk Hj Hk Hx]; cbn in *.
  - destruct (decide (j = i)) as [->|Hij].
    { simplify_eq. unfold thread_step, finalize_step, lock in Hst. cbn in Hst. by rewrite Hm in Hst. }
    destruct (thread_step_mutex _ _ _ _ _ _ Hst (gi_mutex _ HG j th Hj)) as [_ Hm'].
    split; [exists hs; cbn; by rewrite list_lookup_insert_ne|]. split; [by apply Hm'|]. cbn.
    destruct (rebinding (pc th)) eqn:Hp.
    + assert (sh_mtx sh = Some j) as Hmj by (apply (gi_mutex _ HG j th Hj); by destruct (pc th)). congruence.
    + destruct (thread_step_backing _ _ _ _ _ _ Hst Hp) as [Hd' _]. congruence.
  - assert (j ≠ i ∧ k ≠ i) as [??] by (split; intros ->; congruence).
    split; [exists hs; cbn; by rewrite !list_lookup_insert_ne|done].
Qed.

(** [Runtime::invalidate] takes the mutex, finds no reference and calls [finalize],
    which takes it again.  The window between registration and retention makes the case
    reachable: afterwards, whatever the threads do, the mutex is never free and the
    buffer is never disposed of. *)
Theorem invalidate_deadlocks r :
  ∃ S, conc_reachable is_invalidate r 1 S
    ∧ ∀ S', rtc (conc_step (λ _, True)) S S' → sh_mtx S'.1 = Some 1%nat ∧ sh_disposals S'.1 = 0%nat.
Proof.
  eexists. split.
  - by apply (run_reachable _ (moves 6 1 CInvalidate)); [allowed|].
  - intros S'. set (S0 := (_, _)). intros Hs. assert (conc_reachable is_invalidate r 1 S0) as H0
      by by apply (run_reachable _ (moves 6 1 CInvalidate)); [allowed|].
    assert (stuck 1 S0) as H1 by (split; [by eexists|done]).
    assert (guarded_inv S' ∧ stuck 1 S') as [_ (_ & ? & ?)]; [|done].
    apply (rtc_preserves _ (λ S, guarded_inv S ∧ stuck 1 S) _ _) in Hs; [done| |].
    + intros ?? Hst [??]. eauto using guarded_inv_step, stuck_step.
    + eauto using guarded_reachable.
Qed.

(** ** One thread alone does what the sequential operations do *)

(** The shared block is control block [c] of an abstract runtime. *)
Definition shows (A : Abs) (c : nat) (sh : Shared) : Prop :=
  actls A !! c = Some (abs_ctl (sh_ctl sh))
  ∧ sh_registered sh = bool_decide (areg A !! rec_id (rec (sh_ctl sh)) = Some c).

Lemma run_app s1 s2 S : run (s1 ++ s2) S = run s1 S ≫= run s2.
Proof.
  revert S. induction s1 as [|[i c] s1 IH]; intros S; cbn; [done|].
  destruct (S.2 !! i); [|done]. by destruct (thread_step _ _ _ _) as [[??]|].
Qed.
Lemma moves_add k1 k2 i c : moves (k1 + k2) i c = moves k1 i c ++ moves k2 i c.
Proof. unfold moves. apply replicate_add. Qed.

(** From the decrement on. *)
Lemma drop_sub_alone A c sh hs n cmd :
  shows A c sh → sh_mtx sh = None →
  ∃ k sh', run (moves k 0 cmd) (sh, [mkThread (DropSub n) hs])
           = Some (sh', [mkThread Ready (delete n hs)]) ∧ sh_mtx sh' = None ∧ shows (a_drop c A) c sh'.
Proof.
  intros [Hc Hreg] Hm. destruct sh as [k mtx reg dis]; cbn in Hc, Hreg, Hm; subst mtx.
  unfold a_drop. rewrite Hc. cbn [a_refs abs_ctl].
  assert (actls (a_upd c (a_set_refs (λ n, n - 1)) A) !! c = Some (abs_ctl (set_refs (refs k + -1) k))) as Hc'
    by (cbn; by rewrite lookup_alter_eq, Hc).
  destruct (refs k =? 1) eqn:Hr.
  - unfold a_finalize. rewrite Hc'. cbn [abs_ctl a_final a_id]. destruct (finalized (set_refs (refs k + -1) k)) eqn:Hf.
    + exists 4%nat. eexists. split; [cbn in *; rewrite Hr; cbn; rewrite Hf; reflexivity|done].
    + exists 6%nat. eexists. split; [|split]; [cbn in *; rewrite Hr; cbn; rewrite Hf; reflexivity|done|].
      split; cbn.
      * cbn in Hc'. by rewrite lookup_alter_eq, Hc'.
      * by rewrite lookup_delete_eq.
  - exists 1%nat. eexists. split; [cbn; rewrite Hr; reflexivity|]. split; [done|]. by split.
Qed.

Lemma abs_settle_lease k : abs_ctl (settle_lease_state k) = abs_ctl k.
Proof. unfold settle_lease_state. by case_match. Qed.
Lemma rec_id_settle_lease k : rec_id (rec (settle_lease_state k)) = rec_id (rec k).
Proof. unfold settle_lease_state. by case_match. Qed.
Lemma delete_insert {A} (l : list A) n x : delete n (<[n := x]> l) = delete n l.
Proof. revert n. induction l as [|y l IH]; intros [|n]; cbn; [done..|]. by rewrite IH. Qed.
(** The guarded region of a release, and the decrement after it. *)
Lemma release_alone A c sh hs n x k1 :
  hs !! n = Some x → (match x with HLease _ | HMap => True | _ => False end) → sh_mtx sh = None →
  release_step 0 (set_sh_mtx (Some 0%nat) sh) hs (RelDec n)
  = Some (set_sh_mtx (Some 0%nat) (set_sh_ctl (λ _, k1) sh), mkThread (RelUnlock n) (<[n := HView]> hs)) →
  shows A c (set_sh_ctl (λ _, k1) sh) →
  ∃ k sh', run (moves k 0 (CDrop n)) (sh, [mkThread Ready hs])
           = Some (sh', [mkThread Ready (delete n hs)]) ∧ sh_mtx sh' = None ∧ shows (a_drop c A) c sh'.
Proof.
  intros Hn Hx Hm Hdec Hs. destruct sh as [k mtx reg dis bd lf]; cbn in Hm; subst mtx.
  destruct (drop_sub_alone A c (mkShared k1 None reg dis bd lf) (<[n := HView]> hs) n (CDrop n) Hs eq_refl)
    as (j & sh' & Hrun & Hs').
  exists (4 + j)%nat, sh'. split; [|done]. rewrite moves_add, run_app.
  replace (run (moves 4 0 (CDrop n)) _)
    with (Some (mkShared k1 None reg dis bd lf, [mkThread (DropSub n) (<[n := HView]> hs)])).
  - cbn. rewrite Hrun. by rewrite delete_insert.
  - cbn [moves replicate run snd lookup list_lookup thread_step pc held start fmap option_fmap option_map].
    rewrite Hn. destruct x; try done; cbn in *; by rewrite Hdec.
Qed.
Lemma unlease_alone kd A c sh hs n :
  shows A c sh → sh_mtx sh = None → hs !! n = Some (HLease kd) →
  ∃ k sh', run (moves k 0 (CDrop n)) (sh, [mkThread Ready hs])
           = Some (sh', [mkThread Ready (delete n hs)]) ∧ sh_mtx sh' = None ∧ shows (a_unlease kd c A) c sh'.
Proof.
  intros [Hc Hreg] Hm Hn.
  apply (release_alone _ c sh hs n (HLease kd) (settle_lease_state (remove_lease kd (sh_ctl sh)))); try done.
  - cbn. by rewrite Hn.
  - split; cbn.
    + rewrite lookup_alter_eq, Hc. cbn. f_equal. by rewrite abs_settle_lease, abs_remove_lease.
    + by rewrite rec_id_settle_lease, rec_remove_lease.
Qed.
Lemma rec_id_unmapped r : rec_id (unmapped r) = rec_id r.
Proof. unfold unmapped. by repeat case_match. Qed.
Lemma unmap_alone A c sh hs n :
  shows A c sh → sh_mtx sh = None → hs !! n = Some HMap →
  ∃ k sh', run (moves k 0 (CDrop n)) (sh, [mkThread Ready hs])
           = Some (sh', [mkThread Ready (delete n hs)]) ∧ sh_mtx sh' = None ∧ shows (a_drop c A) c sh'.
Proof.
  intros [Hc Hreg] Hm Hn. apply (release_alone _ c sh hs n HMap (set_rec unmapped (sh_ctl sh))); try done.
  - cbn. by rewrite Hn.
  - split; cbn; [|by rewrite rec_id_unmapped]. rewrite Hc. unfold abs_ctl. cbn. by rewrite rec_id_unmapped.
Qed.
Lemma map_release_spec `{Platform} s m c :
  map_ctl m = Some c → is_Some (controls s !! c) → abs (map_release m s).2 = a_drop c (abs s).
Proof.
  intros Hc Hsome. unfold map_release. rewrite Hc, 3!bind_run. cbn [get fst snd].
  match goal with |- context [upd_ctl c ?f ?x] =>
    lazymatch x with context [upd_ctl] => set (s2 := (upd_ctl c f x).2) end end.
  assert (same_spec s s2) as H2.
  { etransitivity; eapply only_same_spec, only_upd_ctl; intros k; cbv beta;
      destruct (_ : bool); by constructor. }
  rewrite !bind_run. cbn [ret fst snd].
  match goal with |- context [drop_ref c ?x] => set (s3 := x) end.
  assert (abs s3 = abs s) as Habs.
  { apply sspec_abs. etransitivity; [exact H2|]. etransitivity; [|apply preserves_quiet_spec, quiet_tick].
    apply preserves_quiet_spec. preserves_tac. }
  destruct (drop_ref_spec c s3) as [Ha _]; [|by rewrite Ha, Habs].
  pose proof (abs_lookup s3 c) as H3. rewrite Habs, abs_lookup in H3.
  destruct Hsome as [k Hk]. rewrite Hk in H3. by destruct (controls s3 !! c).
Qed.

(** [BufferHandle::release], [BufferLease::release], [BufferMap::release], [BufferView::release]
    and the destructors that call them. *)
Definition release_of `{Platform} (x : Obj) (c : nat) : M RuntimeImpl unit :=
  match x with
  | HHandle _ | HView => drop_ref c
  | HLease kd => lease_release (mkBufferLease (Some c) 0 kd) ;;; ret tt
  | HMap => map_release (mkBufferMap (Some c) 0 AccessMode.READ 0) ;;; ret tt
  end.

(** The threaded release, run without interruption, is the sequential one: the counters,
    the flag, and whether the registry lists the block come out the same. *)
Theorem uninterrupted_release_agrees `{Platform} s c sh hs n x :
  shows (abs s) c sh → sh_mtx sh = None → hs !! n = Some x →
  ∃ k sh', run (moves k 0 (CDrop n)) (sh, [mkThread Ready hs])
           = Some (sh', [mkThread Ready (delete n hs)])
    ∧ sh_mtx sh' = None ∧ shows (abs (release_of x c s).2) c sh'.
Proof.
  intros Hs Hm Hn. assert (is_Some (controls s !! c)) as Hc.
  { destruct Hs as [Hc _]. rewrite abs_lookup in Hc. by destruct (controls s !! c). }
  assert (bare x → ∃ k sh', run (moves k 0 (CDrop n)) (sh, [mkThread Ready hs])
    = Some (sh', [mkThread Ready (delete n hs)]) ∧ sh_mtx sh' = None ∧ shows (abs (drop_ref c s).2) c sh') as Hbare.
  { intros Hx. destruct (drop_ref_spec c s Hc) as [Ha _]. rewrite Ha.
    destruct (drop_sub_alone (abs s) c sh hs n (CDrop n) Hs Hm) as (k & sh' & Hrun & ? & ?).
    exists (S k), sh'. split; [|done]. unfold moves. cbn. rewrite Hn. destruct Hx as [-> | [g ->]]; done. }
  destruct x as [g|kd| |]; cbn [release_of].
  - apply Hbare. right. by eexists.
  - destruct (lease_release_spec s (mkBufferLease (Some c) 0 kd) c eq_refl Hc) as [Ha _].
    rewrite bind_run. cbn [ret snd]. rewrite Ha. by apply unlease_alone.
  - rewrite bind_run. cbn [ret snd]. rewrite (map_release_spec s _ c) by done. by apply unmap_alone.
  - apply Hbare. by left.
Qed.

(** * Witnesses *)

Definition demo_record : BufferRecord := set_rec_state BufferState.ALLOCATED BufferRecord_default.
(** Thread 0 retains the new handle and takes a write lease. *)
Definition demo_writer : list (nat * Command) := keep ++ moves 7 0 (CCall 0 (MAcquire LeaseKind.WRITE)).
(** Thread 0 drops its only handle. *)
Definition demo_drop : list (nat * Command) := keep ++ drop_last.
Definition demo_state (sched : list (nat * Command)) : System :=
  default (conc_start demo_record 1) (run sched (conc_start demo_record 1)).
Lemma demo_reachable sched :
  Forall (λ ic, stable ic.2) sched → bool_decide (is_Some (run sched (conc_start demo_record 1))) = true →
  conc_reachable stable demo_record 1 (demo_state sched).
Proof.
  intros Hok HS. unfold demo_state. pose proof (run_reachable stable sched (conc_start demo_record 1)) as Hrun.
  destruct (run sched (conc_start demo_record 1)) as [S|]; [by apply Hrun|done].
Qed.

Lemma writers_exclude_witness :
  ∃ th, (demo_state demo_writer).2 !! 0%nat = Some th
    ∧ ∀ b kb, held th !! b = Some (HLease kb) → b = 1%nat.
Proof.
  eexists. split; [reflexivity|]. intros b kb Hb. symmetry.
  refine (proj2 (writers_exclude (demo_state demo_writer) 0 0 _ _ 1 b LeaseKind.WRITE kb
                  (ok := stable) (r := demo_record) (n := 1) _ eq_refl eq_refl eq_refl Hb _));
    [apply demo_reachable; [repeat constructor|by vm_compute]|discriminate].
Defined.
Lemma no_object_dangles_witness :
  refs (sh_ctl (demo_state demo_writer).1) = sum_list refs_held (demo_state demo_writer).2
  ∧ sh_registered (demo_state demo_writer).1 = true.
Proof.
  destruct (no_object_dangles (r := demo_record) (n := 1) (demo_state demo_writer) 0
              (mkThread Ready [HHandle 0; HLease LeaseKind.WRITE])) as (? & _ & ? & _); [|done..].
  apply demo_reachable; [repeat constructor|by vm_compute].
Defined.
Lemma last_drop_disposes_witness :
  sh_disposals (demo_state demo_drop).1 = 1%nat ∧ sh_registered (demo_state demo_drop).1 = false.
Proof.
  destruct (last_drop_disposes (r := demo_record) (n := 1) (demo_state demo_drop)) as (? & _ & ? & _);
    [|two_quiet|two_quiet|done].
  apply demo_reachable; [repeat constructor|by vm_compute].
Defined.
(** In the middle of taking a lease, with the mutex held, while a shutdown and an import
    are under way. *)
Definition demo_busy : list (nat * Command) :=
  keep ++ moves 2 1 (CImport 0) ++ moves 2 2 CSweep ++ moves 5 0 (CCall 0 (MAcquire LeaseKind.WRITE)).
Definition demo_busy_state : System := default (conc_start demo_record 2) (run demo_busy (conc_start demo_record 2)).
Lemma demo_busy_reachable : conc_reachable returning demo_record 2 demo_busy_state.
Proof.
  unfold demo_busy_state. pose proof (run_reachable returning demo_busy (conc_start demo_record 2)) as Hrun.
  assert (bool_decide (is_Some (run demo_busy (conc_start demo_record 2))) = true) as HS by by vm_compute.
  destruct (run demo_busy (conc_start demo_record 2)) as [S|]; [apply Hrun; [by repeat constructor|done]|done].
Qed.
Lemma demo_busy_held : sh_mtx demo_busy_state.1 = Some 0%nat.
Proof. by vm_compute. Qed.
Lemma operations_complete_witness : ∃ S', rtc busy_step demo_busy_state S' ∧ quiet S'.
Proof. apply (operations_complete (r := demo_record) (n := 2)). exact demo_busy_reachable. Defined.
Definition demo_shared : Shared := mkShared (ctl_at sim_client.1 0) None true 0 [] [].
Lemma uninterrupted_release_agrees_witness :
  ∃ k sh', run (moves k 0 (CDrop 0)) (demo_shared, [mkThread Ready [HHandle 1]])
           = Some (sh', [mkThread Ready []])
    ∧ shows (abs (drop_ref 0 sim_client.1).2) 0 sh'.
Proof.
  destruct (uninterrupted_release_agrees sim_client.1 0 demo_shared [HHandle 1] 0 (HHandle 1)) as (k & sh' & Hr & _ & Hs);
    [split; [rewrite abs_lookup; by vm_compute|by vm_compute]|done|done|].
  exists k, sh'. split; [exact Hr|exact Hs].
Defined.
