(* ===== verification/Moving.v ===== *)
(** Maps, migrations and copies among the threads of Concurrency.v: the map count is the
    number of maps; a copy under a write or exclusive lease has the backing to itself; a
    copy without one can be overtaken by a migration that gives its backing back. *)
From S2P Require Import Prelude Types CheckedMath Platform State Ledger Pool Lifecycle Runtime Handle.
From S2P Require Import Concurrency Interleavings.

(** ** What the guarded regions have in common with the sequential operations *)

Lemma migrated_rebound `{Platform} r tdom t tdev nb :
  migrated_record r tdom t tdev nb = rebound t (mkBinding (IDomain.backend tdom) tdev nb) r.
Proof. reflexivity. Qed.

(** ** The map count *)

Definition is_map (x : Obj) : Z := b2z (bool_decide (x = HMap)).
(** The maps a thread owns or has just counted. *)
Definition maps_of (th : Thread) : Z :=
  sum_list is_map (held th) + match pc th with MapUnlock | MapAdd => 1 | _ => 0 end.
Definition map_counter (sh : Shared) : Z := rec_map_count (rec (sh_ctl sh)).
Definition maps_inv (S : System) : Prop :=
  map_counter S.1 = sum_list maps_of S.2
  ∧ (rec_state (rec (sh_ctl S.1)) = BufferState.MAPPED → 0 < map_counter S.1).

Lemma is_map_nonneg x : 0 ≤ is_map x.
Proof. unfold is_map. destruct (bool_decide _); cbn; lia. Qed.
Lemma maps_of_nonneg th : 0 ≤ maps_of th.
Proof.
  unfold maps_of. pose proof (sum_list_nonneg is_map (held th) ltac:(intros; apply is_map_nonneg)).
  destruct (pc th); lia.
Qed.
Lemma bare_no_map x : bare x → is_map x = 0.
Proof. by intros [->|[g ->]]. Qed.

Lemma is_map_lease kd : is_map (HLease kd) = 0.
Proof. done. Qed.
Lemma is_map_handle g : is_map (HHandle g) = 0.
Proof. done. Qed.
Lemma is_map_view : is_map HView = 0.
Proof. done. Qed.
Lemma is_map_map : is_map HMap = 1.
Proof. done. Qed.
Lemma map_count_give_lease kd k :
  rec_map_count (rec (settle_lease_state (remove_lease kd k))) = rec_map_count (rec k).
Proof. unfold settle_lease_state. case_match; cbn; by rewrite rec_remove_lease. Qed.
Lemma map_count_mapped r : rec_map_count (mapped r) = rec_map_count r + 1.
Proof. unfold mapped. by case_match. Qed.
Lemma map_count_unmapped r : 0 < rec_map_count r → rec_map_count (unmapped r) = rec_map_count r - 1.
Proof. intros Hr. unfold unmapped. rewrite (proj2 (Z.ltb_lt _ _) Hr). by case_match. Qed.

Lemma map_count_add_lease kd k : rec_map_count (rec (add_lease kd k)) = rec_map_count (rec k).
Proof. by destruct kd. Qed.
Create Rewrite HintDb maps.
#[local] Hint Rewrite @sum_list_snoc is_map_lease is_map_handle is_map_view is_map_map
  map_count_give_lease map_count_add_lease map_count_mapped : maps.

Lemma thread_step_maps i c sh sh' th th' :
  thread_step i c sh th = Some (sh', th') → pc_holds (pc th) (held th) → maps_of th ≤ map_counter sh →
  map_counter sh' - maps_of th' = map_counter sh - maps_of th.
Proof.
  intros Hst Hp Hle. destruct th as [p hs]. destruct sh as [k mtx reg dis].
  destruct p; open_step Hst; unfold maps_of, map_counter in *; cbn -[sum_list is_map] in *;
    autorewrite with maps; try lia.
  - by cbn.
  - destruct Hp as [g Hg]. rewrite (sum_list_insert _ _ _ _ _ Hg), !is_map_handle. lia.
  - match goal with H : hs !! _ = _ |- _ => rewrite (sum_list_insert _ _ _ _ _ H), is_map_lease, is_map_view end. lia.
  - match goal with H : hs !! _ = _ |- _ => rename H into Hn end.
    pose proof (sum_list_elem is_map hs n _ is_map_nonneg Hn) as Hone. rewrite is_map_map in Hone.
    rewrite (sum_list_insert _ _ _ _ _ Hn), is_map_map, is_map_view, map_count_unmapped by lia. lia.
  - destruct Hp as (x & Hx & Hb). rewrite (sum_list_delete _ _ _ _ Hx), bare_no_map by done. lia.
  - destruct Hp as (x & Hx & Hb). rewrite (sum_list_delete _ _ _ _ Hx), bare_no_map by done. lia.
Qed.
(** [MAPPED] is entered with a map, and left with the last. *)
Definition mapped_counted (r : BufferRecord) : Prop :=
  rec_state r = BufferState.MAPPED → 0 < rec_map_count r.
Lemma mapped_counted_give_lease kd k :
  mapped_counted (rec k) → mapped_counted (rec (settle_lease_state (remove_lease kd k))).
Proof.
  unfold mapped_counted. rewrite map_count_give_lease. unfold settle_lease_state.
  case_match; cbn; rewrite ?rec_remove_lease; done.
Qed.
Lemma thread_step_mapped i c sh sh' th th' :
  thread_step i c sh th = Some (sh', th') → 0 ≤ map_counter sh →
  mapped_counted (rec (sh_ctl sh)) → mapped_counted (rec (sh_ctl sh')).
Proof.
  intros Hst Hn Hm. destruct th as [p hs]. destruct sh as [k mtx reg dis]. unfold map_counter in *.
  destruct p; open_step Hst; cbn in *; try done.
  - unfold mapped_counted in *. cbn. destruct k0; cbn in *; case_match eqn:E; try done; intros; by apply Hm.
  - unfold mapped_counted. rewrite map_count_mapped. lia.
  - by apply mapped_counted_give_lease.
  - unfold mapped_counted, unmapped in *. repeat case_match; bool_prop; cbn in *; try done; try (intros; lia).
    intros Hs. rewrite bool_decide_eq_true_2, andb_true_r in H by done. bool_prop. lia.
Qed.

Lemma maps_inv_step ok S S' : conc_step ok S S' → guarded_inv S → maps_inv S → maps_inv S'.
Proof.
  intros Hst HG [Hc Hm]. destruct Hst as [i c sh sh' ths th th' Hi _ Hst|i j sh ths hi hj n x Hij Hi Hj Hn]; cbn [fst snd] in *.
  - pose proof (sum_list_elem maps_of ths i th maps_of_nonneg Hi) as Hle. pose proof (maps_of_nonneg th).
    split; cbn [fst snd].
    + rewrite (sum_list_insert _ _ _ _ _ Hi).
      pose proof (thread_step_maps _ _ _ _ _ _ Hst (gi_pc _ HG i th Hi) ltac:(lia)). lia.
    + apply (thread_step_mapped _ _ _ _ _ _ Hst); [lia|exact Hm].
  - split; [|exact Hm]. cbn [fst snd]. rewrite give_sum; [exact Hc|done..|].
    unfold maps_of; cbn [held pc]. rewrite sum_list_snoc, (sum_list_delete _ _ _ _ Hn). lia.
Qed.

(** ** Copies under a lease *)

Definition writer (th : Thread) : Prop := ∃ kd, kd ≠ LeaseKind.READ ∧ HLease kd ∈ held th.
Definition copies_own (S : System) : Prop :=
  ∀ i th a, S.2 !! i = Some th → pc th = CopyGo a → writer th → a = rec_backing (rec (sh_ctl S.1)).

Lemma writer_counted S i th :
  guarded_inv S → S.2 !! i = Some th → writer th →
  0 < write_leases (sh_ctl S.1) + exclusive_leases (sh_ctl S.1).
Proof.
  intros HG Hi (kd & Hkd & [a Ha]%list_elem_of_lookup).
  pose proof (leases_of_le _ _ _ kd HG Hi). pose proof (leases_of_held kd th).
  pose proof (is_lease_le kd _ _ _ Ha) as Hl. rewrite is_lease_lease, bool_decide_true in Hl by done.
  pose proof (lease_counter_nonneg _ LeaseKind.WRITE HG). pose proof (lease_counter_nonneg _ LeaseKind.EXCLUSIVE HG).
  destruct kd; cbn in *; [done|lia|lia].
Qed.
(** No migration is between its tests and the end of its commit. *)
Lemma writer_alone S i th j tj :
  guarded_inv S → S.2 !! i = Some th → writer th → S.2 !! j = Some tj → committing (pc tj) = false.
Proof.
  intros HG Hi Hw Hj. destruct (committing (pc tj)) eqn:Hc; [|done].
  pose proof (writer_counted _ _ _ HG Hi Hw). destruct (gi_swap _ HG j tj Hj Hc) as (_ & ? & ?). lia.
Qed.
(** An access of another thread leaves the backing of an owned object alone. *)
Lemma owned_backing_kept i c sh sh' ths th th' j tj :
  guarded_inv (sh, ths) → stable_inv (sh, ths) → ths !! i = Some th → thread_step i c sh th = Some (sh', th') →
  ths !! j = Some tj → writer tj → rec_backing (rec (sh_ctl sh')) = rec_backing (rec (sh_ctl sh)).
Proof.
  intros HG HI Hi Hst Hj Hw. pose proof (writer_alone _ _ _ _ _ HG Hj Hw Hi) as Hc.
  destruct (rebinding (pc th)) eqn:Hp; [|apply (thread_step_backing _ _ _ _ _ _ Hst Hp)].
  assert (disposing (pc th) = true) as Hd by (by destruct (pc th)).
  pose proof (gi_disposals _ HG) as Hsum. pose proof (at_pc_le disposing ths i _ Hi) as Hle.
  assert (at_pc disposing th = 1) as Hone by (unfold at_pc; by rewrite Hd).
  rewrite (held_live _ j tj HG HI Hj) in Hsum; [cbn [fst snd b2z] in Hsum; lia|].
  destruct Hw as (? & _ & Hin). intros Hnil. rewrite Hnil in Hin. by apply not_elem_of_nil in Hin.
Qed.
Lemma copies_own_step S S' :
  conc_step stable S S' → guarded_inv S → stable_inv S → copies_own S → copies_own S'.
Proof.
  intros Hst HG HI Hown. destruct Hst as [i c sh sh' ths th th' Hi _ Hst|i j sh ths hi hj n x Hij Hi Hj Hn];
    intros j' tj a; cbn [fst snd].
  - intros [[-> ->]|[Hj Htj]]%insert_threads Hp Hw.
    + destruct th as [p hs]. destruct sh as [k mtx reg dis]. by destruct p; open_step Hst.
    + rewrite (owned_backing_kept _ _ _ _ _ _ _ j' tj HG HI Hi Hst Htj Hw). by apply (Hown j' tj a).
  - intros [[-> ->]|[Hk [[-> ->]|[Hk' Htk]]%insert_threads]]%insert_threads; try done. by apply (Hown j').
Qed.

(** * Properties *)

(** The map count is the number of maps. However any threads interleave any commands on
    a buffer that starts without maps, its [map_count] is the number of the maps that
    threads own or are about to receive, so that [BufferMap::release] never finds it 0;
    and the buffer is in the state [MAPPED] only while there is one. *)
Theorem maps_counted {ok : Command → Prop} {r : BufferRecord} {n : nat} (S : System) :
  rec_map_count r = 0 → rec_state r ≠ BufferState.MAPPED → conc_reachable ok r n S →
  rec_map_count (rec (sh_ctl S.1)) = sum_list maps_of S.2
  ∧ (rec_state (rec (sh_ctl S.1)) = BufferState.MAPPED → ∃ i th, S.2 !! i = Some th ∧ 0 < maps_of th).
Proof.
  intros H0 Hs H.
  assert (∀ S S', conc_step ok S S' → guarded_inv S ∧ maps_inv S → guarded_inv S' ∧ maps_inv S') as Hst
    by (intros ?? Hst [??]; eauto using guarded_inv_step, maps_inv_step).
  assert (maps_inv (conc_start r n)) as Hm0.
  { split; [rewrite conc_start_sum by done; exact H0|done]. }
  destruct (rtc_preserves _ _ _ _ Hst (conj (guarded_inv_start r n) Hm0) H) as [_ [Hc Hm]].
  split; [exact Hc|]. intros Hmap. specialize (Hm Hmap). rewrite Hc in Hm. clear -Hm.
  induction S.2 as [|th ths IH]; [cbn in Hm; lia|].
  change (0 < maps_of th + sum_list maps_of ths) in Hm.
  destruct (decide (0 < maps_of th)) as [Hth|Hth]; [by exists 0%nat, th|].
  destruct IH as (i & tj & ? & ?); [lia|]. by exists (Datatypes.S i), tj.
Qed.

(** C8: a copy under a write or exclusive lease is safe. However the threads interleave the
    methods, handing over and dropping, a thread that copies while it owns such a lease
    copies from or to the backing that the buffer has: every earlier one has been given
    up, this one has not, and no migration or disposal has begun to take it away. *)
Theorem leased_copy_safe {r : BufferRecord} {n : nat} (S : System) i th a kd :
  conc_reachable stable r n S → S.2 !! i = Some th → pc th = CopyGo a →
  HLease kd ∈ held th → kd ≠ LeaseKind.READ →
  a = rec_backing (rec (sh_ctl S.1)) ∧ sh_bound S.1 = sh_left S.1 ++ [a]
  ∧ finalized (sh_ctl S.1) = false ∧ ∀ j tj, S.2 !! j = Some tj → rebinding (pc tj) = false.
Proof.
  intros H Hi Hp Hin Hkd. assert (writer th) as Hw by by exists kd.
  assert (∀ S S', conc_step stable S S' → (guarded_inv S ∧ stable_inv S) ∧ copies_own S →
    (guarded_inv S' ∧ stable_inv S') ∧ copies_own S') as Hst.
  { intros ?? Hst [[??] ?]. split; [split|]; eauto using guarded_inv_step, stable_inv_step, copies_own_step. }
  assert (copies_own (conc_start r n)) as H0 by by intros j tj b [[-> ->]|[? ->]]%conc_start_threads.
  destruct (rtc_preserves _ _ _ _ Hst (conj (conj (guarded_inv_start r n) (stable_inv_start r n)) H0) H)
    as [[HG HI] Hown].
  assert (held th ≠ []) as Hne by (intros Hnil; rewrite Hnil in Hin; by apply not_elem_of_nil in Hin).
  pose proof (held_live _ _ _ HG HI Hi Hne) as Hf. destruct (not_finalized _ HG Hf) as [Hd _].
  pose proof (Hown i th a Hi Hp Hw) as Ha. split; [exact Ha|].
  assert (∀ j tj, S.2 !! j = Some tj → rebinding (pc tj) = false) as Hre.
  { intros j tj Hj. pose proof (writer_alone _ _ _ _ _ HG Hi Hw Hj) as Hc.
    destruct (rebinding (pc tj)) eqn:E; [|done]. pose proof (gi_disposals _ HG) as Hsum.
    pose proof (at_pc_le disposing S.2 j _ Hj) as Hle.
    assert (at_pc disposing tj = 1) by (unfold at_pc; by destruct (pc tj)). rewrite Hf in Hsum. cbn [b2z] in Hsum. lia. }
  split; [|done]. pose proof (backing_reachable _ _ _ _ H) as Hb. unfold backing_intact in Hb.
  rewrite decide_True in Hb by done. rewrite Hb, Ha. f_equal.
  unfold in_transit. destruct (sh_mtx S.1) as [j|]; [|done]. cbn. destruct (S.2 !! j) as [tj|] eqn:Hj; [|done].
  specialize (Hre j tj Hj). by destruct (pc tj).
Qed.

(** ** Copies without one *)

Definition copies (m : Method) : bool := match m with MCopyTo _ _ | MCopyFrom _ => true | _ => false end.
(** Thread 0 takes a second handle and hands it to thread 1; it takes a read lease and
    begins a copy; thread 1 migrates. *)
Definition two_handles : list (nat * Command) := keep ++ moves 4 0 (CCall 0 MShare).
Definition begin_copy (m : Method) : list (nat * Command) :=
  moves 7 0 (CCall 0 (MAcquire LeaseKind.READ)) ++ moves 6 0 (CCall 0 m).
Definition migrate_away (t : MemoryDomain) (b : Binding) : list (nat * Command) :=
  moves 7 1 (CCall 0 (MMigrate t true (Some b))).

Lemma all_stable m t b : Forall (λ ic, stable ic.2) (begin_copy m ++ migrate_away t b).
Proof. repeat constructor. Qed.
Definition shared_by_two (r : BufferRecord) : Shared :=
  mkShared (set_refs 2 (Control_new r)) None true 0 [rec_backing r] [].
Lemma two_handles_reachable r :
  rec_state r = BufferState.ALLOCATED →
  let h := HHandle (rec_generation r) in
  conc_reachable stable r 1 (shared_by_two r, [mkThread Ready [h]; mkThread Ready [h]]).
Proof.
  intros Hst h. eapply rtc_r; [|by apply (conc_give stable 0 1 (shared_by_two r)
    [mkThread Ready [h; h]; mkThread Ready []] [h; h] [] 1 h)].
  apply (run_reachable _ two_handles); [repeat constructor|]. cbn. by rewrite Z.eqb_refl, Hst.
Qed.

(** [copy_to] and [copy_from] read the backing and copy after they have left the mutex,
    and [migrate] asks for write and exclusive leases only: while one thread copies,
    under a read lease even, another can migrate the buffer and give the memory of the
    copy back. *)
Theorem copy_races_with_migrate (r : BufferRecord) (t : MemoryDomain) (b : Binding) (m : Method) :
  rec_state r = BufferState.ALLOCATED → rec_domain r ≠ t → copies m = true → in_bounds m r = true →
  (wanted m = AccessMode.WRITE → rec_access r ≠ AccessMode.READ) →
  ∃ S th, conc_reachable stable r 1 S ∧ S.2 !! 0%nat = Some th ∧ HLease LeaseKind.READ ∈ held th
    ∧ pc th = CopyGo (rec_backing r) ∧ sh_left S.1 = [rec_backing r]
    ∧ rec_backing (rec (sh_ctl S.1)) = bind_alloc b.
Proof.
  intros Hst Hd Hm Hb Ha. pose proof (two_handles_reachable r Hst) as R1. cbv zeta in R1.
  set (h := HHandle (rec_generation r)) in *. set (th0 := mkThread (CopyGo (rec_backing r)) [h; HLease LeaseKind.READ]).
  assert (bool_decide (wanted m = AccessMode.WRITE) && bool_decide (rec_access r = AccessMode.READ) = false) as Hacc
    by (destruct (bool_decide (wanted m = _)) eqn:E; [|done]; bool_prop; apply bool_decide_eq_false_2; auto).
  assert (∃ sh2 th1, run (begin_copy m ++ migrate_away t b) (shared_by_two r, [mkThread Ready [h]; mkThread Ready [h]])
    = Some (sh2, [th0; th1]) ∧ sh_left sh2 = [rec_backing r] ∧ rec_backing (rec (sh_ctl sh2)) = bind_alloc b)
    as (sh2 & th1 & R2 & ? & ?).
  { destruct m; try done; cbn in Hb, Hacc; do 2 eexists;
      (split; [cbn; rewrite Z.eqb_refl, Hst; cbn; rewrite Z.eqb_refl, Hst; cbn; rewrite ?Hacc; cbn; rewrite Hb; cbn;
      rewrite Z.eqb_refl, Hst; cbn; rewrite bool_decide_eq_false_2 by done; rewrite Hst; reflexivity|by split_and!]). }
  exists (sh2, [th0; th1]), th0. split; [|by split_and!; try done; right; left].
  unfold conc_reachable. etransitivity; [exact R1|]. by apply (run_reachable _ _ _ _ (all_stable m t b)).
Qed.

(** [export_descriptor] reads the record without the mutex and asks for the domain twice:
    a migration in between gives a descriptor of one domain with a handle of another. *)
Definition begin_export : list (nat * Command) := moves 4 0 (CCall 0 (MExport true)).
Theorem export_races_with_migrate (r : BufferRecord) (t : MemoryDomain) (b : Binding) :
  rec_state r = BufferState.ALLOCATED → exportable (rec_flags r) = true → rec_domain r ≠ t →
  ∃ S th, conc_reachable stable r 1 S ∧ S.2 !! 0%nat = Some th ∧ pc th = ExpDone (rec_domain r) t.
Proof.
  intros Hst He Hd. pose proof (two_handles_reachable r Hst) as R1. cbv zeta in R1.
  set (h := HHandle (rec_generation r)) in *. set (th0 := mkThread (ExpDone (rec_domain r) t) [h]).
  assert (∃ sh2 th1, run (begin_export ++ migrate_away t b ++ moves 1 0 (CDrop 0))
    (shared_by_two r, [mkThread Ready [h]; mkThread Ready [h]]) = Some (sh2, [th0; th1])) as (sh2 & th1 & R2).
  { do 2 eexists. cbn. rewrite Z.eqb_refl, Hst. cbn. rewrite He. cbn. rewrite Z.eqb_refl, Hst. cbn.
    rewrite bool_decide_eq_false_2, Hst by done. reflexivity. }
  exists (sh2, [th0; th1]), th0. split; [|done].
  unfold conc_reachable. etransitivity; [exact R1|]. eapply run_reachable; [|exact R2]. repeat constructor.
Qed.

(** * Witnesses *)

Definition demo_binding : Binding :=
  mkBinding BackendId.CUDA (mkDeviceId BackendId.CUDA 0) (mkNativeAllocation 4096 4096 64 64 64
    (mkDeviceId BackendId.CUDA 0) MemoryDomain.PINNED_HOST BackendId.CUDA None).
Definition demo_moved : list (nat * Command) :=
  keep ++ moves 9 0 (CCall 0 (MMap AccessMode.READ true true))
  ++ moves 10 0 (CCall 0 (MMigrate MemoryDomain.PINNED_HOST true (Some demo_binding))).
(** A map, then a migration: the map is still counted, the first backing given up. *)
Lemma demo_moved_reachable : conc_reachable stable demo_record 1 (demo_state demo_moved).
Proof. apply demo_reachable; [repeat constructor|by vm_compute]. Qed.
Lemma maps_counted_witness :
  rec_map_count (rec (sh_ctl (demo_state demo_moved).1)) = 1 ∧ length (sh_left (demo_state demo_moved).1) = 1%nat.
Proof.
  destruct (maps_counted (ok := stable) (r := demo_record) (n := 1) (demo_state demo_moved)) as [Hc _];
    [reflexivity|discriminate|exact demo_moved_reachable|].
  split; [rewrite Hc; vm_compute; reflexivity|vm_compute; reflexivity].
Defined.
(** A copy under the write lease of the thread. *)
Definition demo_copy : list (nat * Command) := demo_writer ++ moves 6 0 (CCall 0 (MCopyFrom 0)).
Lemma leased_copy_safe_witness :
  sh_bound (demo_state demo_copy).1 = [NativeAllocation_default] ∧ sh_left (demo_state demo_copy).1 = [].
Proof.
  destruct (leased_copy_safe (r := demo_record) (n := 1) (demo_state demo_copy) 0
    (mkThread (CopyGo NativeAllocation_default) [HHandle 0; HLease LeaseKind.WRITE]) NativeAllocation_default
    LeaseKind.WRITE) as (_ & Hb & _); [|reflexivity|reflexivity|right; by left|discriminate|].
  - apply demo_reachable; [repeat constructor|by vm_compute].
  - split; [reflexivity|]. by apply (app_inj_tail (sh_left _) [] NativeAllocation_default NativeAllocation_default).
Defined.
Lemma copy_races_with_migrate_witness :
  ∃ S th, conc_reachable stable demo_record 1 S ∧ S.2 !! 0%nat = Some th
    ∧ pc th = CopyGo NativeAllocation_default ∧ sh_left S.1 = [NativeAllocation_default].
Proof.
  destruct (copy_races_with_migrate demo_record MemoryDomain.PINNED_HOST demo_binding (MCopyFrom 0))
    as (S & th & ? & ? & _ & ? & ? & _); [done|done|done|done|done|]. by exists S, th.
Defined.
Definition demo_exportable : BufferRecord :=
  mkBufferRecord (rec_id demo_record) 1 0 MemoryDomain.SHARED_HOST BackendId.HOST_MALLOC DeviceId_default 64 64 64
    (mkAllocationFlags false false true 0) AccessMode.READ_WRITE false Ownership.RUNTIME BufferState.ALLOCATED
    NativeAllocation_default false false 0 0 "" 0.
Lemma export_races_with_migrate_witness :
  ∃ S th, conc_reachable stable demo_exportable 1 S ∧ S.2 !! 0%nat = Some th
    ∧ pc th = ExpDone MemoryDomain.SHARED_HOST MemoryDomain.PINNED_HOST.
Proof. by apply (export_races_with_migrate demo_exportable MemoryDomain.PINNED_HOST demo_binding). Defined.
