(* ===== verification/Shell.v ===== *)
(** The command-line tool (cli/main.cpp): a table of handles over one runtime, a line
    splitter, and one reply per command.  What [printf] writes is a list of lines; the
    reading of numbers ([strtoull]) and of words ([operator>>]) is that of the C and C++
    standard libraries.  The clock readings of [benchmark] do not change the state and
    its figure is an argument. *)
From Stdlib Require Import Ascii.
From S2P Require Import Prelude Types Platform State Ledger Pool Lifecycle Runtime Handle Facade.

(** ** Text *)

(** [isspace]. *)
Definition is_space (c : ascii) : bool :=
  match c with
  | " " | "009" | "010" | "011" | "012" | "013" => true
  | _ => false
  end%char.
(** [while (iss >> tok) out.push_back(tok)]; [cur] is the word being read. *)
Fixpoint split_from (cur s : string) : list string :=
  let flush := if String.eqb cur "" then [] else [cur] in
  match s with
  | EmptyString => flush
  | String c s' => if is_space c then flush ++ split_from "" s'
                   else split_from (cur +:+ String c "") s'
  end.
Definition split (s : string) : list string := split_from "" s.

(** [strtoull(s, nullptr, 10)]: white space, a sign, digits; [ULLONG_MAX] when they do
    not fit, 0 when there are none. *)
Definition digit (c : ascii) : option Z :=
  let n := Z.of_N (N_of_ascii c) in if (48 <=? n) && (n <=? 57) then Some (n - 48) else None.
Fixpoint digits_value (acc : Z) (s : string) : Z :=
  match s with
  | EmptyString => acc
  | String c s' => match digit c with Some d => digits_value (acc * 10 + d) s' | None => acc end
  end.
Definition to_u64 (negative : bool) (v : Z) : Z :=
  if two64 <=? v then two64 - 1 else if negative then u64 (- v) else v.
Fixpoint strtoull (s : string) : Z :=
  match s with
  | EmptyString => 0
  | String c s' =>
      if is_space c then strtoull s'
      else if Ascii.eqb c "-" then to_u64 true (digits_value 0 s')
      else if Ascii.eqb c "+" then to_u64 false (digits_value 0 s')
      else to_u64 false (digits_value 0 s)
  end.

(** [%llu], [%d] of a bool, [%x], [%-14s]. *)
Definition flag (b : bool) : string := if b then "1" else "0".
Definition hex_digit (n : Z) : ascii :=
  ascii_of_N (Z.to_N (if n <? 10 then 48 + n else 87 + n)).
Fixpoint hex_digits (fuel : nat) (n : Z) (acc : string) : string :=
  match fuel with
  | O => acc
  | S f => let acc := String (hex_digit (n mod 16)) acc in
           if n <? 16 then acc else hex_digits f (n / 16) acc
  end.
Definition hex32 (n : Z) : string := hex_digits 8 n "".
Fixpoint pad_right (width : nat) (s : string) : string :=
  match width, s with
  | O, _ => s
  | S w, EmptyString => String " " (pad_right w "")
  | S w, String c s' => String c (pad_right w s')
  end.
(** [name=value] pairs, as most lines are made of. *)
Definition kv (name : string) (n : Z) : string := name +:+ "=" +:+ pretty n.
Definition pairs (t : Telemetry) (l : list (string * Counter)) : string :=
  String.concat " " ((λ nc, kv nc.1 (t nc.2)) <$> l).
Definition quote : string := String "034" "".
Definition quoted (s : string) : string := quote +:+ s +:+ quote.
Definition json (l : list (string * string)) : string :=
  "{" +:+ String.concat "," ((λ nv, quoted nv.1 +:+ ":" +:+ nv.2) <$> l) +:+ "}".

(** ** The printers *)

Definition print_domain_info (garbage : BackendId) (d : DomainInfo) : string :=
  "  " +:+ pad_right 14 (dom_name d) +:+ " backend="
  +:+ pad_right 16 (BackendId.BackendId_to_string (default garbage (dom_backend d)))
  +:+ " enabled=" +:+ flag (dom_enabled d) +:+ " " +:+ kv "caps" (dom_capabilities d)
  +:+ " " +:+ kv "total" (dom_total_capacity d) +:+ " " +:+ kv "free" (dom_free d).

Definition print_stats (s : RuntimeStats) : list string :=
  let t := st_counter s in
  ["version=" +:+ st_version s +:+ " closed=" +:+ flag (st_closed s);
   pairs t [("active_buffers", active_buffers); ("outstanding_allocations", outstanding_allocations)];
   pairs t [("total_allocations", total_allocations); ("total_frees", total_frees);
            ("failed_allocations", failed_allocations)];
   pairs t [("bytes_requested", bytes_requested); ("bytes_committed", bytes_committed);
            ("peak_bytes", peak_bytes)];
   pairs t [("host", host_bytes); ("pinned", pinned_host_bytes); ("device", device_bytes);
            ("shared", shared_host_bytes); ("file", file_backed_bytes)];
   pairs t [("pooled", pooled_bytes); ("idle_pooled", idle_pooled_bytes); ("pool_hits", pool_hits);
            ("pool_misses", pool_misses); ("pool_evictions", pool_evictions)];
   pairs t [("map_count", map_count); ("unmap_count", unmap_count); ("export_count", export_count);
            ("import_count", import_count)];
   pairs t [("copy_operations", copy_count); ("bytes_copied", bytes_copied);
            ("migration_count", migration_count); ("zero_operations", zero_count)];
   pairs t [("integrity_checks", integrity_checks); ("integrity_failures", integrity_failures);
            ("stale_handle_rejections", stale_handle_rejections);
            ("stale_generation_rejections", stale_generation_rejections)];
   pairs t [("quota_rejections", quota_rejections); ("lease_conflicts", lease_conflicts)]].

Definition json_counters : list (string * Counter) :=
  [("active_buffers", active_buffers); ("outstanding_allocations", outstanding_allocations);
   ("total_allocations", total_allocations); ("total_frees", total_frees);
   ("failed_allocations", failed_allocations); ("bytes_requested", bytes_requested);
   ("bytes_committed", bytes_committed); ("peak_bytes", peak_bytes); ("host_bytes", host_bytes);
   ("pinned_host_bytes", pinned_host_bytes); ("device_bytes", device_bytes);
   ("shared_host_bytes", shared_host_bytes); ("file_backed_bytes", file_backed_bytes);
   ("pooled_bytes", pooled_bytes); ("idle_pooled_bytes", idle_pooled_bytes);
   ("pool_hits", pool_hits); ("pool_misses", pool_misses); ("pool_evictions", pool_evictions);
   ("map_count", map_count); ("unmap_count", unmap_count); ("export_count", export_count);
   ("import_count", import_count); ("migration_count", migration_count);
   ("copy_operations", copy_count); ("bytes_copied", bytes_copied);
   ("stale_handle_rejections", stale_handle_rejections);
   ("stale_generation_rejections", stale_generation_rejections);
   ("quota_rejections", quota_rejections); ("lease_conflicts", lease_conflicts)].
Definition print_stats_json (s : RuntimeStats) : string :=
  json (("version", quoted (st_version s)) :: ("closed", flag (st_closed s))
        :: ((λ nc, (nc.1, pretty (st_counter s nc.2))) <$> json_counters)).

(** ** The commands *)

(** [handles], keyed by the low word of the identity. *)
Abbreviation Table := (gmap Z BufferHandle).
(** What a command leaves: whether the shell goes on, the table, the lines printed. *)
Record Reply : Type := mkReply { alive : bool; table : Table; out : list string }.

(** A default request, as the tool starts from. *)
Definition default_request (d : MemoryDomain) (size : Z) (pooled : bool) : AllocationRequest :=
  mkAllocationRequest kDefaultNamespace d DeviceId_default size 0 AccessMode.READ_WRITE
    (mkAllocationFlags true pooled false 0) "" None.

Section shell.
Context {P : Platform}.
(** The value an uninitialized [DomainInfo::backend] happens to have, and the figure of
    [benchmark]. *)
Context (garbage : BackendId) (bench_figure : string).

Definition say (tbl : Table) (l : list string) : Reply := mkReply true tbl l.
(** [if (s.ok()) print...]. *)
Definition show {A} (m : M RuntimeImpl (Result A)) (f : A → list string) : M RuntimeImpl (list string) :=
  let! r := m in ret (match r with Ok a => f a | Fail _ => [] end).

(** [handles[id] = std::move(h)], and the end of the scope of the moved-from [h]. *)
Definition assign_handle (id : Z) (h : BufferHandle) (tbl : Table) : M RuntimeImpl Table :=
  let! r := handle_move_assign (default BufferHandle_empty (tbl !! id)) h in
  let! _ := handle_reset r.2 in
  ret (<[id := r.1]> tbl).

Definition alloc_domain (d : string) : MemoryDomain :=
  if String.eqb d "host" then MemoryDomain.HOST
  else if String.eqb d "pinned" then MemoryDomain.PINNED_HOST
  else if String.eqb d "device" then MemoryDomain.DEVICE
  else if String.eqb d "shared" then MemoryDomain.SHARED_HOST
  else if String.eqb d "file" then MemoryDomain.MMAP_STORAGE
  else MemoryDomain.HOST.
Definition migrate_domain (d : string) : MemoryDomain :=
  if String.eqb d "device" then MemoryDomain.DEVICE
  else if String.eqb d "host" then MemoryDomain.HOST
  else if String.eqb d "file" then MemoryDomain.MMAP_STORAGE
  else MemoryDomain.SHARED_HOST.

(** A device request goes to the first device there is. *)
Definition pick_device (req : AllocationRequest) : M RuntimeImpl AllocationRequest :=
  if bool_decide (req_domain req = MemoryDomain.DEVICE) then
    let! dv := Runtime_devices true in
    ret (match dv with
         | Ok (d :: _) =>
             mkAllocationRequest (req_ns req) (req_domain req)
               (mkDeviceId (dev_backend (req_device req)) (di_index d)) (req_size req)
               (req_alignment req) (req_access req) (req_flags req) (req_label req) (req_zeroing req)
         | _ => req
         end)
  else ret req.

Definition cmd_alloc (args : list string) (tbl : Table) : M RuntimeImpl Reply :=
  match args with
  | [] => ret (say tbl ["usage: alloc <size> [domain]"])
  | size :: more =>
      let d := match more with d :: _ => alloc_domain d | [] => MemoryDomain.HOST end in
      let pooled := negb (existsb (String.eqb "--nopool") args) in
      let! req := pick_device (default_request d (strtoull size) pooled) in
      let! r := Runtime_allocate true req in
      match r with
      | Fail e => ret (say tbl ["alloc failed: " +:+ message e])
      | Ok h =>
          let id := lo (h_id h) in
          let! tbl := assign_handle id h tbl in
          ret (say tbl ["allocated id=" +:+ pretty id +:+ " " +:+ kv "size" (req_size req) +:+ " domain="
                        +:+ MemoryDomain.MemoryDomain_to_string (req_domain req)])
      end
  end.

(** The commands on a handle of the table. *)
Definition with_entry (usage : string) (args : list string) (tbl : Table)
    (k : Z → BufferHandle → M RuntimeImpl Reply) : M RuntimeImpl Reply :=
  match args with
  | [] => ret (say tbl [usage])
  | a :: _ =>
      let id := strtoull a in
      match tbl !! id with
      | None => ret (say tbl ["no handle id=" +:+ pretty id])
      | Some h => k id h
      end
  end.
Definition cmd_free (args : list string) (tbl : Table) : M RuntimeImpl Reply :=
  with_entry "usage: free <idlo>" args tbl (λ id h,
    let! r := handle_release h in
    let! _ := handle_reset r.2 in
    ret (say (delete id tbl) ["freed id=" +:+ pretty id])).
Definition cmd_inspect (args : list string) (tbl : Table) : M RuntimeImpl Reply :=
  with_entry "usage: inspect <idlo>" args tbl (λ _ h,
    let! s := get in
    ret (say tbl [kv "id" (lo (h_id h)) +:+ " " +:+ kv "gen" (h_gen h) +:+ " domain="
                  +:+ MemoryDomain.MemoryDomain_to_string (handle_domain_of h s) +:+ " "
                  +:+ kv "size" (handle_size h s) +:+ " " +:+ kv "align" (handle_alignment h s)
                  +:+ " state=" +:+ BufferState.BufferState_to_string (handle_state h s)
                  +:+ " valid=" +:+ flag (h_valid h)])).
Definition cmd_verify (args : list string) (tbl : Table) : M RuntimeImpl Reply :=
  with_entry "usage: verify <idlo>" args tbl (λ id h,
    let! v := handle_verify h in
    ret (say tbl ["verify id=" +:+ pretty id +:+ ": "
                  +:+ (match v with Ok _ => "PASS" | Fail e => message e end)])).
Definition cmd_migrate (args : list string) (tbl : Table) : M RuntimeImpl Reply :=
  match args with
  | [] | [_] => ret (say tbl ["usage: migrate <idlo> <domain>"])
  | _ :: d :: _ =>
      with_entry "" args tbl (λ id h,
        let target := migrate_domain d in
        let! m := Runtime_migrate true h target in
        match m with
        | Fail e => ret (say tbl ["migrate failed: " +:+ message e])
        | Ok h2 =>
            let! tbl := assign_handle id h2 tbl in
            ret (say tbl ["migrated id=" +:+ pretty id +:+ " -> "
                          +:+ MemoryDomain.MemoryDomain_to_string target +:+ " "
                          +:+ kv "new_gen" (h_gen (default BufferHandle_empty (tbl !! id)))])
        end)
  end.

(** [p[i] = (unsigned char)(i * 7 + 1)] for [i < n]. *)
Definition test_pattern (p n : Z) (m : Memory) : Memory :=
  λ a, if in_range p n a then ((a - p) * 7 + 1) mod 256 else m a.
Definition selftest_size : Z := 1048576.
Definition selftest : M RuntimeImpl (list string) :=
  let! r := Runtime_allocate true (default_request MemoryDomain.HOST selftest_size false) in
  match r with
  | Fail e => ret ["selftest: allocation failed: " +:+ message e]
  | Ok h =>
      let! m := handle_map h AccessMode.READ_WRITE in
      (match m with
       | Ok bm =>
           on_machine (modify (set_mem (test_pattern (map_data bm) selftest_size))) ;;;
           let! _ := map_release bm in ret tt
       | Fail _ => ret tt
       end) ;;;
      let! c := handle_checksum h in
      let! v := handle_verify h in
      let! _ := handle_release h in
      let! s := Runtime_stats true in
      let check := match s with
                   | Ok st => (st_counter st active_buffers =? 0) && (st_counter st host_bytes =? 0)
                   | Fail _ => false
                   end in
      let '(passed, sum) := match c, v with
                            | Ok x, Ok _ => (check, x)
                            | Ok x, Fail _ => (false, x)
                            | Fail _, _ => (false, 0)
                            end in
      ret ["selftest: " +:+ (if passed : bool then "PASS" else "FAIL") +:+ " (checksum=0x" +:+ hex32 sum +:+ ")"]
  end.

(** The loop of [benchmark]; the byte it reads from each buffer is thrown away. *)
Fixpoint bench_loop (n : nat) : M RuntimeImpl unit :=
  match n with
  | O => ret tt
  | S n' =>
      let! r := Runtime_allocate true (default_request MemoryDomain.HOST 4096 false) in
      match r with
      | Fail _ => ret tt
      | Ok h => let! _ := handle_release h in bench_loop n'
      end
  end.
Definition bench_iters : Z := 200000.
Definition benchmark : M RuntimeImpl (list string) :=
  bench_loop (Z.to_nat bench_iters) ;;;
  ret ["bench,host_alloc_free_latency," +:+ bench_figure +:+ ",ns/op,(" +:+ pretty bench_iters +:+ " iters)"].

Definition help_text : string :=
  "commands: info backends devices domains stats pools alloc <size> [domain] [--nopool] free <idlo> inspect <idlo> verify <idlo> migrate <idlo> <domain> selftest benchmark stats --json quit".
Definition backend_line (b : BackendInfo) : string :=
  "  " +:+ BackendId.BackendId_to_string (bi_id b) +:+ " enabled=" +:+ flag (bi_enabled b).
Definition device_line (d : DeviceInfo) : string :=
  "  " +:+ BackendId.BackendId_to_string (di_backend d) +:+ "[" +:+ pretty (di_index d) +:+ "] name="
  +:+ di_name d +:+ " " +:+ kv "total" (di_total_memory d) +:+ " " +:+ kv "free" (di_free_memory d)
  +:+ " cc=" +:+ pretty (di_compute_major d) +:+ "." +:+ pretty (di_compute_minor d)
  +:+ " avail=" +:+ flag (di_available d).
Definition pools_line (s : RuntimeStats) : string :=
  pairs (st_counter s) [("pooled_bytes", pooled_bytes); ("idle_pooled_bytes", idle_pooled_bytes);
    ("pool_hits", pool_hits); ("pool_misses", pool_misses); ("evictions", pool_evictions)].

(** A command that only prints. *)
Definition print_only (tbl : Table) (m : M RuntimeImpl (list string)) : M RuntimeImpl Reply :=
  let! l := m in ret (say tbl l).

(** The lambda [handle_cmd]. *)
Definition handle_cmd (toks : list string) (tbl : Table) : M RuntimeImpl Reply :=
  match toks with
  | [] => ret (mkReply false tbl [])
  | cmd :: args =>
      if String.eqb cmd "help" then ret (say tbl [help_text])
      else if String.eqb cmd "info" then
        let! l := show (Runtime_stats true) (λ s, [kv "active_buffers" (st_counter s active_buffers)]) in
        ret (say tbl (("unified-buffer " +:+ version_string) :: l))
      else if String.eqb cmd "backends" then
        print_only tbl (show (Runtime_backends true) (fmap backend_line))
      else if String.eqb cmd "devices" then
        print_only tbl (show (Runtime_devices true) (fmap device_line))
      else if String.eqb cmd "domains" then
        print_only tbl (show (Runtime_domains true) (fmap (print_domain_info garbage)))
      else if String.eqb cmd "stats" then
        print_only tbl (show (Runtime_stats true) (λ s,
          match args with
          | a :: _ => if String.eqb a "--json" then [print_stats_json s] else print_stats s
          | [] => print_stats s
          end))
      else if String.eqb cmd "pools" then
        print_only tbl (show (Runtime_stats true) (λ s, [pools_line s]))
      else if String.eqb cmd "alloc" then cmd_alloc args tbl
      else if String.eqb cmd "free" then cmd_free args tbl
      else if String.eqb cmd "inspect" then cmd_inspect args tbl
      else if String.eqb cmd "verify" then cmd_verify args tbl
      else if String.eqb cmd "migrate" then cmd_migrate args tbl
      else if String.eqb cmd "selftest" then print_only tbl selftest
      else if String.eqb cmd "benchmark" then print_only tbl benchmark
      else if String.eqb cmd "quit" || String.eqb cmd "exit" then ret (mkReply false tbl [])
      else ret (say tbl ["unknown command: " +:+ cmd +:+ " (try help)"])
  end.

(** The [getline] loop; [lines] is the rest of the standard input. *)
Fixpoint interactive (lines : list string) (tbl : Table) : M RuntimeImpl (Table * list string) :=
  match lines with
  | [] => ret (tbl, [])
  | line :: rest =>
      let! r := handle_cmd (split line) tbl in
      if alive r then
        let! q := interactive rest (table r) in ret (q.1, out r ++ q.2)
      else ret (table r, out r ++ ["bye"])
  end.

Definition banner : string :=
  "unified-buffer " +:+ version_string
  +:+ " interactive shell.  Type 'help' for commands, 'quit' to exit.".
(** The body of [main] once the runtime is there; [argv] without the program name. *)
Definition main_body (argv lines : list string) : M RuntimeImpl (Table * list string) :=
  match argv with
  | [] => let! q := interactive lines ∅ in ret (q.1, banner :: q.2)
  | a :: rest =>
      if String.eqb a "--json" && match rest with b :: _ => String.eqb b "stats" | [] => false end then
        let! l := show (Runtime_stats true) (λ s, [print_stats_json s]) in ret (∅, l)
      else let! r := handle_cmd argv ∅ in ret (table r, out r)
  end.

(** The locals of [main] are destroyed in reverse: the table, then the runtime. *)
Definition destroy_table (tbl : Table) : M RuntimeImpl unit :=
  iterM (λ ih, let! _ := handle_reset ih.2 in ret tt) (map_to_list tbl).
Definition main_locals (argv lines : list string) : M RuntimeImpl (list string) :=
  let! q := main_body argv lines in
  destroy_table q.1 ;;;
  Runtime_shutdown true ;;;
  ret q.2.
Definition main (seed : Z) (argv lines : list string) (m : Machine) : list string * RuntimeImpl :=
  main_locals argv lines (RuntimeImpl_new RuntimeConfig_default seed m).1.
End shell.
