(* ===== verification/Session.v ===== *)
(** Sessions of the command-line tool (Shell.v): the table of handles is all the shell
    owns, whatever lines it reads; at the end everything is given back. *)
From Stdlib Require Import Ascii.
From S2P Require Import Prelude Types CheckedMath Platform Resources CudaBackend State Sim SimResources Domain Ledger Pool Lifecycle Runtime Handle Facade SimRuntime Frames RefSpec Refcount Clients Allocation Backing Ownership Conservation Shell.

(** ** Closed flag and identity counter *)

Section steady.
Context {P : Platform}.
Implicit Types s : RuntimeImpl.

(** No identity is drawn and the runtime stays open. *)
Record steady s s' : Prop := {
  st_open : closed_ s' = closed_ s;
  st_ids : id_counter_ s' = id_counter_ s }.
#[export] Instance steady_preorder : PreOrder steady.
Proof. split; [by constructor|]. intros s1 s2 s3 [] []. constructor; congruence. Qed.
Lemma static_steady s s' : same_static s s' → steady s s'.
Proof. intros []. by constructor. Qed.
Lemma steady_only c {A} (m : M RuntimeImpl A) : preserves (only_ctl c) m → preserves steady m.
Proof. intros Hm s. apply static_steady, (Hm s). Qed.
Lemma steady_quiet {A} (m : M RuntimeImpl A) : preserves quiet m → preserves steady m.
Proof. intros Hm s. apply static_steady, (Hm s). Qed.
Lemma steady_upd_ctl c f : preserves steady (upd_ctl c f).
Proof. intros s. by constructor. Qed.
Lemma steady_finalize c b : preserves steady (finalize c b).
Proof.
  unfold finalize, finalize_record.
  repeat first [ apply steady_upd_ctl | solve [eapply steady_only, only_dispose_backing]
               | solve [apply steady_quiet; eauto with frames] | solve [by intros s]
               | preserves_step ].
Qed.
Lemma steady_drop_ref c : preserves steady (drop_ref c).
Proof.
  unfold drop_ref. repeat first [apply steady_upd_ctl | apply steady_finalize | preserves_step].
  apply steady_quiet; eauto with frames.
Qed.
Lemma steady_release h : preserves steady (handle_release h).
Proof. unfold handle_release. repeat first [apply steady_drop_ref | preserves_step]. Qed.
Lemma steady_reset h : preserves steady (handle_reset h).
Proof. unfold handle_reset. repeat first [apply steady_drop_ref | preserves_step]. Qed.
Lemma steady_map h a : preserves steady (handle_map h a).
Proof.
  unfold handle_map, with_handle, retain.
  repeat first [apply steady_upd_ctl | solve [apply steady_quiet; eauto with frames] | preserves_step].
Qed.
Lemma steady_map_release m : preserves steady (map_release m).
Proof.
  unfold map_release.
  repeat first [ apply steady_upd_ctl | apply steady_drop_ref
               | solve [apply steady_quiet; eauto with frames] | preserves_step ].
Qed.
Lemma steady_migrate h t : preserves steady (Runtime_migrate true h t).
Proof.
  unfold Runtime_migrate, guarded, with_handle, handle_result, new_handle, retain.
  repeat first [ apply steady_upd_ctl | solve [eapply steady_only, only_migrate] | preserves_step ].
Qed.
(** An allocation draws at most one identity. *)
Lemma allocate_ids req s :
  id_counter_ s < two64 - 1 → 0 ≤ id_counter_ s →
  closed_ (Runtime_allocate true req s).2 = closed_ s
  ∧ id_counter_ s ≤ id_counter_ (Runtime_allocate true req s).2 ≤ id_counter_ s + 1.
Proof.
  intros Hlt H0. unfold Runtime_allocate, guarded. rewrite bind_run. cbn [fst snd get].
  destruct (closed_ s) eqn:Hcl; [cbn [ret snd]; split; [done|lia]|]. rewrite bind_run.
  assert (id_counter_ (next_id s).2 = id_counter_ s + 1 ∧ closed_ (next_id s).2 = closed_ s) as [Hn Hc].
  { unfold next_id. rewrite bind_run. cbn. split; [|done]. rewrite u64_small by (unfold is_u64; lia). done. }
  destruct (makes_allocate_record req s) as [e s' Hq|e s' Hq|r s' Hq Hr]; destruct (q_static _ _ Hq);
    rewrite ?bind_run; cbn [ret fst snd]; [split; [congruence|lia]..|].
  cbn. split; [congruence|lia].
Qed.
End steady.

(** ** The steps of the shell *)

Section sessions.
Context {P : Platform} {O : OsResources P} {may_lose : Losses} `{!Unguarded O}.
Context (bk : Backends) (rs : list Resource) (Hbk : backends_owned bk).
Context (Hcon : ∀ d dom, domain_in bk d = Some dom → DomainContract dom ∧ IDomain.domain dom = d).
Context (garbage : BackendId) (bench_figure : string).
Implicit Types (s : RuntimeImpl) (tbl : Table).

(** An open runtime whose clients own [ts], in a process that holds [rs] and otherwise
    nothing but what its backings stand for, and that has drawn at most [n] identities. *)
Record At (n : Z) s (ts : list Token) : Prop := {
  at_sound : sound s ts;
  at_held : owns bk (λ _, True) rs s;
  at_open : closed_ s = false;
  at_first : 0 ≤ id_counter_ s;
  at_ids : id_counter_ s ≤ n }.

Lemma At_perm n s ts ts' : ts ≡ₚ ts' → At n s ts → At n s ts'.
Proof. intros Hp []. split; try done. by eapply sound_perm. Qed.
Lemma At_le n n' s ts : n ≤ n' → At n s ts → At n' s ts.
Proof. intros Hn []. split; try done. lia. Qed.

(** An operation of the clients that draws no identity. *)
Lemma At_op n o s s' rest got :
  client_op o s = (got, s') → managed o → affords o → steady s s' → n < two64 - 1 →
  (∀ t, t ∈ borrows o → t ∈ consumes o ++ rest) →
  At n s (consumes o ++ rest) → At n s' (got ++ rest).
Proof.
  intros Hrun Hm Haff [Ho Hi] Hn Hb [Hs Hh Hop H0 Hle].
  pose proof (sys_step_sound s (consumes o ++ rest) (client_op o s).2 ((client_op o s).1 ++ rest)) as Hst.
  pose proof (holding_step bk Hbk Hcon o rs s rest Hm (spares_all o s Haff) Hs Hb Hh) as Hh'. rewrite Hrun in Hst, Hh'.
  destruct Hst as [_ Hs']; [|done|].
  { pose proof (sys_step_op o s _ rest (reflexivity _) Hb) as Hop'. rewrite Hrun in Hop'. apply Hop'. lia. }
  split; [done..|congruence|congruence|lia].
Qed.
(** An operation that touches no control block. *)
Lemma At_quiet {A} n s ts (m : M RuntimeImpl A) :
  preserves quiet m → (sound s ts → owns bk (λ _, True) rs s → owns bk (λ _, True) rs (m s).2) →
  At n s ts → At n (m s).2 ts.
Proof.
  intros Hq Hi [Hs Hh Ho H0 Hn]. specialize (Hq s). destruct (static_steady _ _ (q_static _ _ Hq)) as [Hc Hid].
  split; [|by apply Hi|congruence|congruence|lia].
  by eapply sound_same; [apply quiet_same_spec|].
Qed.
Lemma At_inert {A} n s ts (m : M RuntimeImpl A) :
  preserves quiet m → preserves (inert_on (owns bk (λ _, True))) m → At n s ts → At n (m s).2 ts.
Proof. intros Hq Hi. apply At_quiet; [done|]. intros _. apply Hi. Qed.
Lemma At_verify n s ts h : THandle h ∈ ts → At n s ts → At n (handle_verify h s).2 ts.
Proof.
  intros Hin. apply At_quiet; [apply quiet_handle_verify|]. intros Hs Hh.
  eapply (holding_verify bk Hbk); [done|done|apply verifies_all|done].
Qed.

Lemma At_allocate n s ts req :
  is_u64 (req_size req) → is_u64 (req_alignment req) → affordable req → n < two64 - 1 → At n s ts →
  match Runtime_allocate true req s with
  | (Ok h, s') => At (n + 1) s' (THandle h :: ts)
  | (Fail _, s') => At (n + 1) s' ts
  end.
Proof.
  intros Hsz Hal Haff Hn [Hs Hh Ho H0 Hle].
  destruct (allocate_ids req s) as [Hc Hid]; [lia|done|].
  pose proof (sys_step_op (OAllocate req) s ts ts (reflexivity _) ltac:(by intros ? ?%not_elem_of_nil) ltac:(lia)) as Hst.
  pose proof (holding_step bk Hbk Hcon (OAllocate req) rs s ts (conj Hsz Hal) (spares_all (OAllocate req) s Haff) Hs
                ltac:(by intros ? ?%not_elem_of_nil) Hh) as Hh'.
  apply sys_step_sound in Hst as [_ Hs']; [|done]. cbn [client_op] in Hs', Hh'. rewrite bind_run in Hs', Hh'.
  destruct (Runtime_allocate true req s) as [[h|e] s']; cbn [ret fst snd gained app] in *;
    (split; [done|done|congruence|lia|lia]).
Qed.
Lemma At_reset n s ts h :
  n < two64 - 1 → At n s (THandle h :: ts) → At n (handle_reset h s).2 ts.
Proof.
  intros Hn HA. apply (At_op n (ODestroy (THandle h)) s _ ts []); [|done|done|apply steady_reset|done|set_solver|done].
  cbn [client_op destroy]. by rewrite !bind_run.
Qed.
(** Handles that own nothing come and go. *)
Lemma At_null n s ts h : h_ctl h = None → At n s (THandle h :: ts) ↔ At n s ts.
Proof.
  intros Hh. assert (sound s (THandle h :: ts) ↔ sound s ts) as Hs.
  { assert (refs_of (THandle h :: ts) = refs_of ts) as Hr by (apply refs_of_none; simpl; by rewrite Hh).
    split; intros [Hc Ht]; unfold spec_of in *.
    - rewrite Hr in Hc. split; [done|]. by inversion Ht.
    - split; [unfold spec_of; by rewrite Hr|]. constructor; [by apply token_ok_null|done]. }
  split; intros []; (split; [by apply Hs|done..]).
Qed.
Lemma At_release n s ts h :
  n < two64 - 1 → At n s (THandle h :: ts) → At n (handle_release h s).2 ts ∧ h_ctl (handle_release h s).1.2 = None.
Proof.
  intros Hn HA. assert (h_ctl (handle_release h s).1.2 = None) as Hnull.
  { unfold handle_release. destruct (h_ctl h) as [c|] eqn:Hc; [|done].
    pose proof (so_tokens _ _ (at_sound _ _ _ HA)) as Ht. apply Forall_cons in Ht as [Ht _].
    destruct (Ht c Hc) as (_ & -> & _). cbn [negb]. by rewrite bind_run. }
  split; [|done]. apply (At_null _ _ _ (handle_release h s).1.2); [done|].
  apply (At_op n (ORelease h) s _ ts [_]); [|done|done|apply steady_release|done|set_solver|done].
  cbn [client_op]. by rewrite bind_run.
Qed.
Lemma At_migrate n s ts h t :
  n < two64 - 1 → THandle h ∈ ts → At n s ts →
  match Runtime_migrate true h t s with
  | (Ok h', s') => At n s' (THandle h' :: ts)
  | (Fail _, s') => At n s' ts
  end.
Proof.
  intros Hn Hin HA. pose proof (steady_migrate h t s) as Hst.
  pose proof (At_op n (OMigrate h t) s (Runtime_migrate true h t s).2 ts
                (gained THandle (Runtime_migrate true h t s).1)) as Hop.
  destruct (Runtime_migrate true h t s) as [r s'] eqn:Hr. cbn [fst snd] in *.
  assert (At n s' (gained THandle r ++ ts)) as HA'; [|by destruct r].
  apply Hop; [|done..|set_solver|done]. cbn [client_op]. rewrite bind_run, Hr. done.
Qed.
Lemma At_map n s ts h a :
  n < two64 - 1 → THandle h ∈ ts → At n s ts →
  match handle_map h a s with
  | (Ok m, s') => At n s' (TMap m :: ts)
  | (Fail _, s') => At n s' ts
  end.
Proof.
  intros Hn Hin HA. pose proof (steady_map h a s) as Hst.
  pose proof (At_op n (OMap h a) s (handle_map h a s).2 ts (gained TMap (handle_map h a s).1)) as Hop.
  destruct (handle_map h a s) as [r s'] eqn:Hr. cbn [fst snd] in *.
  assert (At n s' (gained TMap r ++ ts)) as HA'; [|by destruct r].
  apply Hop; [|done..|set_solver|done]. cbn [client_op]. rewrite bind_run, Hr. done.
Qed.
Lemma At_unmap n s ts m :
  n < two64 - 1 → At n s (TMap m :: ts) → At n (map_release m s).2 ts.
Proof.
  intros Hn HA. apply (At_op n (ODestroy (TMap m)) s _ ts []); [|done|done|apply steady_map_release|done|set_solver|done].
  cbn [client_op destroy]. by rewrite !bind_run.
Qed.

(** ** The table *)

(** The objects the shell owns are the handles of its table. *)
Definition tokens (tbl : Table) : list Token := map_bind (λ _ h, [THandle h]) tbl.
(** A handle is filed under the low word of its identity, and is not empty. *)
Definition keyed (tbl : Table) : Prop :=
  ∀ id h, tbl !! id = Some h → lo (h_id h) = id ∧ is_Some (h_ctl h).
Definition Shows (n : Z) s tbl : Prop := At n s (tokens tbl) ∧ keyed tbl.

Lemma tokens_insert tbl id h : tokens (<[id := h]> tbl) ≡ₚ THandle h :: tokens (delete id tbl).
Proof.
  unfold tokens. rewrite <- insert_delete_eq, map_bind_insert by apply lookup_delete_eq. done.
Qed.
Lemma tokens_delete tbl id h : tbl !! id = Some h → tokens tbl ≡ₚ THandle h :: tokens (delete id tbl).
Proof. intros Hid. unfold tokens. by rewrite (map_bind_delete _ _ _ _ Hid). Qed.
Lemma tokens_elem tbl id h : tbl !! id = Some h → THandle h ∈ tokens tbl.
Proof. intros Hid. rewrite (tokens_delete _ _ _ Hid). by left. Qed.
Lemma keyed_insert tbl id h : keyed tbl → lo (h_id h) = id → is_Some (h_ctl h) → keyed (<[id := h]> tbl).
Proof. intros Hk Hid Hc id' h' [[<- <-]|[_ H]]%lookup_insert_Some; [done|by apply Hk]. Qed.
Lemma keyed_delete tbl id : keyed tbl → keyed (delete id tbl).
Proof. intros Hk id' h' [_ H]%lookup_delete_Some. by apply Hk. Qed.

Lemma assign_handle_run id h tbl s :
  assign_handle id h tbl s = (<[id := h]> tbl, (handle_reset (default BufferHandle_empty (tbl !! id)) s).2).
Proof. unfold assign_handle, handle_move_assign. rewrite !bind_run. done. Qed.
Lemma Shows_assign n s tbl id h :
  n < two64 - 1 → At n s (THandle h :: tokens tbl) → keyed tbl → lo (h_id h) = id → is_Some (h_ctl h) →
  Shows n (assign_handle id h tbl s).2 (assign_handle id h tbl s).1.
Proof.
  intros Hn HA Hk Hid Hc. rewrite assign_handle_run. cbn [fst snd]. split; [|by apply keyed_insert].
  eapply At_perm; [symmetry; apply tokens_insert|].
  destruct (tbl !! id) as [old|] eqn:Hold; cbn [default].
  - apply At_reset; [done|]. eapply At_perm; [|exact HA]. rewrite (tokens_delete _ _ _ Hold). apply perm_swap.
  - rewrite delete_id by done. exact HA.
Qed.

(** ** Every command *)

(** The tool may ask for device memory. *)
Context (Hafford : ∀ req, affordable req).

(** What one line may draw of identities: the loop of [benchmark]. *)
Definition line_ids : Z := bench_iters.

(** The handle a successful call returns is not empty, and names its buffer. *)
Lemma allocate_handle req s h :
  (Runtime_allocate true req s).1 = Ok h → is_Some (h_ctl h).
Proof.
  rewrite Runtime_allocate_run. destruct (closed_ s); [done|]. rewrite bind_run.
  match goal with |- (handle_result ?r _).1 = _ → _ => destruct r as [c|e] end; cbn [handle_result]; [|done].
  rewrite bind_run. intros [= <-]. by eexists.
Qed.
Lemma migrate_handle h t s ts h' :
  sound s ts → THandle h ∈ ts → (Runtime_migrate true h t s).1 = Ok h' →
  h_id h' = h_id h ∧ is_Some (h_ctl h').
Proof.
  intros Hs Hin. unfold Runtime_migrate, guarded.
  destruct (with_handle_cases h (validate_alive h)
    (λ c, let! r := migrate c t in handle_result r) s) as [[e ->]|(c & Hc & _ & ->)]; [done|].
  rewrite bind_run. destruct (handle_live s ts h c Hs Hin Hc) as (k & Hk & _ & Hkid & _).
  destruct (migrate_value c t s) as [->|[e ->]]; cbn [handle_result]; [|done].
  rewrite bind_run, new_handle_run. cbn [ret fst]. intros [= <-]. split; [|by eexists]. cbn [handle_of h_id].
  pose proof (only_same_spec c _ _ (only_migrate c t s)) as [Ha _ _].
  assert (actls (abs (migrate c t s).2) !! c = Some k) as Hk' by by rewrite Ha.
  destruct (abs_live _ _ _ Hk') as [_ Hsome]. rewrite <- Hkid, (abs_ctl_at _ _ _ Hk').
  set (s1 := (migrate c t s).2) in *. clearbody s1. unfold ctl_at. cbn.
  rewrite lookup_alter_eq. by destruct Hsome as [x ->].
Qed.

Lemma Shows_inert {A} n s tbl (m : M RuntimeImpl A) (r : A → Reply) :
  preserves quiet m → preserves (inert_on (owns bk (λ _, True))) m → (∀ a, table (r a) = tbl) →
  Shows n s tbl → let q := (let! a := m in ret (r a)) s in Shows n q.2 (table q.1).
Proof.
  intros Hq Hi Hr [HA Hk]. cbv zeta. rewrite bind_run. cbn [ret fst snd]. rewrite Hr.
  split; [by apply At_inert|done].
Qed.

(** The queries. *)
Lemma preserves_collect {A} (R : RuntimeImpl → RuntimeImpl → Prop) `{!PreOrder R}
    (f : Z → M RuntimeImpl A) l :
  (∀ i, preserves R (f i)) → preserves R (collect f l).
Proof.
  intros Hf. induction l as [|i l IH]; cbn; [apply preserves_ret, _|].
  apply preserves_bind; [done|done|intros x]. apply preserves_bind; [done|done|intros xs]. apply preserves_ret, _.
Qed.
Lemma quiet_devices_info : preserves quiet devices_info.
Proof.
  unfold devices_info, device_entry.
  repeat first [solve [eauto 2 with frames] | apply preserves_collect; [apply _|intros ?] | preserves_step].
Qed.
Lemma quiet_domains_info : preserves quiet domains_info.
Proof. unfold domains_info, domain_entry. preserves_tac. Qed.
#[local] Hint Resolve quiet_domains_info : frames.
Lemma quiet_runtime_stats : preserves quiet runtime_stats.
Proof. unfold runtime_stats. preserves_tac. Qed.

Abbreviation inert := (preserves (inert_on (owns bk (λ _, True)))).
Lemma inert_devices_info : inert devices_info.
Proof.
  unfold devices_info, device_entry.
  repeat first
    [ solve [apply inert_on_machine; unfold cuda_available, cuda_device_count, cuda_device_info; preserves_tac]
    | apply preserves_collect; [apply _|intros ?] | preserves_step ].
Qed.
Lemma inert_domain_entry d : inert (domain_entry d).
Proof.
  unfold domain_entry. apply (inert_get bk). intros s Hb. cbv zeta. rewrite (backends_domain bk s _ Hb).
  destruct (domain_in bk d) as [dom|] eqn:Hd; [|preserves_tac].
  apply preserves_bind; [apply _| |intros ?; preserves_tac].
  by apply inert_on_machine, (od_capacity_inert (OwnedDomain:=Hbk _ _ Hd)).
Qed.
#[local] Hint Resolve inert_domain_entry inert_devices_info : frames.
Lemma inert_domains_info : inert domains_info.
Proof. unfold domains_info. preserves_tac. Qed.
#[local] Hint Resolve inert_domains_info : frames.
Lemma inert_runtime_stats : inert runtime_stats.
Proof. unfold runtime_stats. preserves_tac. Qed.

(** [keeps k c]: from any state of the shell, the command [c] leads to one that draws at
    most [k] more identities. *)
Definition keeps (k : Z) (tbl : Table) (c : M RuntimeImpl Reply) : Prop := ∀ n s,
  n + k < two64 - 1 → Shows n s tbl → Shows (n + k) (c s).2 (table (c s).1).

Lemma Shows_le n n' s tbl : n ≤ n' → Shows n s tbl → Shows n' s tbl.
Proof. intros Hn [HA Hk]. split; [by eapply At_le|done]. Qed.
Lemma keeps_le k k' tbl c : 0 ≤ k ≤ k' → keeps k tbl c → keeps k' tbl c.
Proof. intros Hk Hc n s Hn HS. apply (Shows_le (n + k)); [lia|]. apply Hc; [lia|done]. Qed.
Lemma keeps_ret tbl tbl' l b : tbl' = tbl → keeps 0 tbl (ret (mkReply b tbl' l)).
Proof. intros -> n s _ HS. cbn. by rewrite Z.add_0_r. Qed.
Lemma keeps_say k tbl l b : 0 ≤ k → keeps k tbl (ret (mkReply b tbl l)).
Proof. intros Hk. apply (keeps_le 0); [lia|by apply keeps_ret]. Qed.
Lemma keeps_query {A} tbl (m : M RuntimeImpl A) (r : A → Reply) :
  preserves quiet m → inert m → (∀ a, table (r a) = tbl) → keeps 0 tbl (let! a := m in ret (r a)).
Proof. intros Hq Hi Hr n s _ HS. rewrite Z.add_0_r. by apply (Shows_inert n s tbl). Qed.
Lemma keeps_entry k usage args tbl f :
  0 ≤ k → (∀ id h, tbl !! id = Some h → keeps k tbl (f id h)) → keeps k tbl (with_entry usage args tbl f).
Proof.
  intros Hk Hf. unfold with_entry. destruct args as [|a l]; [by apply keeps_say|].
  destruct (tbl !! _) as [h|] eqn:Hid; [by apply Hf|]. by apply keeps_say.
Qed.
(** A handle the shell keeps for the length of a command, and gives up. *)
Lemma release_null h s : h_ctl h = None → (handle_reset h s).2 = s.
Proof. intros Hh. unfold handle_reset. by rewrite Hh. Qed.

Lemma keeps_free args tbl : keeps 0 tbl (cmd_free args tbl).
Proof.
  apply keeps_entry; [done|]. intros id h Hid n s Hn [HA Hk]. rewrite Z.add_0_r in *. rewrite !bind_run.
  cbn [ret fst snd table]. destruct (At_release n s (tokens (delete id tbl)) h) as [HA' Hnull]; [lia| |].
  { eapply At_perm; [|exact HA]. by apply tokens_delete. }
  rewrite release_null by done. split; [done|by apply keyed_delete].
Qed.
Lemma keeps_migrate args tbl : keeps 0 tbl (cmd_migrate args tbl).
Proof.
  unfold cmd_migrate. destruct args as [|a [|d l]]; [by apply keeps_say..|].
  apply keeps_entry; [done|]. intros id h Hid n s Hn [HA Hk]. rewrite Z.add_0_r in *. cbv zeta. rewrite bind_run.
  pose proof (At_migrate n s (tokens tbl) h (migrate_domain d) ltac:(lia) (tokens_elem _ _ _ Hid) HA) as HA'.
  pose proof (migrate_handle h (migrate_domain d) s (tokens tbl)) as Hh.
  destruct (Runtime_migrate true h (migrate_domain d) s) as [[h'|e] s']; cbn [fst snd] in *; [|done].
  rewrite bind_run. cbn [ret fst snd table].
  destruct (Hh h' (at_sound _ _ _ HA) (tokens_elem _ _ _ Hid) eq_refl) as [Hid' Hc].
  apply Shows_assign; [lia|done|done| |done]. rewrite Hid'. by apply Hk.
Qed.
Lemma strtoull_u64 a : is_u64 (strtoull a).
Proof.
  assert (∀ b v, 0 ≤ v → is_u64 (to_u64 b v)) as Hto.
  { intros b v Hv. unfold to_u64, is_u64. destruct (two64 <=? v) eqn:E; bool_prop; [unfold two64; lia|].
    destruct b; [by apply u64_range|lia]. }
  assert (∀ t acc, 0 ≤ acc → 0 ≤ digits_value acc t) as Hd.
  { induction t as [|c t IH]; intros acc Hacc; cbn; [done|]. unfold digit.
    destruct (_ && _) eqn:E; [|done]. bool_prop. apply IH. lia. }
  induction a as [|c a IH]; cbn [strtoull]; [unfold is_u64, two64; lia|].
  destruct (is_space c); [done|].
  destruct (Ascii.eqb c "-"); [|destruct (Ascii.eqb c "+")]; apply Hto, Hd; lia.
Qed.
Lemma pick_device_req req s :
  let req' := (pick_device req s).1 in
  req_size req' = req_size req ∧ req_alignment req' = req_alignment req
  ∧ req_domain req' = req_domain req.
Proof.
  unfold pick_device. destruct (bool_decide _); [|done]. rewrite bind_run. cbn [ret fst].
  match goal with |- context [match ?r with _ => _ end] => by destruct r as [[|d l]|e] end.
Qed.
Lemma keeps_alloc args tbl : keeps 1 tbl (cmd_alloc args tbl).
Proof.
  unfold cmd_alloc. destruct args as [|size more]; [by apply keeps_say|].
  intros n s Hn [HA Hk]. cbv zeta. rewrite bind_run. set (req0 := default_request _ _ _).
  assert (At n (pick_device req0 s).2 (tokens tbl)) as HA1.
  { apply At_inert; [| |done]; unfold pick_device, Runtime_devices, guarded;
      (destruct (bool_decide _); [|by apply preserves_ret, _]);
      (apply preserves_bind; [apply _| |intros; apply preserves_ret, _]);
      [apply quiet_devices_info|apply inert_devices_info]. }
  destruct (pick_device_req req0 s) as (Hsz & Hal & _).
  destruct (pick_device req0 s) as [req s1]. cbn [fst snd] in *. rewrite bind_run.
  pose proof (At_allocate n s1 (tokens tbl) req) as HA2. rewrite Hsz, Hal in HA2.
  pose proof (allocate_handle req s1) as Hh.
  destruct (Runtime_allocate true req s1) as [[h|e] s2]; cbn [fst snd] in *.
  2: { split; [|done]. apply HA2; [apply strtoull_u64|by vm_compute|done|lia|done]. }
  rewrite bind_run. cbn [ret fst snd table]. apply Shows_assign; [lia| |done|done|by apply Hh].
  apply HA2; [apply strtoull_u64|by vm_compute|done|lia|done].
Qed.

(** The temporaries of [selftest]: the map is filled and released, the handle is read
    and released. *)
Lemma At_fill n s ts p k : At n s ts → At n (on_machine (modify (set_mem (test_pattern p k))) s).2 ts.
Proof.
  apply At_inert; [eauto with frames|]. apply inert_on_machine, inert_set_mem.
Qed.
Lemma inert_checksum h : inert (handle_checksum h).
Proof. apply inert_with_handle. intros c. preserves_tac. Qed.
Lemma At_selftest n s tbl : n + 1 < two64 - 1 → At n s (tokens tbl) → At (n + 1) (selftest s).2 (tokens tbl).
Proof.
  intros Hn HA. unfold selftest. rewrite bind_run. set (req := default_request _ _ _).
  pose proof (At_allocate n s (tokens tbl) req ltac:(by vm_compute) ltac:(by vm_compute) (Hafford req) ltac:(lia) HA) as HA1.
  destruct (Runtime_allocate true req s) as [[h|e] s1]; cbn [fst snd]; [|exact HA1].
  rewrite bind_run. pose proof (At_map (n + 1) s1 _ h AccessMode.READ_WRITE Hn ltac:(by left) HA1) as HA2.
  destruct (handle_map h AccessMode.READ_WRITE s1) as [m s2]; cbn [fst snd].
  rewrite bind_run. set (fill := match m with Ok _ => _ | Fail _ => _ end).
  assert (At (n + 1) (fill s2).2 (THandle h :: tokens tbl)) as HA3.
  { subst fill. destruct m as [bm|e]; [|exact HA2]. rewrite !bind_run. cbn [ret snd].
    apply At_unmap; [done|]. by apply At_fill. }
  set (s3 := (fill s2).2) in *. clearbody s3. rewrite bind_run.
  apply (At_inert _ _ _ _ (quiet_handle_checksum h) (inert_checksum h)) in HA3.
  set (s4 := (handle_checksum h s3).2) in *. clearbody s4. rewrite bind_run.
  apply (At_verify _ _ _ h ltac:(by left)) in HA3.
  set (s5 := (handle_verify h s4).2) in *. clearbody s5. rewrite bind_run.
  apply At_release in HA3 as [HA4 _]; [|done].
  set (s6 := (handle_release h s5).2) in *. clearbody s6. rewrite bind_run.
  apply (At_inert _ _ _ _ quiet_runtime_stats inert_runtime_stats) in HA4.
  unfold Runtime_stats, guarded. by repeat case_match.
Qed.
Lemma At_bench k n s ts : n + Z.of_nat k < two64 - 1 → At n s ts → At (n + Z.of_nat k) (bench_loop k s).2 ts.
Proof.
  revert n s. induction k as [|k IH]; intros n s Hn HA; cbn [bench_loop].
  { by rewrite Z.add_0_r. }
  rewrite bind_run. set (req := default_request _ _ _).
  pose proof (At_allocate n s ts req ltac:(by vm_compute) ltac:(by vm_compute) (Hafford req) ltac:(lia) HA) as HA1.
  destruct (Runtime_allocate true req s) as [[h|e] s1]; cbn [fst snd]; [|eapply At_le; [|exact HA1]; lia].
  rewrite bind_run. apply At_release in HA1 as [HA2 _]; [|lia].
  replace (n + Z.of_nat (S k)) with (n + 1 + Z.of_nat k) by lia. apply IH; [lia|done].
Qed.

Lemma keeps_print k tbl m :
  (∀ n s, n + k < two64 - 1 → At n s (tokens tbl) → At (n + k) (m s).2 (tokens tbl)) →
  keeps k tbl (print_only tbl m).
Proof.
  intros Hm n s Hn [HA Hk]. unfold print_only. rewrite bind_run. cbn [ret fst snd table say].
  split; [by apply Hm|done].
Qed.
Lemma keeps_show {A} tbl (m : M RuntimeImpl (Result A)) f :
  preserves quiet m → inert m → keeps 0 tbl (print_only tbl (show m f)).
Proof.
  intros Hq Hi. apply keeps_print. intros n s _ HA. rewrite Z.add_0_r. unfold show. rewrite bind_run.
  cbn [ret snd]. by apply At_inert.
Qed.
Lemma handle_cmd_keeps toks tbl : keeps line_ids tbl (handle_cmd garbage bench_figure toks tbl).
Proof.
  assert (∀ k c, 0 ≤ k ≤ 1 → keeps k tbl c → keeps line_ids tbl c) as Hle
    by (intros k c Hk; apply keeps_le; unfold line_ids, bench_iters; lia).
  unfold handle_cmd. destruct toks as [|cmd args]; [by apply keeps_say|].
  repeat match goal with |- keeps _ _ (if String.eqb cmd ?w then _ else _) => destruct (String.eqb cmd w) end.
  - by apply keeps_say.
  - apply (Hle 0); [done|]. apply keeps_query; [..|done].
    + unfold show. apply preserves_bind; [apply _|apply quiet_runtime_stats|intros; apply preserves_ret, _].
    + unfold show. apply preserves_bind; [apply _|apply inert_runtime_stats|intros; apply preserves_ret, _].
  - apply (Hle 0), keeps_show; [done|unfold Runtime_backends, guarded; preserves_tac..].
  - apply (Hle 0), keeps_show; [done|apply quiet_devices_info|apply inert_devices_info].
  - apply (Hle 0), keeps_show; [done|unfold Runtime_domains, guarded; preserves_tac..].
  - apply (Hle 0), keeps_show; [done|apply quiet_runtime_stats|apply inert_runtime_stats].
  - apply (Hle 0), keeps_show; [done|apply quiet_runtime_stats|apply inert_runtime_stats].
  - apply (Hle 1), keeps_alloc; done.
  - apply (Hle 0), keeps_free; done.
  - apply (Hle 0); [done|]. apply keeps_entry; [done|]. intros id h _. apply keeps_query; [preserves_tac..|done].
  - apply (Hle 0); [done|]. apply keeps_entry; [done|]. intros id h Hid n s _ [HA Hk]. rewrite Z.add_0_r, bind_run.
    cbn [ret fst snd table say]. split; [|done]. apply (At_verify n s (tokens tbl) h); [by eapply tokens_elem|done].
  - apply (Hle 0), keeps_migrate; done.
  - apply (Hle 1), keeps_print; [done|]. intros n s Hn HA. by apply At_selftest.
  - apply keeps_print. intros n s Hn HA. unfold benchmark. rewrite bind_run. cbn [ret snd].
    rewrite <- (Z2Nat.id line_ids) in * by done. by apply At_bench.
  - destruct (_ || _); by apply keeps_say.
Qed.

(** ** Whole sessions *)

Definition session_ids (lines : list string) : Z := line_ids * Z.of_nat (length lines).
Lemma interactive_shows lines n s tbl :
  n + session_ids lines < two64 - 1 → Shows n s tbl →
  let q := interactive garbage bench_figure lines tbl s in
  Shows (n + session_ids lines) q.2 q.1.1.
Proof.
  unfold session_ids. revert n s tbl. induction lines as [|l rest IH]; intros n s tbl Hn HS; cbv zeta.
  { cbn. by rewrite Z.add_0_r. }
  cbn [interactive length] in *. rewrite bind_run.
  pose proof (handle_cmd_keeps (split l) tbl n s) as HS1.
  destruct (handle_cmd garbage bench_figure (split l) tbl s) as [r s1]; cbn [fst snd] in *.
  assert (0 ≤ line_ids) by done. specialize (HS1 ltac:(lia) HS).
  destruct (alive r); cbn [ret fst snd].
  - rewrite bind_run. cbn [ret fst snd]. replace (n + line_ids * Z.of_nat (S (length rest)))
      with (n + line_ids + line_ids * Z.of_nat (length rest)) by lia. apply IH; [lia|done].
  - eapply Shows_le; [|exact HS1]. lia.
Qed.
Lemma Shows_empty n s : At n s [] → Shows n s ∅.
Proof.
  intros HA. split; [|by intros ? ?; rewrite lookup_empty].
  unfold tokens. by rewrite map_bind_empty.
Qed.
Lemma main_body_shows argv lines n s :
  n + line_ids + session_ids lines < two64 - 1 → At n s [] →
  let q := main_body garbage bench_figure argv lines s in
  Shows (n + line_ids + session_ids lines) q.2 q.1.1.
Proof.
  intros Hn HA. assert (0 ≤ session_ids lines) by (unfold session_ids, line_ids, bench_iters; lia).
  assert (0 ≤ line_ids) by done. cbv zeta.
  assert (Shows (n + line_ids + session_ids lines)
    ((let! r := handle_cmd garbage bench_figure argv ∅ in ret (table r, out r)) s).2
    ((let! r := handle_cmd garbage bench_figure argv ∅ in ret (table r, out r)) s).1.1) as Hcmd.
  { rewrite bind_run. cbn [ret fst snd]. apply (Shows_le (n + line_ids)); [lia|].
    apply handle_cmd_keeps; [lia|]. by apply Shows_empty. }
  unfold main_body. destruct argv as [|a rest]; [|destruct (_ && _); [|exact Hcmd]].
  - rewrite bind_run. cbn [ret fst snd].
    apply (Shows_le (n + session_ids lines)); [lia|]. apply interactive_shows; [lia|by apply Shows_empty].
  - rewrite bind_run. cbn [ret fst snd]. apply (Shows_le n); [lia|]. apply Shows_empty.
    unfold show. rewrite bind_run. cbn [ret snd].
    apply At_inert; [apply quiet_runtime_stats|apply inert_runtime_stats|done].
Qed.

(** ** The end of the program *)

Lemma At_destroy_table n s tbl :
  n < two64 - 1 → At n s (tokens tbl) → At n (destroy_table tbl s).2 [].
Proof.
  intros Hn. unfold tokens, map_bind, destroy_table. revert s.
  induction (map_to_list tbl) as [|[id h] l IH]; intros s HA; [done|].
  cbn [iterM mbind list_bind app fst snd] in *. rewrite bind_run. apply IH.
  rewrite bind_run. cbn [ret snd]. by apply At_reset.
Qed.
Lemma destroy_domain_holds d l s :
  m_holds l (machine s) → m_holds l (machine (destroy_domain (domain_in bk d) s).2).
Proof.
  intros Hm. destruct (domain_in bk d) as [dom|] eqn:Hd; [|done]. cbn [destroy_domain].
  rewrite on_machine_run. by apply (od_destroy_inert (OwnedDomain:=Hbk _ _ Hd)).
Qed.
Lemma destroy_domain_leaked o s : leaked (destroy_domain o s).2 = leaked s.
Proof. destruct o; [|done]. cbn [destroy_domain]. by rewrite on_machine_run. Qed.
(** Shutting down with no client object left gives back everything but [rs] and what was
    lost. *)
Lemma shutdown_empty n s :
  At n s [] →
  let s' := (Runtime_shutdown true s).2 in
  losses (leaked s') ∧ lost_usable bk (leaked s') ∧ m_holds (leaked_resources s' ++ rs) (machine s').
Proof.
  intros [Hs Hh Hopen _ _]. unfold Runtime_shutdown, shutdown. rewrite bind_run. cbn [fst snd get].
  rewrite Hopen, 2!bind_run. change (modify (set_closed true) s).2 with (set_closed true s).
  assert (sound (set_closed true s) []) as Hs1
    by (apply (sound_same s); [apply same_buffers_spec; by constructor|done]).
  change (registry_ s) with (registry_ (set_closed true s)). rewrite (shutdown_loop_idle _ []) by done.
  assert (owns bk (λ _, True) rs (set_closed true s)) as Hh1 by by apply (owns_same bk _ s).
  rewrite 2!bind_run. cbn [fst snd get].
  assert ((pool_trim_to_zero (set_closed true s)).2 = (pool_trim (set_closed true s)).2) as ->
    by by unfold pool_trim_to_zero; rewrite bind_run.
  pose proof (trimmed_holds bk Hbk rs _ Hs1 Hh1) as Hm.
  destruct (owns_pool_trim bk Hbk rs _ Hh1) as [Hh2 _].
  set (s2 := (pool_trim (set_closed true s)).2) in *. clearbody s2.
  pose proof (owns_lost _ _ _ _ Hh2) as Hl. pose proof (owns_lost_usable _ _ _ _ Hh2) as Hu. destruct Hh2 as ([Hb _ _ _ _ _] & _ & _). rewrite Hb, !bind_run.
  cbn [modify snd]. unfold leaked_resources in *.
  change (leaked (set_backends ?b ?x)) with (leaked x). change (machine (set_backends ?b ?x)) with (machine x).
  rewrite !destroy_domain_leaked. split; [exact Hl|]. split; [exact Hu|].
  apply (destroy_domain_holds MemoryDomain.DEVICE), (destroy_domain_holds MemoryDomain.PINNED_HOST),
    (destroy_domain_holds MemoryDomain.SHARED_HOST), (destroy_domain_holds MemoryDomain.MMAP_STORAGE),
    (destroy_domain_holds MemoryDomain.HOST) in Hm. exact Hm.
Qed.
End sessions.

Section start.
Context {P : Platform} {O : OsResources P} {may_lose : Losses} `{!Unguarded O}.
(** The runtime a program starts from. *)
Lemma At_start seed m rs :
  losses [] → m_holds rs m →
  let s := (RuntimeImpl_new RuntimeConfig_default seed m).1 in
  backends_owned (backends s)
  ∧ (∀ d dom, domain_in (backends s) d = Some dom → DomainContract dom ∧ IDomain.domain dom = d)
  ∧ At (backends s) rs 1 s [].
Proof.
  intros H0 Hm. cbv zeta.
  destruct (new_owns RuntimeConfig_default seed m rs H0 Hm) as (Hown & Hs & Hh).
  split; [done|]. split; [intros d dom; apply (RuntimeImpl_new_domains RuntimeConfig_default seed m)|].
  assert (closed_ (RuntimeImpl_new RuntimeConfig_default seed m).1 = false
          ∧ id_counter_ (RuntimeImpl_new RuntimeConfig_default seed m).1 = 1) as [Hc Hi]
    by (unfold RuntimeImpl_new; by rewrite !bind_run).
  split; [done..|by rewrite Hi|by rewrite Hi].
Qed.
End start.
