(* ===== verification/Tool.v ===== *)
(** What the command-line tool promises its user: everything is given back at the end,
    its table is exactly the set of live buffers, the identities it prints are the ones
    it reads, and what it loses of the reasons of a failure. *)
From Stdlib Require Import Ascii.
From S2P Require Import Prelude Types CheckedMath Platform Resources CudaBackend State Sim SimResources Domain Ledger Pool Lifecycle Runtime Handle Facade SimRuntime Frames RefSpec Refcount Clients Allocation Backing Ownership Conservation Shell.
From S2P Require Import Session.

(** ** The table and the registry *)

Section table.
Context {P : Platform}.
Implicit Types (s : RuntimeImpl) (tbl : Table).

Lemma tokens_inv tbl t : t ∈ tokens tbl → ∃ id h, tbl !! id = Some h ∧ t = THandle h.
Proof.
  unfold tokens, map_bind. rewrite list_elem_of_bind. intros ([id h] & Ht & Hin).
  apply list_elem_of_singleton in Ht as ->. apply elem_of_map_to_list in Hin. by exists id, h.
Qed.
(** Two entries of one buffer are one entry. *)
Lemma entry_unique s tbl id id' h h' c :
  sound s (tokens tbl) → keyed tbl → tbl !! id = Some h → tbl !! id' = Some h' →
  h_ctl h = Some c → h_ctl h' = Some c → id = id'.
Proof.
  intros Hs Hk Hid Hid' Hc Hc'.
  destruct (handle_live s _ h c Hs (tokens_elem _ _ _ Hid) Hc) as (k & H1 & _ & Hi & _).
  destruct (handle_live s _ h' c Hs (tokens_elem _ _ _ Hid') Hc') as (k' & H1' & _ & Hi' & _).
  simplify_eq. destruct (Hk _ _ Hid) as [<- _]. destruct (Hk _ _ Hid') as [<- _]. congruence.
Qed.
(** Without its entry, a buffer has no reference left. *)
Lemma unlisted_refs s tbl id h c :
  sound s (tokens tbl) → keyed tbl → tbl !! id = Some h → h_ctl h = Some c →
  count_refs c (refs_of (tokens (delete id tbl))) = 0.
Proof.
  intros Hs Hk Hid Hc. apply count_refs_zero. intros r Hin Heq.
  apply refs_of_inv in Hin as (t & Ht & Htr). apply tokens_inv in Ht as (id' & h' & Hid' & ->).
  apply lookup_delete_Some in Hid' as [Hne Hid']. cbn in Htr. destruct (h_ctl h') as [c'|] eqn:Hc'; [|done].
  injection Htr as <-. cbn in Heq. subst c'. by apply Hne, (entry_unique s tbl id id' h h' c).
Qed.
(** Every entry is a live buffer, and its only reference. *)
Lemma entry_live s tbl id h :
  sound s (tokens tbl) → keyed tbl → tbl !! id = Some h →
  ∃ c, h_ctl h = Some c ∧ registry_ s !! h_id h = Some c
       ∧ finalized (ctl_at s c) = false ∧ refs (ctl_at s c) = 1.
Proof.
  intros Hs Hk Hid. destruct (Hk _ _ Hid) as [_ [c Hc]]. exists c. split; [done|].
  destruct (handle_live s _ h c Hs (tokens_elem _ _ _ Hid) Hc) as (k & H1 & Hf & Hi & _).
  pose proof (so_coherent _ _ Hs) as Hco. destruct (abs_live s c k H1) as [Hf' _].
  split; [apply (co_reg _ _ _ _ Hco); by exists k|]. split; [congruence|].
  destruct (co_ctl _ _ _ _ Hco c k H1) as [Hr _ _ _ _]. rewrite (abs_ctl_at _ _ _ H1) in Hr. cbn in Hr.
  rewrite Hr. pose proof (refs_of_perm _ _ (tokens_delete _ _ _ Hid)) as Hp.
  unfold count_refs. rewrite (sum_list_perm _ _ _ Hp), (refs_of_some _ (mkRef c None)) by (simpl; by rewrite Hc).
  change (uses c (mkRef c None) + count_refs c (refs_of (tokens (delete id tbl))) = 1).
  by rewrite uses_self, (unlisted_refs s tbl id h c).
Qed.
(** Every live buffer has an entry. *)
Lemma registered_entry s tbl i c :
  sound s (tokens tbl) → registry_ s !! i = Some c → ∃ id h, tbl !! id = Some h ∧ h_id h = i.
Proof.
  intros Hs Hreg. pose proof (so_coherent _ _ Hs) as Hco.
  apply (co_reg _ _ _ _ Hco) in Hreg as (k & Hk & Hi & Hf).
  destruct (co_ctl _ _ _ _ Hco c k Hk) as [_ _ Hz _ _].
  assert (¬ ∀ r, r ∈ refs_of (tokens tbl) → ref_ctl r ≠ c) as Hex.
  { intros Hno. apply count_refs_zero, Hz in Hno. congruence. }
  assert (Exists (λ r, ref_ctl r = c) (refs_of (tokens tbl))) as He.
  { destruct (decide (Exists (λ r, ref_ctl r = c) (refs_of (tokens tbl)))) as [|Hno]; [done|].
    destruct Hex. intros r Hr Heq. apply Hno, Exists_exists. eauto. }
  apply Exists_exists in He as (r & Hin & Hr). apply refs_of_inv in Hin as (t & Ht & Htr).
  pose proof Ht as Ht'. apply tokens_inv in Ht' as (id & h & Hid & ->). exists id, h. split; [done|].
  cbn in Htr. destruct (h_ctl h) as [c'|] eqn:Hc; [|done]. injection Htr as <-. cbn in Hr. subst c'.
  destruct (handle_live s _ h c Hs Ht Hc) as (k' & Hk' & _ & Hi' & _). cbn in Hk. congruence.
Qed.
Lemma registry_size s tbl : sound s (tokens tbl) → keyed tbl → size (registry_ s) = size tbl.
Proof.
  intros Hs Hk. rewrite <- !length_map_to_list.
  rewrite <- (length_fmap fst (map_to_list (registry_ s))), <- (length_fmap (h_id ∘ snd) (map_to_list tbl)).
  apply Permutation_length, NoDup_Permutation.
  - apply NoDup_fst_map_to_list.
  - apply NoDup_fmap_2_strong; [|apply NoDup_map_to_list]. intros [id h] [id' h'] H1 H2 Heq. cbn in Heq.
    apply elem_of_map_to_list in H1, H2. pose proof (proj1 (Hk _ _ H1)) as E1. pose proof (proj1 (Hk _ _ H2)) as E2.
    rewrite Heq in E1. assert (id = id') by congruence. subst id'. congruence.
  - intros i. rewrite !list_elem_of_fmap. split.
    + intros ([i' c] & -> & Hin). apply elem_of_map_to_list in Hin.
      destruct (registered_entry s tbl i' c Hs Hin) as (id & h & Hid & <-).
      exists (id, h). split; [done|]. by apply elem_of_map_to_list.
    + intros ([id h] & -> & Hin). apply elem_of_map_to_list in Hin.
      destruct (entry_live s tbl id h Hs Hk Hin) as (c & _ & Hreg & _).
      exists (h_id h, c). split; [done|]. by apply elem_of_map_to_list.
Qed.
End table.

Lemma a_drop_present c A : is_Some (actls A !! c) → is_Some (actls (a_drop c A) !! c).
Proof.
  intros [k Hk]. unfold a_drop, a_finalize. rewrite Hk. cbn. rewrite lookup_alter_eq, Hk. cbn.
  repeat case_match; cbn; rewrite ?lookup_alter_eq, ?Hk; cbn; by eexists.
Qed.

(** ** Numbers and words *)

Fixpoint all_digits (s : string) : bool :=
  match s with
  | EmptyString => true
  | String c s' => match digit c with Some _ => all_digits s' | None => false end
  end.

Lemma digit_char x : (x < 10)%N → digit (pretty_N_char x) = Some (Z.of_N x).
Proof. intros Hx. do 10 (destruct x as [|x] using N.peano_ind; [done|clear IHx]). lia. Qed.
Lemma digits_value_go x s : digits_value 0 (pretty_N_go x s) = digits_value (Z.of_N x) s.
Proof.
  revert s. induction (N.lt_wf_0 x) as [x _ IH]. intros s.
  destruct (decide (x = 0)%N) as [->|Hx]; [done|]. rewrite pretty_N_go_step by lia.
  rewrite IH by (apply N.div_lt; lia). cbn [digits_value].
  rewrite digit_char by (apply N.mod_lt; lia). f_equal.
  rewrite N2Z.inj_div, N2Z.inj_mod. pose proof (Z.div_mod (Z.of_N x) 10). lia.
Qed.
Lemma all_digits_go x s : all_digits (pretty_N_go x s) = all_digits s.
Proof.
  revert s. induction (N.lt_wf_0 x) as [x _ IH]. intros s.
  destruct (decide (x = 0)%N) as [->|Hx]; [done|]. rewrite pretty_N_go_step by lia.
  rewrite IH by (apply N.div_lt; lia). cbn [all_digits]. by rewrite digit_char by (apply N.mod_lt; lia).
Qed.
Lemma go_nonempty x s : (0 < x)%N ∨ s ≠ "" → pretty_N_go x s ≠ "".
Proof.
  revert s. induction (N.lt_wf_0 x) as [x _ IH]. intros s Hs.
  destruct (decide (x = 0)%N) as [->|Hx]; [destruct Hs; [lia|done]|]. rewrite pretty_N_go_step by lia.
  apply IH; [apply N.div_lt; lia|by right].
Qed.
Lemma pretty_digits n : 0 ≤ n → all_digits (pretty n) = true ∧ pretty n ≠ "" ∧ digits_value 0 (pretty n) = n.
Proof.
  intros Hn. destruct n as [|p|p]; [done| |lia].
  change (pretty (Z.pos p)) with (pretty_N_go (N.pos p) "").
  rewrite all_digits_go, digits_value_go. split; [done|]. split; [|done]. apply go_nonempty. by left.
Qed.

(** The numbers the tool prints are the numbers it reads. *)
Lemma strtoull_pretty n : is_u64 n → strtoull (pretty n) = n.
Proof.
  intros Hn. destruct (pretty_digits n) as (Hd & Hne & Hv); [apply Hn|].
  assert (to_u64 false n = n) as Ht.
  { unfold to_u64. destruct (two64 <=? n) eqn:E; [|done]. bool_prop. unfold is_u64 in Hn. lia. }
  rewrite <- Ht, <- Hv at 2. destruct (pretty n) as [|c s]; [done|]. cbn [strtoull]. cbn [all_digits] in Hd.
  assert (is_space c = false ∧ Ascii.eqb c "-" = false ∧ Ascii.eqb c "+" = false) as (-> & -> & ->); [|done].
  destruct c as [[] [] [] [] [] [] [] []]; by cbn in *.
Qed.
Lemma app_cons_assoc (s : string) c t : (s +:+ String c "") +:+ t = s +:+ String c t.
Proof. induction s as [|d s IH]; [done|]. exact (f_equal (String d) IH). Qed.
Lemma app_nil (s : string) : s +:+ "" = s.
Proof. induction s as [|d s IH]; [done|]. exact (f_equal (String d) IH). Qed.
Lemma split_digits cur s : all_digits s = true → cur +:+ s ≠ "" → split_from cur s = [cur +:+ s].
Proof.
  revert cur. induction s as [|c s IH]; intros cur Hd Hne; cbn [split_from].
  - rewrite app_nil in *. by destruct cur.
  - cbn [all_digits] in Hd. destruct (digit c) eqn:Hc; [|done].
    assert (is_space c = false) as -> by (destruct c as [[] [] [] [] [] [] [] []]; by cbn in *).
    rewrite IH, app_cons_assoc; [done..|]. by rewrite app_cons_assoc.
Qed.
Lemma split_free n : 0 ≤ n → split ("free " +:+ pretty n) = ["free"; pretty n].
Proof.
  intros Hn. destruct (pretty_digits n Hn) as (Hd & Hne & _). unfold split.
  change (split_from "" ("free " +:+ pretty n)) with ("free" :: split_from "" (pretty n)).
  by rewrite split_digits by done.
Qed.

(** * Properties *)

Section tool.
Context {P : Platform} {O : OsResources P} `{!Unguarded O}.
Context (garbage : BackendId) (bench_figure : string).

(** C21: the tool gives everything back. Whatever its arguments and whatever lines it
    reads, with whichever operations failing on the way, when [main] returns the process
    holds no block, handle, view or device memory any more, except the device slots that
    were lost when zeroing them failed; so nothing at all if no device was attached.  (The
    bound is the number of identities 64 bits can name.) *)
Theorem tool_returns_everything (seed : Z) (argv lines : list string) (m : Machine) :
  m_holds [] m → 1 + line_ids + session_ids lines < two64 - 1 →
  let s' := (main garbage bench_figure seed argv lines m).2 in
  m_holds (leaked_resources s') (machine s')
  ∧ Forall (λ l, l.1 = MemoryDomain.DEVICE) (leaked s')
  ∧ (domain (RuntimeImpl_new RuntimeConfig_default seed m).1 MemoryDomain.DEVICE = None → leaked s' = []).
Proof.
  intros Hm Hn. destruct (At_start seed m [] nothing_lost Hm) as (Hbk & Hcon & HA). unfold main, main_locals.
  set (s := (RuntimeImpl_new RuntimeConfig_default seed m).1) in *. rewrite bind_run.
  destruct (main_body_shows _ [] Hbk Hcon garbage bench_figure device_affordable argv lines 1 s Hn HA) as [HA1 _].
  rewrite 2!bind_run. cbn [ret snd]. apply (At_destroy_table _ [] Hbk Hcon) in HA1; [|exact Hn].
  destruct (shutdown_empty _ [] Hbk _ _ HA1) as (Hl & Hu & Hh). rewrite app_nil_r in Hh.
  split; [exact Hh|]. split; [exact Hl|]. by apply (no_device_no_loss _ _ Hl Hu).
Qed.

(** The states a session on the default runtime goes through. *)
Definition session (seed : Z) (lines : list string) (m : Machine) : (Table * list string) * RuntimeImpl :=
  interactive garbage bench_figure lines ∅ (RuntimeImpl_new RuntimeConfig_default seed m).1.
Lemma session_shows seed lines m :
  m_holds [] m → 1 + session_ids lines < two64 - 1 →
  let q := session seed lines m in
  let bk := backends (RuntimeImpl_new RuntimeConfig_default seed m).1 in
  backends_owned bk
  ∧ (∀ d dom, domain_in bk d = Some dom → DomainContract dom ∧ IDomain.domain dom = d)
  ∧ Shows bk [] (1 + session_ids lines) q.2 q.1.1.
Proof.
  intros Hm Hn. cbv zeta. destruct (At_start seed m [] nothing_lost Hm) as (Hbk & Hcon & HA). split; [done|]. split; [done|].
  apply (interactive_shows _ [] Hbk Hcon _ _ device_affordable); [done|by apply Shows_empty].
Qed.

(** C22: the table of the tool is the registry of its runtime. After any lines, an entry
    is filed under the low word of its identity, its buffer is registered and not
    finalized, and the entry is its only reference; there is no other registered
    buffer; and [info] prints how many entries there are. *)
Theorem table_is_registry (seed : Z) (lines : list string) (m : Machine) :
  m_holds [] m → 1 + session_ids lines < two64 - 1 →
  let tbl := (session seed lines m).1.1 in
  let s := (session seed lines m).2 in
  (∀ id h, tbl !! id = Some h →
     lo (h_id h) = id
     ∧ ∃ c, h_ctl h = Some c ∧ registry_ s !! h_id h = Some c
            ∧ finalized (ctl_at s c) = false ∧ refs (ctl_at s c) = 1)
  ∧ size (registry_ s) = size tbl
  ∧ out (handle_cmd garbage bench_figure ["info"] tbl s).1
    = ["unified-buffer 1.0.0"; "active_buffers=" +:+ pretty (Z.of_nat (size tbl))].
Proof.
  intros Hm Hn. destruct (session_shows seed lines m Hm Hn) as (_ & _ & [HA Hk]).
  cbv zeta. destruct (session seed lines m) as [[tbl o] s]. cbn [fst snd] in *.
  pose proof (at_sound _ _ _ _ _ HA) as Hs. pose proof (registry_size s tbl Hs Hk) as Hsize. split_and!.
  - intros id h Hid. split; [by apply Hk|by apply (entry_live s tbl id)].
  - done.
  - cbn [handle_cmd String.eqb Ascii.eqb Bool.eqb]. rewrite bind_run. cbn [ret fst out say]. unfold show. rewrite bind_run.
    cbn [ret fst]. unfold Runtime_stats, guarded, runtime_stats. rewrite !bind_run. cbn [ret fst st_counter get].
    cbn [telemetry]. by rewrite Hsize.
Qed.

(** What the tool prints, it understands. For every entry of the table, the line
    [free <id>] with the identity as the tool prints it is split and read back to that
    entry: it is removed, nothing else is, and its buffer is finalized and leaves the
    registry. *)
Theorem printed_identity_frees (seed : Z) (lines : list string) (m : Machine) (id : Z) (h : BufferHandle) (c : nat) :
  m_holds [] m → 1 + session_ids lines < two64 - 1 →
  let tbl := (session seed lines m).1.1 in
  let s := (session seed lines m).2 in
  tbl !! id = Some h → h_ctl h = Some c →
  let q := handle_cmd garbage bench_figure (split ("free " +:+ pretty id)) tbl s in
  q.1 = mkReply true (delete id tbl) ["freed id=" +:+ pretty id]
  ∧ registry_ q.2 !! h_id h = None ∧ finalized (ctl_at q.2 c) = true.
Proof.
  intros Hm Hn. destruct (session_shows seed lines m Hm Hn) as (Hbk & Hcon & HS).
  cbv zeta. destruct (session seed lines m) as [[tbl o] s]. cbn [fst snd] in *. intros Hid Hc.
  pose proof HS as [HA Hk]. pose proof (at_sound _ _ _ _ _ HA) as Hs. destruct (Hk _ _ Hid) as [Hlo _].
  destruct (handle_live s _ h c Hs (tokens_elem _ _ _ Hid) Hc) as (k & Hctl & _ & Hkid & Hrt & Hval).
  destruct (co_ctl _ _ _ _ (so_coherent _ _ Hs) c k Hctl) as [_ _ _ _ [_ Hrange]].
  rewrite Hkid, Hlo in Hrange. pose proof (at_ids _ _ _ _ _ HA) as Hids. cbn in Hrange.
  rewrite split_free by lia.
  pose proof (keeps_free _ [] Hbk Hcon [pretty id] tbl (1 + session_ids lines) s ltac:(lia) HS) as [HA' Hk'].
  change (handle_cmd garbage bench_figure ["free"; pretty id] tbl s) with (cmd_free [pretty id] tbl s).
  assert (cmd_free [pretty id] tbl s = (mkReply true (delete id tbl) ["freed id=" +:+ pretty id], (drop_ref c s).2)) as Hrun.
  { unfold cmd_free, with_entry. rewrite strtoull_pretty by (unfold is_u64; lia). rewrite Hid, bind_run.
    unfold handle_release. rewrite Hc, Hval, Hrt. cbn [negb]. by rewrite !bind_run. }
  rewrite Hrun in *. cbn [fst snd table] in *. split; [done|].
  pose proof (at_sound _ _ _ _ _ HA') as Hs'. split.
  - destruct (registry_ (drop_ref c s).2 !! h_id h) as [c'|] eqn:Hreg; [|done].
    destruct (registered_entry _ _ _ _ Hs' Hreg) as (id' & h' & Hid' & Heq).
    pose proof (proj1 (Hk' _ _ Hid')) as Hlo'. rewrite Heq, Hlo in Hlo'. subst id'.
    by rewrite lookup_delete_eq in Hid'.
  - destruct (drop_ref_spec c s) as [Ha _]; [by apply (abs_live s c k)|].
    assert (is_Some (actls (abs (drop_ref c s).2) !! c)) as [k' Hk2] by (rewrite Ha; apply a_drop_present; by eexists).
    destruct (co_ctl _ _ _ _ (so_coherent _ _ Hs') c k' Hk2) as [_ _ Hf _ _].
    destruct (abs_live _ c k' Hk2) as [<- _]. by apply Hf, (unlisted_refs s tbl id h c).
Qed.

(** The reply to [alloc]. On an open runtime the command either stores the new
    handle under the low word of its identity and prints that identity, the size it read
    and the domain, or it leaves the table alone and prints [alloc failed:] with nothing
    after it: the facade has dropped the text of the error on the way. *)
Theorem alloc_reply (size : string) (more : list string) (tbl : Table) (s : RuntimeImpl) :
  closed_ s = false →
  let r := (cmd_alloc (size :: more) tbl s).1 in
  let d := match more with d :: _ => alloc_domain d | [] => MemoryDomain.HOST end in
  (table r = tbl ∧ out r = ["alloc failed: "])
  ∨ ∃ h, is_Some (h_ctl h) ∧ table r = <[lo (h_id h) := h]> tbl
         ∧ out r = ["allocated id=" +:+ pretty (lo (h_id h)) +:+ " size=" +:+ pretty (strtoull size)
                    +:+ " domain=" +:+ MemoryDomain.MemoryDomain_to_string d].
Proof.
  intros Ho. cbv zeta. unfold cmd_alloc. cbv zeta. rewrite bind_run. set (req0 := default_request _ _ _).
  destruct (pick_device_req req0 s) as (Hsz & _ & Hd).
  assert (closed_ (pick_device req0 s).2 = false) as Ho'.
  { unfold pick_device, Runtime_devices, guarded. destruct (bool_decide _); [|done]. rewrite bind_run.
    cbn [ret snd]. by rewrite (st_open _ _ (static_steady _ _ (q_static _ _ (quiet_devices_info s)))). }
  destruct (pick_device req0 s) as [req s1]. cbn [fst snd] in *. rewrite bind_run.
  pose proof (allocate_handle req s1) as Hh.
  destruct (Runtime_allocate true req s1) as [[h|e] s2] eqn:Hrun; cbn [fst snd] in *.
  - right. exists h. split; [by apply Hh|]. rewrite bind_run, assign_handle_run. cbn [ret fst table out say].
    split; [done|]. by rewrite Hsz, Hd.
  - left. split; [done|]. cbn [ret fst out say]. unfold Runtime_allocate, guarded in Hrun. rewrite bind_run in Hrun.
    cbn [fst snd get] in Hrun. rewrite Ho', bind_run in Hrun.
    destruct (allocate_record req s1) as [[r|e'] s3]; [|by injection Hrun as <- _].
    cbn [fst snd] in Hrun. rewrite !bind_run in Hrun. done.
Qed.
End tool.

(** * Witnesses *)

Definition demo_lines : list string := ["alloc 5000"; "alloc 64 shared --nopool"; "stats"].
Definition demo_main := main BackendId.HOST_MALLOC "0.000" 7.
Abbreviation demo_session := (session BackendId.HOST_MALLOC "0.000" 7 demo_lines sim_machine).
Lemma demo_bound : 1 + line_ids + session_ids demo_lines < two64 - 1.
Proof. reflexivity. Qed.

Lemma demo_keeps : leaked_resources (demo_main [] demo_lines sim_machine).2 = [].
Proof. vm_compute. reflexivity. Qed.
Lemma tool_returns_everything_witness :
  sim_held (os (machine (demo_main [] demo_lines sim_machine).2)) = [].
Proof.
  destruct (tool_returns_everything BackendId.HOST_MALLOC "0.000" 7 [] demo_lines sim_machine
              sim_start_holds demo_bound) as [[Hp _] _].
  fold demo_main in Hp. rewrite demo_keeps in Hp. apply Permutation_nil. exact Hp.
Defined.
Lemma demo_table : size demo_session.1.1 = 2%nat.
Proof. vm_compute. reflexivity. Qed.
Lemma table_is_registry_witness : size (registry_ demo_session.2) = 2%nat.
Proof.
  etransitivity; [|exact demo_table].
  exact (proj1 (proj2 (table_is_registry BackendId.HOST_MALLOC "0.000" 7 demo_lines sim_machine
                         sim_start_holds eq_refl))).
Defined.
Lemma demo_entry : ∃ h, demo_session.1.1 !! 1 = Some h ∧ h_ctl h = Some 0%nat.
Proof. eexists; vm_compute; split; reflexivity. Qed.
Lemma printed_identity_frees_witness :
  finalized (ctl_at (handle_cmd BackendId.HOST_MALLOC "0.000" (split ("free " +:+ pretty 1))
                       demo_session.1.1 demo_session.2).2 0) = true.
Proof.
  destruct demo_entry as (h & Hid & Hc).
  apply (printed_identity_frees BackendId.HOST_MALLOC "0.000" 7 demo_lines sim_machine 1 h 0
           sim_start_holds eq_refl Hid Hc).
Defined.
(** A zero-size request. *)
Lemma alloc_reply_witness :
  out (cmd_alloc ["0"] ∅ sim_runtime).1 = ["alloc failed: "].
Proof.
  destruct (alloc_reply "0" [] ∅ sim_runtime eq_refl) as [[_ H]|(h & _ & Ht & _)]; [exact H|].
  exfalso. assert (table (cmd_alloc ["0"] ∅ sim_runtime).1 = ∅) as H0 by (vm_compute; reflexivity).
  rewrite H0 in Ht. symmetry in Ht. by apply insert_non_empty in Ht.
Defined.
