(* ===== verification/Traffic.v ===== *)
(** Many threads allocating and releasing at once.  Concurrency.v interleaves the
    accesses to one control block; here whole allocations and releases, over the
    shared runtime, are cut where the source leaves a mutex: one critical section of
    [ns_mtx_], [pool_mtx_] or [registry_mtx_], one atomic operation or one call of a
    backend is one [stage_step].  What a step reads beside that (the configuration, the
    policy of a namespace) no step writes.  The pooled branches of [Take] and [Dispose]
    join the sections of the pool and of the ledger; the theorems on interleavings are
    about unpooled requests, which do not take them.

    A worker runs the loop of examples/concurrent.cpp: allocate, map, write a byte,
    release the map, release the handle, and the next request.  The handle belongs to
    the worker alone, so its map and unmap are one step each. *)
From S2P Require Import Prelude Types Platform State Ledger Pool Lifecycle Runtime Handle Facade Frames Shell.

(** How the backing was disposed of, which decides what the ledger is told. *)
Inductive Disposal : Set := Pooled | Evicted | Freed.

(** Where a worker is; [al] and [n] are the validated alignment and size, [r] the local
    record, [a] the backing, [c] the control block. *)
Inductive Stage : Set :=
  | Idle | Stopped
  (* Runtime::allocate *)
  | Begin | Count (al n : Z) | Reserve (al n : Z) | Name (al n : Z)
  | Take (al n : Z) (r : BufferRecord) | Back (al n : Z) (r : BufferRecord)
  | Commit (n : Z) (r : BufferRecord) (a : NativeAllocation)
  | Zero (n : Z) (r : BufferRecord) (a : NativeAllocation) (slot : option PoolSlot)
  | Register (r : BufferRecord) | Retain (c : nat)
  (* its error paths *)
  | Discard (n : Z) (a : NativeAllocation) | UndoReserve (n : Z) | UndoCount (reservation : bool)
  | UndoCheckout (a : NativeAllocation)
  | UndoZeroed (n : Z) (a : NativeAllocation) | DiscardZeroed (a : NativeAllocation)
  (* the client *)
  | Held (h : BufferHandle) | Fill (h : BufferHandle) (m : BufferMap)
  | Unmap (h : BufferHandle) (m : BufferMap) | Unhand (h : BufferHandle)
  (* finalize *)
  | Finalize (c : nat) | Dispose (c : nat) (r : BufferRecord)
  | Settle (c : nat) (r : BufferRecord) (how : Disposal)
  | Retire (c : nat) (r : BufferRecord) (went_pooled : bool)
  | Erase (r : BufferRecord) (went_pooled : bool).

Section traffic.
Context {P : Platform}.

(** The domain of the request; [validate_request] has seen it. *)
Definition at_domain (req : AllocationRequest) (k : IDomain → M RuntimeImpl Stage)
    : M RuntimeImpl Stage :=
  let! s := get in
  match domain s (req_domain req) with Some dom => k dom | None => ret Stopped end.

(** [Runtime::allocate] up to the handle. *)
Definition allocate_stage (req : AllocationRequest) (st : Stage) : M RuntimeImpl Stage :=
  let ns := req_ns req in
  let d := req_domain req in
  match st with
  | Begin =>
      let! s := get in
      if closed_ s then ret Stopped else
      match validate_request s req with
      | Fail _ => tick failed_allocations ;;; ret Stopped
      | Ok (al, n) => ret (Count al n)
      end
  | Count al n =>
      let! q := reserve_count ns in
      match q with
      | Fail _ => tick failed_allocations ;;; ret Stopped
      | Ok _ => ret (Reserve al n)
      end
  | Reserve al n =>
      let! q := reserve_amount ns d n in
      ret (match q with Fail _ => UndoCount true | Ok _ => Name al n end)
  | Name al n =>
      at_domain req (λ dom,
        let! id := next_id in
        let! epoch := now_epoch_ms in
        ret (Take al n (fresh_record dom req id al epoch)))
  | Take al n r =>
      let! slot := take_from_pool req r n in
      ret (match slot with Some sl => Zero n r (slot_backing sl) slot | None => Back al n r end)
  | Back al n r =>
      at_domain req (λ dom,
        let! x := on_machine (IDomain.allocate dom n al) in
        ret (match x with Fail _ => UndoReserve n | Ok a => Commit n r a end))
  | Commit n r a =>
      let! x := commit_amount ns d (na_committed a) in
      ret (match x with Fail _ => Discard n a | Ok _ => Zero n r a None end)
  | Zero n r a slot =>
      at_domain req (λ dom,
        let! s := get in
        let from_pool := match slot with Some _ => true | None => false end in
        if wants_zero (effective_policy s req) (slot_last_owner <$> slot) ns then
          let! z := on_machine (IDomain.zero dom a 0 (na_committed a)) in
          match z with
          | Fail _ => ret (match slot with Some _ => UndoCheckout a | None => UndoZeroed n a end)
          | Ok _ => tick zero_count ;;;
                    ret (Register (attach_backing (cfg s) r a from_pool))
          end
        else ret (Register (attach_backing (cfg s) r a from_pool)))
  | Register r => let! c := register_control r in ret (Retain c)
  | Retain c => let! h := new_handle c in ret (Held h)
  | _ => ret st
  end.

(** The rollbacks of a failed allocation. *)
Definition undo_stage (req : AllocationRequest) (st : Stage) : M RuntimeImpl Stage :=
  let ns := req_ns req in
  let d := req_domain req in
  match st with
  | Discard n a => at_domain req (λ dom, discard_with dom a ;;; ret (UndoReserve n))
  | UndoReserve n => unreserve_amount ns d n ;;; ret (UndoCount false)
  | UndoCount reservation =>
      release_count ns ;;;
      tick failed_allocations ;;;
      (if reservation : bool then tick reservation_failures else ret tt) ;;;
      ret Stopped
  | UndoCheckout a =>
      free_accounting ns d (na_committed a) ;;; on_machine (drop_state a) ;;; lose d a ;;;
      tick failed_allocations ;;; ret Stopped
  | UndoZeroed n a => unreserve_amount ns d n ;;; ret (DiscardZeroed a)
  | DiscardZeroed a => at_domain req (λ dom, discard_with dom a ;;; ret (UndoCount false))
  | _ => ret st
  end.

(** What the loop does with a handle; [byte] is what it writes. *)
Definition client_stage (byte : Z) (st : Stage) : M RuntimeImpl Stage :=
  match st with
  | Held h =>
      let! m := handle_map h AccessMode.READ_WRITE in
      ret (match m with Ok bm => Fill h bm | Fail _ => Unhand h end)
  | Fill h m =>
      on_machine (modify (set_mem (λ f a, if a =? map_data m then byte else f a))) ;;;
      ret (Unmap h m)
  | Unmap h m => let! _ := map_release m in ret (Unhand h)
  | Unhand h =>
      match h_ctl h with
      | Some c =>
          if h_valid h && h_rt h then
            let! ctl := get_ctl c in
            upd_ctl c (set_refs (refs ctl - 1)) ;;;
            ret (if refs ctl =? 1 then Finalize c else Idle)
          else ret Idle
      | None => ret Idle
      end
  | _ => ret st
  end.

(** [finalize] of a block nobody refers to any more. *)
Definition finalize_stage (st : Stage) : M RuntimeImpl Stage :=
  match st with
  | Finalize c =>
      let! ctl := get_ctl c in
      if finalized ctl then ret Idle
      else upd_ctl c (set_finalized true) ;;; ret (Dispose c (rec ctl))
  | Dispose c r =>
      let! s := get in
      if backing_present (rec_backing r) && negb (bool_decide (rec_ownership r = Ownership.BORROWED))
      then
        if rec_pool_eligible r && pooled_flag (rec_flags r) && pooling_on (cfg s)
        then
          zero_on_release r ;;;
          upd_ctl c (set_rec (set_rec_backing (na_moved_from (rec_backing r)))) ;;;
          let! went := pool_put (make_pool_key (cfg s) r)
                         (mkPoolSlot (rec_backing r) (rec_id r) (rec_ns r) false) in
          ret (Settle c r (if went : bool then Pooled else Evicted))
        else
          (if bool_decide (rec_ownership r = Ownership.ADOPTED)
           then upd_ctl c (set_rec (set_rec_ownership Ownership.RUNTIME)) else ret tt) ;;;
          discard_backing (rec_domain r) (rec_backing r) ;;;
          ret (Settle c r Freed)
      else
        on_machine (drop_state (rec_backing r)) ;;;
        upd_ctl c (set_rec (set_rec_backing NativeAllocation_default)) ;;;
        ret (Retire c r false)
  | Settle c r Pooled =>
      release_amount (rec_ns r) (rec_domain r) (rec_committed r) true ;;; ret (Retire c r true)
  | Settle c r Evicted =>
      free_accounting (rec_ns r) (rec_domain r) (rec_committed r) ;;; ret (Retire c r false)
  | Settle c r Freed =>
      free_accounting (rec_ns r) (rec_domain r) (rec_committed r) ;;;
      upd_ctl c (set_rec (set_rec_backing NativeAllocation_default)) ;;;
      ret (Retire c r false)
  | Retire c r went =>
      upd_ctl c (set_rec (set_rec_state BufferState.RELEASED)) ;;;
      release_count (rec_ns r) ;;;
      ret (Erase r went)
  | Erase r went =>
      modify (λ s, set_registry (delete (rec_id r) (registry_ s)) s) ;;;
      tick total_frees ;;;
      untick active_buffers ;;;
      untick outstanding_allocations ;;;
      note "finalize" (MemoryDomain.MemoryDomain_to_string (rec_domain r) +:+ " id="
                       +:+ pretty (lo (rec_id r)) +:+ (if went : bool then " ->pool" else " ->free")) ;;;
      ret Idle
  | _ => ret st
  end.

Definition stage_step (req : AllocationRequest) (byte : Z) (st : Stage) : M RuntimeImpl Stage :=
  match st with
  | Idle | Stopped => ret st
  | Begin | Count _ _ | Reserve _ _ | Name _ _ | Take _ _ _ | Back _ _ _ | Commit _ _ _
  | Zero _ _ _ _ | Register _ | Retain _ => allocate_stage req st
  | Discard _ _ | UndoReserve _ | UndoCount _ | UndoCheckout _ | UndoZeroed _ _
  | DiscardZeroed _ => undo_stage req st
  | Held _ | Fill _ _ | Unmap _ _ | Unhand _ => client_stage byte st
  | Finalize _ | Dispose _ _ | Settle _ _ _ | Retire _ _ _ | Erase _ _ => finalize_stage st
  end.

(** A thread: the request it works on and the byte it writes, and what is left of its
    loop.  A failed allocation ends the loop. *)
Record Worker : Set := mkWorker {
  stage : Stage; job : AllocationRequest * Z; todo : list (AllocationRequest * Z) }.

Definition worker_step (w : Worker) (s : RuntimeImpl) : option (Worker * RuntimeImpl) :=
  match stage w, todo w with
  | Stopped, _ | Idle, [] => None
  | Idle, j :: rest => Some (mkWorker Begin j rest, s)
  | st, _ => let '(st', s') := stage_step (job w).1 (job w).2 st s in
             Some (mkWorker st' (job w) (todo w), s')
  end.
Definition done (w : Worker) : bool :=
  match stage w, todo w with Stopped, _ | Idle, [] => true | _, _ => false end.

(** The threads share the runtime; any of them moves. *)
Definition Traffic : Type := RuntimeImpl * list Worker.
Inductive traffic_step : Traffic → Traffic → Prop :=
  | traffic_move i w w' s s' ws :
      ws !! i = Some w → worker_step w s = Some (w', s') →
      traffic_step (s, ws) (s', <[i := w']> ws).
Definition traffic_start (s : RuntimeImpl) (jobs : list (list (AllocationRequest * Z))) : Traffic :=
  (s, (λ l, mkWorker Idle (default_request MemoryDomain.HOST 0 true, 0) l) <$> jobs).
Definition all_done (T : Traffic) : bool := forallb done T.2.

(** A schedule: which worker moves next; [None] if it has nothing to do. *)
Fixpoint play (sched : list nat) (T : Traffic) : option Traffic :=
  match sched with
  | [] => Some T
  | i :: rest =>
      match T.2 !! i with
      | Some w => match worker_step w T.1 with
                  | Some (w', s') => play rest (s', <[i := w']> T.2)
                  | None => None
                  end
      | None => None
      end
  end.

(** The body of the loop as one sequential program; whether it goes on. *)
Definition iteration (req : AllocationRequest) (byte : Z) : M RuntimeImpl bool :=
  let! r := Runtime_allocate true req in
  match r with
  | Fail _ => ret false
  | Ok h =>
      let! m := handle_map h AccessMode.READ_WRITE in
      (match m with
       | Ok bm =>
           on_machine (modify (set_mem (λ f a, if a =? map_data bm then byte else f a))) ;;;
           let! _ := map_release bm in ret tt
       | Fail _ => ret tt
       end) ;;;
      let! _ := handle_release h in
      ret true
  end.
(** A worker alone, for [n] steps. *)
Fixpoint alone (n : nat) (req : AllocationRequest) (byte : Z) (st : Stage) : M RuntimeImpl Stage :=
  match n with
  | O => ret st
  | S n' => let! st' := stage_step req byte st in alone n' req byte st'
  end.

(** ** examples/concurrent.cpp *)

Definition kThreads : nat := 8.
Definition kIters : nat := 200.
Definition concurrent_request : AllocationRequest := default_request MemoryDomain.HOST 4096 false.
Definition concurrent_jobs : list (AllocationRequest * Z) :=
  (λ i, (concurrent_request, Z.of_nat i mod 256)) <$> seq 0 kIters.
(** [main] after the threads have been joined: the lines it prints and its exit code
    ([st.value()] of a failed result would be a default-constructed one). *)
Definition concurrent_summary (v : RuntimeStats) : string :=
  "[concurrent] " +:+ pretty kThreads +:+ " threads x " +:+ pretty kIters
  +:+ " alloc/free cycles: active_buffers=" +:+ pretty (st_counter v active_buffers)
  +:+ " outstanding_allocations=" +:+ pretty (st_counter v outstanding_allocations)
  +:+ " host_bytes=" +:+ pretty (st_counter v host_bytes)
  +:+ " total_frees=" +:+ pretty (st_counter v total_frees).
Definition concurrent_report : M RuntimeImpl (list string * Z) :=
  let! st := Runtime_stats true in
  let v := value_or st RuntimeStats_default in
  let balanced := (st_counter v active_buffers =? 0) && (st_counter v outstanding_allocations =? 0)
                  && (st_counter v host_bytes =? 0) in
  ret (if balanced then ([concurrent_summary v; "[concurrent] PASS"%string], 0)
       else ([concurrent_summary v; "[concurrent] FAIL: accounting did not return to zero"%string], 1)).
Definition concurrent_start (s : RuntimeImpl) : Traffic :=
  traffic_start s (replicate kThreads concurrent_jobs).

End traffic.

(** * Uninterrupted workers *)

Section uninterrupted.
Context {P : Platform} (req : AllocationRequest) (byte : Z).

(** A worker that nobody interrupts gets from one stage to another. *)
Definition leads (st : Stage) (s : RuntimeImpl) (q : Stage * RuntimeImpl) : Prop :=
  ∃ n, alone n req byte st s = q.

Lemma leads_refl st s : leads st s (st, s).
Proof. by exists O. Qed.
Lemma leads_step st s q : leads (stage_step req byte st s).1 (stage_step req byte st s).2 q → leads st s q.
Proof. intros [n Hn]. exists (S n). cbn [alone]. by rewrite bind_run. Qed.
Lemma leads_trans st s st1 s1 q : leads st s (st1, s1) → leads st1 s1 q → leads st s q.
Proof.
  intros [n Hn] [k Hk]. exists (n + k)%nat. revert st s Hn. induction n as [|n IH]; intros st s Hn.
  - injection Hn as -> ->. exact Hk.
  - cbn [alone Nat.add] in *. rewrite bind_run in *. by apply IH.
Qed.

(** A stage whose domain is attached. *)
Lemma at_domain_run dom k s : domain s (req_domain req) = Some dom → at_domain req k s = k dom s.
Proof. intros Hd. unfold at_domain. rewrite bind_run. cbn [get fst snd]. by rewrite Hd. Qed.

(** What the stages make of the result of [allocate_record]. *)
Definition recorded (x : Result BufferRecord * RuntimeImpl) : Stage * RuntimeImpl :=
  (match x.1 with Ok r => Register r | Fail _ => Stopped end, x.2).
(** The end of [allocate_reserved], from the zeroing on. *)
Definition zero_and_attach dom n (r : BufferRecord) (a : NativeAllocation) (slot : option PoolSlot)
    : M RuntimeImpl (Result BufferRecord) :=
  let! z := zero_backing dom req n a slot in
  match z with
  | Fail e => ret (Fail e)
  | Ok _ => let! s := get in
            ret (Ok (attach_backing (cfg s) r a (match slot with Some _ => true | None => false end)))
  end.

Ltac step_stage := cbn [ret fst snd]; apply leads_step; cbn [stage_step allocate_stage undo_stage client_stage finalize_stage].

Lemma leads_zero dom n r a slot s :
  domain s (req_domain req) = Some dom →
  leads (Zero n r a slot) s (recorded (zero_and_attach dom n r a slot s)).
Proof.
  intros Hd. step_stage. rewrite (at_domain_run dom) by done. unfold zero_and_attach, zero_backing.
  rewrite !bind_run. cbn [get fst snd]. cbv zeta.
  destruct (wants_zero _ _ _); [|by apply leads_refl].
  rewrite !bind_run. set (m := on_machine (IDomain.zero dom a 0 (na_committed a))).
  pose proof (quiet_on_machine (IDomain.zero dom a 0 (na_committed a)) s : quiet s (m s).2) as Hq.
  destruct (m s) as [[u|e] s1]; cbn [fst snd] in *.
  - rewrite !bind_run. cbn [ret fst snd get]. unfold recorded. cbn [fst snd].
    rewrite <- (ss_cfg _ _ (q_static _ _ Hq)). by apply leads_refl.
  - destruct slot as [sl|]; [by step_stage; rewrite !bind_run; apply leads_refl|].
    step_stage. rewrite !bind_run. cbn [ret fst snd]. step_stage.
    rewrite (at_domain_run dom) by by rewrite (quiet_domain s); [|transitivity s1; [done|apply quiet_unreserve_amount]].
    rewrite !bind_run. cbn [ret fst snd]. step_stage. by apply leads_refl.
Qed.
Lemma leads_back dom al n r s :
  domain s (req_domain req) = Some dom →
  leads (Back al n r) s (recorded ((let! b := fresh_backing dom req n al in
    match b with Fail e => ret (Fail e) | Ok a => zero_and_attach dom n r a None end) s)).
Proof.
  intros Hd. step_stage. rewrite (at_domain_run dom) by done. unfold fresh_backing.
  rewrite !bind_run.
  pose proof (quiet_on_machine (IDomain.allocate dom n al) s) as Hq.
  destruct (on_machine _ s) as [[a|e] s1]; cbn [ret fst snd] in *.
  - step_stage. rewrite !bind_run. cbn [fst snd ret].
    pose proof (quiet_commit_amount (req_ns req) (req_domain req) (na_committed a) s1) as Hq1.
    assert (domain (commit_amount (req_ns req) (req_domain req) (na_committed a) s1).2 (req_domain req) = Some dom)
      as Hd1 by by rewrite (quiet_domain s); [|by transitivity s1].
    destruct (commit_amount _ _ _ s1) as [[u|e] s2]; cbn [ret fst snd] in *; [by apply leads_zero|].
    step_stage. rewrite (at_domain_run dom), !bind_run by done. cbn [ret fst snd].
    step_stage. rewrite !bind_run. cbn [ret fst snd]. step_stage. by apply leads_refl.
  - step_stage. rewrite !bind_run. cbn [ret fst snd]. step_stage. by apply leads_refl.
Qed.

Lemma leads_name dom al n s :
  domain s (req_domain req) = Some dom →
  leads (Name al n) s (recorded (allocate_reserved dom req al n s)).
Proof.
  intros Hd. step_stage. rewrite (at_domain_run dom) by done. unfold allocate_reserved.
  rewrite !bind_run. cbv zeta. cbn [ret fst snd].
  set (s1 := (now_epoch_ms (next_id s).2).2).
  assert (domain s1 (req_domain req) = Some dom) as Hd1
    by by rewrite (quiet_domain (next_id s).2) by apply quiet_now_epoch_ms.
  step_stage. set (r := fresh_record dom req _ al _). rewrite !bind_run.
  pose proof (quiet_take_from_pool req r n s1) as Hq.
  destruct (take_from_pool req r n s1) as [slot s2]; cbn [ret fst snd] in *.
  rewrite <- (quiet_domain _ _ _ Hq) in Hd1.
  destruct slot as [sl|]; [by apply leads_zero|]. pose proof (leads_back dom al n r s2 Hd1) as Hb.
  rewrite bind_run in Hb. by destruct (fresh_backing dom req n al s2) as [[a|e] s3].
Qed.

(** What they make of the result of [Runtime::allocate]. *)
Definition handed (x : Result BufferHandle * RuntimeImpl) : Stage * RuntimeImpl :=
  (match x.1 with Ok h => Held h | Fail _ => Stopped end, x.2).
Lemma leads_allocate s : leads Begin s (handed (Runtime_allocate true req s)).
Proof.
  assert (leads Begin s (recorded (allocate_record req s))) as Hrec.
  { step_stage. unfold allocate_record. rewrite !bind_run. cbn [get fst snd].
    destruct (closed_ s); [by apply leads_refl|].
    destruct (validate_request s req) as [[al n]|e] eqn:Hv; rewrite !bind_run; [|by apply leads_refl].
    step_stage. rewrite !bind_run. pose proof (quiet_reserve_count (req_ns req) s) as Hq.
    destruct (reserve_count _ s) as [[u|e] s1]; cbn [ret fst snd] in *;
      rewrite !bind_run; [|by apply leads_refl].
    step_stage. rewrite !bind_run. pose proof (quiet_reserve_amount (req_ns req) (req_domain req) n s1) as Hq1.
    destruct (reserve_amount _ _ _ s1) as [[u'|e] s2]; cbn [ret fst snd] in *.
    - unfold validate_request in Hv. destruct (_ =? 0); [done|]. destruct (_ <? _); [done|].
      destruct (domain s (req_domain req)) as [dom|] eqn:Hd; [|done]. apply leads_name.
      by rewrite (quiet_domain s); [|by transitivity s1].
    - step_stage. rewrite !bind_run. by apply leads_refl. }
  unfold Runtime_allocate, guarded. rewrite bind_run. cbn [get fst snd].
  destruct (closed_ s) eqn:Hc.
  { step_stage. rewrite bind_run. cbn [get fst snd]. rewrite Hc. by apply leads_refl. }
  rewrite bind_run. eapply leads_trans; [exact Hrec|]. unfold recorded.
  destruct (allocate_record req s) as [[r|e] s1]; cbn [fst snd]; [|by apply leads_refl].
  step_stage. rewrite !bind_run. step_stage. rewrite !bind_run. by apply leads_refl.
Qed.
Lemma leads_release h s : leads (Unhand h) s (Idle, (handle_release h s).2).
Proof.
  step_stage. unfold handle_release. destruct (h_ctl h) as [c|]; [|by apply leads_refl].
  destruct (h_valid h); cbn [negb andb]; [|by apply leads_refl].
  rewrite !bind_run. cbn [ret fst snd]. destruct (h_rt h); [|by apply leads_refl].
  unfold drop_ref. rewrite !bind_run. cbn [get_ctl gets fst snd ret].
  destruct (refs (ctl_at s c) =? 1); [|by apply leads_refl].
  set (s1 := (upd_ctl c _ s).2). step_stage. unfold finalize. rewrite !bind_run. cbn [get_ctl gets fst snd].
  destruct (finalized (ctl_at s1 c)); [by apply leads_refl|]. rewrite !bind_run. cbn [ret fst snd].
  set (s2 := (upd_ctl c _ s1).2). set (r := rec (ctl_at s1 c)). step_stage.
  unfold finalize_record, dispose_backing. rewrite !bind_run. cbn [get fst snd].
  destruct (_ && negb _).
  - rewrite andb_true_l. destruct (_ && pooling_on _).
    + rewrite !bind_run. cbn [ret fst snd]. destruct (pool_put _ _ _) as [[|] s3]; cbn [ret fst snd];
        step_stage; rewrite !bind_run; cbn [ret fst snd]; step_stage; rewrite !bind_run; cbn [ret fst snd];
        step_stage; rewrite !bind_run; by apply leads_refl.
    + rewrite !bind_run. cbn [ret fst snd]. step_stage; rewrite !bind_run; cbn [ret fst snd].
      step_stage; rewrite !bind_run; cbn [ret fst snd]; step_stage; rewrite !bind_run; by apply leads_refl.
  - rewrite !bind_run. cbn [ret fst snd].
    step_stage; rewrite !bind_run; cbn [ret fst snd]; step_stage; rewrite !bind_run; by apply leads_refl.
Qed.

(** A worker that runs on its own computes what the sequential program does. *)
Lemma leads_iteration s :
  let x := iteration req byte s in leads Begin s (if x.1 then Idle else Stopped, x.2).
Proof.
  cbv zeta. unfold iteration. rewrite bind_run. eapply leads_trans; [apply leads_allocate|]. unfold handed.
  destruct (Runtime_allocate true req s) as [[h|e] s1]; cbn [fst snd]; [|by apply leads_refl].
  step_stage. rewrite !bind_run. destruct (handle_map h AccessMode.READ_WRITE s1) as [[m|e] s2]; cbn [ret fst snd].
  - step_stage. rewrite !bind_run. step_stage. rewrite !bind_run. apply leads_release.
  - apply leads_release.
Qed.
End uninterrupted.
