(* ===== verification/Balance.v ===== *)
(** The books of concurrent allocation and release (Traffic.v): what every worker has
    charged to its namespace at each stage, and that the ledger and the registry are the
    initial ones plus what the workers hold, in every interleaving. *)
From S2P Require Import Prelude Types CheckedMath Platform HostBackend SharedBackend FileBackend Domain State Sim Ledger Pool Lifecycle Runtime Handle Facade SimRuntime Frames Allocation Charges Release Shell Traffic.

(** What the accounting expects of a domain beyond its contract: blocks are not null and
    zeroing a whole block cannot fail. *)
Class ReliableDomain `{Platform} (dom : IDomain) : Prop := {
  rd_present n al m a : (IDomain.allocate dom n al m).1 = Ok a → backing_present a = true;
  rd_zero : zero_total dom }.
#[export] Instance host_reliable `{Platform} h : ReliableDomain (host_domain h).
Proof.
  constructor; [|apply host_zero_total]. intros n al m x. unfold backing_present. simpl.
  unfold host_allocate. allocate_cases; try done; by rewrite (proj2 (Z.eqb_neq _ _)).
Qed.
#[export] Instance shared_reliable `{Platform} d : ReliableDomain (shared_domain d).
Proof.
  constructor; [|apply shared_zero_total]. intros n al m x. unfold backing_present. simpl.
  unfold shared_allocate. allocate_cases; try done; by rewrite (proj2 (Z.eqb_neq _ _)).
Qed.
#[export] Instance file_reliable `{Platform} d : ReliableDomain (file_domain d).
Proof.
  constructor; [|apply file_zero_total]. intros n al m x. unfold backing_present. simpl.
  unfold file_allocate. allocate_cases; try done; by rewrite (proj2 (Z.eqb_neq _ _)).
Qed.

(** The domains of a constructed runtime that do not go through the CUDA driver. *)
Definition without_cuda (d : MemoryDomain) : bool :=
  match d with MemoryDomain.DEVICE | MemoryDomain.PINNED_HOST => false | _ => true end.
Lemma constructed_reliable `{Platform} c seed m d dom :
  domain (RuntimeImpl_new c seed m).1 d = Some dom → without_cuda d = true → ReliableDomain dom.
Proof.
  unfold RuntimeImpl_new. rewrite !bind_run. cbn [ret fst snd]. unfold attach_shared_and_file_backends.
  destruct d; cbn [domain backends host_ shared_ file_ fst snd without_cuda]; try done.
  - destruct (enable_host c); [|done]. rewrite bind_run. cbn [ret fst]. intros [= <-] _. apply _.
  - destruct (enable_file c); rewrite ?bind_run; cbn [ret fst snd];
      (destruct (enable_shared c); [|done]); intros [= <-] _; apply _.
  - destruct (enable_file c); rewrite ?bind_run; cbn [ret fst snd]; [|done]. intros [= <-] _. apply _.
Qed.
(** The backends are those a constructor attached. *)
Definition constructed `{Platform} (s : RuntimeImpl) : Prop :=
  ∃ c seed m, backends s = backends (RuntimeImpl_new c seed m).1.
Lemma constructed_domain `{Platform} s d dom :
  constructed s → domain s d = Some dom →
  DomainContract dom ∧ IDomain.domain dom = d ∧ (without_cuda d = true → ReliableDomain dom).
Proof.
  intros (c & seed & m & Hb) Hd. assert (domain (RuntimeImpl_new c seed m).1 d = Some dom) as Hd'.
  { unfold domain in *. by rewrite <- Hb. }
  destruct (RuntimeImpl_new_domains c seed m d dom Hd'). split_and!; [done..|].
  by apply (constructed_reliable c seed m).
Qed.
Lemma constructed_domains_ok `{Platform} s : constructed s → domains_ok s.
Proof. intros Hs d dom Hd. destruct (constructed_domain s d dom Hs Hd) as (? & ? & _). done. Qed.

(** ** What a worker holds *)

(** Reserved bytes, committed (and allocated) bytes, counted allocations. *)
Record Claim : Set := mkClaim { cl_reserved : Z; cl_committed : Z; cl_count : Z }.
Definition no_claim : Claim := mkClaim 0 0 0.

Section claims.
Context {P : Platform}.
Implicit Types (s : RuntimeImpl) (st : Stage).

(** The control block of the worker. *)
Definition stage_ctl st : option nat :=
  match st with
  | Retain c | Finalize c | Dispose c _ | Settle c _ _ | Retire c _ _ => Some c
  | Held h | Fill h _ | Unmap h _ | Unhand h => h_ctl h
  | _ => None
  end.
Definition stage_record s st : option BufferRecord :=
  match st with
  | Register r | Dispose _ r | Settle _ r _ | Retire _ r _ | Erase r _ => Some r
  | _ => (λ c, rec (ctl_at s c)) <$> stage_ctl st
  end.
Definition stage_claim s st : Claim :=
  match st with
  | Reserve _ _ | UndoCount _ | Retire _ _ _ => mkClaim 0 0 1
  | Name _ n | Take _ n _ | Back _ n _ | Commit n _ _ | Discard n _ | UndoReserve n => mkClaim n 0 1
  | Zero _ _ a _ => mkClaim 0 (na_committed a) 1
  | Erase _ _ => no_claim
  | _ => match stage_record s st with
         | Some r => mkClaim 0 (rec_committed r) 1
         | None => no_claim
         end
  end.
(** The identity under which the registry lists its buffer. *)
Definition stage_id s st : option BufferId :=
  match st with Register _ => None | _ => rec_id <$> stage_record s st end.
(** Whether it will still draw an identity for its request. *)
Definition stage_draws st : Z :=
  match st with Begin | Count _ _ | Reserve _ _ | Name _ _ => 1 | _ => 0 end.
End claims.

(** ** One stage *)

Section stages.
Context {P : Platform} (s0 : RuntimeImpl).
Implicit Types (s : RuntimeImpl) (st : Stage) (r : BufferRecord).

(** The requests: no pooling, machine words, and no memory of the CUDA driver: where zeroing
    can fail the source does not balance its books (a fresh device block whose zeroing fails
    is freed, but what was committed for it stays charged). *)
Record request_ok (req : AllocationRequest) : Prop := {
  ro_unpooled : pooled_flag (req_flags req) = false;
  ro_size : is_u64 (req_size req);
  ro_al : is_u64 (req_alignment req);
  ro_domain : without_cuda (req_domain req) = true }.

Definition size_ok (n : Z) : Prop := 0 < n < two49.
(** A local record before it has a backing, and with one. *)
Record record_for (req : AllocationRequest) r : Prop := {
  rf_ns : rec_ns r = req_ns req;
  rf_domain : rec_domain r = req_domain req;
  rf_unpooled : pooled_flag (rec_flags r) = false;
  rf_owner : rec_ownership r = Ownership.RUNTIME;
  rf_id : id_counter_ s0 ≤ lo (rec_id r) }.
Record backed_for (req : AllocationRequest) r : Prop := {
  bf_record : record_for req r;
  bf_size : size_ok (rec_committed r);
  bf_present : backing_present (rec_backing r) = true }.
Definition block_ok n (a : NativeAllocation) : Prop :=
  size_ok n ∧ na_committed a = n ∧ backing_present a = true.
Definition served (req : AllocationRequest) : Prop := is_Some (domain s0 (req_domain req)).

(** The control block [c] with [n] references, not finalized. *)
Definition live_ctl s req c n : Prop :=
  ∃ k, controls s !! c = Some k ∧ refs k = n ∧ finalized k = false ∧ backed_for req (rec k).
Definition own_handle s req h n : Prop :=
  ∃ c, h_ctl h = Some c ∧ h_valid h = true ∧ h_rt h = true ∧ live_ctl s req c n.

(** What a stage knows. *)
Definition stage_ok s req st : Prop :=
  match st with
  | Idle | Stopped | Begin => True
  | Count _ n | Reserve _ n | Name _ n | Discard n _ | UndoReserve n => served req ∧ size_ok n
  | Take _ n r | Back _ n r => served req ∧ size_ok n ∧ record_for req r
  | Commit n r a | Zero n r a None => served req ∧ block_ok n a ∧ record_for req r
  | Register r => backed_for req r
  | Retain c => live_ctl s req c 0
  | UndoCount _ => True
  | Held h | Unhand h => own_handle s req h 1
  | Fill h m | Unmap h m => own_handle s req h 2 ∧ map_ctl m = h_ctl h
  | Finalize c => live_ctl s req c 0
  | Dispose c r | Settle c r Freed => is_Some (controls s !! c) ∧ backed_for req r
  | Retire c r _ => is_Some (controls s !! c) ∧ record_for req r
  | Erase r _ => record_for req r
  | Zero _ _ _ (Some _) | UndoCheckout _ | UndoZeroed _ _ | DiscardZeroed _ | Settle _ _ _ => False
  end.

(** The control blocks are numbered in the order of their creation. *)
Definition dense s : Prop := ∀ c, is_Some (controls s !! c) ↔ (c < size (controls s))%nat.
Record runs_on s : Prop := {
  ro_cfg : cfg s = cfg s0;
  ro_backends : backends s = backends s0;
  ro_closed : closed_ s = closed_ s0;
  ro_dense : dense s;
  ro_counter : 0 ≤ id_counter_ s0 ≤ id_counter_ s }.

(** The ledger has room for the worker's charges, and has them. *)
Record covered s (req : AllocationRequest) (cl : Claim) : Prop := {
  cv_sane : sane (req_ns req) (req_domain req) (ledger s);
  cv_reserved : cl_reserved cl ≤ reserved (ledger s) (req_ns req) (req_domain req);
  cv_committed : cl_committed cl ≤ committed (ledger s) (req_ns req) (req_domain req);
  cv_allocated : cl_committed cl ≤ allocated (ledger s) (req_ns req) (req_domain req);
  cv_count : cl_count cl ≤ allocs (ledger s) (req_ns req) }.

(** The ledger moves from one claim to another. *)
Definition recharged (req : AllocationRequest) (cl cl' : Claim) (l l' : Ledger) : Prop :=
  charge (req_ns req) (req_domain req) (cl_reserved cl' - cl_reserved cl)
    (cl_committed cl' - cl_committed cl) (cl_committed cl' - cl_committed cl)
    (cl_count cl' - cl_count cl) l l'.

(** What a stage leaves alone: the control blocks of others, the entries of others. *)
Record keeps_others st s st' s' : Prop := {
  ko_cfg : cfg s' = cfg s;
  ko_backends : backends s' = backends s;
  ko_closed : closed_ s' = closed_ s;
  ko_dense : dense s';
  ko_controls c : is_Some (controls s !! c) → stage_ctl st ≠ Some c → controls s' !! c = controls s !! c;
  ko_ctl c : stage_ctl st' = Some c → stage_ctl st = Some c ∨ controls s !! c = None;
  ko_registry id : stage_id s' st' ≠ Some id →
    registry_ s' !! id = if decide (stage_id s st = Some id) then None else registry_ s !! id;
  ko_counter : id_counter_ s ≤ id_counter_ s' }.

(** A stage of the worker does all of this. *)
Record advances req st s (q : Stage * RuntimeImpl) : Prop := {
  ad_ok : stage_ok q.2 req q.1;
  ad_ledger : recharged req (stage_claim s st) (stage_claim q.2 q.1) (ledger s) (ledger q.2);
  ad_others : keeps_others st s q.1 q.2;
  ad_draws : id_counter_ q.2 + stage_draws q.1 ≤ id_counter_ s + stage_draws st }.

Lemma domain_backends s s' d : backends s' = backends s → domain s' d = domain s d.
Proof. intros Hb. unfold domain. by rewrite Hb. Qed.

(** Stages that do not touch control blocks, registry and identities. *)
Lemma advance_quiet req st s st' s' :
  dense s → quiet s s' → stage_ok s' req st' →
  recharged req (stage_claim s st) (stage_claim s' st') (ledger s) (ledger s') →
  (stage_ctl st' = None ∨ stage_ctl st' = stage_ctl st) →
  stage_id s' st' = stage_id s st → stage_draws st' ≤ stage_draws st →
  advances req st s (st', s').
Proof.
  intros Hd [[] Hc Hr] Hok Hl Hctl Hid Hdr. constructor; [done..| |cbn [fst snd]; lia]. cbn [fst snd].
  constructor; try congruence; try lia.
  - unfold dense. by rewrite Hc.
  - intros c Hc'. destruct Hctl as [Hn|He]; [by rewrite Hn in Hc'|left; congruence].
  - intros id Hid'. rewrite Hr, decide_False by congruence. done.
Qed.
Lemma recharged_by req cl cl' dr dc dn l l' :
  charge (req_ns req) (req_domain req) dr dc dc dn l l' →
  cl_reserved cl' = cl_reserved cl + dr → cl_committed cl' = cl_committed cl + dc →
  cl_count cl' = cl_count cl + dn → recharged req cl cl' l l'.
Proof. intros Hc H1 H2 H3. unfold recharged. eapply charge_eq; [..|exact Hc]; lia. Qed.
Lemma recharged_same req cl cl' l l' : cl' = cl → l' = l → recharged req cl cl' l l'.
Proof. intros -> ->. eapply recharged_by; [apply charge_refl|lia..]. Qed.

(** Stages that touch the worker's own control block. *)
Record own_change c s s' : Prop := {
  own_static : same_static s s';
  own_others c' : c' ≠ c → controls s' !! c' = controls s !! c';
  own_self : is_Some (controls s !! c) → is_Some (controls s' !! c);
  own_entries : registry_ s' = registry_ s }.
#[export] Instance own_change_preorder c : PreOrder (own_change c).
Proof.
  split; [by constructor|]. intros s1 s2 s3 [H1 H2 H3 H4] [K1 K2 K3 K4].
  constructor; [by transitivity s2| |by auto|congruence]. intros c' Hc. by rewrite K2, H2.
Qed.
Lemma quiet_own_change c s s' : quiet s s' → own_change c s s'.
Proof. intros [? Hc ?]. constructor; [done| |by rewrite Hc|done]. intros. by rewrite Hc. Qed.
Lemma preserves_quiet_own {A} c (m : M RuntimeImpl A) : preserves quiet m → preserves (own_change c) m.
Proof. intros Hm s. apply quiet_own_change, Hm. Qed.
Lemma own_change_upd c f : preserves (own_change c) (upd_ctl c f).
Proof.
  intros s. constructor; [done| | |done].
  - intros c' Hc. simpl. by rewrite lookup_alter_ne.
  - intros [k Hk]. simpl. rewrite lookup_alter_eq, Hk. by eexists.
Qed.
Lemma dense_same_keys s s' :
  (∀ c, is_Some (controls s' !! c) ↔ is_Some (controls s !! c)) → dense s → dense s'.
Proof.
  intros Hk Hd c. rewrite Hk, (Hd c).
  assert (dom (controls s') = dom (controls s)) as He.
  { apply set_eq. intros c'. by rewrite !elem_of_dom. }
  by rewrite <- !size_dom, He.
Qed.
Lemma advance_own req st s st' s' c :
  dense s → is_Some (controls s !! c) → stage_ctl st = Some c →
  (stage_ctl st' = None ∨ stage_ctl st' = Some c) → own_change c s s' →
  stage_ok s' req st' → recharged req (stage_claim s st) (stage_claim s' st') (ledger s) (ledger s') →
  stage_id s' st' = stage_id s st → stage_draws st' ≤ stage_draws st →
  advances req st s (st', s').
Proof.
  intros Hd Hc Hst Hst' [[] Ho Hown Hr] Hok Hl Hid Hdr. constructor; [done..| |cbn [fst snd]; lia]. cbn [fst snd].
  constructor; try congruence; try lia.
  - apply (dense_same_keys s); [|done]. intros c'. destruct (decide (c' = c)) as [->|Hne]; [|by rewrite Ho].
    split; [done|by auto].
  - intros c' _ Hne. apply Ho. congruence.
  - intros c' Hc'. left. destruct Hst' as [Hn|Hn]; congruence.
  - intros id Hid'. rewrite Hr, decide_False by congruence. done.
Qed.

(** The client's stages: the record keeps everything but its map count and its state,
    and [d] references are taken. *)
Definition same_record (r r' : BufferRecord) : Prop :=
  ∃ n (b : BufferState), r' = set_rec_map_count n (set_rec_state b r).
Lemma same_record_refl r : same_record r r.
Proof. exists (rec_map_count r), (rec_state r). by destruct r. Qed.
Lemma same_record_trans r1 r2 r3 : same_record r1 r2 → same_record r2 r3 → same_record r1 r3.
Proof. intros (n & b & ->) (n' & b' & ->). by exists n', b'. Qed.
Lemma backed_for_same req r r' : same_record r r' → backed_for req r → backed_for req r'.
Proof. intros (n & b & ->) [[] ? ?]. constructor; [by constructor|done..]. Qed.
Definition kept_by (d : Z) (k k' : Control) : Prop :=
  refs k' = refs k + d ∧ finalized k' = finalized k ∧ same_record (rec k) (rec k').
Record touched c (d : Z) s s' : Prop := {
  to_own : own_change c s s';
  to_ledger : same_ledger s s';
  to_ctl k : controls s !! c = Some k → ∃ k', controls s' !! c = Some k' ∧ kept_by d k k' }.
Lemma touched_trans c d1 d2 s1 s2 s3 : touched c d1 s1 s2 → touched c d2 s2 s3 → touched c (d1 + d2) s1 s3.
Proof.
  intros [H1 H2 H3] [K1 K2 K3]. constructor; [by transitivity s2|by transitivity s2|].
  intros k Hk. destruct (H3 k Hk) as (k' & Hk' & Hr & Hf & Hs). destruct (K3 k' Hk') as (k'' & Hk'' & Hr' & Hf' & Hs').
  exists k''. split; [done|]. split_and!; [lia|congruence|by eapply same_record_trans].
Qed.
Lemma touched_step c d s1 s2 s3 : touched c 0 s1 s2 → touched c d s2 s3 → touched c d s1 s3.
Proof. apply (touched_trans c 0 d). Qed.
Lemma quiet_touched c s s' : quiet s s' → same_ledger s s' → touched c 0 s s'.
Proof.
  intros Hq Hl. constructor; [by apply quiet_own_change|done|]. intros k Hk. exists k.
  rewrite (q_controls _ _ Hq). split; [done|]. split_and!; [lia|done|apply same_record_refl].
Qed.
Lemma touched_upd c d f s :
  (∀ k, controls s !! c = Some k → kept_by d k (f k)) → touched c d s (upd_ctl c f s).2.
Proof.
  intros Hf. constructor; [apply own_change_upd|done|]. intros k Hk. exists (f k).
  simpl. rewrite lookup_alter_eq, Hk. auto.
Qed.
Lemma touched_live c d n s s' req : touched c d s s' → live_ctl s req c n → live_ctl s' req c (n + d).
Proof.
  intros [_ _ Hk] (k & Hc & Hr & Hf & Hb). destruct (Hk k Hc) as (k' & Hc' & Hr' & Hf' & Hs).
  exists k'. split_and!; [done|lia|congruence|by eapply backed_for_same].
Qed.
Lemma kept_by_map_count k n : kept_by 0 k (set_rec (set_rec_map_count n) k).
Proof. split_and!; [simpl; lia|done|]. exists n, (rec_state (rec k)). by destruct k as [[] ]. Qed.
Lemma kept_by_state k (b : BufferState) : kept_by 0 k (set_rec (set_rec_state b) k).
Proof. split_and!; [simpl; lia|done|]. exists (rec_map_count (rec k)), b. by destruct k as [[] ]. Qed.
Lemma kept_by_same k : kept_by 0 k k.
Proof. split_and!; [lia|done|apply same_record_refl]. Qed.
Lemma kept_by_refs k d : kept_by d k (set_refs (refs k + d) k).
Proof. split_and!; [done|done|apply same_record_refl]. Qed.

Lemma touched_map h acc s c : h_ctl h = Some c →
  match handle_map h acc s with
  | (Ok m, s') => touched c 1 s s' ∧ map_ctl m = Some c
  | (Fail _, s') => touched c 0 s s'
  end.
Proof.
  intros Hc. unfold handle_map, with_handle. rewrite bind_run. cbn [get fst snd].
  assert (touched c 0 s s) as Hrefl by by apply quiet_touched.
  destruct (ensure_valid h acc s); [|done]. rewrite Hc, bind_run. cbn [get fst snd]. cbv zeta.
  destruct (bool_decide _); [done|]. destruct (domain s _) as [dom|]; [|done]. rewrite bind_run.
  set (r := rec (ctl_at s c)). set (f := on_machine _).
  assert (touched c 0 s (f s).2) as H1 by (apply quiet_touched; [apply quiet_on_machine|apply ledger_on_machine]).
  destruct (f s) as [[p|e] s1]; cbn [fst snd] in *; [|done]. rewrite !bind_run.
  set (s2 := (upd_ctl c _ s1).2).
  assert (touched c 0 s1 s2) as H2 by (apply touched_upd; intros; apply kept_by_map_count).
  match goal with |- context [(?m s2).2] => set (s3 := (m s2).2) end.
  assert (touched c 0 s2 s3) as H3.
  { unfold s3. destruct (valid_transition _ _); [|by apply quiet_touched].
    apply touched_upd. intros. apply kept_by_state. }
  set (s4 := (retain c s3).2).
  assert (touched c 1 s3 s4) as H4 by (apply touched_upd; intros; apply kept_by_refs).
  cbn [ret]. split; [|done].
  apply (touched_step c 1 s s1), (touched_step c 1 s1 s2), (touched_step c 1 s2 s3); [done..|].
  apply (touched_trans c 1 0 s3 s4); [done|]. apply quiet_touched; [apply quiet_tick|done].
Qed.
Lemma touched_unmap m s c k0 :
  map_ctl m = Some c → controls s !! c = Some k0 → refs k0 ≠ 1 → touched c (-1) s (map_release m s).2.
Proof.
  intros Hm Hk0 Hr. unfold map_release. rewrite Hm, !bind_run.
  set (s1 := (upd_ctl c _ s).2).
  assert (touched c 0 s s1) as H1.
  { apply touched_upd. intros k _. destruct (0 <? _); [apply kept_by_map_count|apply kept_by_same]. }
  set (s2 := (upd_ctl c _ s1).2).
  assert (touched c 0 s1 s2) as H2.
  { apply touched_upd. intros k _. destruct (_ && _); [apply kept_by_state|apply kept_by_same]. }
  cbn [get fst snd]. match goal with |- context [(?m0 s2).2] => set (f := m0) end.
  assert (touched c 0 s2 (f s2).2) as H3.
  { unfold f. destruct (_ =? 0); [by apply quiet_touched|]. destruct (domain s2 _) as [dom|]; [|by apply quiet_touched].
    rewrite bind_run. apply quiet_touched; [apply quiet_on_machine|apply ledger_on_machine]. }
  set (s3 := (f s2).2) in *. set (s4 := (tick unmap_count s3).2).
  assert (touched c 0 s3 s4) as H4 by (apply quiet_touched; [apply quiet_tick|done]).
  assert (touched c 0 s s4) as H by (by apply (touched_step c 0 s s1), (touched_step c 0 s1 s2), (touched_step c 0 s2 s3)).
  cbn [ret snd]. apply (touched_step c (-1) s s4 _ H). unfold drop_ref. rewrite !bind_run.
  cbn [get_ctl gets fst snd].
  assert (refs (ctl_at s4 c) = refs k0) as Hr4.
  { destruct (to_ctl _ _ _ _ H k0 Hk0) as (k' & Hk' & Hrk & _). unfold ctl_at. rewrite Hk'. simpl. lia. }
  rewrite (proj2 (Z.eqb_neq _ _)) by congruence. cbn [ret snd]. apply touched_upd.
  intros k Hk. unfold ctl_at. rewrite Hk. simpl. replace (refs k - 1) with (refs k + -1) by lia. apply kept_by_refs.
Qed.

Section allocate_stages.
Context (req : AllocationRequest) (byte : Z) (s : RuntimeImpl).
Context (Hdom : constructed s0) (Hreq : request_ok req) (Hrun : runs_on s).

Lemma domain_here d : domain s d = domain s0 d.
Proof. apply domain_backends, Hrun. Qed.
Lemma served_at_domain : served req →
  ∃ dom, DomainContract dom ∧ ReliableDomain dom ∧ ∀ k, at_domain req k s = k dom s.
Proof.
  intros [dom Hd]. exists dom. destruct (constructed_domain s0 _ dom Hdom Hd) as (? & _ & Hrel).
  pose proof (Hrel (ro_domain _ Hreq)).
  rewrite <- domain_here in Hd. split_and!; [done..|]. intros k. by apply at_domain_run.
Qed.

(** A stage that is [quiet]: what is left is what it knows and what it charges. *)
Ltac quietly :=
  cbn [ret fst snd]; apply advance_quiet;
  [by apply Hrun|try first [reflexivity | solve [eauto with frames]]|try done
  |try by apply recharged_same|try (first [by left|by right])|try done|try (cbn; lia)].

Lemma advance_begin : advances req Begin s (stage_step req byte Begin s).
Proof.
  cbn [stage_step allocate_stage]. rewrite bind_run. cbn [get fst snd].
  destruct (closed_ s); [quietly|].
  destruct (validate_request s req) as [[al n]|e] eqn:Hv; [|rewrite bind_run; quietly; apply quiet_tick].
  destruct (validate_request_ok s req al n) as [Hs _ (_ & Hn & _) Hn' Hd]; try done; [|apply Hreq..|].
  { intros d dom. rewrite domain_here. by apply constructed_domains_ok. }
  rewrite domain_here in Hd. quietly. split; [done|]. unfold size_ok, two49, two48 in *. lia.
Qed.
Lemma advance_count al n :
  stage_ok s req (Count al n) → covered s req no_claim →
  advances req (Count al n) s (stage_step req byte (Count al n) s).
Proof.
  intros Hok [[? ? ? Hn] _ _ _ _]. cbn [stage_step allocate_stage]. rewrite bind_run.
  pose proof (charge_reserve_count (req_ns req) (req_domain req) s Hn) as Hc. cbv zeta in Hc.
  pose proof (quiet_reserve_count (req_ns req) s) as Hq.
  destruct (reserve_count _ s) as [[u|e] s1]; cbn [fst snd is_ok] in *; [|rewrite bind_run].
  - quietly. by eapply recharged_by.
  - quietly; [transitivity s1; [done|apply quiet_tick]|]. by eapply recharged_by.
Qed.
Lemma advance_reserve al n :
  stage_ok s req (Reserve al n) → covered s req (mkClaim 0 0 1) →
  advances req (Reserve al n) s (stage_step req byte (Reserve al n) s).
Proof.
  intros [Hs Hn] [Hsane _ _ _ _]. cbn [stage_step allocate_stage]. rewrite bind_run.
  pose proof (charge_reserve (req_ns req) (req_domain req) n s) as Hc. cbv zeta in Hc.
  pose proof (quiet_reserve_amount (req_ns req) (req_domain req) n s) as Hq.
  assert (0 ≤ n < two62) as Hn' by (unfold size_ok, two49, two62 in *; lia). specialize (Hc Hn' Hsane).
  destruct (reserve_amount _ _ _ s) as [[u|e] s1]; cbn [fst snd is_ok] in *; quietly; by eapply recharged_by.
Qed.
Lemma advance_name al n :
  stage_ok s req (Name al n) → id_counter_ s < two64 - 1 →
  advances req (Name al n) s (stage_step req byte (Name al n) s).
Proof.
  intros [Hs Hn] Hid. cbn [stage_step allocate_stage].
  destruct (served_at_domain Hs) as (dom & _ & _ & ->).
  rewrite !bind_run. cbn [ret fst snd]. pose proof (quiet_now_epoch_ms (next_id s).2) as Hq.
  assert (same_ledger s (now_epoch_ms (next_id s).2).2) as Hl.
  { transitivity (next_id s).2; [apply ledger_next_id|apply ledger_now_epoch]. }
  destruct Hq as [[] Hc Hr]. destruct Hrun as [? ? ? Hdense Hlow]. cbn [next_id get modify bind ret fst snd] in *.
  assert (u64 (id_counter_ s + 1) = id_counter_ s + 1) as Hu.
  { apply u64_small. unfold is_u64. lia. }
  constructor; cbn [fst snd].
  - split_and!; [done..|]. constructor; try done; [apply Hreq|cbn; lia].
  - by apply recharged_same.
  - constructor; cbn in *; try congruence; try lia; try done; [unfold dense; by rewrite Hc|].
    intros id _. by rewrite decide_False, Hr.
  - cbn in *. lia.
Qed.
Lemma advance_take al n r :
  stage_ok s req (Take al n r) → advances req (Take al n r) s (stage_step req byte (Take al n r) s).
Proof.
  intros Hok. cbn [stage_step allocate_stage]. rewrite bind_run. unfold take_from_pool.
  rewrite (ro_unpooled _ Hreq). rewrite bind_run. cbn [get andb ret fst snd]. quietly.
Qed.
Lemma advance_back al n r :
  stage_ok s req (Back al n r) → advances req (Back al n r) s (stage_step req byte (Back al n r) s).
Proof.
  intros (Hs & Hn & Hr). cbn [stage_step allocate_stage].
  destruct (served_at_domain Hs) as (dom & Hc & Hrel & ->).
  rewrite bind_run. pose proof (quiet_on_machine (IDomain.allocate dom n al) s) as Hq.
  pose proof (ledger_on_machine (IDomain.allocate dom n al) s) as Hl.
  rewrite on_machine_run in *. cbn [fst snd] in *.
  destruct (IDomain.allocate dom n al (machine s)) as [[a|e] m] eqn:Ha; cbn [fst snd] in *; quietly.
  assert ((IDomain.allocate dom n al (machine s)).1 = Ok a) as Hok by by rewrite Ha.
  split_and!; [done| |done]. split_and!; [done|by destruct (dc_allocate n al (machine s) a Hok)|by eapply rd_present].
Qed.
Lemma advance_commit n r a :
  stage_ok s req (Commit n r a) → covered s req (mkClaim n 0 1) →
  advances req (Commit n r a) s (stage_step req byte (Commit n r a) s).
Proof.
  intros (Hs & (Hn & Ha & Hp) & Hr) [Hsane Hres _ _ _]. cbn [stage_step allocate_stage cl_reserved] in *.
  rewrite Ha, bind_run.
  destruct (charge_commit (req_ns req) (req_domain req) n s) as [Hok Hc]; [unfold size_ok in Hn; lia|done|].
  pose proof (quiet_commit_amount (req_ns req) (req_domain req) n s) as Hq.
  destruct (commit_amount _ _ n s) as [[u|e] s1]; [|done]. cbn [fst snd] in *. quietly.
  eapply recharged_by; [exact Hc|cbn; lia..].
Qed.
Lemma advance_zero n r a slot :
  stage_ok s req (Zero n r a slot) → advances req (Zero n r a slot) s (stage_step req byte (Zero n r a slot) s).
Proof.
  destruct slot; [done|]. intros (Hs & (Hn & Ha & Hp) & Hr). cbn [stage_step allocate_stage].
  destruct (served_at_domain Hs) as (dom & Hc & Hrel & ->). rewrite bind_run. cbn [get fst snd]. cbv zeta.
  assert (is_u64 (na_committed a)) as Hu by (rewrite Ha; unfold size_ok, two49, is_u64, two64 in *; lia).
  assert (∀ s', quiet s s' → same_ledger s s' →
    advances req (Zero n r a None) s (Register (attach_backing (cfg s) r a false), s')) as Hdone.
  { intros s' Hq Hl. quietly. destruct Hr. constructor; cbn; [by constructor|by rewrite Ha|done]. }
  destruct (wants_zero _ _ _); [|by apply Hdone].
  rewrite bind_run. pose proof (quiet_on_machine (IDomain.zero dom a 0 (na_committed a)) s) as Hq.
  pose proof (ledger_on_machine (IDomain.zero dom a 0 (na_committed a)) s) as Hl.
  pose proof (rd_zero a (machine s) Hu) as Hz. rewrite on_machine_run in *. cbn [fst snd] in *.
  destruct (IDomain.zero _ _ _ _ _) as [[u|e] m]; [|done]. cbn [fst snd] in *. rewrite bind_run. cbn [ret fst snd].
  apply Hdone; [|done]. transitivity (set_machine m s); [done|apply quiet_tick].
Qed.
Lemma advance_register r :
  stage_ok s req (Register r) → advances req (Register r) s (stage_step req byte (Register r) s).
Proof.
  intros Hb. cbn [stage_step allocate_stage]. rewrite bind_run. cbn [ret fst snd].
  destruct Hrun as [_ _ _ Hdense _]. set (c := (register_control r s).1). set (s' := (register_control r s).2).
  assert (same_static s s' ∧ ledger s' = ledger s) as [[] Hl] by by repeat constructor.
  assert (controls s' = <[c := Control_new r]> (controls s)) as Hc by reflexivity.
  assert (registry_ s' = <[rec_id r := c]> (registry_ s)) as Hr by reflexivity.
  assert (c = size (controls s)) as Hsize by reflexivity.
  change (advances req (Register r) s (Retain c, s')). clearbody c s'.
  assert (controls s !! c = None) as Hnone.
  { apply eq_None_not_Some. intros Hs. apply Hdense in Hs. lia. }
  assert (ctl_at s' c = Control_new r) as Hat by (unfold ctl_at; by rewrite Hc, lookup_insert_eq).
  constructor; cbn [fst snd].
  - exists (Control_new r). rewrite Hc, lookup_insert_eq. by split_and!.
  - apply recharged_same; [|done]. unfold stage_claim. cbn. by rewrite Hat.
  - constructor; try done; try (cbn; lia).
    + intros c'. rewrite Hc, map_size_insert_None, lookup_insert_is_Some by done. rewrite (Hdense c'). lia.
    + intros c' Hc' _. rewrite Hc. by rewrite lookup_insert_ne by (intros ->; rewrite Hnone in Hc'; by destruct Hc').
    + intros c' [= <-]. by right.
    + intros id Hid. unfold stage_id in Hid. cbn in Hid. rewrite Hat in Hid. rewrite decide_False by done.
      rewrite Hr, lookup_insert_ne; [done|]. intros <-. by destruct Hid.
  - cbn. lia.
Qed.
Lemma advance_retain c :
  stage_ok s req (Retain c) → advances req (Retain c) s (stage_step req byte (Retain c) s).
Proof.
  intros (k & Hk & Hr & Hf & Hb). cbn [stage_step allocate_stage]. unfold new_handle. rewrite !bind_run.
  cbn [get ret fst snd]. pose proof (own_change_upd c (λ k, set_refs (refs k + 1) k) s) as Hown.
  change (upd_ctl c (λ k, set_refs (refs k + 1) k)) with (retain c) in Hown. set (s' := (retain c s).2) in *.
  assert (controls s' !! c = Some (set_refs 1 k)) as Hk'.
  { unfold s'. simpl. rewrite lookup_alter_eq, Hk. simpl. by rewrite Hr. }
  assert (ledger s' = ledger s) as Hl by done. clearbody s'.
  assert (ctl_at s' c = set_refs 1 k ∧ ctl_at s c = k) as [Hat Hat0] by (unfold ctl_at; by rewrite Hk', Hk).
  apply (advance_own _ _ _ _ _ c); [apply Hrun|by eexists|done|by right|done| | | |done].
  - exists c. split_and!; [done..|]. by exists (set_refs 1 k).
  - apply recharged_same; [|done]. unfold stage_claim. cbn. by rewrite Hat, Hat0.
  - unfold stage_id. cbn. by rewrite Hat, Hat0.
Qed.

(** ** The error paths *)

Lemma advance_discard n a :
  stage_ok s req (Discard n a) → advances req (Discard n a) s (stage_step req byte (Discard n a) s).
Proof.
  intros [Hs Hn]. cbn [stage_step undo_stage]. destruct (served_at_domain Hs) as (dom & _ & _ & ->).
  rewrite bind_run. quietly; [apply quiet_discard_with|]. apply recharged_same; [done|apply ledger_discard_with].
Qed.
Lemma advance_undo_reserve n :
  stage_ok s req (UndoReserve n) → covered s req (mkClaim n 0 1) →
  advances req (UndoReserve n) s (stage_step req byte (UndoReserve n) s).
Proof.
  intros [Hs Hn] [_ Hres _ _ _]. cbn [stage_step undo_stage cl_reserved] in *. rewrite bind_run.
  quietly; [apply quiet_unreserve_amount|].
  eapply recharged_by; [apply charge_unreserve; unfold size_ok in Hn; split; [lia|exact Hres]|cbn; lia..].
Qed.
Lemma advance_undo_count b :
  covered s req (mkClaim 0 0 1) → advances req (UndoCount b) s (stage_step req byte (UndoCount b) s).
Proof.
  intros [_ _ _ _ Hn]. cbn [stage_step undo_stage cl_count] in *. rewrite !bind_run.
  set (s1 := (release_count _ s).2). set (s2 := (tick _ s1).2). set (s3 := (_ s2).2).
  assert (quiet s1 s3 ∧ same_ledger s1 s3) as [Hq Hl].
  { unfold s3, s2. destruct b; split; try done; by constructor. }
  quietly; [transitivity s1; [apply quiet_release_count|done]|].
  eapply recharged_by; [eapply charge_same; [exact Hl|by apply charge_release_count; lia]|cbn; lia..].
Qed.

(** ** The client *)

Lemma advance_touched st st' s' c n d :
  stage_ctl st = Some c → stage_ctl st' = Some c → live_ctl s req c n → touched c d s s' →
  stage_ok s' req st' →
  stage_record s st = Some (rec (ctl_at s c)) → stage_record s' st' = Some (rec (ctl_at s' c)) →
  stage_claim s st = mkClaim 0 (rec_committed (rec (ctl_at s c))) 1 →
  stage_claim s' st' = mkClaim 0 (rec_committed (rec (ctl_at s' c))) 1 →
  stage_draws st' ≤ stage_draws st →
  stage_id s st = Some (rec_id (rec (ctl_at s c))) → stage_id s' st' = Some (rec_id (rec (ctl_at s' c))) →
  advances req st s (st', s').
Proof.
  intros Hc Hc' (k & Hk & _) [Hown Hl Hk'] Hok _ _ Hcl Hcl' Hdr Hid Hid'.
  destruct (Hk' k Hk) as (k' & E & _ & _ & (x & y & Hr)).
  assert (ctl_at s c = k ∧ ctl_at s' c = k') as [Hat Hat'] by (unfold ctl_at; by rewrite Hk, E).
  apply (advance_own _ _ _ _ _ c); [apply Hrun|by eexists|done|by right|done|done| | |done].
  - apply recharged_same; [|done]. by rewrite Hcl, Hcl', Hat, Hat', Hr.
  - by rewrite Hid, Hid', Hat, Hat', Hr.
Qed.
Lemma advance_held h :
  stage_ok s req (Held h) → advances req (Held h) s (stage_step req byte (Held h) s).
Proof.
  intros (c & Hc & Hv & Hrt & Hlive). cbn [stage_step client_stage]. rewrite bind_run.
  pose proof (touched_map h AccessMode.READ_WRITE s c Hc) as Ht.
  destruct (handle_map h AccessMode.READ_WRITE s) as [[m|e] s']; cbn [ret fst snd] in *.
  - destruct Ht as [Ht Hm]. pose proof (touched_live _ _ _ _ _ _ Ht Hlive) as Hlive'.
    apply (advance_touched (Held h) (Fill h m) s' c 1 1); unfold stage_claim, stage_id; cbn; rewrite ?Hc; try done.
    split; [|congruence]. by exists c.
  - pose proof (touched_live _ _ _ _ _ _ Ht Hlive) as Hlive'.
    apply (advance_touched (Held h) (Unhand h) s' c 1 0); unfold stage_claim, stage_id; cbn; rewrite ?Hc; try done.
    by exists c.
Qed.
Lemma advance_fill h m :
  stage_ok s req (Fill h m) → advances req (Fill h m) s (stage_step req byte (Fill h m) s).
Proof.
  intros [(c & Hc & Hv & Hrt & Hlive) Hm]. cbn [stage_step client_stage]. rewrite bind_run.
  set (s' := (on_machine _ s).2).
  assert (touched c 0 s s') as Ht by (apply quiet_touched; [apply quiet_on_machine|apply ledger_on_machine]).
  pose proof (touched_live _ _ _ _ _ _ Ht Hlive) as Hlive'. clearbody s'.
  apply (advance_touched (Fill h m) (Unmap h m) s' c 2 0); unfold stage_claim, stage_id; cbn; rewrite ?Hc; try done.
  split; [|congruence]. by exists c.
Qed.
Lemma advance_unmap h m :
  stage_ok s req (Unmap h m) → advances req (Unmap h m) s (stage_step req byte (Unmap h m) s).
Proof.
  intros [(c & Hc & Hv & Hrt & Hlive) Hm]. cbn [stage_step client_stage]. rewrite bind_run.
  assert (touched c (-1) s (map_release m s).2) as Ht.
  { destruct Hlive as (k & Hk & Hr & _). apply (touched_unmap _ _ _ k); [congruence|done|lia]. }
  pose proof (touched_live _ _ _ _ _ _ Ht Hlive) as Hlive'. set (s' := (map_release m s).2) in *. clearbody s'.
  apply (advance_touched (Unmap h m) (Unhand h) s' c 2 (-1)); unfold stage_claim, stage_id; cbn; rewrite ?Hc; try done.
  by exists c.
Qed.
Lemma advance_unhand h :
  stage_ok s req (Unhand h) → advances req (Unhand h) s (stage_step req byte (Unhand h) s).
Proof.
  intros (c & Hc & Hv & Hrt & Hlive). cbn [stage_step client_stage]. rewrite Hc, Hv, Hrt. cbn [andb].
  rewrite !bind_run. cbn [get_ctl gets fst snd ret].
  assert (refs (ctl_at s c) = 1) as Hr.
  { destruct Hlive as (k & Hk & Hr & _). unfold ctl_at. by rewrite Hk. }
  rewrite Hr. cbn [Z.eqb Pos.eqb]. set (s' := (upd_ctl c _ s).2).
  assert (touched c (-1) s s') as Ht.
  { apply touched_upd. intros k Hk. unfold ctl_at in Hr. rewrite Hk in Hr. simpl in Hr.
    split_and!; [simpl; lia|done|by exists (rec_map_count (rec k)), (rec_state (rec k)); destruct k as [[] ]]. }
  pose proof (touched_live _ _ _ _ _ _ Ht Hlive) as Hlive'. clearbody s'.
  apply (advance_touched (Unhand h) (Finalize c) s' c 1 (-1)); unfold stage_claim, stage_id; cbn; rewrite ?Hc; done.
Qed.

(** ** Finalization *)

Lemma advance_finalize c :
  stage_ok s req (Finalize c) → advances req (Finalize c) s (stage_step req byte (Finalize c) s).
Proof.
  intros (k & Hk & _ & Hf & Hb). cbn [stage_step finalize_stage]. rewrite bind_run. cbn [get_ctl gets fst snd].
  assert (ctl_at s c = k) as Hat by (unfold ctl_at; by rewrite Hk). rewrite Hat, Hf, bind_run. cbn [ret fst snd].
  pose proof (own_change_upd c (set_finalized true) s) as Hown.
  assert (ledger (upd_ctl c (set_finalized true) s).2 = ledger s) as Hl by done.
  set (s' := (upd_ctl c _ s).2) in *. clearbody s'.
  apply (advance_own _ _ _ _ _ c); [apply Hrun|by eexists|done|by right|done| | | |done].
  - split; [|done]. apply (own_self _ _ _ Hown). by eexists.
  - apply recharged_same; [|done]. unfold stage_claim. cbn. by rewrite Hat.
  - unfold stage_id. cbn. by rewrite Hat.
Qed.
Lemma advance_dispose c r :
  stage_ok s req (Dispose c r) → advances req (Dispose c r) s (stage_step req byte (Dispose c r) s).
Proof.
  intros [Hc Hb]. destruct Hb as [[? ? Hp Ho ?] Hsz Hpr] eqn:E. cbn [stage_step finalize_stage].
  rewrite bind_run. cbn [get fst snd]. rewrite Hpr, Hp, Ho, andb_false_r. cbn [andb negb].
  rewrite bool_decide_eq_false_2 by done. cbn [andb negb]. rewrite bool_decide_eq_false_2, !bind_run by done.
  cbn [ret fst snd]. pose proof (quiet_discard_backing (rec_domain r) (rec_backing r) s) as Hq.
  quietly; [|apply recharged_same; [done|apply ledger_discard_backing]].
  split; [by rewrite (q_controls _ _ Hq)|done].
Qed.
Lemma advance_settle c r how :
  stage_ok s req (Settle c r how) → covered s req (mkClaim 0 (rec_committed r) 1) →
  advances req (Settle c r how) s (stage_step req byte (Settle c r how) s).
Proof.
  destruct how; [done..|]. intros [Hc Hb] [_ _ Hcm Hal _]. cbn [stage_step finalize_stage cl_committed] in *.
  destruct Hb as [Hrec Hsz _]. destruct (Hrec) as [Hns Hd _ _ _]. rewrite Hns, Hd, !bind_run. cbn [ret fst snd].
  pose proof (charge_free_accounting (req_ns req) (req_domain req) (rec_committed r) s) as Hch.
  pose proof (quiet_free_accounting (req_ns req) (req_domain req) (rec_committed r) s) as Hq.
  set (s1 := (free_accounting _ _ _ s).2) in *.
  set (f := set_rec (set_rec_backing NativeAllocation_default)).
  pose proof (own_change_upd c f s1) as Hown. assert (ledger (upd_ctl c f s1).2 = ledger s1) as Hl by done.
  set (s2 := (upd_ctl c f s1).2) in *. clearbody s2.
  assert (own_change c s s2) as Hown' by (transitivity s1; [by apply quiet_own_change|done]).
  apply (advance_own _ _ _ _ _ c); [apply Hrun|done|done|by right|done| | |done|done].
  - split; [|done]. by apply (own_self _ _ _ Hown').
  - eapply recharged_by; [rewrite Hl; apply Hch; unfold size_ok in Hsz; lia|cbn; lia..].
Qed.
Lemma advance_retire c r went :
  stage_ok s req (Retire c r went) → covered s req (mkClaim 0 0 1) →
  advances req (Retire c r went) s (stage_step req byte (Retire c r went) s).
Proof.
  intros [Hc Hb] [_ _ _ _ Hn]. cbn [stage_step finalize_stage cl_count] in *.
  destruct (Hb) as [Hns _ _ _ _]. rewrite Hns, !bind_run. cbn [ret fst snd].
  set (f := set_rec (set_rec_state BufferState.RELEASED)).
  pose proof (own_change_upd c f s) as Hown. assert (same_ledger s (upd_ctl c f s).2) as Hl by done.
  set (s1 := (upd_ctl c f s).2) in *. clearbody s1.
  pose proof (quiet_release_count (req_ns req) s1) as Hq.
  pose proof (charge_release_count (req_ns req) (req_domain req) s1) as Hch.
  set (s2 := (release_count _ s1).2) in *. clearbody s2.
  apply (advance_own _ _ _ _ _ c); [apply Hrun|done|done|by left| |done| |done|done].
  - transitivity s1; [done|by apply quiet_own_change].
  - rewrite Hl in Hch. eapply recharged_by; [apply Hch; lia|cbn; lia..].
Qed.
Lemma advance_erase r went :
  stage_ok s req (Erase r went) → advances req (Erase r went) s (stage_step req byte (Erase r went) s).
Proof.
  intros Hb. cbn [stage_step finalize_stage]. rewrite bind_run.
  set (s1 := (modify _ s).2).
  match goal with |- advances _ _ _ (?m s1) => set (rest := m) end.
  assert (preserves quiet (rest) ∧ preserves same_ledger (rest)) as [Hq Hl].
  { unfold rest. split; preserves_tac. }
  assert ((rest s1).1 = Idle) as Hidle by (unfold rest; by rewrite !bind_run).
  change (advances req (Erase r went) s (rest s1)). specialize (Hq s1). specialize (Hl s1).
  destruct (rest s1) as [st' s2]. cbn [fst snd] in *. subst st'.
  destruct Hq as [[] Hc Hr]. destruct Hrun as [? ? ? Hdense ?]. constructor; cbn [fst snd]; [done|by apply recharged_same| |cbn in *; lia].
  constructor; cbn in *; try congruence; try lia; try done.
  - unfold dense. by rewrite Hc.
  - intros id _. rewrite Hr. case_decide as Hid.
    + injection Hid as <-. apply lookup_delete_eq.
    + rewrite lookup_delete_ne by congruence. done.
Qed.

(** Every stage. *)
Lemma stage_advances st :
  st ≠ Idle → st ≠ Stopped → stage_ok s req st → covered s req (stage_claim s st) →
  id_counter_ s + stage_draws st < two64 →
  advances req st s (stage_step req byte st s).
Proof.
  intros Hi Hs Hok Hcov Hid. destruct st; try done.
  - apply advance_begin.
  - by apply advance_count.
  - by apply advance_reserve.
  - apply advance_name; [done|cbn in Hid; lia].
  - by apply advance_take.
  - by apply advance_back.
  - by apply advance_commit.
  - by apply advance_zero.
  - by apply advance_register.
  - by apply advance_retain.
  - by apply advance_discard.
  - by apply advance_undo_reserve.
  - by apply advance_undo_count.
  - by apply advance_held.
  - by apply advance_fill.
  - by apply advance_unmap.
  - by apply advance_unhand.
  - by apply advance_finalize.
  - by apply advance_dispose.
  - by apply advance_settle.
  - by apply advance_retire.
  - by apply advance_erase.
Qed.
End allocate_stages.
End stages.
