(* ===== verification/Books.v ===== *)
(** The invariant of concurrent traffic and its consequences: the accounts balance in
    every interleaving, the registry is what it was, every schedule ends, and
    examples/concurrent.cpp reports a pass. *)
From S2P Require Import Prelude Types CheckedMath Platform HostBackend SharedBackend FileBackend Domain State Sim Ledger Pool Lifecycle Runtime Handle Facade SimRuntime Frames Allocation Charges Release RefSpec Refcount Clients Telemetry Shell Traffic Balance.

Section books.
Context {P : Platform} (s0 : RuntimeImpl).
Implicit Types (s : RuntimeImpl) (st : Stage) (w : Worker) (ws : list Worker).

Definition two61 : Z := 2305843009213693952.

(** What the workers may start from: the backends of a constructed runtime, cells
    with room, identities below the counter, at most 4096 threads. *)
Record traffic_ok (jobs : list (list (AllocationRequest * Z))) : Prop := {
  tk_domains : constructed s0;
  tk_dense : dense s0;
  tk_requests l j : l ∈ jobs → j ∈ l → request_ok j.1;
  tk_cells ns d : 0 ≤ reserved (ledger s0) ns d < two61 ∧ 0 ≤ committed (ledger s0) ns d < two61
                  ∧ 0 ≤ allocated (ledger s0) ns d < two61 ∧ 0 ≤ allocs (ledger s0) ns < two61;
  tk_registry id c : registry_ s0 !! id = Some c → lo id < id_counter_ s0;
  tk_counter : 0 ≤ id_counter_ s0 ∧ id_counter_ s0 + sum_list (λ l, Z.of_nat (length l)) jobs < two64;
  tk_threads : Z.of_nat (length jobs) ≤ 4096 }.

(** ** What a stage holds and what it depends on *)

Lemma live_record s req c n : live_ctl s0 s req c n → is_Some (controls s !! c) ∧ backed_for s0 req (rec (ctl_at s c)).
Proof. intros (k & Hk & _ & _ & Hb). unfold ctl_at. rewrite Hk. split; [by eexists|done]. Qed.
Lemma own_record s req h n c : own_handle s0 s req h n → h_ctl h = Some c →
  is_Some (controls s !! c) ∧ backed_for s0 req (rec (ctl_at s c)).
Proof. intros (c' & Hc' & _ & _ & Hl) Hc. rewrite Hc in Hc'. injection Hc' as <-. by eapply live_record. Qed.
(** A stage that has a control block: it exists, and is the worker's request. *)
Lemma stage_ctl_ok s req st c : stage_ok s0 s req st → stage_ctl st = Some c → is_Some (controls s !! c).
Proof.
  destruct st; cbn; try done; try (intros [] [= <-]; done).
  - intros Hl [= <-]. by eapply live_record.
  - intros Hh Hc. by eapply own_record.
  - intros [Hh _] Hc. by eapply own_record.
  - intros [Hh _] Hc. by eapply own_record.
  - intros Hh Hc. by eapply own_record.
  - intros Hl [= <-]. by eapply live_record.
  - destruct how; [done..|]. by intros [Hc _] [= <-].
Qed.
Lemma stage_record_ok s req st r : stage_ok s0 s req st → stage_record s st = Some r →
  record_for s0 req r ∧ match st with Retire _ _ _ | Erase _ _ => True | _ => size_ok (rec_committed r) end.
Proof.
  assert (∀ r', backed_for s0 req r' → record_for s0 req r' ∧ size_ok (rec_committed r')) as Hb by by intros r' [].
  destruct st; cbn; try done.
  - intros H [= <-]. by apply Hb.
  - intros H [= <-]. by eapply Hb, live_record.
  - intros H. destruct (h_ctl h) as [c|] eqn:Hc; [|done]. intros [= <-]. by eapply Hb, own_record.
  - intros [H _]. destruct (h_ctl h) as [c|] eqn:Hc; [|done]. intros [= <-]. by eapply Hb, own_record.
  - intros [H _]. destruct (h_ctl h) as [c|] eqn:Hc; [|done]. intros [= <-]. by eapply Hb, own_record.
  - intros H. destruct (h_ctl h) as [c|] eqn:Hc; [|done]. intros [= <-]. by eapply Hb, own_record.
  - intros H [= <-]. by eapply Hb, live_record.
  - intros [_ H] [= <-]. by apply Hb.
  - destruct how; [done..|]. intros [_ H] [= <-]. by apply Hb.
  - intros [_ H] [= <-]. done.
  - by intros H [= <-].
Qed.
Lemma stage_id_ok s req st id : stage_ok s0 s req st → stage_id s st = Some id → id_counter_ s0 ≤ lo id.
Proof.
  intros Hok Hid. assert (∃ r, stage_record s st = Some r ∧ rec_id r = id) as (r & Hr & <-).
  { unfold stage_id in Hid. destruct st; try done; by apply fmap_Some in Hid as (r' & Hr' & ->); exists r'. }
  by destruct (stage_record_ok s req st r Hok Hr) as [[] _].
Qed.
Definition claim_ok (cl : Claim) : Prop :=
  0 ≤ cl_reserved cl ≤ two49 ∧ 0 ≤ cl_committed cl ≤ two49 ∧ 0 ≤ cl_count cl ≤ 1.
Lemma claim_bounds s req st : stage_ok s0 s req st → claim_ok (stage_claim s st).
Proof.
  intros Hok. pose proof (stage_record_ok s req st) as Hrec. revert Hok Hrec.
  assert (∀ a b, a = 0 ∨ size_ok a → b = 0 ∨ size_ok b → claim_ok (mkClaim a b 1)) as Hcl.
  { unfold claim_ok, size_ok, two49. intros a b [->| ] [->| ]; cbn; lia. }
  assert (claim_ok no_claim) as Hno by by unfold claim_ok.
  destruct st as [| | | | | | | | |? ? ? [sl|]| | | | | | | | | | | | | | | | |]; unfold stage_claim;
    try (destruct (stage_record s _) as [r0|]; [|done]; intros Hok Hrec; apply Hcl; [by left|right; by apply Hrec]);
    intros Hok _; try done; try (apply Hcl; by left); try (apply Hcl; [right; by destruct Hok|by left]).
  - apply Hcl; [right; by destruct Hok as (_ & ? & _)|by left].
  - apply Hcl; [right; by destruct Hok as (_ & ? & _)|by left].
  - apply Hcl; [right; by destruct Hok as (_ & (? & _) & _)|by left].
  - apply Hcl; [by left|right]. by destruct Hok as (_ & (Hsz & -> & _) & _).
Qed.

(** The steps of other workers do not change what a stage knows, nor its claim. *)
Lemma stage_frame s s' req st :
  stage_ok s0 s req st → (∀ c, stage_ctl st = Some c → controls s' !! c = controls s !! c) →
  stage_ok s0 s' req st ∧ stage_record s' st = stage_record s st.
Proof.
  intros Hok Hc. assert (∀ c, stage_ctl st = Some c → ctl_at s' c = ctl_at s c) as Hat.
  { intros c Hst. unfold ctl_at. by rewrite Hc. }
  assert (∀ c n, stage_ctl st = Some c → live_ctl s0 s req c n → live_ctl s0 s' req c n) as Hlive.
  { intros c n Hst (k & Hk & H). exists k. split; [|done]. by rewrite Hc. }
  assert (∀ h n, stage_ctl st = h_ctl h → own_handle s0 s req h n → own_handle s0 s' req h n) as Hown.
  { intros h n Hst (c & Hh & H1 & H2 & H3). exists c. split_and!; [done..|]. apply Hlive; [congruence|done]. }
  split.
  - destruct st; cbn in *; eauto; try (destruct Hok; split; by eauto).
    + destruct Hok. split; [|done]. by rewrite Hc.
    + destruct how; try done. destruct Hok. split; [|done]. by rewrite Hc.
    + destruct Hok. split; [|done]. by rewrite Hc.
  - destruct st; cbn in *; try done; try (by rewrite Hat).
    all: destruct (h_ctl h) as [c|]; [|done]; cbn; by rewrite Hat.
Qed.
Lemma claim_frame s s' st : stage_record s' st = stage_record s st → stage_claim s' st = stage_claim s st.
Proof. intros H. unfold stage_claim. by rewrite H. Qed.
Lemma id_frame s s' st : stage_record s' st = stage_record s st → stage_id s' st = stage_id s st.
Proof. intros H. unfold stage_id. by rewrite H. Qed.

(** ** The books *)

(** What a worker adds to a cell, to the count of a namespace, to the identities. *)
Definition share ns d (f : Claim → Z) s w : Z :=
  if decide ((req_ns (job w).1, req_domain (job w).1) = (ns, d)) then f (stage_claim s (stage w)) else 0.
Definition share_count ns s w : Z :=
  if decide (req_ns (job w).1 = ns) then cl_count (stage_claim s (stage w)) else 0.
Definition draws w : Z := Z.of_nat (length (todo w)) + stage_draws (stage w).

Record worker_ok s w : Prop := {
  wk_stage : stage_ok s0 s (job w).1 (stage w);
  wk_job : stage w = Idle ∨ request_ok (job w).1;
  wk_todo j : j ∈ todo w → request_ok j.1 }.

Record books (threads : nat) (T : Traffic) : Prop := {
  bk_runs : runs_on s0 T.1;
  bk_reserved ns d : reserved (ledger T.1) ns d = reserved (ledger s0) ns d + sum_list (share ns d cl_reserved T.1) T.2;
  bk_committed ns d : committed (ledger T.1) ns d = committed (ledger s0) ns d + sum_list (share ns d cl_committed T.1) T.2;
  bk_allocated ns d : allocated (ledger T.1) ns d = allocated (ledger s0) ns d + sum_list (share ns d cl_committed T.1) T.2;
  bk_allocs ns : allocs (ledger T.1) ns = allocs (ledger s0) ns + sum_list (share_count ns T.1) T.2;
  bk_nss : nss_ (ledger T.1) = nss_ (ledger s0);
  bk_workers i w : T.2 !! i = Some w → worker_ok T.1 w;
  bk_distinct i j wi wj c : i ≠ j → T.2 !! i = Some wi → T.2 !! j = Some wj →
    stage_ctl (stage wi) = Some c → stage_ctl (stage wj) ≠ Some c;
  bk_registry id : (∀ i w, T.2 !! i = Some w → stage_id T.1 (stage w) ≠ Some id) →
    registry_ T.1 !! id = registry_ s0 !! id;
  bk_draws : id_counter_ T.1 + sum_list draws T.2 < two64;
  bk_threads : length T.2 = threads }.

Context (jobs : list (list (AllocationRequest * Z))) (Hjobs : traffic_ok jobs).

Lemma share_bounds ns d s w : worker_ok s w →
  (0 ≤ share ns d cl_reserved s w ≤ two49) ∧ (0 ≤ share ns d cl_committed s w ≤ two49)
  ∧ (0 ≤ share_count ns s w ≤ two49).
Proof.
  intros [Hok _ _]. destruct (claim_bounds _ _ _ Hok) as (? & ? & ?).
  unfold share, share_count, two49 in *. repeat case_decide; lia.
Qed.
Lemma share_own s w :
  let ns := req_ns (job w).1 in let d := req_domain (job w).1 in
  share ns d cl_reserved s w = cl_reserved (stage_claim s (stage w))
  ∧ share ns d cl_committed s w = cl_committed (stage_claim s (stage w))
  ∧ share_count ns s w = cl_count (stage_claim s (stage w)).
Proof. cbv zeta. unfold share, share_count. by rewrite !decide_True. Qed.

(** A worker's claim is in the ledger, which has room. *)
Lemma books_covered T i w : books (length jobs) T → T.2 !! i = Some w →
  covered T.1 (job w).1 (stage_claim T.1 (stage w)).
Proof.
  intros [Hrun H1 H2 H3 H4 _ Hw _ _ _ Hlen] Hi.
  set (ns := req_ns (job w).1) in *. set (d := req_domain (job w).1) in *.
  destruct (tk_cells _ Hjobs ns d) as (C1 & C2 & C3 & C4). pose proof (tk_threads _ Hjobs) as Hth.
  assert (∀ f, (∀ j v, T.2 !! j = Some v → 0 ≤ f v ≤ two49) →
    f w ≤ sum_list f T.2 ∧ 0 ≤ sum_list f T.2 ≤ two61) as Hsum.
  { intros f Hf. destruct (sum_list_member f T.2) as [Hn Hm]; [intros j v Hj; by eapply Hf|].
    pose proof (sum_list_le f T.2 two49 (λ j v Hj, proj2 (Hf j v Hj))) as Hle. rewrite Hlen in Hle.
    specialize (Hm i w Hi). unfold two49, two61 in *. lia. }
  destruct (Hsum (share ns d cl_reserved T.1)) as [R1 R2]; [intros; by eapply share_bounds, Hw|].
  destruct (Hsum (share ns d cl_committed T.1)) as [K1 K2]; [intros; by eapply share_bounds, Hw|].
  destruct (Hsum (share_count ns T.1)) as [N1 N2]; [intros; eapply (share_bounds ns d), Hw; done|].
  destruct (share_own T.1 w) as (E1 & E2 & E3). fold ns d in E1, E2, E3.
  specialize (H1 ns d). specialize (H2 ns d). specialize (H3 ns d). specialize (H4 ns).
  unfold two61 in *. constructor; fold ns d; [constructor; unfold two62; lia|lia..].
Qed.

(** One worker moves. *)
Record moved s w s' w' : Prop := {
  mv_ok : worker_ok s' w';
  mv_others : keeps_others (stage w) s (stage w') s';
  mv_reserved ns d :
    reserved (ledger s') ns d = reserved (ledger s) ns d - share ns d cl_reserved s w + share ns d cl_reserved s' w';
  mv_committed ns d :
    committed (ledger s') ns d = committed (ledger s) ns d - share ns d cl_committed s w + share ns d cl_committed s' w';
  mv_allocated ns d :
    allocated (ledger s') ns d = allocated (ledger s) ns d - share ns d cl_committed s w + share ns d cl_committed s' w';
  mv_allocs ns : allocs (ledger s') ns = allocs (ledger s) ns - share_count ns s w + share_count ns s' w';
  mv_nss : nss_ (ledger s') = nss_ (ledger s);
  mv_draws : id_counter_ s' + draws w' ≤ id_counter_ s + draws w }.

(** The other workers see nothing of it. *)
Lemma others_frame n s ws i w s' w' j v :
  books n (s, ws) → ws !! i = Some w → moved s w s' w' → j ≠ i → ws !! j = Some v →
  worker_ok s' v ∧ stage_record s' (stage v) = stage_record s (stage v).
Proof.
  intros Hb Hi Hm Hj Hv. pose proof (bk_workers _ _ Hb j v Hv) as [Hok Hjob Htodo]. cbn [fst] in *.
  destruct (stage_frame s s' (job v).1 (stage v) Hok) as [Hok' Hrec].
  - intros c Hc. apply (ko_controls _ _ _ _ (mv_others _ _ _ _ Hm)); [by eapply stage_ctl_ok|].
    intros Hwc. exact (bk_distinct _ _ Hb i j w v c (not_eq_sym Hj) Hi Hv Hwc Hc).
  - done.
Qed.
Lemma runs_on_kept st s st' s' : runs_on s0 s → keeps_others st s st' s' → runs_on s0 s'.
Proof. intros [] []. constructor; try congruence; try lia. done. Qed.

Lemma insert_cases {A} (l : list A) i j x y : <[i := x]> l !! j = Some y →
  (i = j ∧ x = y) ∨ (i ≠ j ∧ l !! j = Some y).
Proof. intros H. apply list_lookup_insert_Some in H. naive_solver. Qed.

Lemma books_move n s ws i w s' w' :
  books n (s, ws) → ws !! i = Some w → moved s w s' w' → books n (s', <[i := w']> ws).
Proof.
  intros Hb Hi Hm. pose proof (others_frame n s ws i w s' w') as Hfr.
  assert (∀ ns d f j v, j ≠ i → ws !! j = Some v → share ns d f s' v = share ns d f s v) as Hsh.
  { intros ns d f j v Hj Hv. unfold share. by rewrite (claim_frame s) by by eapply Hfr. }
  assert (∀ ns j v, j ≠ i → ws !! j = Some v → share_count ns s' v = share_count ns s v) as Hshc.
  { intros ns j v Hj Hv. unfold share_count. by rewrite (claim_frame s) by by eapply Hfr. }
  destruct Hb as [Hrun H1 H2 H3 H4 H5 Hw Hd Hreg Hdr Hlen] eqn:E. clear E. cbn [fst snd] in *.
  pose proof Hm as [Hok Hko M1 M2 M3 M4 M5 M6].
  constructor; cbn [fst snd].
  - by eapply runs_on_kept.
  - intros ns d. rewrite (sum_list_update (share ns d cl_reserved s)) with (x:=w) by eauto. rewrite M1, H1. lia.
  - intros ns d. rewrite (sum_list_update (share ns d cl_committed s)) with (x:=w) by eauto. rewrite M2, H2. lia.
  - intros ns d. rewrite (sum_list_update (share ns d cl_committed s)) with (x:=w) by eauto. rewrite M3, H3. lia.
  - intros ns. rewrite (sum_list_update (share_count ns s)) with (x:=w) by eauto. rewrite M4, H4. lia.
  - congruence.
  - intros j v [[<- <-]|[Hne Hv]]%insert_cases; [done|]. by eapply Hfr; eauto.
  - intros j k vj vk c Hne [[<- <-]|[Hj Hvj]]%insert_cases [[<- <-]|[Hk Hvk]]%insert_cases Hc; try done.
    + destruct (ko_ctl _ _ _ _ Hko c Hc) as [Hwc|Hnone]; [by eapply (Hd i k)|].
      intros Hvc. destruct (Hw k vk Hvk) as [Hvok _ _]. destruct (stage_ctl_ok _ _ _ _ Hvok Hvc) as [x Hx]. congruence.
    + intros Hwc. destruct (ko_ctl _ _ _ _ Hko c Hwc) as [Hwc'|Hnone]; [by eapply (Hd i j); eauto|].
      destruct (Hw j vj Hvj) as [Hvok _ _]. destruct (stage_ctl_ok _ _ _ _ Hvok Hc) as [x Hx]. congruence.
    + by eapply (Hd j k).
  - intros id Hid. rewrite (ko_registry _ _ _ _ Hko id); [|apply (Hid i w'), list_lookup_insert_eq; by apply lookup_lt_Some in Hi].
    case_decide as Hwid.
    + destruct (registry_ s0 !! id) as [c|] eqn:Hc; [|done]. exfalso. apply (tk_registry _ Hjobs) in Hc.
      destruct (Hw i w Hi) as [Hwok _ _]. pose proof (stage_id_ok _ _ _ _ Hwok Hwid). lia.
    + apply Hreg. intros j v Hv. destruct (decide (j = i)) as [->|Hne]; [congruence|].
      rewrite <- (id_frame s s') by by eapply Hfr; eauto.
      apply (Hid j). by rewrite list_lookup_insert_ne.
  - rewrite (sum_list_insert draws ws i w w' Hi). lia.
  - by rewrite length_insert.
Qed.

(** A stage moves its worker. *)
Lemma share_recharged ns d f s w s' st' :
  share ns d f s' (mkWorker st' (job w) (todo w))
  = share ns d f s w
    + (if decide ((req_ns (job w).1, req_domain (job w).1) = (ns, d))
       then f (stage_claim s' st') - f (stage_claim s (stage w)) else 0).
Proof. unfold share. cbn [job stage]. case_decide; lia. Qed.
Lemma moved_advances s w q :
  worker_ok s w → request_ok (job w).1 → advances s0 (job w).1 (stage w) s q →
  nss_ (ledger q.2) = nss_ (ledger s) → moved s w q.2 (mkWorker q.1 (job w) (todo w)).
Proof.
  intros [Hok _ Htodo] Hjob [Hok' [C1 C2 C3 C4 C5] Hko Hdr] Hn. destruct q as [st' s']; cbn [fst snd] in *.
  constructor; cbn [stage]; try done.
  - constructor; cbn [job stage todo]; [done|by right|done].
  - intros ns d. rewrite C1, (share_recharged ns d _ s). lia.
  - intros ns d. rewrite C2, (share_recharged ns d _ s). lia.
  - intros ns d. rewrite C3, (share_recharged ns d _ s). lia.
  - intros ns. rewrite C4. unfold share_count. cbn [job stage]. case_decide; lia.
  - unfold draws. cbn [todo stage]. lia.
Qed.
Lemma moved_stage s w :
  worker_ok s w → stage w ≠ Idle → stage w ≠ Stopped → runs_on s0 s →
  covered s (job w).1 (stage_claim s (stage w)) → id_counter_ s + stage_draws (stage w) < two64 →
  let q := stage_step (job w).1 (job w).2 (stage w) s in
  moved s w q.2 (mkWorker q.1 (job w) (todo w)).
Proof.
  intros Hw Hi Hs Hrun Hcov Hid. pose proof Hw as [Hok Hjob Htodo]. destruct Hjob as [?|Hjob]; [done|].
  pose proof (stage_advances s0 (job w).1 (job w).2 s (tk_domains _ Hjobs) Hjob Hrun
                (stage w) Hi Hs Hok Hcov Hid) as Had.
  apply moved_advances; [done..|]. apply (ch_nss _ _ _ _ _ _ _ _ (ad_ledger _ _ _ _ _ Had)).
Qed.
(** So does the start of the next request. *)
Lemma moved_begin s w j rest :
  worker_ok s w → stage w = Idle → todo w = j :: rest → runs_on s0 s → moved s w s (mkWorker Begin j rest).
Proof.
  intros [_ _ Htodo] Hi Ht Hrun.
  assert (∀ ns d f, f no_claim = 0 → share ns d f s w = 0 ∧ share ns d f s (mkWorker Begin j rest) = 0) as Hsh.
  { intros ns d f Hf. unfold share. rewrite Hi. cbn [stage job]. change (stage_claim s Begin) with no_claim.
    change (stage_claim s Idle) with no_claim. by repeat case_decide. }
  constructor; cbn [stage]; try done.
  - constructor; cbn [job stage todo]; [done|right; apply Htodo; rewrite Ht; set_solver|].
    intros j' Hj'. apply Htodo. rewrite Ht. set_solver.
  - destruct Hrun. rewrite Hi. constructor; try done; cbn; try lia.
  - intros ns d. destruct (Hsh ns d cl_reserved) as [-> ->]; [done|lia].
  - intros ns d. destruct (Hsh ns d cl_committed) as [-> ->]; [done|lia].
  - intros ns d. destruct (Hsh ns d cl_committed) as [-> ->]; [done|lia].
  - intros ns. unfold share_count. rewrite Hi. cbn [stage job].
    change (stage_claim s Begin) with no_claim. change (stage_claim s Idle) with no_claim.
    repeat case_decide; cbn; lia.
  - unfold draws. rewrite Ht, Hi. cbn [todo stage stage_draws length]. lia.
Qed.

Lemma draws_nonneg w : 0 ≤ stage_draws (stage w) ≤ draws w.
Proof. unfold draws. destruct (stage w); cbn; lia. Qed.
Lemma books_step T T' : books (length jobs) T → traffic_step T T' → books (length jobs) T'.
Proof.
  intros Hb Hst. destruct Hst as [i w w' s s' ws Hi Hw]. apply (books_move _ s ws i w); [done..|].
  pose proof (books_covered _ _ _ Hb Hi) as Hcov. pose proof (bk_workers _ _ Hb i w Hi) as Hok.
  pose proof (bk_runs _ _ Hb) as Hrun. pose proof (bk_draws _ _ Hb) as Hdr. cbn [fst snd] in *.
  pose proof (sum_list_elem draws ws i w (λ v, Z.le_trans _ _ _ (proj1 (draws_nonneg v)) (proj2 (draws_nonneg v))) Hi).
  pose proof (draws_nonneg w) as Hd.
  pose proof (moved_stage s w Hok) as Hm. specialize (λ H1 H2, Hm H1 H2 Hrun Hcov ltac:(lia)). cbv zeta in Hm.
  unfold worker_step in Hw. destruct (stage w) eqn:Est; try done.
  1: { destruct (todo w) as [|j rest] eqn:Ht; [done|]. injection Hw as <- <-. by apply moved_begin. }
  all: destruct (stage_step _ _ _ s) as [st' s1]; injection Hw as <- <-; by apply Hm.
Qed.

Lemma books_start : books (length jobs) (traffic_start s0 jobs).
Proof.
  assert (∀ i w, (traffic_start s0 jobs).2 !! i = Some w → ∃ l, l ∈ jobs ∧ stage w = Idle ∧ todo w = l) as Hw.
  { intros i w Hw. cbn in Hw. rewrite list_lookup_fmap in Hw. apply fmap_Some in Hw as (l & Hl & ->).
    exists l. split_and!; [by eapply list_elem_of_lookup_2|done..]. }
  assert (∀ (f : Worker → Z), (∀ w, stage w = Idle → f w = 0) → sum_list f (traffic_start s0 jobs).2 = 0) as Hsum.
  { intros f Hf. cbn [traffic_start snd]. rewrite sum_list_fmap. apply sum_list_zero. intros l. by apply Hf. }
  destruct Hjobs as [? Hdense Hreq _ _ Hcnt _].
  constructor; change (traffic_start s0 jobs).1 with s0;
    try (intros; rewrite Hsum; [lia|]; unfold share, share_count; intros w ->; by case_decide).
  - constructor; try done. lia.
  - done.
  - intros i w (l & Hl & Hst & Ht)%Hw. constructor; [by rewrite Hst|by left|rewrite Ht; intros j; by apply Hreq].
  - intros i j wi wj c _ (l & _ & Hst & _)%Hw _. by rewrite Hst.
  - done.
  - cbn [traffic_start fst snd]. rewrite sum_list_fmap.
    replace (sum_list _ jobs) with (sum_list (λ l : list (AllocationRequest * Z), Z.of_nat (length l)) jobs); [lia|].
    unfold sum_list. clear. induction jobs as [|l ls IH]; simpl; [done|]. rewrite IH. unfold draws. cbn. lia.
  - cbn. by rewrite length_fmap.
Qed.
Lemma books_steps T T' : books (length jobs) T → rtc traffic_step T T' → books (length jobs) T'.
Proof. intros Hb. induction 1; eauto using books_step. Qed.
Lemma books_reachable T : rtc traffic_step (traffic_start s0 jobs) T → books (length jobs) T.
Proof. apply books_steps, books_start. Qed.

(** ** The end of the traffic *)

(** The accounts and the registry are what they were at the start. *)
Record balanced s : Prop := {
  ba_reserved ns d : reserved (ledger s) ns d = reserved (ledger s0) ns d;
  ba_committed ns d : committed (ledger s) ns d = committed (ledger s0) ns d;
  ba_allocated ns d : allocated (ledger s) ns d = allocated (ledger s0) ns d;
  ba_allocs ns : allocs (ledger s) ns = allocs (ledger s0) ns;
  ba_registry : registry_ s = registry_ s0 }.

Lemma done_stage w : done w = true → stage w = Idle ∨ stage w = Stopped.
Proof. unfold done. destruct (stage w); auto; done. Qed.
Lemma all_done_lookup (T : Traffic) i w : all_done T = true → T.2 !! i = Some w → done w = true.
Proof.
  unfold all_done. intros Hd Hi.
  eapply forallb_forall in Hd; [exact Hd|]. apply list_elem_of_In. by eapply list_elem_of_lookup_2.
Qed.
Lemma books_balanced T : books (length jobs) T → all_done T = true → balanced T.1.
Proof.
  intros Hb Hd. assert (∀ i w, T.2 !! i = Some w → stage w = Idle ∨ stage w = Stopped) as Hst.
  { intros i w Hi. by eapply done_stage, all_done_lookup. }
  assert (∀ f : Worker → Z, (∀ w, stage w = Idle ∨ stage w = Stopped → f w = 0) → sum_list f T.2 = 0) as Hsum.
  { intros f Hf. pose proof (sum_list_le f T.2 0) as Hle. pose proof (sum_list_member f T.2) as Hge.
    rewrite Z.mul_0_r in Hle. apply Z.le_antisymm; [apply Hle|apply Hge]; intros i w Hi;
      rewrite (Hf w) by (by eapply Hst); done. }
  destruct Hb as [_ H1 H2 H3 H4 _ _ _ Hreg _ _].
  constructor; intros; rewrite ?H1, ?H2, ?H3, ?H4, ?Hsum; try lia;
    try (intros w [Hw|Hw]; unfold share, share_count; rewrite Hw; by case_decide).
  apply map_eq. intros id. apply Hreg. intros i w Hi. by destruct (Hst i w Hi) as [-> | ->].
Qed.

(** How many steps a worker has left, at most. *)
Definition stage_rank st : nat :=
  match st with
  | Idle | Stopped => 0 | Erase _ _ => 1 | Retire _ _ _ => 2 | Settle _ _ _ => 3 | Dispose _ _ => 4
  | Finalize _ => 5 | Unhand _ => 6 | Unmap _ _ => 7 | Fill _ _ => 8 | Held _ => 9 | Retain _ => 10
  | Register _ => 11 | UndoCount _ | UndoCheckout _ => 1 | UndoReserve _ | DiscardZeroed _ => 2
  | Discard _ _ | UndoZeroed _ _ => 3 | Zero _ _ _ _ => 12 | Commit _ _ _ => 13 | Back _ _ _ => 14
  | Take _ _ _ => 15 | Name _ _ => 16 | Reserve _ _ => 17 | Count _ _ => 18 | Begin => 19
  end.
Definition worker_rank w : nat := stage_rank (stage w) + 20 * length (todo w).
Definition traffic_rank (T : Traffic) : nat := Z.to_nat (sum_list (λ w, Z.of_nat (worker_rank w)) T.2).
End books.

Section progress.
Context {P : Platform}.

Lemma stage_rank_step req byte st s :
  st ≠ Idle → st ≠ Stopped → (stage_rank (stage_step req byte st s).1 < stage_rank st)%nat.
Proof.
  intros Hi Hs. destruct st; try done;
    cbn [stage_step allocate_stage undo_stage client_stage finalize_stage]; unfold at_domain;
    repeat first
      [ rewrite bind_run
      | progress cbn [ret get get_ctl gets fst snd]
      | match goal with
        | |- context [match ?x with _ => _ end _] => destruct x
        | |- context [stage_rank (match ?x with _ => _ end)] => destruct x
        | |- context [match ?x with _ => _ end] => destruct x
        end ];
    cbn; lia.
Qed.
Lemma worker_rank_step w s w' s' : worker_step w s = Some (w', s') → (worker_rank w' < worker_rank w)%nat.
Proof.
  unfold worker_step, worker_rank. pose proof (stage_rank_step (job w).1 (job w).2 (stage w) s) as Hr.
  destruct (stage w) eqn:E; try done.
  1: { destruct (todo w) as [|j l]; [done|]. intros [= <- <-]. cbn. lia. }
  all: destruct (stage_step _ _ _ s) as [st' s1]; intros [= <- <-]; cbn [stage todo fst] in *;
    specialize (Hr ltac:(done) ltac:(done)); lia.
Qed.
Lemma worker_step_done w s : worker_step w s = None → done w = true.
Proof.
  unfold worker_step, done. destruct (stage w); try done; try (by destruct (stage_step _ _ _ s)).
  by destruct (todo w).
Qed.
Lemma traffic_rank_step T T' : traffic_step T T' → (traffic_rank T' < traffic_rank T)%nat.
Proof.
  destruct 1 as [i w w' s s' ws Hi Hw]. apply worker_rank_step in Hw. unfold traffic_rank. cbn [snd].
  rewrite (sum_list_insert _ ws i w w' Hi).
  pose proof (sum_list_elem (λ w, Z.of_nat (worker_rank w)) ws i w (λ v, Zle_0_nat _) Hi). cbv beta in *. lia.
Qed.
Lemma traffic_progress T : all_done T = true ∨ ∃ T', traffic_step T T'.
Proof.
  destruct T as [s ws]. unfold all_done. cbn [snd].
  destruct (forallb done ws) eqn:E; [by left|right].
  assert (¬ Forall (λ w, done w = true) ws) as Hn.
  { intros Hall. apply not_true_iff_false in E. apply E, forallb_forall. intros w Hw.
    apply list_elem_of_In in Hw. by eapply Forall_forall in Hall. }
  apply not_Forall_Exists in Hn; [|intros w; apply _]. apply Exists_exists in Hn as (w & Hw & Hd).
  apply list_elem_of_lookup in Hw as [i Hi].
  destruct (worker_step w s) as [[w' s']|] eqn:Hst; [|by apply worker_step_done in Hst].
  eexists. by econstructor.
Qed.

(** Whatever thread moves next, and next, [Q] comes to hold. *)
Inductive inevitable (Q : Traffic → Prop) (T : Traffic) : Prop :=
  | inevitable_now : Q T → inevitable Q T
  | inevitable_next :
      (∃ T', traffic_step T T') → (∀ T', traffic_step T T' → inevitable Q T') → inevitable Q T.
Lemma inevitable_done (Q : Traffic → Prop) T0 T :
  (∀ T, rtc traffic_step T0 T → all_done T = true → Q T) → rtc traffic_step T0 T → inevitable Q T.
Proof.
  intros HQ. remember (traffic_rank T) as n eqn:Hn. revert T Hn.
  induction n as [n IH] using (well_founded_induction lt_wf). intros T -> Hr.
  destruct (traffic_progress T) as [Hd|Hs]; [left; by apply HQ|right; [done|]].
  intros T' Hst. eapply (IH (traffic_rank T')); [by apply traffic_rank_step|done|by eapply rtc_r].
Qed.

(** ** The report of examples/concurrent.cpp *)

#[local] Hint Resolve tidy_reserve_amount tidy_commit_amount tidy_reserve_count tidy_unreserve_amount
  tidy_release_amount tidy_free_accounting tidy_release_count tidy_discard_with tidy_discard_backing
  tidy_checkout_amount tidy_pool_take tidy_pool_put tidy_now_epoch tidy_register_control tidy_new_handle
  tidy_map_release : frames.
Lemma tidy_handle_map h acc : preserves tidy (handle_map h acc).
Proof. unfold handle_map, with_handle, retain. tidy_tac. Qed.
#[local] Hint Resolve tidy_handle_map : frames.
Lemma tidy_stage req byte st : preserves tidy (stage_step req byte st).
Proof.
  destruct st; cbn [stage_step allocate_stage undo_stage client_stage finalize_stage];
    unfold at_domain, take_from_pool, zero_on_release; tidy_tac.
Qed.
Lemma tidy_traffic T T' : rtc traffic_step T T' → tidy T.1 T'.1.
Proof.
  induction 1 as [|T1 T2 T3 Hst _ IH]; [done|]. transitivity T2.1; [|done]. clear IH.
  destruct Hst as [i w w' s s' ws _ Hw]. unfold worker_step in Hw. cbn [fst].
  pose proof (tidy_stage (job w).1 (job w).2 (stage w) s) as Ht.
  destruct (stage w) eqn:E; try done.
  1: { destruct (todo w); [done|]. by injection Hw as <- <-. }
  all: destruct (stage_step _ _ _ s); injection Hw as <- <-; exact Ht.
Qed.
End progress.

(** ** Theorems *)

Section theorems.
Context {P : Platform}.

(** C10: the books balance at every moment. In every state threads can reach that
    allocate and release unpooled buffers of a constructed runtime, in the domains that do
    not go through the CUDA driver (zeroing a buffer of such a domain cannot fail; when
    zeroing a fresh device buffer fails, the source frees it and leaves what it had
    committed charged), in any interleaving of their critical sections, each cell of the ledger is its initial value plus what the threads hold at
    the stage they are in: the bytes reserved between reservation and commit, the bytes
    committed until finalization has subtracted them, one counted allocation; and the
    registry lists exactly its initial buffers beside theirs. *)
Theorem traffic_accounts (s0 : RuntimeImpl) (jobs : list (list (AllocationRequest * Z))) (T : Traffic) :
  traffic_ok s0 jobs → rtc traffic_step (traffic_start s0 jobs) T →
  (∀ ns d, reserved (ledger T.1) ns d = reserved (ledger s0) ns d + sum_list (share ns d cl_reserved T.1) T.2
    ∧ committed (ledger T.1) ns d = committed (ledger s0) ns d + sum_list (share ns d cl_committed T.1) T.2
    ∧ allocated (ledger T.1) ns d = allocated (ledger s0) ns d + sum_list (share ns d cl_committed T.1) T.2)
  ∧ (∀ ns, allocs (ledger T.1) ns = allocs (ledger s0) ns + sum_list (share_count ns T.1) T.2)
  ∧ (∀ id, (∀ i w, T.2 !! i = Some w → stage_id T.1 (stage w) ≠ Some id) →
       registry_ T.1 !! id = registry_ s0 !! id).
Proof. intros Hok Hr. destruct (books_reachable s0 jobs Hok T Hr). auto. Qed.

(** C11: the traffic ends, and nothing is lost or charged twice. Under the same conditions
    (unpooled requests for domains that do not go through the CUDA driver), whatever thread
    is scheduled next and whatever allocations, maps and commits fail, all of them finish
    their loops after finitely many steps, and then every cell of the ledger and the
    registry are what they were before. *)
Theorem traffic_balances (s0 : RuntimeImpl) (jobs : list (list (AllocationRequest * Z))) :
  traffic_ok s0 jobs →
  inevitable (λ T, all_done T = true ∧ balanced s0 T.1) (traffic_start s0 jobs).
Proof.
  intros Hok. eapply inevitable_done; [|reflexivity]. intros T Hr Hd. split; [done|].
  apply (books_balanced s0 jobs); [by apply books_reachable|done].
Qed.

(** A worker that nobody interrupts is the sequential program: from any state, its
    stages compute what [Runtime::allocate], [map], the write, the release of the map and
    [BufferHandle::release] compute, on every path, pooled or not. *)
Theorem uninterrupted_worker_agrees (req : AllocationRequest) (byte : Z) (s : RuntimeImpl) :
  ∃ n, alone n req byte Begin s
       = (if (iteration req byte s).1 then Idle else Stopped, (iteration req byte s).2).
Proof. apply leads_iteration. Qed.

(** A fresh runtime is ready for the traffic of the example. *)
Lemma fresh_cells seed m : let s := (RuntimeImpl_new RuntimeConfig_default seed m).1 in
  registry_ s = ∅ ∧ controls s = ∅ ∧ id_counter_ s = 1 ∧ closed_ s = false ∧ telem_ s = (λ _, 0)
  ∧ ∀ ns d, reserved (ledger s) ns d = 0 ∧ committed (ledger s) ns d = 0
          ∧ allocated (ledger s) ns d = 0 ∧ allocs (ledger s) ns = 0.
Proof. unfold RuntimeImpl_new. cbv zeta. rewrite !bind_run. cbn [ret fst]. done. Qed.
(** A request for host memory that is not pooled can be traffic. *)
Record host_unpooled (req : AllocationRequest) : Prop := {
  hu_domain : req_domain req = MemoryDomain.HOST;
  hu_unpooled : pooled_flag (req_flags req) = false;
  hu_access : req_access req = AccessMode.READ_WRITE;
  hu_size : is_u64 (req_size req);
  hu_al : is_u64 (req_alignment req) }.
Lemma fresh_host seed m : ∃ hd,
  domain (RuntimeImpl_new RuntimeConfig_default seed m).1 MemoryDomain.HOST = Some (host_domain hd).
Proof. unfold RuntimeImpl_new. rewrite !bind_run. cbn. rewrite bind_run. by eexists. Qed.
Lemma fresh_traffic_ok seed m jobs :
  (∀ l j, l ∈ jobs → j ∈ l → host_unpooled j.1) →
  Z.of_nat (length jobs) ≤ 4096 → sum_list (λ l, Z.of_nat (length l)) jobs < two64 - 1 →
  traffic_ok (RuntimeImpl_new RuntimeConfig_default seed m).1 jobs.
Proof.
  intros Hj Hn Hs. pose proof (fresh_cells seed m) as (Hr & Hc & Hi & _ & _ & Hl).
  constructor; [|..|done].
  - by eexists _, _, _.
  - intros c. rewrite Hc, lookup_empty, map_size_empty. split; [by intros [? ?]|lia].
  - intros l j Hl' Hj'. destruct (Hj l j Hl' Hj') as [Hd ? ? ? ?]. constructor; try done.
    by rewrite Hd.
  - intros ns d. destruct (Hl ns d) as (-> & -> & -> & ->). done.
  - intros id c. by rewrite Hr.
  - rewrite Hi. lia.
Qed.
(** The traffic does not mind the namespaces, the machine and the counters. *)
Lemma traffic_ok_same s s' jobs :
  backends s' = backends s → controls s' = controls s → registry_ s' = registry_ s →
  id_counter_ s' = id_counter_ s →
  (∀ ns d, reserved (ledger s') ns d = reserved (ledger s) ns d
     ∧ committed (ledger s') ns d = committed (ledger s) ns d
     ∧ allocated (ledger s') ns d = allocated (ledger s) ns d ∧ allocs (ledger s') ns = allocs (ledger s) ns) →
  traffic_ok s jobs → traffic_ok s' jobs.
Proof.
  intros Hb Hc Hr Hi Hl [H1 H2 H3 H4 H5 H6 H7]. constructor; [| | | | |by rewrite Hi|done].
  - destruct H1 as (c & seed & m & H1). exists c, seed, m. by rewrite Hb.
  - unfold dense. by rewrite Hc.
  - intros l j Hl' Hj. by destruct (H3 l j Hl' Hj).
  - intros ns d. destruct (Hl ns d) as (-> & -> & -> & ->). apply H4.
  - intros id c. rewrite Hr, Hi. apply H5.
Qed.
Lemma concurrent_ok seed m :
  traffic_ok (RuntimeImpl_new RuntimeConfig_default seed m).1 (replicate kThreads concurrent_jobs).
Proof.
  apply fresh_traffic_ok; [|done|by vm_compute].
  intros l j [-> _]%elem_of_replicate (i & -> & _)%list_elem_of_fmap. by constructor.
Qed.
Lemma domain_total_zero l d : (∀ ns, committed l ns d = 0) → domain_total l d = 0.
Proof.
  intros H. unfold domain_total. rewrite sum_map_list. unfold committed, cell in H.
  assert (∀ ka, ka ∈ map_to_list (ns_committed_ l) → default 0 (ka.2 !! d) = 0) as Hz.
  { intros [ns row] Hka%elem_of_map_to_list. specialize (H ns). by rewrite Hka in H. }
  unfold sum_list. induction (map_to_list _) as [|ka rows IH]; simpl; [done|].
  rewrite Hz by set_solver. rewrite IH; [done|]. intros ka' Hka'. apply Hz. set_solver.
Qed.

(** C12: examples/concurrent.cpp passes. On a fresh runtime, however the eight threads
    are scheduled and whatever the system calls return, they all finish, and the
    statistics [main] then reads report no active buffer, no outstanding allocation and
    no host byte, so that it prints PASS and returns 0. *)
Theorem concurrent_passes (seed : Z) (m : Machine) :
  inevitable (λ T, all_done T = true ∧
      ∃ summary, (concurrent_report T.1).1 = ([summary; "[concurrent] PASS"%string], 0))
    (concurrent_start (RuntimeImpl_new RuntimeConfig_default seed m).1).
Proof.
  set (s0 := (RuntimeImpl_new RuntimeConfig_default seed m).1).
  pose proof (fresh_cells seed m : let s := s0 in _) as (Hr & _ & _ & _ & Ht & Hl).
  eapply inevitable_done; [|reflexivity]. intros T Hreach Hd. split; [done|].
  pose proof (books_reachable s0 _ (concurrent_ok seed m) T Hreach) as Hb.
  destruct (books_balanced s0 _ T Hb Hd) as [_ Hcm _ _ Hreg].
  pose proof (td_gauge _ _ (tidy_traffic _ _ Hreach) host_bytes eq_refl) as Hg.
  change (concurrent_start s0).1 with s0 in Hg. rewrite Ht in Hg.
  unfold concurrent_report, Runtime_stats, guarded, runtime_stats. rewrite !bind_run.
  cbn [get ret fst snd value_or st_counter telemetry]. rewrite Hreg, Hr, Hg.
  rewrite (domain_total_zero _ MemoryDomain.HOST).
  - by eexists.
  - intros ns. rewrite Hcm. by destruct (Hl ns MemoryDomain.HOST) as (_ & -> & _).
Qed.
End theorems.

(** ** Witnesses *)

Lemma play_reachable `{Platform} sched T T' : play sched T = Some T' → rtc traffic_step T T'.
Proof.
  revert T. induction sched as [|i rest IH]; intros [s ws] Hp; cbn in Hp; [by injection Hp as ->|].
  destruct (ws !! i) as [w|] eqn:Hi; [|done]. destruct (worker_step w s) as [[w' s']|] eqn:Hw; [|done].
  eapply rtc_l; [by econstructor|by apply IH].
Qed.
(** Two threads with one request each; the first has committed its block when the second
    has reserved its bytes. *)
Definition sim_jobs : list (list (AllocationRequest * Z)) := replicate 2 [(concurrent_request, 7)].
Definition sim_schedule : list nat := [0; 1; 0; 1; 0; 0; 1; 0; 0; 0; 0; 0; 1]%nat.
Lemma sim_jobs_ok : traffic_ok sim_runtime sim_jobs.
Proof.
  apply fresh_traffic_ok; [|done|by vm_compute].
  intros l j [-> _]%elem_of_replicate ->%list_elem_of_singleton. by constructor.
Qed.

Definition sim_shares (T : Traffic) : Z * Z * Z :=
  (sum_list (share kDefaultNamespace MemoryDomain.HOST cl_reserved T.1) T.2,
   sum_list (share kDefaultNamespace MemoryDomain.HOST cl_committed T.1) T.2,
   sum_list (share_count kDefaultNamespace T.1) T.2).
Lemma traffic_accounts_witness : ∃ T, play sim_schedule (traffic_start sim_runtime sim_jobs) = Some T
  ∧ reserved (ledger T.1) kDefaultNamespace MemoryDomain.HOST = 4096
  ∧ committed (ledger T.1) kDefaultNamespace MemoryDomain.HOST = 4096
  ∧ allocs (ledger T.1) kDefaultNamespace = 2.
Proof.
  assert (sim_shares <$> play sim_schedule (traffic_start sim_runtime sim_jobs) = Some (4096, 4096, 2)) as Hv
    by by vm_compute.
  destruct (play sim_schedule (traffic_start sim_runtime sim_jobs)) as [T|] eqn:E; [|done].
  exists T. split; [done|]. injection Hv as V1 V2 V3.
  destruct (traffic_accounts sim_runtime sim_jobs T sim_jobs_ok (play_reachable _ _ _ E)) as (Hc & Hn & _).
  destruct (Hc kDefaultNamespace MemoryDomain.HOST) as (H1 & H2 & _). specialize (Hn kDefaultNamespace).
  destruct (fresh_cells 7 sim_machine) as (_ & _ & _ & _ & _ & Hl).
  destruct (Hl kDefaultNamespace MemoryDomain.HOST) as (L1 & L2 & _ & L3). fold sim_runtime in L1, L2, L3.
  rewrite V1, L1 in H1. rewrite V2, L2 in H2. rewrite V3, L3 in Hn. by split_and!.
Defined.
Lemma traffic_balances_witness :
  inevitable (λ T, all_done T = true ∧ balanced sim_runtime T.1) (traffic_start sim_runtime sim_jobs).
Proof. exact (traffic_balances sim_runtime sim_jobs sim_jobs_ok). Defined.
