(* ===== verification/Examples.v ===== *)
(** The example programs (examples/*.cpp, examples/common.hpp), each a [main] over one
    runtime of its own.  A [Main] threads the process: the runtime, the local objects of
    [main] in the order of their declaration, and the lines printed; a [return] ends it
    early, and whatever way it ends, the locals are destroyed in reverse order and then
    the runtime.

    A variable is the position of its object among the locals.  The object of a call
    that succeeds is declared where the source declares the [Result] that carries it;
    [BufferHandle h = std::move(r.value())] leaves an empty handle behind, whose
    destruction does nothing.  examples/concurrent.cpp is in Traffic.v. *)
From Stdlib Require Import Ascii.
From S2P Require Import Prelude Types Platform State Ledger Pool Lifecycle Runtime Handle Facade Clients Shell.

(** ** The process *)

Section process.
Context {P : Platform}.

Record Process : Type := mkProcess {
  runtime : RuntimeImpl; locals : list Token; printed : list string }.

(** [inl code]: [main] has returned [code]. *)
Definition Main (A : Type) : Type := M Process (Z + A).
Definition pure {S A} (a : A) : M S (Z + A) := ret (inr a).
Definition exit {S A} (code : Z) : M S (Z + A) := ret (inl code).
Definition main_bind {S A B} (p : M S (Z + A)) (k : A → M S (Z + B)) : M S (Z + B) :=
  let! r := p in match r with inl code => ret (inl code) | inr a => k a end.

Definition print (line : string) : Main unit := λ x,
  (inr tt, mkProcess (runtime x) (locals x) (printed x ++ [line])).
(** A call that creates no object. *)
Definition on_runtime {A} (m : M RuntimeImpl A) : Main A := λ x,
  let '(a, s) := m (runtime x) in (inr a, mkProcess s (locals x) (printed x)).
(** A new local variable. *)
Definition declare (t : Token) : Main nat := λ x,
  (inr (length (locals x)), mkProcess (runtime x) (locals x ++ [t]) (printed x)).
Definition local (v : nat) : Main Token := λ x,
  (inr (default (THandle BufferHandle_empty) (locals x !! v)), x).
Definition assign (v : nat) (t : Token) : Main unit := λ x,
  (inr tt, mkProcess (runtime x) (<[v := t]> (locals x)) (printed x)).
End process.

Notation "'let*' x := p 'in' k" := (main_bind p (λ x, k))
  (at level 10, x pattern, p at level 100, k at level 200,
   format "'[v' 'let*'  x  :=  p  'in' '/' k ']'") : ub_scope.
Notation "p ;;* k" := (main_bind p (λ _, k)) (at level 199, right associativity) : ub_scope.

Section examples.
Context {P : Platform}.

(** A call that returns an object. *)
Definition owned {A} (mk : A → Token) (m : M RuntimeImpl (Result A)) : Main (Result nat) :=
  let* r := on_runtime m in
  match r with
  | Ok a => let* v := declare (mk a) in pure (Ok v)
  | Fail e => pure (Fail e)
  end.
Definition handle_at (v : nat) : Main BufferHandle :=
  let* t := local v in pure (match t with THandle h => h | _ => BufferHandle_empty end).

Definition allocate (req : AllocationRequest) : Main (Result nat) :=
  owned THandle (Runtime_allocate true req).
Definition migrate_to (v : nat) (target : MemoryDomain) : Main (Result nat) :=
  let* h := handle_at v in owned THandle (Runtime_migrate true h target).
Definition map_buffer (v : nat) (access : AccessMode) : Main (Result nat) :=
  let* h := handle_at v in owned TMap (handle_map h access).
Definition view_buffer (v : nat) (offset len : Z) (access : AccessMode) : Main (Result nat) :=
  let* h := handle_at v in owned TView (handle_view h offset len access).
(** A call on a handle that creates no object. *)
Definition on_handle {A} (v : nat) (f : BufferHandle → M RuntimeImpl A) : Main A :=
  let* h := handle_at v in on_runtime (f h).
Definition ask {A} (v : nat) (f : BufferHandle → RuntimeImpl → A) : Main A :=
  on_handle v (λ h, gets (f h)).
(** [release()] of a handle, a map, a view or a lease. *)
Definition release_token (t : Token) : M RuntimeImpl Token :=
  match t with
  | THandle h => let! r := handle_release h in ret (THandle r.2)
  | TMap m => let! m' := map_release m in ret (TMap m')
  | TView w => let! w' := view_release w in ret (TView w')
  | TLease l => let! l' := lease_release l in ret (TLease l')
  end.
Definition release (v : nat) : Main unit :=
  let* t := local v in let* t' := on_runtime (release_token t) in assign v t'.
(** [BufferHandle moved = std::move(orig)]. *)
Definition move_handle (v : nat) : Main nat :=
  let* t := local v in
  match t with
  | THandle h => assign v (THandle (mkBufferHandle false None (h_id h) (h_gen h) false)) ;;*
                 declare (THandle h)
  | _ => declare (THandle BufferHandle_empty)
  end.
(** [data()] of a map and of a view. *)
Definition data_at (v : nat) : Main Z :=
  let* t := local v in
  pure (match t with TMap m => map_data m | TView w => view_data w | _ => 0 end).
Definition stats : Main RuntimeStats :=
  let* r := on_runtime (Runtime_stats true) in pure (value_or r RuntimeStats_default).

(** Loops over the bytes of a mapping. *)
Definition poke (a v : Z) (m : Memory) : Memory := λ b, if b =? a then v else m b.
Definition for_bytes (n : Z) (body : Z → Memory → Memory) (m : Memory) : Memory :=
  foldl (λ m i, body i m) m (seqZ 0 n).
Definition write_bytes (n : Z) (body : Z → Memory → Memory) : Main unit :=
  on_runtime (on_machine (modify (set_mem (for_bytes n body)))).
(** Whether every byte of [p[from .. to)] is the one expected. *)
Definition bytes_are (p from to : Z) (f : Z → Z) : Main bool :=
  on_runtime (gets (λ s, forallb (λ i, mem (machine s) (p + i) =? f i) (seqZ from (to - from)))).

(** ** common.hpp *)

Definition errstr {A} (r : Result A) : string :=
  ErrorCode.ErrorCode_to_string (error r) +:+ ": " +:+ match r with Ok _ => "" | Fail e => message e end.
(** [setw(8) << setfill('0') << hex]. *)
Fixpoint pad_zeros (width : nat) (s : string) : string :=
  match width with
  | O => s
  | S w => if (String.length s <=? w)%nat then String "048" (pad_zeros w s) else s
  end.
Definition hex8 (n : Z) : string := pad_zeros 8 (hex32 n).
Definition enabled_in (d : MemoryDomain) (ds : list DomainInfo) : bool :=
  match List.find (λ di, bool_decide (dom_domain di = d)) ds with Some di => dom_enabled di | None => false end.
Definition domain_enabled_for (d : MemoryDomain) : Main bool :=
  let* r := on_runtime (Runtime_domains true) in
  pure (match r with Ok ds => enabled_in d ds | Fail _ => false end).
Definition has_cuda_device : Main bool :=
  let* r := on_runtime (Runtime_devices true) in
  pure (match r with Ok (_ :: _) => true | _ => false end).

(** A result or [return 1] with the reason. *)
Definition must {A} (what : string) (r : Result A) : Main A :=
  match r with
  | Ok a => pure a
  | Fail _ => print (what +:+ " failed: " +:+ errstr r) ;;* exit 1
  end.
(** [if (!ok) { print...; return 1; }]. *)
Definition check (ok : bool) (lines : list string) : Main unit :=
  if ok then pure tt
  else foldr (λ l k, print l ;;* k) (exit 1) lines.

(** ** basic_host.cpp *)

Definition basic_host_request : AllocationRequest :=
  mkAllocationRequest kDefaultNamespace MemoryDomain.HOST DeviceId_default 4194304 0
    AccessMode.READ_WRITE (mkAllocationFlags true false false 0) "basic-host" None.
Definition basic_byte (i : Z) : Z := (i * 31 + 7) mod 256.
Definition basic_host : Main Z :=
  let* before := on_runtime (Runtime_stats true) in
  check (is_ok before) ["[basic_host] stats() failed"] ;;*
  print ("[basic_host] active_buffers before = "
         +:+ pretty (st_counter (value_or before RuntimeStats_default) active_buffers)) ;;*
  let* ar := allocate basic_host_request in
  let* h := must "[basic_host] allocate" ar in
  let* n := ask h handle_size in
  let* d := ask h handle_domain_of in
  print ("[basic_host] allocated " +:+ pretty n +:+ " bytes in domain "
         +:+ MemoryDomain.MemoryDomain_to_string d) ;;*
  let* mr := map_buffer h AccessMode.READ_WRITE in
  let* m := must "[basic_host] map" mr in
  let* p := data_at m in
  write_bytes n (λ i, poke (p + i) (basic_byte i)) ;;*
  release m ;;*
  let* vr := view_buffer h 0 n AccessMode.READ in
  let* v := must "[basic_host] view" vr in
  let* q := data_at v in
  let* pattern_ok := bytes_are q 0 n basic_byte in
  release v ;;*
  print ("[basic_host] pattern read-back " +:+ (if pattern_ok : bool then "OK" else "MISMATCH")) ;;*
  check pattern_ok [] ;;*
  let* c1 := on_handle h handle_checksum in
  let* c2 := on_handle h handle_checksum in
  check (is_ok c1 && is_ok c2) ["[basic_host] checksum failed"] ;;*
  check (value_or c1 0 =? value_or c2 0) ["[basic_host] checksum unstable"] ;;*
  print ("[basic_host] checksum = 0x" +:+ hex8 (value_or c1 0)) ;;*
  let* vf := on_handle h handle_verify in
  print ("[basic_host] verify() " +:+ (if is_ok vf then "OK"
         else "FAILED: " +:+ ErrorCode.ErrorCode_to_string (error vf))) ;;*
  check (is_ok vf) [] ;;*
  release h ;;*
  let* ar := on_runtime (Runtime_stats true) in
  check (is_ok ar) ["[basic_host] stats() failed after release"] ;;*
  let after := st_counter (value_or ar RuntimeStats_default) in
  print ("[basic_host] active_buffers after = " +:+ pretty (after active_buffers)
         +:+ ", total_frees = " +:+ pretty (after total_frees)
         +:+ ", host_bytes = " +:+ pretty (after host_bytes)) ;;*
  check (after active_buffers =? 0) ["[basic_host] FAIL: active_buffers not back to 0"] ;;*
  print "[basic_host] PASS" ;;*
  pure 0.

(** ** views.cpp *)

(** [size] bytes of the host, not pooled. *)
Definition host_request (size : Z) : AllocationRequest := default_request MemoryDomain.HOST size false.
Definition views_total : Z := 4096.
Definition views_half : Z := 2048.
Definition verdict (expected : string) (ok : bool) : string := if ok then expected else "MISMATCH".
(** [x.ok() ? "no (unexpected)" : "yes (" + to_string(x.error()) + ")"]. *)
Definition rejected {A} (x : Result A) : string :=
  if is_ok x then "no (unexpected)" else "yes (" +:+ ErrorCode.ErrorCode_to_string (error x) +:+ ")".
Definition views : Main Z :=
  let* ar := allocate (host_request views_total) in
  let* parent := must "[views] allocate" ar in
  let* size := ask parent handle_size in
  print ("[views] parent buffer size=" +:+ pretty size) ;;*
  let* va := view_buffer parent 0 views_half AccessMode.WRITE in
  let* vb := view_buffer parent views_half views_half AccessMode.WRITE in
  check (is_ok va && is_ok vb) ["[views] creating views failed"] ;;*
  let va := value_or va 0%nat in
  let vb := value_or vb 0%nat in
  let* pa := data_at va in
  let* pb := data_at vb in
  write_bytes views_half (λ i m, poke (pb + i) 90 (poke (pa + i) 165 m)) ;;*
  let* vmr := map_buffer parent AccessMode.READ in
  let* vm := must "[views] parent map" vmr in
  let* pm := data_at vm in
  let* a_ok := bytes_are pm 0 views_half (λ _, 165) in
  let* b_ok := bytes_are pm views_half views_total (λ _, 90) in
  release vm ;;*
  print ("[views] view A pattern (0x00-" +:+ pretty views_half +:+ ") = " +:+ verdict "0xA5 OK" a_ok) ;;*
  print ("[views] view B pattern (" +:+ pretty views_half +:+ "-" +:+ pretty views_total +:+ ") = "
         +:+ verdict "0x5A OK" b_ok) ;;*
  check (a_ok && b_ok) [] ;;*
  let* ta := local va in
  let* tb := local vb in
  let span := λ t, match t with
    | TView w => "(" +:+ pretty (view_off w) +:+ "," +:+ pretty (view_len w) +:+ ")"
    | _ => ""
    end in
  print ("[views] view offsets/length: A" +:+ span ta +:+ " B" +:+ span tb) ;;*
  release va ;;*
  release vb ;;*
  let* bad := view_buffer parent 3000 2000 AccessMode.READ in
  print ("[views] invalid slice (offset 3000, len 2000) rejected = " +:+ rejected bad) ;;*
  check (negb (is_ok bad)) ["[views] FAIL: out-of-range slice was accepted"] ;;*
  release parent ;;*
  print "[views] PASS" ;;*
  pure 0.

(** ** stale_handle.cpp *)

(** [h.valid()]. *)
Definition handle_valid (v : nat) : Main bool := let* h := handle_at v in pure (h_valid h).
Definition truth (b : bool) : string := if b then "true" else "false".
Definition stale_handle : Main Z :=
  let req := host_request 4096 in
  let* ar := allocate req in
  let* h := must "[stale_handle] allocate" ar in
  let* hv := handle_at h in
  print ("[stale_handle] allocated handle (id lo=" +:+ pretty (lo (h_id hv)) +:+ ") valid="
         +:+ truth (h_valid hv)) ;;*
  release h ;;*
  let* valid := handle_valid h in
  check (negb valid) ["[stale_handle] FAIL: handle still valid after release"] ;;*
  let* mm := map_buffer h AccessMode.READ in
  print ("[stale_handle] map() on released handle rejected = " +:+ rejected mm) ;;*
  check (negb (is_ok mm)) ["[stale_handle] FAIL: map on stale handle succeeded"] ;;*
  let* vv := view_buffer h 0 4096 AccessMode.READ in
  print ("[stale_handle] view() on released handle rejected = " +:+ rejected vv) ;;*
  check (negb (is_ok vv)) ["[stale_handle] FAIL: view on stale handle succeeded"] ;;*
  let* ar2 := allocate req in
  let* orig := must "[stale_handle] second allocate" ar2 in
  let* moved := move_handle orig in
  let* moved_valid := handle_valid moved in
  let* orig_valid := handle_valid orig in
  print ("[stale_handle] moved-to handle valid=" +:+ truth moved_valid
         +:+ ", moved-from handle valid=" +:+ truth orig_valid) ;;*
  check (moved_valid && negb orig_valid) ["[stale_handle] FAIL: move semantics wrong"] ;;*
  let* om := map_buffer orig AccessMode.READ in
  print ("[stale_handle] map() on moved-from handle rejected = " +:+ rejected om) ;;*
  check (negb (is_ok om)) ["[stale_handle] FAIL: map on moved-from handle succeeded"] ;;*
  release moved ;;*
  print "[stale_handle] PASS" ;;*
  pure 0.

(** ** quota.cpp *)

Definition quota_namespace : NamespaceConfig :=
  mkNamespaceConfig "quota-ns" 4096 0 0 0 0 0 ZeroingPolicy.ON_CROSS_OWNER_REUSE true true 0.
(** [req], for the namespace [ns]. *)
Definition in_namespace (ns : Z) (req : AllocationRequest) : AllocationRequest :=
  mkAllocationRequest ns (req_domain req) (req_device req) (req_size req) (req_alignment req)
    (req_access req) (req_flags req) (req_label req) (req_zeroing req).
Definition quota_request : AllocationRequest := in_namespace 2 (host_request 4096).
Definition quota : Main Z :=
  let* cs := on_runtime (Runtime_create_namespace true quota_namespace) in
  let* _ := must "[quota] create_namespace" cs in
  let* r1 := allocate quota_request in
  let* h1 := must "[quota] first allocate" r1 in
  let* size := ask h1 handle_size in
  print ("[quota] allocated " +:+ pretty size +:+ " bytes in quota namespace") ;;*
  let* r2 := allocate quota_request in
  print ("[quota] second allocation rejected = " +:+ rejected r2) ;;*
  check (negb (is_ok r2)) ["[quota] FAIL: over-quota allocation was accepted"] ;;*
  check (bool_decide (error r2 = ErrorCode.quota_exceeded))
    ["[quota] FAIL: expected quota_exceeded, got " +:+ ErrorCode.ErrorCode_to_string (error r2)] ;;*
  release h1 ;;*
  let* st := stats in
  let t := st_counter st in
  print ("[quota] after cleanup: active_buffers=" +:+ pretty (t active_buffers)
         +:+ " host_bytes=" +:+ pretty (t host_bytes)
         +:+ " quota_rejections=" +:+ pretty (t quota_rejections)) ;;*
  check ((t active_buffers =? 0) && (t host_bytes =? 0))
    ["[quota] FAIL: accounting did not return to baseline"] ;;*
  check (negb (t quota_rejections <? 1)) ["[quota] FAIL: quota_rejections was not recorded"] ;;*
  print "[quota] PASS" ;;*
  pure 0.

(** ** pool_reuse.cpp *)

Definition reuse_size : Z := 16384.
(** The requests of the two parts; [zero_on_alloc] and the label differ. *)
Definition reuse_request : AllocationRequest :=
  mkAllocationRequest kDefaultNamespace MemoryDomain.HOST DeviceId_default reuse_size 0
    AccessMode.READ_WRITE (mkAllocationFlags true true false 0) "pool-reuse" None.
Definition owner_request (ns : Z) : AllocationRequest :=
  mkAllocationRequest ns MemoryDomain.HOST DeviceId_default reuse_size 0
    AccessMode.READ_WRITE (mkAllocationFlags false true false 0) "" None.
Definition hits_misses (what : string) (st : RuntimeStats) : string :=
  "[pool_reuse] " +:+ what +:+ " allocate: pool_hits=" +:+ pretty (st_counter st pool_hits)
  +:+ " pool_misses=" +:+ pretty (st_counter st pool_misses).
Definition pool_reuse : Main Z :=
  let* _ := stats in
  let* r1 := allocate reuse_request in
  let* h1 := must "[pool_reuse] first allocate" r1 in
  let* s1 := stats in
  print (hits_misses "first" s1) ;;*
  release h1 ;;*
  let* s2 := stats in
  print ("[pool_reuse] after release: idle_pooled=" +:+ pretty (st_counter s2 idle_pooled_bytes)
         +:+ " pooled=" +:+ pretty (st_counter s2 pooled_bytes)) ;;*
  let* r2 := allocate reuse_request in
  let* h2 := must "[pool_reuse] reuse allocate" r2 in
  let* s3 := stats in
  print (hits_misses "reuse" s3) ;;*
  check (negb (st_counter s3 pool_hits <=? st_counter s2 pool_hits))
    ["[pool_reuse] FAIL: pool_hits did not increase"] ;;*
  print ("[pool_reuse] pool_hits increased from " +:+ pretty (st_counter s2 pool_hits)
         +:+ " to " +:+ pretty (st_counter s3 pool_hits) +:+ " (OK)") ;;*
  release h2 ;;*
  let* _ := on_runtime (Runtime_create_namespace true (set_ns_name "owner-a" NamespaceConfig_default)) in
  let* _ := on_runtime (Runtime_create_namespace true (set_ns_name "owner-b" NamespaceConfig_default)) in
  let* ca := allocate (owner_request 2) in
  let* ha := must "[pool_reuse] owner-a allocate" ca in
  let* ma := map_buffer ha AccessMode.READ_WRITE in
  (match ma with
   | Ok m => let* p := data_at m in write_bytes reuse_size (λ i, poke (p + i) 170) ;;* release m
   | Fail _ => pure tt
   end) ;;*
  release ha ;;*
  let* cb := allocate (owner_request 3) in
  let* hb := must "[pool_reuse] owner-b allocate" cb in
  let* mb := map_buffer hb AccessMode.READ in
  let* zeroed := (match mb with
   | Ok m => let* p := data_at m in
             let* z := bytes_are p 0 reuse_size (λ _, 0) in
             release m ;;* pure z
   | Fail _ => pure true
   end) in
  print ("[pool_reuse] cross-owner buffer zeroed on reuse = " +:+ (if zeroed : bool then "yes" else "no")) ;;*
  release hb ;;*
  check zeroed ["[pool_reuse] FAIL: cross-owner reuse did not zero"] ;;*
  print "[pool_reuse] PASS" ;;*
  pure 0.

(** ** migrate.cpp *)

Definition migrate_size : Z := 4096.
Definition migrate_byte (i : Z) : Z := (i * 5 + 9) mod 256.
Definition migrate_example : Main Z :=
  let req := host_request migrate_size in
  let* ar := allocate req in
  let* h := must "[migrate] allocate" ar in
  let* mr := map_buffer h AccessMode.READ_WRITE in
  let* m := must "[migrate] map" mr in
  let* p := data_at m in
  write_bytes migrate_size (λ i, poke (p + i) (migrate_byte i)) ;;*
  release m ;;*
  let* hv := handle_at h in
  let gen_before := h_gen hv in
  print ("[migrate] source handle generation = " +:+ pretty gen_before) ;;*
  let* cuda := has_cuda_device in
  let target := if cuda : bool then MemoryDomain.DEVICE else MemoryDomain.SHARED_HOST in
  print (if cuda then "[migrate] CUDA present - migrating to DEVICE"
         else "[migrate] no CUDA - migrate to shared memory (SHARED_HOST)") ;;*
  let* mg := migrate_to h target in
  let* h2 := must "[migrate] migrate" mg in
  let* h2v := handle_at h2 in
  let* d := ask h2 handle_domain_of in
  print ("[migrate] migrated handle: generation=" +:+ pretty (h_gen h2v) +:+ " domain="
         +:+ MemoryDomain.MemoryDomain_to_string d) ;;*
  check (negb (h_gen h2v <=? gen_before)) ["[migrate] FAIL: generation did not increase"] ;;*
  print ("[migrate] generation increased from " +:+ pretty gen_before +:+ " to "
         +:+ pretty (h_gen h2v) +:+ " (OK)") ;;*
  let* stale_map := map_buffer h AccessMode.READ in
  print ("[migrate] old handle is stale on use = " +:+ rejected stale_map) ;;*
  check (negb (is_ok stale_map)) ["[migrate] FAIL: old handle should be rejected"] ;;*
  let* vr := allocate req in
  let* verif := must "[migrate] verify host allocate" vr in
  let* vmr := map_buffer verif AccessMode.READ_WRITE in
  let* vm := must "[migrate] verify host map" vmr in
  let* dst := data_at vm in
  let* ct := on_handle h2 (λ b, handle_copy_to b dst 0 migrate_size) in
  let* _ := must "[migrate] copy_to of migrated content" ct in
  release vm ;;*
  let* vvr := map_buffer verif AccessMode.READ in
  let* vv := must "[migrate] verify host re-map" vvr in
  let* q := data_at vv in
  let* same := bytes_are q 0 migrate_size migrate_byte in
  release vv ;;*
  print ("[migrate] content survived migration = " +:+ (if same : bool then "yes" else "no")) ;;*
  check same [] ;;*
  release h2 ;;*
  release h ;;*
  release verif ;;*
  print "[migrate] PASS" ;;*
  pure 0.

(** ** pinned_host.cpp *)

Definition pinned_size : Z := 1024.
Definition pinned_request : AllocationRequest :=
  mkAllocationRequest kDefaultNamespace MemoryDomain.PINNED_HOST DeviceId_default pinned_size 0
    AccessMode.READ_WRITE (mkAllocationFlags true false false 0) "pinned-host" None.
Definition pinned_byte (i : Z) : Z := (i * 13 + 5) mod 256.
Definition pinned_host : Main Z :=
  let* on := domain_enabled_for MemoryDomain.PINNED_HOST in
  if negb on then
    print "[pinned_host] SKIP: PINNED_HOST domain unavailable (no CUDA device/runtime)" ;;* pure 0
  else
  let* r := allocate pinned_request in
  let* h := must "[pinned_host] allocate" r in
  let* size := ask h handle_size in
  let* d := ask h handle_domain_of in
  print ("[pinned_host] allocated " +:+ pretty size +:+ " bytes in "
         +:+ MemoryDomain.MemoryDomain_to_string d) ;;*
  let* mr := map_buffer h AccessMode.READ_WRITE in
  let* m := must "[pinned_host] map" mr in
  let* p := data_at m in
  write_bytes pinned_size (λ i, poke (p + i) (pinned_byte i)) ;;*
  release m ;;*
  let* m2 := map_buffer h AccessMode.READ in
  let* ok := (match m2 with
   | Ok m2 => let* q := data_at m2 in
              let* ok := bytes_are q 0 pinned_size pinned_byte in
              release m2 ;;* pure ok
   | Fail _ => pure true
   end) in
  print ("[pinned_host] write/read back " +:+ (if ok : bool then "OK" else "MISMATCH")) ;;*
  check ok [] ;;*
  let* vf := on_handle h handle_verify in
  print ("[pinned_host] verify() " +:+ (if is_ok vf then "OK" else "FAILED")) ;;*
  check (is_ok vf) [] ;;*
  release h ;;*
  let* st := stats in
  let t := st_counter st in
  print ("[pinned_host] after release: pinned_host_bytes=" +:+ pretty (t pinned_host_bytes)
         +:+ " active_buffers=" +:+ pretty (t active_buffers)) ;;*
  check (t pinned_host_bytes =? 0) ["[pinned_host] FAIL: pinned_host_bytes not back to 0"] ;;*
  check (t active_buffers =? 0) ["[pinned_host] FAIL: active_buffers not 0"] ;;*
  print "[pinned_host] PASS" ;;*
  pure 0.

(** ** cuda_roundtrip.cpp *)

Definition roundtrip_size : Z := 4096.
(** [pattern[i]]. *)
Definition roundtrip_byte (i : Z) : Z := (i * 7 + 3) mod 256.
(** The lambda [make]. *)
Definition roundtrip_request (dev_index : Z) (d : MemoryDomain) : AllocationRequest :=
  mkAllocationRequest kDefaultNamespace d
    (if bool_decide (d = MemoryDomain.DEVICE) then mkDeviceId BackendId.CUDA dev_index else DeviceId_default)
    roundtrip_size 0 AccessMode.READ_WRITE (mkAllocationFlags true false false 0) "" None.
(** [final_dest] is the address of the bytes of the local vector of that name. *)
Definition cuda_roundtrip (final_dest : Z) : Main Z :=
  let* devs := on_runtime (Runtime_devices true) in
  match devs with
  | Fail _ | Ok [] => print "[cuda_roundtrip] SKIP: no CUDA device available" ;;* pure 0
  | Ok (dev :: _) =>
  let dev_index := di_index dev in
  print ("[cuda_roundtrip] using CUDA device index " +:+ pretty dev_index) ;;*
  let make := λ d, allocate (roundtrip_request dev_index d) in
  let n := roundtrip_size in
  let* hr := make MemoryDomain.HOST in
  let* host := must "[cuda_roundtrip] host allocate" hr in
  let* hmr := map_buffer host AccessMode.READ_WRITE in
  let* hm := must "[cuda_roundtrip] host map" hmr in
  let* p := data_at hm in
  write_bytes n (λ i, poke (p + i) (roundtrip_byte i)) ;;*
  release hm ;;*
  let* pr := make MemoryDomain.PINNED_HOST in
  let* pinned := must "[cuda_roundtrip] pinned allocate" pr in
  let* src := ask host host_data in
  let* cp1 := on_handle pinned (λ b, handle_copy_from b src 0 n) in
  let* _ := must "[cuda_roundtrip] host->pinned copy_from" cp1 in
  let* dr := make MemoryDomain.DEVICE in
  let* device := must "[cuda_roundtrip] device allocate" dr in
  let* src := ask pinned host_data in
  let* cp2 := on_handle device (λ b, handle_copy_from b src 0 n) in
  let* _ := must "[cuda_roundtrip] pinned->device copy_from" cp2 in
  let* pr2 := make MemoryDomain.PINNED_HOST in
  let* pinned2 := must "[cuda_roundtrip] pinned(back) allocate" pr2 in
  let* pd := ask pinned2 host_data in
  let* cp3 := on_handle device (λ b, handle_copy_to b pd 0 n) in
  let* _ := must "[cuda_roundtrip] device->pinned copy_to" cp3 in
  write_bytes n (λ i, poke (final_dest + i) 0) ;;*
  let* cp4 := on_handle pinned2 (λ b, handle_copy_to b final_dest 0 n) in
  let* _ := must "[cuda_roundtrip] pinned->host copy_to" cp4 in
  let* exact := bytes_are final_dest 0 n roundtrip_byte in
  print ("[cuda_roundtrip] host->pinned->device->pinned->host bytes exact = "
         +:+ (if exact : bool then "yes" else "no")) ;;*
  check exact [] ;;*
  release host ;;*
  release pinned ;;*
  release device ;;*
  release pinned2 ;;*
  let* st := stats in
  let t := st_counter st in
  print ("[cuda_roundtrip] after free: outstanding_allocations=" +:+ pretty (t outstanding_allocations)
         +:+ " device_bytes=" +:+ pretty (t device_bytes)) ;;*
  check ((t outstanding_allocations =? 0) && (t device_bytes =? 0))
    ["[cuda_roundtrip] FAIL: accounting did not return to zero"] ;;*
  print "[cuda_roundtrip] PASS" ;;*
  pure 0
  end.

(** ** Running a program *)

(** The locals, and then the runtime, are destroyed. *)
Definition unwind (ts : list Token) : M RuntimeImpl unit :=
  iterM destroy (reverse ts) ;;; Runtime_shutdown true.
(** The exit code, the output, and the runtime at the end. *)
Definition run_main (body : Main Z) (seed : Z) (m : Machine) : Z * list string * RuntimeImpl :=
  let x := body (mkProcess (RuntimeImpl_new RuntimeConfig_default seed m).1 [] []) in
  (match x.1 with inl code | inr code => code end, printed x.2,
   (unwind (locals x.2) (runtime x.2)).2).

(** The programs over one runtime that run in one thread. *)
Definition example_programs (final_dest : Z) : list (Main Z) :=
  [basic_host; views; stale_handle; quota; pool_reuse; migrate_example; pinned_host;
   cuda_roundtrip final_dest].

End examples.

(** * Running the steps of a program *)

Section steps.
Context {P : Platform}.
Implicit Types x : Process.

Lemma main_bind_run {S A B} (p : M S (Z + A)) (q : A → M S (Z + B)) (x : S) :
  main_bind p q x = match p x with (inl code, x') => (inl code, x') | (inr a, x') => q a x' end.
Proof. unfold main_bind. rewrite bind_run. by destruct (p x) as [[code|a] x']. Qed.
Lemma main_bind_assoc {A B C} (p : Main A) (q : A → Main B) (r : B → Main C) x :
  main_bind (main_bind p q) r x = main_bind p (λ a, main_bind (q a) r) x.
Proof. rewrite !main_bind_run. destruct (p x) as [[code|a] x']; [done|]. by rewrite main_bind_run. Qed.
Lemma on_runtime_run {A} (m : M RuntimeImpl A) x :
  on_runtime m x = (inr (m (runtime x)).1, mkProcess (m (runtime x)).2 (locals x) (printed x)).
Proof. unfold on_runtime. by destruct (m (runtime x)). Qed.
Lemma owned_run {A} (mk : A → Token) (m : M RuntimeImpl (Result A)) x :
  owned mk m x =
    match m (runtime x) with
    | (Ok a, s') => (inr (Ok (length (locals x))), mkProcess s' (locals x ++ [mk a]) (printed x))
    | (Fail e, s') => (inr (Fail e), mkProcess s' (locals x) (printed x))
    end.
Proof.
  unfold owned. rewrite main_bind_run, on_runtime_run. by destruct (m (runtime x)) as [[a|e] s'].
Qed.
Lemma release_run v x :
  let r := release_token (default (THandle BufferHandle_empty) (locals x !! v)) (runtime x) in
  release v x = (inr tt, mkProcess r.2 (<[v := r.1]> (locals x)) (printed x)).
Proof. unfold release. rewrite main_bind_run. cbn. rewrite main_bind_run, on_runtime_run. done. Qed.
End steps.
