(* ===== verification/Programs.v ===== *)
(** The example programs give everything back: every call a [Main] is made of keeps the
    process in a state where its locals are all that refers to the runtime, whatever the
    system calls return, and however the program ends, what it leaves is unwound. *)
From S2P Require Import Prelude Types CheckedMath Platform Resources CudaBackend State Sim SimResources Domain Ledger Pool Lifecycle Runtime Handle Facade SimRuntime Frames RefSpec Refcount Clients Allocation Backing Ownership Conservation Shell Session Examples.

Section steady_objects.
Context {P : Platform}.

Lemma steady_view h off len a : preserves steady (handle_view h off len a).
Proof.
  unfold handle_view, with_handle, retain.
  repeat first [apply steady_upd_ctl | solve [apply steady_quiet; eauto with frames] | preserves_step].
Qed.
Lemma steady_lease_release l : preserves steady (lease_release l).
Proof.
  unfold lease_release.
  repeat first [apply steady_upd_ctl | apply steady_drop_ref | preserves_step].
Qed.
Lemma steady_view_release v : preserves steady (view_release v).
Proof. unfold view_release. repeat first [apply steady_drop_ref | preserves_step]. Qed.
Lemma steady_destroy t : preserves steady (destroy t).
Proof.
  unfold destroy. destruct t; (apply preserves_bind; [apply _| |intros; apply preserves_ret, _]).
  - apply steady_reset.
  - apply steady_lease_release.
  - apply steady_map_release.
  - apply steady_view_release.
Qed.
End steady_objects.

Section programs.
Context {P : Platform} {O : OsResources P} {may_lose : Losses} `{!Unguarded O}.
Context (bk : Backends) (rs : list Resource) (Hbk : backends_owned bk).
Context (Hcon : ∀ d dom, domain_in bk d = Some dom → DomainContract dom ∧ IDomain.domain dom = d).
Implicit Types (s : RuntimeImpl) (x : Process) (n : Z) (k : nat) (t : Token) (ts : list Token).
Abbreviation At := (At bk rs).
Abbreviation inert := (preserves (inert_on (owns bk (λ _, True)))).

(** ** Objects *)

(** Empty objects come and go. *)
Lemma At_empty n s ts t : token_ref t = None → At n s (t :: ts) ↔ At n s ts.
Proof.
  intros Ht. assert (sound s (t :: ts) ↔ sound s ts) as Hs.
  { pose proof (refs_of_none t ts Ht) as Hr. split; intros [Hc Hf]; unfold spec_of in *.
    - rewrite Hr in Hc. split; [done|by inversion Hf].
    - split; [unfold spec_of; by rewrite Hr|]. constructor; [|done].
      destruct t as [h| | |]; [|done..]. apply token_ok_null. cbn in Ht. by destruct (h_ctl h). }
  split; intros []; (split; [by apply Hs|done..]).
Qed.
Lemma At_destroy n s ts t : n < two64 - 1 → At n s (t :: ts) → At n (destroy t s).2 ts.
Proof.
  intros Hn HA. apply (At_op bk rs Hbk Hcon n (ODestroy t) s _ ts []); [|done|done|apply steady_destroy|done|set_solver|done].
  cbn [client_op]. by rewrite !bind_run.
Qed.
Lemma At_view n s ts h off len a :
  n < two64 - 1 → THandle h ∈ ts → At n s ts →
  match handle_view h off len a s with
  | (Ok v, s') => At n s' (TView v :: ts)
  | (Fail _, s') => At n s' ts
  end.
Proof.
  intros Hn Hin HA. pose proof (steady_view h off len a s) as Hst.
  pose proof (At_op bk rs Hbk Hcon n (OView h off len a) s (handle_view h off len a s).2 ts
                (gained TView (handle_view h off len a s).1)) as Hop.
  destruct (handle_view h off len a s) as [r s'] eqn:Hr. cbn [fst snd] in *.
  assert (At n s' (gained TView r ++ ts)) as HA'; [|by destruct r].
  apply Hop; [|done..|set_solver|done]. cbn [client_op]. rewrite bind_run, Hr. done.
Qed.
(** Releasing is destroying, but for the empty object it leaves. *)
Lemma At_released n s ts t : n < two64 - 1 → At n s (t :: ts) →
  At n (release_token t s).2 ts ∧ token_ref (release_token t s).1 = None.
Proof.
  intros Hn HA. pose proof (At_destroy n s ts t Hn HA) as HD. destruct t as [h|l|m|v]; cbn [release_token].
  - destruct (At_release bk rs Hbk Hcon n s ts h Hn HA) as [HR Hc]. rewrite bind_run. cbn [ret fst snd token_ref].
    split; [done|by rewrite Hc].
  - unfold destroy in HD. rewrite (bind_run (lease_release l)) in HD. rewrite bind_run. cbn [ret fst snd] in *. split; [done|].
    unfold lease_release. destruct (lease_ctl l) eqn:E; [by rewrite !bind_run|by cbn; rewrite E].
  - unfold destroy in HD. rewrite (bind_run (map_release m)) in HD. rewrite bind_run. cbn [ret fst snd] in *. split; [done|].
    unfold map_release. destruct (map_ctl m) eqn:E; [by rewrite !bind_run|by cbn; rewrite E].
  - unfold destroy in HD. rewrite (bind_run (view_release v)) in HD. rewrite bind_run. cbn [ret fst snd] in *. split; [done|].
    unfold view_release. destruct (view_ctl v) eqn:E; [by rewrite !bind_run|by cbn; rewrite E].
Qed.

(** ** Programs *)

(** The locals are what the process owns. *)
Definition Runs n x : Prop := At n (runtime x) (locals x).
(** A program draws at most [k] identities. *)
Definition owns_up k {A} (p : Main A) : Prop :=
  ∀ n x, n + Z.of_nat k < two64 - 1 → Runs n x → Runs (n + Z.of_nat k) (p x).2.

Lemma Runs_le n n' x : n ≤ n' → Runs n x → Runs n' x.
Proof. intros Hn. by apply At_le. Qed.
Lemma owns_up_same k {A} (p : Main A) : (∀ n x, n < two64 - 1 → Runs n x → Runs n (p x).2) → owns_up k p.
Proof. intros Hp n x Hn HR. apply (Runs_le n); [lia|]. apply Hp; [lia|done]. Qed.
Lemma owns_up_bind k1 k2 {A B} (p : Main A) (q : A → Main B) :
  owns_up k1 p → (∀ a, owns_up k2 (q a)) → owns_up (k1 + k2) (main_bind p q).
Proof.
  intros Hp Hq n x Hn HR. rewrite main_bind_run. specialize (Hp n x ltac:(lia) HR).
  destruct (p x) as [[code|a] x']; cbn [fst snd] in *; [by eapply (Runs_le (n + Z.of_nat k1)); [lia|]|].
  replace (n + Z.of_nat (k1 + k2)) with (n + Z.of_nat k1 + Z.of_nat k2) by lia. apply Hq; [lia|done].
Qed.
Lemma owns_up_step k {A B} (p : Main A) (q : A → Main B) :
  owns_up 0 p → (∀ a, owns_up k (q a)) → owns_up k (main_bind p q).
Proof. apply (owns_up_bind 0 k). Qed.
Lemma owns_up_draw k {A B} (p : Main A) (q : A → Main B) :
  owns_up 1 p → (∀ a, owns_up k (q a)) → owns_up (S k) (main_bind p q).
Proof. apply (owns_up_bind 1 k). Qed.
Lemma owns_up_pure k {A} (a : A) : owns_up k (pure a).
Proof. by apply owns_up_same. Qed.
Lemma owns_up_exit k {A} code : owns_up k (exit code : Main A).
Proof. by apply owns_up_same. Qed.
Lemma owns_up_print k l : owns_up k (print l).
Proof. by apply owns_up_same. Qed.
Lemma owns_up_local k v : owns_up k (local v).
Proof. by apply owns_up_same. Qed.
Lemma owns_up_must k {A} what (r : Result A) : owns_up k (must what r).
Proof.
  destruct r; [apply owns_up_pure|]. apply owns_up_step; [apply owns_up_print|intros; apply owns_up_exit].
Qed.
Lemma owns_up_check k ok lines : owns_up k (check ok lines).
Proof.
  destruct ok; [apply owns_up_pure|]. cbn. induction lines as [|l ls IH]; [apply owns_up_exit|].
  apply owns_up_step; [apply owns_up_print|by intros].
Qed.
Lemma owns_up_call k {A} (m : M RuntimeImpl A) : preserves quiet m → inert m → owns_up k (on_runtime m).
Proof.
  intros Hq Hi. apply owns_up_same. intros n x Hn HR. rewrite on_runtime_run. by apply At_inert.
Qed.
Lemma owns_up_gets k {A} (f : RuntimeImpl → A) : owns_up k (on_runtime (gets f)).
Proof. apply owns_up_call; preserves_tac. Qed.
Lemma owns_up_write k n body : owns_up k (write_bytes n body).
Proof. apply owns_up_call; [eauto with frames|]. apply inert_on_machine, inert_set_mem. Qed.
Lemma owns_up_stats k : owns_up k (on_runtime (Runtime_stats true)).
Proof. apply owns_up_call; [apply quiet_runtime_stats|by apply inert_runtime_stats]. Qed.
Lemma owns_up_domains k : owns_up k (on_runtime (Runtime_domains true)).
Proof.
  apply owns_up_call; unfold Runtime_domains, guarded;
    (apply preserves_bind; [apply _| |intros; apply preserves_ret, _]);
    [apply quiet_domains_info|by apply inert_domains_info].
Qed.
Lemma owns_up_devices k : owns_up k (on_runtime (Runtime_devices true)).
Proof. apply owns_up_call; [apply quiet_devices_info|by apply inert_devices_info]. Qed.
Lemma owns_up_namespace k c : owns_up k (on_runtime (Runtime_create_namespace true c)).
Proof. apply owns_up_call; [apply quiet_create_namespace|by apply inert_create_namespace]. Qed.

(** The handle read from a variable is a local, or empty. *)
Lemma handle_at_run v x : ∃ h, handle_at v x = (inr h, x) ∧ (THandle h ∈ locals x ∨ h = BufferHandle_empty).
Proof.
  unfold handle_at, main_bind, local. rewrite !bind_run. cbn [ret fst snd].
  destruct (locals x !! v) as [t|] eqn:Hv; cbn [default]; [|by eexists; split; [done|right]].
  apply list_elem_of_lookup_2 in Hv. destruct t; eexists; (split; [done|]); auto.
Qed.
Lemma owns_up_on_handle k {A} v (f : BufferHandle → M RuntimeImpl A) :
  (∀ h, preserves quiet (f h)) → (∀ h, inert (f h)) → owns_up k (on_handle v f).
Proof.
  intros Hq Hi. unfold on_handle. apply owns_up_step; [|by intros h; apply owns_up_call].
  apply owns_up_same. intros n x _ HR. by destruct (handle_at_run v x) as (h & -> & _).
Qed.

(** A call on the buffer behind a handle, which is a local or empty. *)
Lemma owns_up_lent k {A} v (f : BufferHandle → M RuntimeImpl A) :
  (∀ h, preserves quiet (f h)) → (∀ s, (f BufferHandle_empty s).2 = s) →
  (∀ s ts h, sound s ts → THandle h ∈ ts → owns bk (λ _, True) rs s → owns bk (λ _, True) rs (f h s).2) →
  owns_up k (on_handle v f).
Proof.
  intros Hq Hempty Hf. apply owns_up_same. intros n x _ HR. unfold on_handle. rewrite main_bind_run.
  destruct (handle_at_run v x) as (h & -> & Hh). rewrite on_runtime_run. unfold Runs. cbn [fst snd runtime locals].
  apply At_quiet; [done| |done]. intros Hs Ho. destruct Hh as [Hin| ->]; [by eapply Hf|by rewrite Hempty].
Qed.

(** An object that a call returns becomes a local. *)
Lemma owns_up_owned k {A} (mk : A → Token) v (m : BufferHandle → M RuntimeImpl (Result A)) :
  (∀ s, ∃ e, m BufferHandle_empty s = (Fail e, s)) →
  (∀ n s ts h, n < two64 - 1 → THandle h ∈ ts → At n s ts →
     match m h s with (Ok a, s') => At n s' (mk a :: ts) | (Fail _, s') => At n s' ts end) →
  owns_up k (let* h := handle_at v in owned mk (m h)).
Proof.
  intros Hempty Hm. apply owns_up_same. intros n x Hn HR. rewrite main_bind_run.
  destruct (handle_at_run v x) as (h & -> & Hh). rewrite owned_run. destruct Hh as [Hin| ->].
  - specialize (Hm n (runtime x) (locals x) h Hn Hin HR).
    destruct (m h (runtime x)) as [[a|e] s']; [|done].
    eapply At_perm; [apply Permutation_cons_append|exact Hm].
  - by destruct (Hempty (runtime x)) as [e ->].
Qed.
Lemma owns_up_map k v a : owns_up k (map_buffer v a).
Proof. apply owns_up_owned; [by eexists|]. intros n s ts h. by apply At_map. Qed.
Lemma owns_up_view k v off len a : owns_up k (view_buffer v off len a).
Proof. apply owns_up_owned; [by eexists|]. intros n s ts h. apply At_view. Qed.
Lemma owns_up_migrate k v d : owns_up k (migrate_to v d).
Proof. apply owns_up_owned; [by eexists|]. intros n s ts h. by apply At_migrate. Qed.
Lemma owns_up_allocate req :
  is_u64 (req_size req) → is_u64 (req_alignment req) → affordable req → owns_up 1 (allocate req).
Proof.
  intros Hs Ha Haff n x Hn HR. unfold allocate. rewrite owned_run.
  pose proof (At_allocate bk rs Hbk Hcon n (runtime x) (locals x) req Hs Ha Haff ltac:(lia) HR) as HA.
  destruct (Runtime_allocate true req (runtime x)) as [[h|e] s']; [|done].
  eapply At_perm; [apply Permutation_cons_append|exact HA].
Qed.

(** One local changes. *)
Lemma locals_split v x t : locals x !! v = Some t →
  ∃ rest, locals x ≡ₚ t :: rest ∧ ∀ t', <[v := t']> (locals x) ≡ₚ t' :: rest.
Proof.
  intros Hv. exists (take v (locals x) ++ drop (S v) (locals x)). split.
  - rewrite <- (take_drop_middle _ _ _ Hv) at 1. by rewrite Permutation_middle.
  - intros t'. rewrite insert_take_drop by by eapply lookup_lt_Some. by rewrite Permutation_middle.
Qed.
Lemma owns_up_release k v : owns_up k (release v).
Proof.
  apply owns_up_same. intros n x Hn HR. rewrite release_run. unfold Runs. cbn [runtime locals snd].
  destruct (locals x !! v) as [t|] eqn:Hv; cbn [default].
  2: { by rewrite list_insert_ge by by apply lookup_ge_None. }
  destruct (locals_split v x t Hv) as (rest & Hp & Hins). apply (At_perm _ _ _ _ _ _ Hp) in HR.
  destruct (At_released n (runtime x) rest t Hn HR) as [HA He].
  eapply At_perm; [symmetry; apply Hins|]. by apply At_empty.
Qed.
Lemma owns_up_declare n x t : Runs n x → token_ref t = None → Runs n (declare t x).2.
Proof.
  intros HR Ht. eapply At_perm; [apply Permutation_cons_append|]. by apply At_empty.
Qed.
Lemma owns_up_move k v : owns_up k (move_handle v).
Proof.
  apply owns_up_same. intros n x Hn HR. unfold move_handle. rewrite main_bind_run. cbn [local].
  destruct (locals x !! v) as [t|] eqn:Hv; cbn [default id].
  2: { rewrite main_bind_run. unfold assign. rewrite list_insert_ge by by apply lookup_ge_None. by apply owns_up_declare. }
  destruct t as [h| | |]; [|by apply owns_up_declare..]. rewrite main_bind_run. cbn [assign].
  destruct (locals_split v x _ Hv) as (rest & Hp & Hins). apply (At_perm _ _ _ _ _ _ Hp) in HR.
  eapply At_perm; [apply Permutation_cons_append|].
  eapply At_perm; [apply Permutation_skip; symmetry; apply Hins|].
  eapply At_perm; [apply perm_swap|]. by apply At_empty.
Qed.

(** ** The examples *)

(** They may ask for device memory. *)
Context (Hafford : ∀ req, affordable req).

Lemma owns_up_cuda k : owns_up k has_cuda_device.
Proof. apply owns_up_step; [apply owns_up_devices|intros; apply owns_up_pure]. Qed.
Lemma owns_up_enabled k d : owns_up k (domain_enabled_for d).
Proof. apply owns_up_step; [apply owns_up_domains|intros; apply owns_up_pure]. Qed.
Lemma owns_up_stat k : owns_up k stats.
Proof. apply owns_up_step; [apply owns_up_stats|intros; apply owns_up_pure]. Qed.
Lemma owns_up_handle k v : owns_up k (handle_at v).
Proof. apply owns_up_step; [apply owns_up_local|intros; apply owns_up_pure]. Qed.
Lemma owns_up_data k v : owns_up k (data_at v).
Proof. apply owns_up_step; [apply owns_up_local|intros; apply owns_up_pure]. Qed.
Lemma owns_up_ask k {A} v (f : BufferHandle → RuntimeImpl → A) : owns_up k (ask v f).
Proof. apply owns_up_on_handle; intros h; preserves_tac. Qed.
Lemma owns_up_checksum k v : owns_up k (on_handle v handle_checksum).
Proof. apply owns_up_on_handle; [apply quiet_handle_checksum|by apply inert_checksum]. Qed.
Lemma owns_up_verify k v : owns_up k (on_handle v handle_verify).
Proof.
  apply owns_up_lent; [apply quiet_handle_verify|done|]. intros s ts h ???. eapply (holding_verify bk Hbk); [done|done|apply verifies_all|done].
Qed.
Lemma owns_up_copy_to k v dst off len : owns_up k (on_handle v (λ h, handle_copy_to h dst off len)).
Proof.
  apply owns_up_on_handle; intros h; [apply quiet_handle_copy_to|].
  apply inert_handle_copy_to. intros. apply all_writable.
Qed.
Lemma owns_up_copy_from k v src off len : owns_up k (on_handle v (λ h, handle_copy_from h src off len)).
Proof.
  apply owns_up_lent; [intros; apply quiet_handle_copy_from|done|]. intros s ts h ???.
  by eapply holding_copy_from.
Qed.
Create HintDb owns_up discriminated.
#[local] Hint Resolve owns_up_pure owns_up_exit owns_up_print owns_up_local owns_up_must owns_up_check
  owns_up_gets owns_up_write owns_up_stats owns_up_domains owns_up_devices owns_up_namespace owns_up_map
  owns_up_view owns_up_migrate owns_up_release owns_up_move owns_up_cuda owns_up_enabled owns_up_stat
  owns_up_handle owns_up_data owns_up_ask owns_up_checksum owns_up_verify owns_up_copy_to
  owns_up_copy_from : owns_up.
Ltac owns_up_tac :=
  cbv zeta; repeat match goal with
  | |- owns_up (S _) (main_bind (allocate _) _) => apply owns_up_draw; [by apply owns_up_allocate|intros ?]
  | |- owns_up _ (main_bind _ _) => apply owns_up_step; [|intros ?]
  | |- owns_up _ (match ?r with _ => _ end) => destruct r
  | |- owns_up _ _ => solve [eauto 2 with owns_up]
  end.

Lemma basic_host_owns : owns_up 1 basic_host.
Proof. unfold basic_host. owns_up_tac. Qed.
Lemma views_owns : owns_up 1 views.
Proof. unfold views. owns_up_tac. Qed.
Lemma stale_handle_owns : owns_up 2 stale_handle.
Proof. unfold stale_handle, handle_valid. owns_up_tac. Qed.
Lemma quota_owns : owns_up 2 quota.
Proof. unfold quota. owns_up_tac. Qed.
Lemma pool_reuse_owns : owns_up 4 pool_reuse.
Proof. unfold pool_reuse. owns_up_tac. Qed.
Lemma migrate_owns : owns_up 2 migrate_example.
Proof. unfold migrate_example. owns_up_tac. Qed.
Lemma pinned_host_owns : owns_up 1 pinned_host.
Proof. unfold pinned_host. owns_up_tac. Qed.
Lemma cuda_roundtrip_owns dest : owns_up 4 (cuda_roundtrip dest).
Proof. unfold cuda_roundtrip. owns_up_tac. Qed.

(** ** The end of a program *)

Lemma At_destroy_all n s ts : n < two64 - 1 → At n s ts → At n (iterM destroy ts s).2 [].
Proof.
  intros Hn. revert s. induction ts as [|t ts IH]; intros s HA; [done|].
  cbn [iterM]. rewrite bind_run. by apply IH, At_destroy.
Qed.
Lemma unwind_holds n x :
  n < two64 - 1 → Runs n x →
  let s' := (unwind (locals x) (runtime x)).2 in
  losses (leaked s') ∧ lost_usable bk (leaked s') ∧ m_holds (leaked_resources s' ++ rs) (machine s').
Proof.
  intros Hn HR. unfold unwind. rewrite bind_run. eapply (shutdown_empty _ rs Hbk), At_destroy_all; [exact Hn|].
  eapply At_perm; [|exact HR]. symmetry. apply reverse_Permutation.
Qed.
End programs.

(** * Properties *)

(** C14: the example programs give everything back. Wherever a program returns (after its
    last line, or early because an allocation, a map, a copy or one of its own checks
    failed), and whatever the system calls did on the way, the destructors of its locals
    and of the runtime leave the process with no block, handle, view or device memory,
    except the device slots that were lost when zeroing them failed; so with nothing at
    all if no device was attached. *)
Theorem examples_return_everything `{P : Platform} {O : OsResources P} `{!Unguarded O} (final_dest : Z) (body : Main Z) (seed : Z)
    (m : Machine) :
  body ∈ example_programs final_dest → m_holds [] m →
  let s' := (run_main body seed m).2 in
  m_holds (leaked_resources s') (machine s')
  ∧ Forall (λ l, l.1 = MemoryDomain.DEVICE) (leaked s')
  ∧ (domain (RuntimeImpl_new RuntimeConfig_default seed m).1 MemoryDomain.DEVICE = None → leaked s' = []).
Proof.
  intros Hb Hm. destruct (At_start seed m [] nothing_lost Hm) as (Hbk & Hcon & HA). unfold run_main. cbn [snd].
  set (s := (RuntimeImpl_new RuntimeConfig_default seed m).1) in *.
  enough (∃ k, (k ≤ 4)%nat ∧ owns_up (backends s) [] k body) as (k & Hk & Hu).
  { assert (Runs (backends s) [] 5 (body (mkProcess s [] [])).2) as HR.
    { eapply (Runs_le _ _ (1 + Z.of_nat k)); [lia|]. apply Hu; [unfold two64; lia|exact HA]. }
    destruct (unwind_holds _ [] Hbk Hcon 5 _ ltac:(done) HR) as (Hl & Hus & Hh). rewrite app_nil_r in Hh.
    split; [exact Hh|]. split; [exact Hl|]. by apply (no_device_no_loss _ _ Hl Hus). }
  pose proof device_affordable. unfold example_programs in Hb.
  repeat (apply elem_of_cons in Hb as [->|Hb]); [..|by apply not_elem_of_nil in Hb].
  - exists 1%nat. split; [lia|by apply basic_host_owns].
  - exists 1%nat. split; [lia|by apply views_owns].
  - exists 2%nat. split; [lia|by apply stale_handle_owns].
  - exists 2%nat. split; [lia|by apply quota_owns].
  - exists 4%nat. split; [lia|by apply pool_reuse_owns].
  - exists 2%nat. split; [lia|by apply migrate_owns].
  - exists 1%nat. split; [lia|by apply pinned_host_owns].
  - exists 4%nat. split; [lia|by apply cuda_roundtrip_owns].
Qed.

Lemma sim_nothing_held (m : Machine) : m_holds [] m → sim_held (os m) = [].
Proof. intros [Hp _]. by apply Permutation_nil. Qed.
Lemma quota_keeps : leaked_resources (run_main quota 7 sim_machine).2 = [].
Proof. vm_compute. reflexivity. Qed.
Lemma examples_return_everything_witness :
  (run_main quota 7 sim_machine).1.1 = 0 ∧ sim_held (os (machine (run_main quota 7 sim_machine).2)) = [].
Proof.
  split; [by vm_compute|].
  assert (quota ∈ example_programs 0) as Hq
    by (unfold example_programs; do 3 apply list_elem_of_further; apply list_elem_of_here).
  destruct (examples_return_everything 0 quota 7 sim_machine Hq sim_start_holds) as [Hh _].
  apply sim_nothing_held. rewrite quota_keeps in Hh. exact Hh.
Defined.
