(* ===== verification/Pairs.v ===== *)
(** The two examples with a runtime that produces and one that consumes
    (examples/shared_ipc.cpp, examples/file_backed.cpp).  The runtimes share the process:
    the machine and the output; each local belongs to one of them.  With the frame of
    [At] for what the other runtime holds, the calculus of Programs.v shows that both
    programs give everything back. *)
From S2P Require Import Prelude Types Platform Resources CudaBackend State Sim SimResources Domain Ledger Pool Lifecycle Runtime Handle Facade SimRuntime Frames RefSpec Refcount Clients Allocation Backing Ownership Conservation Shell Session Examples Programs.

(** * The programs *)

Section pairs.
Context {P : Platform}.

Record Duo : Type := mkDuo { producer : Process; consumer : Process }.
(** [x], when what [y] has done to the machine and the output is done. *)
Definition follow (y x : Process) : Process :=
  mkProcess (set_machine (machine (runtime y)) (runtime x)) (locals x) (printed y).
Definition in_producer {A} (p : Main A) : M Duo (Z + A) := λ z,
  let '(r, x) := p (producer z) in (r, mkDuo x (follow x (consumer z))).
Definition in_consumer {A} (p : Main A) : M Duo (Z + A) := λ z,
  let '(r, x) := p (consumer z) in (r, mkDuo (follow x (producer z)) x).

Definition import_buffer (desc : ExportDescriptor) (ns : Z) (label : string) : Main (Result nat) :=
  owned THandle (Runtime_import true desc ns label).
Definition export_of (v : nat) : Main (Result ExportDescriptor) := on_handle v (Runtime_export_buffer true).
Definition exported_request (d : MemoryDomain) (label : string) : AllocationRequest :=
  mkAllocationRequest kDefaultNamespace d DeviceId_default 4096 0 AccessMode.READ_WRITE
    (mkAllocationFlags true false true 0) label None.

(** ** shared_ipc.cpp *)

Definition ipc_size : Z := 4096.
Definition ipc_byte (i : Z) : Z := i mod 251.
Definition shared_ipc : M Duo (Z + Z) :=
  let* enabled := in_producer (domain_enabled_for MemoryDomain.SHARED_HOST) in
  if negb enabled then
    in_producer (print "[shared_ipc] SKIP: SHARED_HOST domain unavailable") ;;* pure 0
  else
  let* ar := in_producer (allocate (exported_request MemoryDomain.SHARED_HOST "shared-payload")) in
  let* h := in_producer (must "[shared_ipc] allocate" ar) in
  let* mr := in_producer (map_buffer h AccessMode.READ_WRITE) in
  let* m := in_producer (must "[shared_ipc] map" mr) in
  let* p := in_producer (data_at m) in
  in_producer (write_bytes ipc_size (λ i, poke (p + i) (ipc_byte i))) ;;*
  in_producer (release m) ;;*
  let* ex := in_producer (export_of h) in
  let* desc := in_producer (must "[shared_ipc] export" ex) in
  in_producer (print ("[shared_ipc] exported descriptor: handle_kind=" +:+ d_handle_kind desc
                      +:+ " format_version=" +:+ pretty (d_format_version desc))) ;;*
  let* im := in_consumer (import_buffer desc kDefaultNamespace "shared-import") in
  let* h2 := in_consumer (must "[shared_ipc] import" im) in
  let* d := in_consumer (ask h2 handle_domain_of) in
  let* size := in_consumer (ask h2 handle_size) in
  in_consumer (print ("[shared_ipc] imported handle domain=" +:+ MemoryDomain.MemoryDomain_to_string d
                      +:+ " size=" +:+ pretty size)) ;;*
  let* mr2 := in_consumer (map_buffer h2 AccessMode.READ) in
  let* m2 := in_consumer (must "[shared_ipc] imported map" mr2) in
  let* q := in_consumer (data_at m2) in
  let* same := in_consumer (bytes_are q 0 ipc_size ipc_byte) in
  in_consumer (release m2) ;;*
  in_consumer (print ("[shared_ipc] imported buffer reads the same bytes = "
                      +:+ (if same : bool then "yes" else "no"))) ;;*
  in_consumer (check same []) ;;*
  let* id := in_producer (ask h (λ h _, lo (h_id h))) in
  let* id2 := in_consumer (ask h2 (λ h _, lo (h_id h))) in
  in_producer (print ("[shared_ipc] released a shared-memory handle (import shares the same segment: "
    +:+ "producer id=" +:+ pretty id +:+ " consumer id=" +:+ pretty id2
    +:+ ").  A real multi-process run would attach the same named segment.")) ;;*
  in_producer (release h) ;;*
  in_consumer (release h2) ;;*
  in_producer (print "[shared_ipc] PASS") ;;*
  pure 0.

(** The locals were declared in the consumer after those in the producer; the runtimes
    go last. *)
Definition code_of (r : Z + Z) : Z := match r with inl code | inr code => code end.
Definition drop_locals : Main unit := λ x,
  (inr tt, mkProcess (iterM destroy (reverse (locals x)) (runtime x)).2 [] (printed x)).
Definition drop_runtime : Main unit := on_runtime (Runtime_shutdown true).
Definition new_process (seed : Z) (m : Machine) (printed : list string) : Process :=
  mkProcess (RuntimeImpl_new RuntimeConfig_default seed m).1 [] printed.
Definition unwind_ipc : M Duo (Z + unit) :=
  in_consumer drop_locals ;;* in_producer drop_locals ;;* in_consumer drop_runtime ;;* in_producer drop_runtime.
Definition run_shared_ipc (seed seed2 : Z) (m : Machine) : Z * list string * Machine :=
  let y := new_process seed m [] in
  let x := new_process seed2 (machine (runtime y)) [] in
  let z := shared_ipc (mkDuo (follow x y) x) in
  let z' := (unwind_ipc z.2).2 in
  (code_of z.1, printed (producer z'), machine (runtime (producer z'))).

(** ** file_backed.cpp *)

(** [std::remove]: whether it returns 0. *)
Context (remove : string → M Machine bool).

Definition file_size : Z := 4096.
Definition file_byte (i : Z) : Z := (i * 3 + 1) mod 256.
(** Up to the construction of the second runtime; the path of the exported handle. *)
Definition file_producer : Main string :=
  let* enabled := domain_enabled_for MemoryDomain.MMAP_STORAGE in
  if negb enabled then print "[file_backed] SKIP: MMAP_STORAGE domain unavailable" ;;* exit 0 else
  let* ar := allocate (exported_request MemoryDomain.MMAP_STORAGE "") in
  let* h := must "[file_backed] allocate" ar in
  let* mr := map_buffer h AccessMode.READ_WRITE in
  let* m := must "[file_backed] map" mr in
  let* p := data_at m in
  write_bytes file_size (λ i, poke (p + i) (file_byte i)) ;;*
  release m ;;*
  let* ex := export_of h in
  let* desc := must "[file_backed] export" ex in
  print ("[file_backed] exported handle path = " +:+ d_handle desc) ;;*
  release h ;;*
  pure (d_handle desc).
Definition reopened (path : string) : ExportDescriptor :=
  mkExportDescriptor kExportFormatVersion BufferId_zero 1 kDefaultNamespace BackendId.FILE_BACKED
    MemoryDomain.MMAP_STORAGE DeviceId_default file_size 64 AccessMode.READ_WRITE "file" path 0 true true 1
    "reopened-file".
Definition file_consumer (path : string) : Main Z :=
  let* im := import_buffer (reopened path) kDefaultNamespace "reopen" in
  let* h2 := must "[file_backed] reopen import" im in
  let* mr2 := map_buffer h2 AccessMode.READ in
  let* m2 := must "[file_backed] reopened map" mr2 in
  let* q := data_at m2 in
  let* same := bytes_are q 0 file_size file_byte in
  release m2 ;;*
  print ("[file_backed] reopened content matches = " +:+ (if same : bool then "yes" else "no")) ;;*
  check same [] ;;*
  release h2 ;;*
  (if String.eqb path "" then pure tt else
   let* removed := on_runtime (on_machine (remove path)) in
   print (if removed : bool then "[file_backed] deleted temp file"
          else "[file_backed] note: could not delete temp file (still open?)")) ;;*
  print "[file_backed] PASS" ;;*
  pure 0.
Definition run_file_backed (seed seed2 : Z) (m : Machine) : Z * list string * Machine :=
  let finish := λ (code : Z) (y : Process),
    let y' := ((drop_locals ;;* drop_runtime) y).2 in (code, printed y', machine (runtime y')) in
  match file_producer (new_process seed m []) with
  | (inl code, y) => finish code y
  | (inr path, y) =>
      let q := file_consumer path (new_process seed2 (machine (runtime y)) (printed y)) in
      let x := ((drop_locals ;;* drop_runtime) q.2).2 in
      finish (code_of q.1) (follow x y)
  end.
End pairs.

(** * They give everything back *)

Section importing.
Context {P : Platform}.
Implicit Types s : RuntimeImpl.

(** An import draws at most one identity. *)
Lemma steady_handle_result r : preserves steady (handle_result r).
Proof.
  unfold handle_result, new_handle, retain.
  repeat first [apply steady_upd_ctl | solve [apply steady_quiet; eauto with frames] | preserves_step].
Qed.
Lemma import_ids desc ns l s :
  id_counter_ s < two64 - 1 → 0 ≤ id_counter_ s →
  let s' := (Runtime_import true desc ns l s).2 in
  closed_ s' = closed_ s ∧ id_counter_ s ≤ id_counter_ s' ≤ id_counter_ s + 1.
Proof.
  intros Hlt H0. cbv zeta. unfold Runtime_import, guarded. rewrite bind_run.
  match goal with |- context [handle_result ?r ?s1] => destruct (steady_handle_result r s1) as [-> ->] end.
  unfold import_descriptor. rewrite bind_run. cbn [get fst snd].
  destruct (import_rejects s desc ns) as [e|]; [cbn [ret snd]; split; [done|lia]|]. rewrite bind_run.
  assert (id_counter_ (next_id s).2 = id_counter_ s + 1 ∧ closed_ (next_id s).2 = closed_ s) as [Hn Hc].
  { unfold next_id. rewrite bind_run. cbn. split; [|done]. rewrite u64_small by (unfold is_u64; lia). done. }
  match goal with |- context [(?k (next_id s).2).2] => assert (preserves steady k) as Hk end.
  { repeat first [ solve [apply steady_quiet; eauto with frames] | solve [by intros ?; constructor] | preserves_step ]. }
  match type of Hk with preserves steady ?k => destruct (Hk (next_id s).2) as [-> ->] end. rewrite Hn, Hc.
  split; [done|lia].
Qed.
End importing.

(** Neither program asks for device memory, so nothing is ever lost. *)
#[local] Instance no_losses : Losses := λ l, l = [].

Section frames.
Context {P : Platform} {O : OsResources P} `{!Unguarded O}.
Implicit Types (s : RuntimeImpl) (x : Process) (ts : list Token) (rs : list Resource).

(** What the buffers of a runtime stand for. *)
Definition stands_for s : list Resource := live_resources s ++ idle_resources s.
Lemma At_holds bk rs n s ts : At bk rs n s ts → m_holds (stands_for s ++ rs) (machine s).
Proof.
  intros [_ Hh _ _ _]. pose proof (owns_lost _ _ _ _ Hh) as Hl. destruct Hh as (_ & _ & Hm).
  unfold other_resources, leaked_resources in Hm. rewrite Hl in Hm. cbn [mbind list_bind] in Hm.
  rewrite app_nil_r in Hm. unfold stands_for. by rewrite <- app_assoc.
Qed.
(** The other runtime of the process has moved the machine. *)
Lemma At_moved bk rs rs' n s ts m :
  At bk rs n s ts → m_holds (stands_for s ++ rs') m → At bk rs' n (set_machine m s) ts.
Proof.
  intros [Hs ([W1 W2 W3 W4 W6 W5] & _ & _) Ho H0 Hn] Hm. split; [|split; [by constructor|split; [done|]]|done..].
  - apply (sound_same s); [|done]. apply same_buffers_spec. by constructor.
  - destruct W6 as [Hl _]. unfold stands_for in Hm. unfold other_resources, leaked_resources.
    cbn [leaked set_machine]. rewrite Hl. cbn [mbind list_bind]. by rewrite app_nil_r, <- app_assoc in *.
Qed.

Section one.
Context (bk : Backends) (rs : list Resource) (Hbk : backends_owned bk).
Context (Hcon : ∀ d dom, domain_in bk d = Some dom → DomainContract dom ∧ IDomain.domain dom = d).

Lemma At_import n s ts desc ns l :
  is_u64 (d_size desc) → n < two64 - 1 → At bk rs n s ts →
  match Runtime_import true desc ns l s with
  | (Ok h, s') => At bk rs (n + 1) s' (THandle h :: ts)
  | (Fail _, s') => At bk rs (n + 1) s' ts
  end.
Proof.
  intros Hsz Hn [Hs Hh Ho H0 Hle].
  destruct (import_ids desc ns l s) as [Hc Hid]; [lia|done|].
  pose proof (sys_step_op (OImport desc ns l) s ts ts (reflexivity _) ltac:(by intros ? ?%not_elem_of_nil) ltac:(lia)) as Hst.
  pose proof (holding_step bk Hbk Hcon (OImport desc ns l) rs s ts Hsz (spares_all (OImport desc ns l) s I) Hs
                ltac:(by intros ? ?%not_elem_of_nil) Hh) as Hh'.
  apply sys_step_sound in Hst as [_ Hs']; [|done]. cbn [client_op] in Hs', Hh'. rewrite bind_run in Hs', Hh'.
  destruct (Runtime_import true desc ns l s) as [[h|e] s']; cbn [ret fst snd gained app] in *;
    (split; [done|done|congruence|lia|lia]).
Qed.
Lemma owns_up_import desc ns l : is_u64 (d_size desc) → owns_up bk rs 1 (import_buffer desc ns l).
Proof.
  intros Hs n x Hn HR. unfold import_buffer. rewrite owned_run.
  pose proof (At_import n (runtime x) (locals x) desc ns l Hs ltac:(lia) HR) as HA.
  destruct (Runtime_import true desc ns l (runtime x)) as [[h|e] s']; [|done].
  eapply At_perm; [apply Permutation_cons_append|exact HA].
Qed.
Lemma owns_up_export k v : owns_up bk rs k (export_of v).
Proof.
  apply (owns_up_on_handle bk rs); intros h; unfold Runtime_export_buffer, guarded.
  - apply quiet_with_handle, quiet_export_descriptor.
  - apply inert_with_handle. intros c. by apply inert_export_descriptor.
Qed.
(** The descriptor of a buffer has a size that is a word. *)
Lemma export_size s c d : (export_descriptor c s).1 = Ok d → d_size d = rec_size (rec (ctl_at s c)).
Proof.
  unfold export_descriptor. rewrite bind_run. cbn [get fst snd]. set (r := rec (ctl_at s c)).
  destruct (negb _); [done|]. destruct (domain s _) as [dom|]; [|done]. rewrite bind_run.
  match goal with |- context [match (?m s).1 with _ => _ end] => destruct (m s) as [[[kind h]|e] s1] end; [|done].
  cbn [fst snd]. rewrite !bind_run. cbn [ret fst]. by intros [= <-].
Qed.
Lemma export_word n x v d : Runs bk rs n x → (export_of v x).1 = inr (Ok d) → is_u64 (d_size d).
Proof.
  intros [Hs ([_ _ Hlive _ _ _] & _ & _) _ _ _]. unfold export_of, on_handle. rewrite main_bind_run.
  destruct (handle_at_run v x) as (h & -> & Hh). rewrite on_runtime_run. cbn [fst].
  unfold Runtime_export_buffer, guarded.
  destruct (with_handle_cases h (validate_alive h) export_descriptor (runtime x)) as [[e ->]|(c & Hc & _ & ->)]; [done|].
  intros [= Hd]. rewrite (export_size _ _ _ Hd). destruct Hh as [Hin| ->]; [|done].
  destruct (handle_live _ _ h c Hs Hin Hc) as (k & Hk & Hf & _).
  unfold abs in Hk. cbn [actls] in Hk. rewrite lookup_fmap in Hk. unfold ctl_at. destruct (controls (runtime x) !! c) as [k'|] eqn:Hk'; [|done].
  injection Hk as <-. apply (Hlive c k' Hk' Hf).
Qed.
End one.
End frames.

Create HintDb owns_up discriminated.

(** ** At the end of a block *)

Section leaving.
Context {P : Platform} {O : OsResources P} `{!Unguarded O}.
Context (bk : Backends) (rs : list Resource) (Hbk : backends_owned bk).
Context (Hcon : ∀ d dom, domain_in bk d = Some dom → DomainContract dom ∧ IDomain.domain dom = d).
Implicit Types x : Process.

Lemma owns_up_drop_locals k : owns_up bk rs k drop_locals.
Proof.
  apply owns_up_same. intros n x Hn HR. apply (At_destroy_all bk rs Hbk Hcon); [done|].
  eapply At_perm; [|exact HR]. symmetry. apply reverse_Permutation.
Qed.
Lemma drop_locals_empty x : locals (drop_locals x).2 = [].
Proof. done. Qed.
Lemma shutdown_all n s : At bk rs n s [] → m_holds rs (machine (Runtime_shutdown true s).2).
Proof.
  intros HA. destruct (shutdown_empty bk rs Hbk n s HA) as (Hl & _ & Hm). unfold leaked_resources in Hm.
  by rewrite Hl in Hm.
Qed.
Lemma drop_runtime_holds n x : Runs bk rs n x → locals x = [] → m_holds rs (machine (runtime (drop_runtime x).2)).
Proof.
  intros HR Hl. unfold drop_runtime. rewrite on_runtime_run. cbn [snd runtime].
  apply (shutdown_all n). by rewrite <- Hl.
Qed.
Lemma leaving_holds n x : n < two64 - 1 → Runs bk rs n x →
  m_holds rs (machine (runtime ((drop_locals ;;* drop_runtime) x).2)).
Proof.
  intros Hn HR. rewrite main_bind_run. apply (drop_runtime_holds (n + Z.of_nat 0)); [|done].
  apply owns_up_drop_locals; [|done]. lia.
Qed.
End leaving.

(** ** Two runtimes *)

Section both.
Context {P : Platform} {O : OsResources P} `{!Unguarded O}.
Context (bk1 bk2 : Backends) (Hbk1 : backends_owned bk1) (Hbk2 : backends_owned bk2).
Context (Hcon1 : ∀ d dom, domain_in bk1 d = Some dom → DomainContract dom ∧ IDomain.domain dom = d).
Context (Hcon2 : ∀ d dom, domain_in bk2 d = Some dom → DomainContract dom ∧ IDomain.domain dom = d).
Implicit Types (z : Duo) (x : Process).

(** Each runtime has its buffers, and the process holds those of the other besides. *)
Record Both n z : Prop := {
  bo_producer : Runs bk1 (stands_for (runtime (consumer z))) n (producer z);
  bo_consumer : Runs bk2 (stands_for (runtime (producer z))) n (consumer z) }.
Definition owns_both k {A} (p : M Duo (Z + A)) : Prop :=
  ∀ n z, n + Z.of_nat k < two64 - 1 → Both n z → Both (n + Z.of_nat k) (p z).2.

Lemma follow_runs bk rs rs' n n' x y : n ≤ n' →
  Runs bk rs n x → m_holds (stands_for (runtime x) ++ rs') (machine (runtime y)) → Runs bk rs' n' (follow y x).
Proof. intros Hn HR Hm. eapply (At_le _ _ n); [done|]. eapply At_moved; [exact HR|exact Hm]. Qed.
Lemma both_producer k {A} (p : Main A) : (∀ rs, owns_up bk1 rs k p) → owns_both k (in_producer p).
Proof.
  intros Hp n [x y] Hn [H1 H2]. unfold in_producer. cbn [producer consumer] in *.
  specialize (Hp _ n x Hn H1). destruct (p x) as [r x']. cbn [snd] in *. split; [done|].
  eapply (follow_runs _ _ _ n); [lia|exact H2|]. rewrite (comm app). by eapply At_holds.
Qed.
Lemma both_consumer k {A} (p : Main A) : (∀ rs, owns_up bk2 rs k p) → owns_both k (in_consumer p).
Proof.
  intros Hp n [x y] Hn [H1 H2]. unfold in_consumer. cbn [producer consumer] in *.
  specialize (Hp _ n y Hn H2). destruct (p y) as [r y']. cbn [snd] in *. split; [|done].
  eapply (follow_runs _ _ _ n); [lia|exact H1|]. rewrite (comm app). by eapply At_holds.
Qed.

Lemma Both_le n n' z : n ≤ n' → Both n z → Both n' z.
Proof. intros Hn [H1 H2]. split; by eapply At_le. Qed.
Lemma both_bind k1 k2 {A B} (p : M Duo (Z + A)) (q : A → M Duo (Z + B)) (Φ : A → Prop) :
  owns_both k1 p → (∀ n z a, Both n z → (p z).1 = inr a → Φ a) → (∀ a, Φ a → owns_both k2 (q a)) →
  owns_both (k1 + k2) (main_bind p q).
Proof.
  intros Hp HΦ Hq n z Hn HB. rewrite main_bind_run. pose proof (Hp n z ltac:(lia) HB) as HB'. specialize (HΦ n z).
  destruct (p z) as [[code|a] z']; cbn [fst snd] in *; [by eapply (Both_le (n + Z.of_nat k1)); [lia|]|].
  replace (n + Z.of_nat (k1 + k2)) with (n + Z.of_nat k1 + Z.of_nat k2) by lia. apply Hq; [by apply HΦ|lia|done].
Qed.
Lemma both_step k {A B} (p : M Duo (Z + A)) (q : A → M Duo (Z + B)) :
  owns_both 0 p → (∀ a, owns_both k (q a)) → owns_both k (main_bind p q).
Proof. intros Hp Hq. by apply (both_bind 0 k p q (λ _, True)). Qed.
Lemma both_draw k {A B} (p : M Duo (Z + A)) (q : A → M Duo (Z + B)) :
  owns_both 1 p → (∀ a, owns_both k (q a)) → owns_both (S k) (main_bind p q).
Proof. intros Hp Hq. by apply (both_bind 1 k p q (λ _, True)). Qed.
Lemma both_pure k {A} (a : A) : owns_both k (pure a).
Proof. intros n z Hn HB. eapply Both_le; [|exact HB]. lia. Qed.
(** The descriptor that [must] lets through. *)
Lemma both_exported k {B} v what (q : ExportDescriptor → M Duo (Z + B)) :
  (∀ desc, is_u64 (d_size desc) → owns_both k (q desc)) →
  owns_both k (let* ex := in_producer (export_of v) in let* desc := in_producer (must what ex) in q desc).
Proof.
  intros Hq. apply (both_bind 0 k _ _ (λ ex, ∀ d, ex = Ok d → is_u64 (d_size d))).
  - apply both_producer. intros rs. by apply owns_up_export.
  - intros n [x y] ex [H1 _] Hex d ->. eapply (export_word bk1 _ n x v); [exact H1|].
    unfold in_producer in Hex. cbn [producer] in Hex. by destruct (export_of v x).
  - intros ex Hex. apply (both_bind 0 k _ _ (λ desc, ex = Ok desc)); [| |intros desc ->; by apply Hq, Hex].
    + apply both_producer. intros rs. apply owns_up_must.
    + intros n z desc _. unfold in_producer. destruct ex as [d|e]; cbn; congruence.
Qed.

#[local] Hint Resolve owns_up_enabled owns_up_print owns_up_must owns_up_map owns_up_data owns_up_write
  owns_up_release owns_up_ask owns_up_gets owns_up_check : owns_up.
Ltac both_tac :=
  repeat match goal with
  | |- owns_both (S _) (main_bind (in_producer (allocate _)) _) =>
      apply both_draw; [apply both_producer; intros; apply owns_up_allocate; first [done | by apply elsewhere_affordable]|intros ?]
  | |- owns_both (S _) (main_bind (in_consumer (import_buffer _ _ _)) _) =>
      apply both_draw; [apply both_consumer; intros; by apply owns_up_import|intros ?]
  | |- owns_both _ (main_bind (in_producer (export_of _)) _) => apply both_exported; intros ??
  | |- owns_both _ (main_bind _ _) => apply both_step; [|intros ?]
  | |- owns_both _ (if ?b then _ else _) => destruct b
  | |- owns_both _ (pure _) => apply both_pure
  | |- owns_both _ (in_producer _) => apply both_producer; intros ?; solve [eauto 3 with owns_up]
  | |- owns_both _ (in_consumer _) => apply both_consumer; intros ?; solve [eauto 3 with owns_up]
  end.
Lemma shared_ipc_owns : owns_both 2 shared_ipc.
Proof. unfold shared_ipc. both_tac. Qed.

(** Leaving [main]: the consumer's objects, the producer's, and the two runtimes. *)
Lemma both_unwind n z : n < two64 - 1 → Both n z → m_holds [] (machine (runtime (producer (unwind_ipc z).2))).
Proof.
  intros Hn HB. unfold unwind_ipc.
  assert (∀ z n, n < two64 - 1 → Both n z → ∃ y, in_consumer drop_locals z = (inr tt, y) ∧ Both n y
            ∧ locals (consumer y) = []) as Hc.
  { intros [x y] n' Hn' HB'. eexists. split; [done|]. split; [|done].
    replace n' with (n' + Z.of_nat 0) by lia.
    apply (both_consumer 0 drop_locals); [intros; by apply owns_up_drop_locals|lia|done]. }
  assert (∀ z n, n < two64 - 1 → Both n z → ∃ y, in_producer drop_locals z = (inr tt, y) ∧ Both n y
            ∧ locals (producer y) = [] ∧ locals (consumer y) = locals (consumer z)) as Hp.
  { intros [x y] n' Hn' HB'. eexists. split; [done|]. split; [|done].
    replace n' with (n' + Z.of_nat 0) by lia.
    apply (both_producer 0 drop_locals); [intros; by apply owns_up_drop_locals|lia|done]. }
  destruct (Hc z n Hn HB) as (z1 & E1 & HB1 & L1). destruct (Hp z1 n Hn HB1) as ([x y] & E2 & [H1 H2] & L2 & L3).
  rewrite !main_bind_run, E1, main_bind_run, E2, main_bind_run. cbn [producer consumer] in *. rewrite L1 in L3.
  unfold in_consumer, in_producer, drop_runtime. cbn [producer consumer]. rewrite !on_runtime_run.
  cbn [fst snd producer runtime]. unfold Runs in H1, H2. rewrite L2 in H1. rewrite L3 in H2.
  apply (shutdown_all bk2 _ Hbk2) in H2. apply (shutdown_all bk1 [] Hbk1 n).
  eapply At_moved; [exact H1|]. by rewrite app_nil_r.
Qed.
End both.

(** ** The file and its two runtimes *)

Section reopening.
Context {P : Platform} {O : OsResources P} `{!Unguarded O}.
Context (remove : string → M Machine bool) (Hremove : ∀ path, preserves (inert_on m_holds) (remove path)).

Section one.
Context (bk : Backends) (rs : list Resource) (Hbk : backends_owned bk).
Context (Hcon : ∀ d dom, domain_in bk d = Some dom → DomainContract dom ∧ IDomain.domain dom = d).
#[local] Hint Resolve owns_up_enabled owns_up_print owns_up_must owns_up_map owns_up_data owns_up_write
  owns_up_release owns_up_gets owns_up_check owns_up_export owns_up_pure owns_up_exit : owns_up.
Ltac one_tac :=
  repeat match goal with
  | |- owns_up _ _ (S _) (main_bind _ _) =>
      apply owns_up_draw;
        [first [apply owns_up_allocate; first [done | by apply elsewhere_affordable] | by apply owns_up_import]|intros ?]
  | |- owns_up _ _ _ (main_bind _ _) => apply owns_up_step; [|intros ?]
  | |- owns_up _ _ _ (if ?b then _ else _) => destruct b
  | |- owns_up _ _ _ _ => solve [eauto 3 with owns_up]
  end.
Lemma owns_up_remove k path : owns_up bk rs k (on_runtime (on_machine (remove path))).
Proof. apply owns_up_call; [eauto with frames|by apply inert_on_machine]. Qed.
#[local] Hint Resolve owns_up_remove : owns_up.
Lemma file_producer_owns : owns_up bk rs 1 file_producer.
Proof.
  unfold file_producer. apply owns_up_step; [by apply owns_up_enabled|intros []; cbn [negb]]; one_tac.
Qed.
Lemma file_consumer_owns path : owns_up bk rs 1 (file_consumer remove path).
Proof. unfold file_consumer. one_tac. Qed.
End one.

Let two_ids : 1 + Z.of_nat 2 < two64 - 1.
Proof. done. Qed.
Lemma shared_ipc_returns seed seed2 m : m_holds [] m → m_holds [] (run_shared_ipc seed seed2 m).2.
Proof.
  intros Hm. destruct (At_start (may_lose := no_losses) seed m [] eq_refl Hm) as (Hbk1 & Hcon1 & H1). unfold run_shared_ipc, new_process.
  set (s := (RuntimeImpl_new RuntimeConfig_default seed m).1) in *. cbn [runtime].
  pose proof (At_holds _ _ _ _ _ H1) as Hs. rewrite app_nil_r in Hs.
  destruct (At_start (may_lose := no_losses) seed2 (machine s) (stands_for s) eq_refl Hs) as (Hbk2 & Hcon2 & H2).
  set (s2 := (RuntimeImpl_new RuntimeConfig_default seed2 (machine s)).1) in *.
  set (z0 := mkDuo _ _).
  assert (Both (backends s) (backends s2) 1 z0) as H0.
  { split; [|exact H2]. eapply At_moved; [exact H1|]. cbn [consumer z0]. rewrite (comm app). by eapply At_holds. }
  apply (shared_ipc_owns _ _ Hbk1 Hbk2 Hcon1 Hcon2 1 z0 two_ids) in H0. set (z := (shared_ipc z0).2) in *.
  by apply (both_unwind _ _ Hbk1 Hbk2 Hcon1 Hcon2 _ z two_ids).
Qed.
Lemma file_backed_returns seed seed2 m : m_holds [] m → m_holds [] (run_file_backed remove seed seed2 m).2.
Proof.
  intros Hm. destruct (At_start (may_lose := no_losses) seed m [] eq_refl Hm) as (Hbk1 & Hcon1 & H1). unfold run_file_backed, new_process.
  set (s := (RuntimeImpl_new RuntimeConfig_default seed m).1) in *.
  apply (file_producer_owns (backends s) [] Hbk1 Hcon1 1 (mkProcess s [] [])) in H1; [|done].
  destruct (file_producer (mkProcess s [] [])) as [[code|path] y]; cbn [snd] in *.
  { eapply (leaving_holds _ _ Hbk1 Hcon1); [|exact H1]. done. }
  pose proof (At_holds _ _ _ _ _ H1) as Hs. rewrite app_nil_r in Hs.
  destruct (At_start (may_lose := no_losses) seed2 (machine (runtime y)) (stands_for (runtime y)) eq_refl Hs) as (Hbk2 & Hcon2 & H2).
  set (s2 := (RuntimeImpl_new RuntimeConfig_default seed2 (machine (runtime y))).1) in *.
  set (x0 := mkProcess s2 [] (printed y)).
  apply (file_consumer_owns (backends s2) _ Hbk2 Hcon2 path 1 x0) in H2; [|done].
  set (x := (file_consumer remove path x0).2) in *.
  apply (leaving_holds (backends s2) _ Hbk2 Hcon2) in H2; [|done].
  eapply (leaving_holds (backends s) [] Hbk1 Hcon1); [|eapply (follow_runs _ _ _ (1 + Z.of_nat 1)); [reflexivity|exact H1|]].
  - done.
  - by rewrite app_nil_r.
Qed.
End reopening.

(** * Properties *)

(** C15: the examples with two runtimes give everything back. Wherever shared_ipc.cpp and
    file_backed.cpp return, and whatever the system calls did, once their locals and both
    runtimes are destroyed the process holds no block, handle, view or device memory: no
    buffer of one runtime is given back by the other, and none twice. *)
Theorem pair_examples_return_everything `{P : Platform} {O : OsResources P} `{!Unguarded O} (remove : string → M Machine bool)
    (seed seed2 : Z) (m : Machine) :
  (∀ path, preserves (inert_on m_holds) (remove path)) → m_holds [] m →
  m_holds [] (run_shared_ipc seed seed2 m).2 ∧ m_holds [] (run_file_backed remove seed seed2 m).2.
Proof.
  intros Hr Hm. split; [by apply shared_ipc_returns|by apply file_backed_returns].
Qed.

(** The simulated system gives each mapping memory of its own, so here the programs stop
    at their comparison, and everything is given back on that path. *)
Lemma pair_examples_return_everything_witness :
  last (run_shared_ipc 7 8 sim_machine).1.2 = Some "[shared_ipc] imported buffer reads the same bytes = no"%string
  ∧ sim_held (os (run_shared_ipc 7 8 sim_machine).2) = []
  ∧ sim_held (os (run_file_backed (λ _, ret true) 7 8 sim_machine).2) = [].
Proof.
  split; [by vm_compute|].
  destruct (pair_examples_return_everything (λ _, ret true) 7 8 sim_machine) as [H1 H2];
    [intros path; apply preserves_ret, _|exact sim_start_holds|].
  split; apply sim_nothing_held; [exact H1|exact H2].
Defined.
