(* ===== verification/Solo.v ===== *)
(** What a program that is alone on its runtime can rely on.  Its allocations and
    releases are those of a worker that nobody interrupts (Traffic.v), so the books of
    Books.v hold between them; and a handle to host memory is ready for use: every map,
    view, checksum and verification of it succeeds, and only writes change its bytes. *)
From S2P Require Import Prelude Types CheckedMath Integrity Platform HostBackend Domain State Ledger Pool Lifecycle Runtime Handle Facade Frames Allocation Charges Release Telemetry Shell Traffic Balance Books.

(** ** A worker that is not interrupted *)

Section uninterrupted.
Context {P : Platform}.
Implicit Types (s : RuntimeImpl) (ws : list Worker).

Lemma alone_rest n req byte st s : st = Idle ∨ st = Stopped → alone n req byte st s = (st, s).
Proof. intros [-> | ->]; (induction n as [|n IH]; [done|]; cbn [alone]; by rewrite bind_run). Qed.
Lemma worker_step_stage req byte st rest s : st ≠ Idle → st ≠ Stopped →
  let q := stage_step req byte st s in
  worker_step (mkWorker st (req, byte) rest) s = Some (mkWorker q.1 (req, byte) rest, q.2).
Proof.
  intros Hi Hs. unfold worker_step. cbn [stage job todo fst snd].
  destruct st; try done; by destruct (stage_step req byte _ s).
Qed.
Lemma alone_traffic n req byte rest st s ws i :
  ws !! i = Some (mkWorker st (req, byte) rest) →
  let q := alone n req byte st s in
  rtc traffic_step (s, ws) (q.2, <[i := mkWorker q.1 (req, byte) rest]> ws).
Proof.
  cbv zeta. revert st s ws. induction n as [|n IH]; intros st s ws Hi.
  { cbn. by rewrite list_insert_id. }
  assert (st = Idle ∨ st = Stopped ∨ st ≠ Idle ∧ st ≠ Stopped) as [Hr|[Hr|[H1 H2]]]
    by (destruct st; auto; by right; right).
  1, 2: rewrite alone_rest by auto; cbn [fst snd]; by rewrite list_insert_id.
  cbn [alone]. rewrite bind_run. pose proof (worker_step_stage req byte st rest s H1 H2) as Hw. cbv zeta in Hw.
  destruct (stage_step req byte st s) as [st1 s1]; cbn [fst snd] in *.
  eapply rtc_l; [by econstructor|].
  specialize (IH st1 s1 (<[i := mkWorker st1 (req, byte) rest]> ws)). rewrite list_insert_insert_eq in IH.
  apply IH. apply list_lookup_insert_eq. by eapply lookup_lt_Some.
Qed.
Lemma leads_traffic req byte rest st s q ws i :
  leads req byte st s q → ws !! i = Some (mkWorker st (req, byte) rest) →
  rtc traffic_step (s, ws) (q.2, <[i := mkWorker q.1 (req, byte) rest]> ws).
Proof. intros [n <-]. apply alone_traffic. Qed.

(** An allocation, and the release of what it gave. *)
Lemma solo_allocate req byte j rest s ws i :
  ws !! i = Some (mkWorker Idle j ((req, byte) :: rest)) →
  let q := handed (Runtime_allocate true req s) in
  rtc traffic_step (s, ws) (q.2, <[i := mkWorker q.1 (req, byte) rest]> ws).
Proof.
  intros Hi. pose proof (lookup_lt_Some _ _ _ Hi) as Hlt. cbv zeta.
  eapply rtc_l; [by econstructor|].
  pose proof (leads_traffic req byte rest Begin s _ (<[i := mkWorker Begin (req, byte) rest]> ws) i
                (leads_allocate req byte s)) as Hl.
  rewrite list_insert_insert_eq in Hl. apply Hl. by apply list_lookup_insert_eq.
Qed.
Lemma solo_release req byte rest h s ws i :
  ws !! i = Some (mkWorker (Unhand h) (req, byte) rest) →
  rtc traffic_step (s, ws) ((handle_release h s).2, <[i := mkWorker Idle (req, byte) rest]> ws).
Proof. apply (leads_traffic req byte rest (Unhand h) s (Idle, _)), leads_release. Qed.
End uninterrupted.

(** ** The books of a program *)

Section program.
Context {P : Platform} (s0 : RuntimeImpl) (jobs : list (list (AllocationRequest * Z))).
Context (Hjobs : traffic_ok s0 jobs).
Implicit Types (s : RuntimeImpl) (ws : list Worker).

(** What the program does to a handle it holds is not booked. *)
Lemma books_touched s1 s2 ws (i : nat) h c j rest :
  books s0 (length jobs) (s1, ws) → ws !! i = Some (mkWorker (Held h) j rest) →
  h_ctl h = Some c → touched c 0 s1 s2 →
  books s0 (length jobs) (s2, <[i := mkWorker (Unhand h) j rest]> ws).
Proof.
  intros Hb Hi Hc Ht. eapply (books_move s0 jobs Hjobs); [exact Hb|exact Hi|].
  pose proof (bk_workers _ _ _ Hb i _ Hi) as Hw. pose proof Hw as [Hok [?|Hreq] _]; [done|].
  cbn [stage job] in *. destruct Hok as (c' & Hc' & Hv & Hrt & Hlive). assert (c' = c) as -> by congruence.
  pose proof (touched_live _ _ _ _ _ _ _ Ht Hlive) as Hlive'.
  apply (moved_advances s0 s1 (mkWorker (Held h) j rest) (Unhand h, s2)); [done..| |cbn [snd]; by rewrite (to_ledger _ _ _ _ Ht)].
  cbn [stage job]. apply (advance_touched s0 j.1 s1 (bk_runs _ _ _ Hb) (Held h) (Unhand h) s2 c 1 0);
    unfold stage_claim, stage_id; cbn; rewrite ?Hc; try done. by exists c.
Qed.
End program.

(** ** A handle to host memory *)

Section ready.
Context {P : Platform}.
Implicit Types (s : RuntimeImpl) (h : BufferHandle) (c : nat).

(** [h] refers to the control block [c] of a live buffer of [size] bytes at [p], with [n]
    references. *)
Record ready s h c (size p n : Z) : Prop := {
  rd_handle : h_ctl h = Some c ∧ h_valid h = true;
  rd_domain : ∃ hd, domain s MemoryDomain.HOST = Some (host_domain hd);
  rd_ctl : ∃ k, controls s !! c = Some k ∧ refs k = n ∧ finalized k = false
    ∧ dead_state (rec_state (rec k)) = false ∧ rec_generation (rec k) = h_gen h
    ∧ rec_domain (rec k) = MemoryDomain.HOST ∧ rec_access (rec k) = AccessMode.READ_WRITE
    ∧ rec_size (rec k) = size ∧ rec_meta_crc (rec k) = 0
    ∧ na_host_map (rec_backing (rec k)) = p ∧ na_committed (rec_backing (rec k)) = rec_committed (rec k)
    ∧ size ≤ rec_committed (rec k) < two49;
  rd_size : 0 < size;
  rd_address : p ≠ 0 }.

(** What using the handle does: [d] references are taken, the buffer stays alive, the
    machine is untouched. *)
Record calm c (d : Z) s s' : Prop := {
  ca_touched : touched c d s s';
  ca_alive k k' : controls s !! c = Some k → controls s' !! c = Some k' →
    dead_state (rec_state (rec k)) = false → dead_state (rec_state (rec k')) = false;
  ca_machine : machine s' = machine s }.

Lemma calm_trans c d1 d2 s1 s2 s3 : calm c d1 s1 s2 → calm c d2 s2 s3 → calm c (d1 + d2) s1 s3.
Proof.
  intros [H1 A1 M1] [H2 A2 M2]. constructor; [by eapply touched_trans| |congruence].
  intros k k'' Hk Hk'' Hd. destruct (to_ctl _ _ _ _ H1 k Hk) as (k' & Hk' & _). eauto.
Qed.
Lemma calm_step c d s1 s2 s3 : calm c 0 s1 s2 → calm c d s2 s3 → calm c d s1 s3.
Proof. apply (calm_trans c 0 d). Qed.
Lemma calm_refl c s : calm c 0 s s.
Proof. constructor; [by apply quiet_touched| |done]. intros k k' Hk Hk'. by simplify_eq. Qed.
(** A computation that touches neither control blocks nor the machine. *)
Lemma calm_quiet c s s' : quiet s s' → same_ledger s s' → machine s' = machine s → calm c 0 s s'.
Proof.
  intros Hq Hl Hm. constructor; [by apply quiet_touched| |done].
  intros k k' Hk Hk'. rewrite (q_controls _ _ Hq) in Hk'. by simplify_eq.
Qed.
Lemma calm_tick c t s : calm c 0 s (tick t s).2.
Proof. apply calm_quiet; [apply quiet_tick|done|done]. Qed.
Lemma calm_upd c d f s :
  (∀ k, controls s !! c = Some k → kept_by d k (f k)
        ∧ (dead_state (rec_state (rec k)) = false → dead_state (rec_state (rec (f k))) = false)) →
  calm c d s (upd_ctl c f s).2.
Proof.
  intros Hf. constructor; [apply touched_upd; intros; by apply Hf| |done].
  intros k k' Hk Hk'. cbn in Hk'. rewrite lookup_alter_eq, Hk in Hk'. injection Hk' as <-. by apply Hf.
Qed.
Lemma calm_retain c s : calm c 1 s (retain c s).2.
Proof. apply calm_upd. intros k _. split; [apply kept_by_refs|done]. Qed.

Lemma ready_calm s s' h c size p n d : ready s h c size p n → calm c d s s' → ready s' h c size p (n + d).
Proof.
  intros [Hh (hd & Hd) (k & Hk & H1 & H2 & H3 & H4 & H5 & H6 & H7 & H8 & H9 & H10 & H11) Hs Hp] [Ht Ha Hm].
  constructor; [done| | |done|done].
  - exists hd. rewrite <- Hd. apply domain_backends, (ss_backends _ _ (own_static _ _ _ (to_own _ _ _ _ Ht))).
  - destruct (to_ctl _ _ _ _ Ht k Hk) as (k' & Hk' & Hr & Hf & (mc & st & Hrec)). exists k'.
    pose proof (Ha k k' Hk Hk' H3) as Hal. rewrite Hrec in Hal |- *. cbn in Hal |- *.
    split_and!; try done; try congruence; lia.
Qed.

(** A reference that is not the last one is dropped. *)
Lemma ready_drop s h c size p n : ready s h c size p n → n ≠ 1 → calm c (-1) s (drop_ref c s).2.
Proof.
  intros [_ _ (k & Hk & Hr & _) _ _] Hn. unfold drop_ref. rewrite !bind_run. cbn [get_ctl gets fst snd].
  assert (ctl_at s c = k) as -> by (unfold ctl_at; by rewrite Hk).
  rewrite (proj2 (Z.eqb_neq _ _)) by congruence. apply calm_upd. intros k' Hk'. simplify_eq.
  replace (refs k - 1) with (refs k + -1) by lia. split; [apply kept_by_refs|done].
Qed.

Context (s : RuntimeImpl) (h : BufferHandle) (c : nat) (size p n : Z).
Context (Hready : ready s h c size p n).

Lemma ready_alive : validate_alive h s = ok_status.
Proof.
  destruct Hready as [[Hc Hv] _ (k & Hk & _ & Hf & Hd & Hg & _) _ _].
  unfold validate_alive. rewrite Hc, Hv. cbn [negb]. unfold ctl_at. rewrite Hk. cbn [from_option id].
  by rewrite Hf, Hg, Z.eqb_refl, Hd.
Qed.
Lemma ready_handle_size : handle_size h s = size.
Proof.
  destruct Hready as [[Hc _] _ (k & Hk & _ & _ & _ & _ & _ & _ & Hs & _) _ _].
  unfold handle_size, ctl_at. by rewrite Hc, Hk.
Qed.
Lemma ready_valid acc : ensure_valid h acc s = ok_status.
Proof.
  destruct Hready as [[Hc Hv] _ (k & Hk & _ & _ & _ & _ & _ & Ha & _) _ _].
  unfold ensure_valid. rewrite ready_alive, Hc. cbn [ok_status from_option id]. unfold ctl_at. rewrite Hk. cbn [from_option id].
  by rewrite Ha, andb_false_r.
Qed.
Lemma ready_run {A} chk (k : nat → M RuntimeImpl (Result A)) :
  chk s = ok_status → with_handle h chk k s = k c s.
Proof.
  intros Hchk. unfold with_handle. rewrite bind_run. cbn [get fst snd]. rewrite Hchk.
  by destruct Hready as [[-> _] _ _ _ _].
Qed.
Lemma ready_view off len acc :
  is_u64 off → is_u64 len → size < two64 →
  if (off + len <=? size) && (0 <? len)
  then ∃ v, (handle_view h off len acc s).1 = Ok v ∧ view_data v = p + off ∧ view_ctl v = Some c
            ∧ view_off v = off ∧ view_len v = len
            ∧ calm c 1 s (handle_view h off len acc s).2
  else ∃ e, handle_view h off len acc s = (Fail e, s).
Proof.
  intros Ho Hl Hs64. unfold handle_view. rewrite ready_run by apply ready_valid.
  destruct Hready as [_ _ (k & Hk & _ & _ & _ & _ & _ & Ha & Hs & _ & Hp & _) Hsz Hp0].
  rewrite bind_run. cbn [get_ctl gets fst snd]. cbv zeta.
  assert (ctl_at s c = k) as -> by (unfold ctl_at; by rewrite Hk). rewrite Hs, Ha, Hp.
  assert (is_u64 size) as Hsu by (unfold is_u64; lia).
  pose proof (range_in_bounds_spec off len size Ho Hl Hsu) as Hr.
  rewrite (bool_decide_eq_false_2 (AccessMode.READ_WRITE = AccessMode.READ)), andb_false_r by done.
  rewrite (proj2 (Z.eqb_neq p 0)) by done.
  destruct (range_in_bounds off len size); cbn [negb].
  - rewrite (proj2 (Z.leb_le _ _)) by (by apply Hr). cbn [andb].
    destruct (len =? 0) eqn:E; bool_prop.
    { rewrite (proj2 (Z.ltb_ge _ _)) by lia. by eexists. }
    rewrite (proj2 (Z.ltb_lt _ _)) by (unfold is_u64 in *; lia). rewrite bind_run. cbn [ret fst snd].
    eexists. split_and!; try done. apply calm_retain.
  - rewrite (proj2 (Z.leb_gt _ _)); [by eexists|]. destruct (decide (off + len ≤ size)) as [Hle|]; [|lia].
    by apply Hr in Hle.
Qed.
Lemma ready_map acc : ∃ m, (handle_map h acc s).1 = Ok m ∧ map_data m = p ∧ map_ctl m = Some c
  ∧ calm c 1 s (handle_map h acc s).2.
Proof.
  unfold handle_map. rewrite ready_run by apply ready_valid.
  destruct Hready as [_ (hd & Hd) (k & Hk & _ & _ & Hal & _ & Hdom & _ & _ & _ & Hp & _) _ Hp0].
  rewrite bind_run. cbn [get fst snd]. cbv zeta.
  assert (ctl_at s c = k) as -> by (unfold ctl_at; by rewrite Hk). rewrite Hdom, Hd.
  rewrite bool_decide_eq_false_2 by done. rewrite bind_run, on_machine_run.
  change (IDomain.map (host_domain hd)) with (host_map (P:=P)). unfold host_map. cbn [ret fst snd].
  rewrite na_base_map by congruence. rewrite Hp. rewrite !bind_run. cbn [ret fst snd].
  eexists. split_and!; [done..|]. set (s1 := set_machine (machine s) s).
  assert (calm c 0 s s1) as C1 by by (apply calm_quiet; [constructor; [constructor|..]|..]).
  set (s2 := (upd_ctl c _ s1).2). assert (calm c 0 s1 s2) as C2.
  { apply calm_upd. intros k' _. split; [apply kept_by_map_count|done]. }
  match goal with |- context [(?m s2).2] => set (s3 := (m s2).2) end.
  assert (calm c 0 s2 s3) as C3.
  { unfold s3. destruct (valid_transition _ _); [|apply calm_refl].
    apply calm_upd. intros k' _. split; [apply kept_by_state|done]. }
  apply (calm_step c 1 s s1), (calm_step c 1 s1 s2), (calm_step c 1 s2 s3); [done..|].
  apply (calm_trans c 1 0 s3 (retain c s3).2); [apply calm_retain|apply calm_tick].
Qed.
Lemma ready_unmap m : map_ctl m = Some c → n ≠ 1 → calm c (-1) s (map_release m s).2.
Proof.
  intros Hm Hn. unfold map_release. rewrite Hm, !bind_run. set (s1 := (upd_ctl c _ s).2).
  assert (calm c 0 s s1) as C1.
  { apply calm_upd. intros k _. destruct (0 <? _); (split; [apply kept_by_map_count || apply kept_by_same|done]). }
  set (s2 := (upd_ctl c _ s1).2). assert (calm c 0 s1 s2) as C2.
  { apply calm_upd. intros k _. destruct (_ && _); (split; [apply kept_by_state || apply kept_by_same|done]). }
  cbn [get fst snd]. match goal with |- context [(?m0 s2).2] => set (f := m0) end.
  pose proof (calm_step c 0 s s1 s2 C1 C2) as C12. pose proof (ready_calm _ _ _ _ _ _ _ _ Hready C12) as Hr2.
  assert (calm c 0 s2 (f s2).2) as C3.
  { unfold f. destruct (_ =? 0); [apply calm_refl|].
    destruct Hr2 as [_ (hd & Hd) (k & Hk & _ & _ & _ & _ & Hdom & _) _ _].
    assert (ctl_at s2 c = k) as -> by (unfold ctl_at; by rewrite Hk). rewrite Hdom, Hd, bind_run, on_machine_run.
    apply calm_quiet; [constructor; [constructor|..]|..]; done. }
  set (s3 := (f s2).2) in *. set (s4 := (tick unmap_count s3).2).
  assert (calm c 0 s s4) as C4
    by (apply (calm_step c 0 s s2), (calm_step c 0 s2 s3); [done..|apply calm_tick]).
  cbn [ret snd]. apply (calm_step c (-1) s s4 _ C4).
  apply (ready_drop s4 h c size p (n + 0)); [by apply (ready_calm s)|lia].
Qed.
Lemma ready_unview v : view_ctl v = Some c → n ≠ 1 → calm c (-1) s (view_release v s).2.
Proof. intros Hv Hn. unfold view_release. rewrite Hv, bind_run. by apply (ready_drop s h c size p n). Qed.
(** The checksum is that of the bytes of the buffer. *)
Lemma ready_checksum :
  (handle_checksum h s).1 = Ok (crc32c (bytes_at (mem (machine s)) p size) 0)
  ∧ calm c 0 s (handle_checksum h s).2.
Proof.
  unfold handle_checksum. rewrite ready_run by apply ready_alive.
  destruct Hready as [_ _ (k & Hk & _ & _ & _ & _ & Hdom & _ & Hs & _ & Hp & _) _ Hp0].
  rewrite bind_run. cbn [get fst snd]. cbv zeta.
  assert (ctl_at s c = k) as -> by (unfold ctl_at; by rewrite Hk). rewrite Hdom.
  rewrite bool_decide_eq_false_2, na_base_map, Hp, (proj2 (Z.eqb_neq p 0)), Hs by congruence.
  rewrite bind_run. split; [done|]. apply calm_tick.
Qed.
Lemma ready_verify : (handle_verify h s).1 = ok_status ∧ calm c 0 s (handle_verify h s).2.
Proof.
  unfold handle_verify. rewrite ready_run by apply ready_alive.
  destruct Hready as [_ (hd & Hd) (k & Hk & _ & _ & Hal & _ & Hdom & _ & Hs & Hcrc & Hp & Hcm & Hle) Hsz Hp0].
  rewrite !bind_run. cbn [get fst snd]. cbv zeta. set (s1 := (tick integrity_checks s).2).
  assert (ctl_at s1 c = k) as -> by (unfold ctl_at, s1; cbn; by rewrite Hk).
  rewrite Hdom. change (domain s1 MemoryDomain.HOST) with (domain s MemoryDomain.HOST). rewrite Hd.
  rewrite bool_decide_eq_false_2 by (intros E; by rewrite E in Hal). rewrite bind_run, on_machine_run.
  change (IDomain.verify (host_domain hd)) with (host_verify (P:=P)). unfold host_verify.
  rewrite Hp, (proj2 (Z.eqb_neq p 0)), andb_false_r by done.
  rewrite <- Hcm, out_of_span_whole by (rewrite Hcm; unfold is_u64, two64, two49 in *; lia).
  cbn [ret fst snd ok_status]. rewrite Hcrc. cbn [Z.eqb negb andb ret fst snd]. split; [done|].
  apply (calm_step c 0 s s1); [apply calm_tick|].
  apply calm_quiet; [constructor; [constructor|..]|..]; done.
Qed.
(** Writing to memory. *)
Lemma ready_write f :
  let s' := (on_machine (modify (set_mem f)) s).2 in
  touched c 0 s s' ∧ ready s' h c size p n ∧ mem (machine s') = f (mem (machine s)).
Proof.
  cbv zeta. rewrite on_machine_run. cbn [modify fst snd]. split_and!; [by apply quiet_touched| |done].
  by destruct Hready as [? ? ? ? ?].
Qed.
End ready.

(** ** Allocating host memory *)

Section allocating.
Context {P : Platform}.
Implicit Types (s : RuntimeImpl).

(** An unpooled record has the backing its domain has just allocated. *)
Lemma allocate_reserved_fresh dom req al n :
  pooled_flag (req_flags req) = false →
  yields (λ x, ∀ r, x = Ok r → rec_meta_crc r = 0 ∧ ∃ m, (IDomain.allocate dom n al m).1 = Ok (rec_backing r))
    (allocate_reserved dom req al n).
Proof.
  intros Hp. unfold allocate_reserved. apply yields_bind. intros i. apply yields_bind. intros ep.
  cbv zeta. apply (yields_bind_val (λ o, o = None)).
  { unfold take_from_pool. apply yields_bind. intros s0. rewrite Hp. by apply yields_ret. }
  intros slot ->. apply (yields_bind_val (λ x, ∀ a, x = Ok a → ∃ m, (IDomain.allocate dom n al m).1 = Ok a)).
  - unfold fresh_backing. apply (yields_bind_val (λ x, ∀ a, x = Ok a → ∃ m, (IDomain.allocate dom n al m).1 = Ok a)).
    + intros s. rewrite on_machine_run. cbn [fst]. by eexists.
    + intros [a|e] Ha; [|yields_tac; done]. apply yields_bind. intros [u|e]; [|yields_tac; done].
      by apply yields_ret.
  - intros [a|e] Ha; [|by apply yields_ret]. apply yields_bind. intros [u|e]; [|by apply yields_ret].
    apply yields_bind. intros s0. apply yields_ret. intros r [= <-]. split; [done|by apply Ha].
Qed.
Lemma host_allocated n al m a : (host_allocate n al m).1 = Ok a → na_host_map a ≠ 0.
Proof. unfold host_allocate. allocate_cases; try done. Qed.

Lemma ready_allocate req s h s' hd :
  host_unpooled req → domains_ok s → domain s MemoryDomain.HOST = Some (host_domain hd) →
  domain s' MemoryDomain.HOST = Some (host_domain hd) →
  Runtime_allocate true req s = (Ok h, s') →
  ∃ c p, ready s' h c (req_size req) p 1 ∧ h_gen h = 1
    ∧ ∃ al, validate_request s req = Ok (al, rec_committed (rec (ctl_at s' c))).
Proof.
  intros [Hd Hp Hacc Hsz Hal] Hdom Hh Hh' Hrun.
  destruct (Runtime_allocate_ok req s h) as (r & Hr & -> & Hctl & _); [by rewrite Hrun|].
  rewrite Hrun in Hctl. cbn [fst snd] in *. set (c := size (controls (allocate_record req s).2)) in *.
  destruct (allocate_record_ok req s r Hr) as (dom & al & n & s2 & Hd2 & Hv & Hres).
  rewrite Hd in Hd2. assert (dom = host_domain hd) as -> by congruence.
  destruct (allocate_reserved_fresh (host_domain hd) req al n Hp s2 r Hres) as (Hcrc & m & Hm).
  destruct (allocate_reserved_record (host_domain hd) req al n _ s2 r Hres) as [(R1 & _ & R3 & R4 & _) [R5 _] _ (R6 & R7 & _)].
  destruct (validate_request_ok s req al n Hdom Hsz Hal Hv) as [Hs0 _ (_ & Hle & _) Hn _].
  destruct (dc_allocate (DomainContract:=host_contract hd) n al m _ Hm) as (Hcm & _).
  exists c, (na_host_map (rec_backing r)). split; [|split; [done|exists al; rewrite Hctl; cbn; by rewrite R5, Hcm]].
  constructor; [done|by exists hd| |lia|].
  - exists (set_refs 1 (Control_new r)). split.
    + unfold ctl_at in Hctl. destruct (controls s' !! c) as [k|]; [cbn [from_option id] in Hctl; by rewrite Hctl|].
      by apply (f_equal refs) in Hctl.
    + cbn. rewrite R1, R3, R4, R5, R6, Hcrc, Hcm. unfold two48, two49 in *. split_and!; try done; lia.
  - exact (host_allocated n al m _ Hm).
Qed.
End allocating.
