(* ===== verification/Passing.v ===== *)
(** The example programs pass their own checks.  Rules to run a program step by step,
    for a process with a handle that is ready (Solo.v), and the programs on host memory:
    unless an allocation is refused they print PASS and return 0. *)
From S2P Require Import Prelude Types CheckedMath Integrity Platform HostBackend Domain State Ledger Pool Lifecycle Runtime Handle Facade Frames Allocation Charges Release Telemetry Clients Shell Session Traffic Balance Books Examples Solo Sim SimRuntime.

(** Facts about numerals. *)
Lemma word_lit z : (0 <=? z) && (z <? two64) = true → is_u64 z.
Proof. intros H. bool_prop. done. Qed.
Ltac word :=
  first [ apply word_lit; exact eq_refl | apply Z.ltb_lt; exact eq_refl | apply Z.leb_le; exact eq_refl ].

(** ** Loops over bytes *)

Lemma for_bytes_nat (n : nat) (body : Z → Memory → Memory) (m : Memory) (J : Z → Memory → Prop) :
  J 0 m → (∀ i m', 0 ≤ i < Z.of_nat n → J i m' → J (i + 1) (body i m')) →
  J (Z.of_nat n) (for_bytes (Z.of_nat n) body m).
Proof.
  intros H0 Hs. induction n as [|n IH]; [done|]. unfold for_bytes in *.
  replace (Z.of_nat (S n)) with (Z.of_nat n + 1) by lia.
  rewrite seqZ_app, foldl_app by lia. cbn [foldl seqZ]. rewrite Z.add_0_l.
  change (seqZ (Z.of_nat n) 1) with [Z.of_nat n]. cbn [foldl]. apply Hs; [lia|].
  apply IH. intros i m' Hi. apply Hs. lia.
Qed.
(** Loop rule. *)
Lemma for_bytes_inv n body m (J : Z → Memory → Prop) :
  0 ≤ n → J 0 m → (∀ i m', 0 ≤ i < n → J i m' → J (i + 1) (body i m')) → J n (for_bytes n body m).
Proof. intros Hn. rewrite <- (Z2Nat.id n Hn). apply for_bytes_nat. Qed.
Lemma poke_lookup a v m b : poke a v m b = if b =? a then v else m b.
Proof. done. Qed.

(** Filling the bytes at [p], and the two halves at [p] and [p + n] at once. *)
Lemma fill_lookup n p f m a : 0 ≤ n →
  for_bytes n (λ i, poke (p + i) (f i)) m a = if in_range p n a then f (a - p) else m a.
Proof.
  intros Hn. apply (for_bytes_inv n _ m (λ i m', m' a = if in_range p i a then f (a - p) else m a)); [done| |].
  - rewrite (proj2 (in_range_false p 0 a)) by lia. done.
  - intros i m' Hi E. rewrite poke_lookup, E. destruct (a =? p + i) eqn:Ea; bool_prop.
    + rewrite (proj2 (in_range_spec p (i + 1) a)) by lia. f_equal. lia.
    + destruct (in_range p i a) eqn:Ei; [apply in_range_spec in Ei|apply in_range_false in Ei].
      * by rewrite (proj2 (in_range_spec p (i + 1) a)) by lia.
      * by rewrite (proj2 (in_range_false p (i + 1) a)) by lia.
Qed.
Lemma fill_halves n p q x y m a : 0 ≤ n → q = p + n →
  for_bytes n (λ i m, poke (q + i) y (poke (p + i) x m)) m a
  = if in_range p n a then x else if in_range q n a then y else m a.
Proof.
  intros Hn ->.
  apply (for_bytes_inv n _ m (λ i m', m' a = if in_range p i a then x else if in_range (p + n) i a then y else m a)); [done| |].
  - rewrite !(proj2 (in_range_false _ 0 a)) by lia. done.
  - intros i m' Hi E. rewrite !poke_lookup, E.
    destruct (a =? p + n + i) eqn:E1; bool_prop; [|destruct (a =? p + i) eqn:E2; bool_prop].
    + rewrite (proj2 (in_range_false p (i + 1) a)), (proj2 (in_range_spec (p + n) (i + 1) a)) by lia. done.
    + by rewrite (proj2 (in_range_spec p (i + 1) a)) by lia.
    + assert (∀ o, a ≠ o + i → in_range o (i + 1) a = in_range o i a) as Hr.
      { intros o Ho. unfold in_range. destruct (a <? o + (i + 1)) eqn:X, (a <? o + i) eqn:Y; bool_prop; done || lia. }
      by rewrite !Hr by lia.
Qed.

(** ** Running a program *)

Section runs.
Context {P : Platform}.
Implicit Types (s : RuntimeImpl) (x : Process) (ls : list Token) (out : list string) (Q : Z → Process → Prop).

(** The program returns a code and leaves a process with [Q]. *)
Definition runs (p : Main Z) x Q : Prop :=
  Q (match (p x).1 with inl code | inr code => code end) (p x).2.

Lemma runs_bind {A} (p : Main A) (q : A → Main Z) x Q a x' :
  p x = (inr a, x') → runs (q a) x' Q → runs (main_bind p q) x Q.
Proof. intros Hp. unfold runs. by rewrite main_bind_run, Hp. Qed.
Lemma runs_assoc {A B} (p : Main A) (q : A → Main B) (r : B → Main Z) x Q :
  runs (let* a := p in let* b := q a in r b) x Q → runs (main_bind (main_bind p q) r) x Q.
Proof. unfold runs. by rewrite main_bind_assoc. Qed.
Lemma runs_return code x Q : Q code x → runs (pure code) x Q.
Proof. done. Qed.
Lemma runs_pure {A} (a : A) (q : A → Main Z) x Q : runs (q a) x Q → runs (main_bind (pure a) q) x Q.
Proof. by apply runs_bind. Qed.
Lemma runs_print l (q : unit → Main Z) s ls out Q :
  runs (q tt) (mkProcess s ls (out ++ [l])) Q → runs (main_bind (print l) q) (mkProcess s ls out) Q.
Proof. by apply runs_bind. Qed.
Lemma runs_check b lines (q : unit → Main Z) x Q :
  b = true → runs (q tt) x Q → runs (main_bind (check b lines) q) x Q.
Proof. intros ->. by apply runs_bind. Qed.
Lemma runs_must {A} what (a : A) (q : A → Main Z) x Q :
  runs (q a) x Q → runs (main_bind (must what (Ok a)) q) x Q.
Proof. by apply runs_bind. Qed.
Lemma runs_must_fail {A} what e (q : A → Main Z) s ls out Q :
  Q 1 (mkProcess s ls (out ++ [what +:+ " failed: " +:+ errstr (Fail e : Result A)])) →
  runs (main_bind (must what (Fail e)) q) (mkProcess s ls out) Q.
Proof. done. Qed.
Lemma runs_call {A} (m : M RuntimeImpl A) (q : A → Main Z) s ls out Q :
  runs (q (m s).1) (mkProcess (m s).2 ls out) Q → runs (main_bind (on_runtime m) q) (mkProcess s ls out) Q.
Proof. apply runs_bind. by rewrite on_runtime_run. Qed.
Lemma runs_handle v h (q : BufferHandle → Main Z) s ls out Q :
  ls !! v = Some (THandle h) →
  runs (q h) (mkProcess s ls out) Q → runs (main_bind (handle_at v) q) (mkProcess s ls out) Q.
Proof.
  intros Hv. apply runs_bind. unfold handle_at. rewrite main_bind_run. cbn. by rewrite Hv.
Qed.
Lemma runs_on_handle {A} v h (f : BufferHandle → M RuntimeImpl A) (q : A → Main Z) s ls out Q :
  ls !! v = Some (THandle h) →
  runs (q (f h s).1) (mkProcess (f h s).2 ls out) Q →
  runs (main_bind (on_handle v f) q) (mkProcess s ls out) Q.
Proof. intros Hv Hq. apply runs_assoc, (runs_handle v h); [done|]. by apply runs_call. Qed.
Lemma runs_ask {A} v h (f : BufferHandle → RuntimeImpl → A) (q : A → Main Z) s ls out Q :
  ls !! v = Some (THandle h) →
  runs (q (f h s)) (mkProcess s ls out) Q → runs (main_bind (ask v f) q) (mkProcess s ls out) Q.
Proof. intros Hv Hq. by apply (runs_on_handle v h (λ h, gets (f h))). Qed.
Lemma runs_allocate req (q : Result nat → Main Z) s ls out Q :
  (∀ h s', Runtime_allocate true req s = (Ok h, s') →
     runs (q (Ok (length ls))) (mkProcess s' (ls ++ [THandle h]) out) Q) →
  (∀ e s', Runtime_allocate true req s = (Fail e, s') → runs (q (Fail e)) (mkProcess s' ls out) Q) →
  runs (main_bind (allocate req) q) (mkProcess s ls out) Q.
Proof.
  intros Hok Hfail. unfold allocate, runs. rewrite main_bind_run, owned_run. cbn [runtime locals printed].
  destruct (Runtime_allocate true req s) as [[h|e] s']; [by apply Hok|by apply Hfail].
Qed.
Lemma runs_local v t (q : Token → Main Z) s ls out Q :
  ls !! v = Some t → runs (q t) (mkProcess s ls out) Q → runs (main_bind (local v) q) (mkProcess s ls out) Q.
Proof. intros Hv. apply runs_bind. unfold local. cbn. by rewrite Hv. Qed.
Lemma runs_map_data v m (q : Z → Main Z) s ls out Q :
  ls !! v = Some (TMap m) →
  runs (q (map_data m)) (mkProcess s ls out) Q → runs (main_bind (data_at v) q) (mkProcess s ls out) Q.
Proof. intros Hv Hq. by apply runs_assoc, (runs_local v (TMap m)), runs_pure. Qed.
Lemma runs_view_data v w (q : Z → Main Z) s ls out Q :
  ls !! v = Some (TView w) →
  runs (q (view_data w)) (mkProcess s ls out) Q → runs (main_bind (data_at v) q) (mkProcess s ls out) Q.
Proof. intros Hv Hq. by apply runs_assoc, (runs_local v (TView w)), runs_pure. Qed.
Lemma runs_release v t (q : unit → Main Z) s ls out Q :
  ls !! v = Some t →
  runs (q tt) (mkProcess (release_token t s).2 (<[v := (release_token t s).1]> ls) out) Q →
  runs (main_bind (release v) q) (mkProcess s ls out) Q.
Proof. intros Hv. apply runs_bind. rewrite release_run. cbn [locals runtime]. by rewrite Hv. Qed.

Lemma runs_move v h (q : nat → Main Z) s ls out Q :
  ls !! v = Some (THandle h) →
  runs (q (length ls))
    (mkProcess s (<[v := THandle (mkBufferHandle false None (h_id h) (h_gen h) false)]> ls ++ [THandle h]) out) Q →
  runs (main_bind (move_handle v) q) (mkProcess s ls out) Q.
Proof.
  intros Hv. apply runs_bind. unfold move_handle. rewrite main_bind_run. unfold local. cbn [locals fst snd].
  rewrite Hv. cbn [from_option id]. rewrite main_bind_run. unfold assign, declare. cbn [locals runtime printed].
  by rewrite length_insert.
Qed.

(** ** On a handle that is ready *)

Lemma runs_map v h a (q : Result nat → Main Z) s ls out Q c size p n :
  ls !! v = Some (THandle h) → ready s h c size p n →
  (∀ m s', map_data m = p → map_ctl m = Some c → calm c 1 s s' →
     runs (q (Ok (length ls))) (mkProcess s' (ls ++ [TMap m]) out) Q) →
  runs (main_bind (map_buffer v a) q) (mkProcess s ls out) Q.
Proof.
  intros Hv Hr Hq. apply runs_assoc, (runs_handle v h); [done|].
  unfold runs. rewrite main_bind_run, owned_run. cbn [runtime locals printed].
  destruct (ready_map s h c size p n Hr a) as (m & Hm & Hp & Hc & Hcalm).
  destruct (handle_map h a s) as [r s']. cbn [fst snd] in *. subst r. by apply Hq.
Qed.
Lemma runs_view v h off len a (q : Result nat → Main Z) s ls out Q c size p n :
  ls !! v = Some (THandle h) → ready s h c size p n →
  is_u64 off → is_u64 len → size < two64 → off + len ≤ size → 0 < len →
  (∀ w s', view_data w = p + off → view_ctl w = Some c → calm c 1 s s' →
     runs (q (Ok (length ls))) (mkProcess s' (ls ++ [TView w]) out) Q) →
  runs (main_bind (view_buffer v off len a) q) (mkProcess s ls out) Q.
Proof.
  intros Hv Hr Ho Hl Hs H1 H2 Hq. apply runs_assoc, (runs_handle v h); [done|].
  unfold runs. rewrite main_bind_run, owned_run. cbn [runtime locals printed].
  pose proof (ready_view s h c size p n Hr off len a Ho Hl Hs) as Hw.
  rewrite (proj2 (Z.leb_le _ _)), (proj2 (Z.ltb_lt _ _)) in Hw by lia. destruct Hw as (w & Hw & ? & ? & _ & _ & ?).
  destruct (handle_view h off len a s) as [r s']. cbn [fst snd] in *. subst r. by apply Hq.
Qed.
(** A view beyond the end is refused, and so is everything on a handle that is empty. *)
Lemma runs_view_refused v h off len a (q : Result nat → Main Z) s ls out Q c size p n :
  ls !! v = Some (THandle h) → ready s h c size p n →
  is_u64 off → is_u64 len → size < two64 → size < off + len →
  (∀ e, runs (q (Fail e)) (mkProcess s ls out) Q) →
  runs (main_bind (view_buffer v off len a) q) (mkProcess s ls out) Q.
Proof.
  intros Hv Hr Ho Hl Hs H1 Hq. apply runs_assoc, (runs_handle v h); [done|].
  unfold runs. rewrite main_bind_run, owned_run. cbn [runtime locals printed].
  pose proof (ready_view s h c size p n Hr off len a Ho Hl Hs) as Hw.
  rewrite (proj2 (Z.leb_gt _ _)) in Hw by lia. destruct Hw as (e & ->). by apply Hq.
Qed.
Lemma runs_map_empty v h a (q : Result nat → Main Z) s ls out Q :
  ls !! v = Some (THandle h) → h_ctl h = None →
  (∀ e, runs (q (Fail e)) (mkProcess s ls out) Q) →
  runs (main_bind (map_buffer v a) q) (mkProcess s ls out) Q.
Proof.
  intros Hv Hc Hq. apply runs_assoc, (runs_handle v h); [done|].
  unfold runs. rewrite main_bind_run, owned_run. cbn [runtime locals printed].
  unfold handle_map, with_handle, ensure_valid, validate_alive. rewrite bind_run. cbn [get fst snd].
  rewrite Hc. apply Hq.
Qed.
Lemma runs_view_empty v h off len a (q : Result nat → Main Z) s ls out Q :
  ls !! v = Some (THandle h) → h_ctl h = None →
  (∀ e, runs (q (Fail e)) (mkProcess s ls out) Q) →
  runs (main_bind (view_buffer v off len a) q) (mkProcess s ls out) Q.
Proof.
  intros Hv Hc Hq. apply runs_assoc, (runs_handle v h); [done|].
  unfold runs. rewrite main_bind_run, owned_run. cbn [runtime locals printed].
  unfold handle_view, with_handle, ensure_valid, validate_alive. rewrite bind_run. cbn [get fst snd].
  rewrite Hc. apply Hq.
Qed.
Lemma runs_unmap v m (q : unit → Main Z) s ls out Q h c size p n :
  ls !! v = Some (TMap m) → map_ctl m = Some c → ready s h c size p n → n ≠ 1 →
  (∀ t s', calm c (-1) s s' → runs (q tt) (mkProcess s' (<[v := t]> ls) out) Q) →
  runs (main_bind (release v) q) (mkProcess s ls out) Q.
Proof.
  intros Hv Hm Hr Hn Hq. apply (runs_release v (TMap m)); [done|]. cbn [release_token]. rewrite bind_run.
  apply Hq. by apply (ready_unmap s h c size p n).
Qed.
Lemma runs_unview v w (q : unit → Main Z) s ls out Q h c size p n :
  ls !! v = Some (TView w) → view_ctl w = Some c → ready s h c size p n → n ≠ 1 →
  (∀ t s', calm c (-1) s s' → runs (q tt) (mkProcess s' (<[v := t]> ls) out) Q) →
  runs (main_bind (release v) q) (mkProcess s ls out) Q.
Proof.
  intros Hv Hm Hr Hn Hq. apply (runs_release v (TView w)); [done|]. cbn [release_token]. rewrite bind_run.
  apply Hq. by apply (ready_unview s h c size p n).
Qed.
Lemma runs_checksum v h (q : Result Z → Main Z) s ls out Q c size p n :
  ls !! v = Some (THandle h) → ready s h c size p n →
  (∀ s', calm c 0 s s' →
     runs (q (Ok (crc32c (bytes_at (mem (machine s)) p size) 0))) (mkProcess s' ls out) Q) →
  runs (main_bind (on_handle v handle_checksum) q) (mkProcess s ls out) Q.
Proof.
  intros Hv Hr Hq. eapply runs_on_handle; [done|].
  destruct (ready_checksum s h c size p n Hr) as [-> Hc]. by apply Hq.
Qed.
Lemma runs_verify v h (q : Status → Main Z) s ls out Q c size p n :
  ls !! v = Some (THandle h) → ready s h c size p n →
  (∀ s', calm c 0 s s' → runs (q ok_status) (mkProcess s' ls out) Q) →
  runs (main_bind (on_handle v handle_verify) q) (mkProcess s ls out) Q.
Proof.
  intros Hv Hr Hq. eapply runs_on_handle; [done|].
  destruct (ready_verify s h c size p n Hr) as [-> Hc]. by apply Hq.
Qed.
(** Writing bytes, and reading them back. *)
Lemma runs_write n body (q : unit → Main Z) s ls out Q h c size p k :
  ready s h c size p k →
  (∀ s', touched c 0 s s' → ready s' h c size p k → mem (machine s') = for_bytes n body (mem (machine s)) →
     runs (q tt) (mkProcess s' ls out) Q) →
  runs (main_bind (write_bytes n body) q) (mkProcess s ls out) Q.
Proof.
  intros Hr Hq. apply runs_call. destruct (ready_write s h c size p k Hr (for_bytes n body)) as (H1 & H2 & H3).
  rewrite on_machine_run in *. by apply Hq.
Qed.
Lemma runs_bytes_are p from to f (q : bool → Main Z) s ls out Q :
  (∀ i, from ≤ i < to → mem (machine s) (p + i) = f i) →
  runs (q true) (mkProcess s ls out) Q → runs (main_bind (bytes_are p from to f) q) (mkProcess s ls out) Q.
Proof.
  intros Hm Hq. apply runs_call. cbn [gets fst snd].
  assert (forallb (λ i, mem (machine s) (p + i) =? f i) (seqZ from (to - from)) = true) as ->; [|done].
  apply forallb_forall. intros i Hi%list_elem_of_In. apply elem_of_seqZ in Hi. apply Z.eqb_eq, Hm. lia.
Qed.
End runs.

(** ** Programs with one handle *)

Section held.
Context {P : Platform} (s0 : RuntimeImpl) (jobs : list (list (AllocationRequest * Z))) (hd : HostDomain).
Context (Hjobs : traffic_ok s0 jobs) (Hhost : domain s0 MemoryDomain.HOST = Some (host_domain hd)).
Implicit Types (s : RuntimeImpl) (ws : list Worker).
Abbreviation booked s ws := (books s0 (length jobs) (s, ws)).

(** The [i]-th worker holds [h], to which the program has [d] further references. *)
Record held ws (i : nat) j rest s h c size p d : Prop := {
  he_ready : ready s h c size p (1 + d);
  he_worker : ws !! i = Some (mkWorker (Held h) j rest);
  he_books : ∃ s1, booked s1 ws ∧ touched c d s1 s }.

Lemma held_valid ws i j rest s h c size p d : held ws i j rest s h c size p d → h_valid h = true.
Proof. by intros [[[_ ?] _ _ _ _] _ _]. Qed.
Lemma held_calm ws i j rest s s' h c size p d e d' :
  held ws i j rest s h c size p d → calm c e s s' → d' = d + e → held ws i j rest s' h c size p d'.
Proof.
  intros [Hr Hw (s1 & Hb & Ht)] Hc ->. constructor; [|done|].
  - rewrite Z.add_assoc. by eapply ready_calm.
  - exists s1. split; [done|]. eapply touched_trans; [done|]. apply Hc.
Qed.
Lemma held_write ws i j rest s s' h c size p d :
  held ws i j rest s h c size p d → touched c 0 s s' → ready s' h c size p (1 + d) → held ws i j rest s' h c size p d.
Proof.
  intros [Hr Hw (s1 & Hb & Ht)] Hc Hr'. constructor; [done|done|]. exists s1. split; [done|].
  replace d with (d + 0) by lia. by eapply touched_trans.
Qed.
Lemma booked_host s ws : booked s ws → domain s MemoryDomain.HOST = Some (host_domain hd) ∧ domains_ok s.
Proof.
  intros Hb. pose proof (ro_backends _ _ (bk_runs _ _ _ Hb)) as Hbk. cbn in Hbk.
  split; [by rewrite (domain_backends s0)|]. apply (domains_ok_same s0); [done|]. apply (constructed_domains_ok _ (tk_domains _ _ Hjobs)).
Qed.
Lemma booked_allocate ws i req byte j rest s r s' :
  booked s ws → ws !! i = Some (mkWorker Idle j ((req, byte) :: rest)) → Runtime_allocate true req s = (r, s') →
  booked s' (<[i := mkWorker (handed (r, s')).1 (req, byte) rest]> ws).
Proof.
  intros Hb Hi Hrun. pose proof (solo_allocate req byte j rest s ws i Hi) as Ht. cbv zeta in Ht.
  rewrite Hrun in Ht. apply (books_steps s0 jobs Hjobs _ _ Hb). by destruct r.
Qed.
Lemma held_allocate ws i req byte j rest s h s' :
  booked s ws → ws !! i = Some (mkWorker Idle j ((req, byte) :: rest)) → host_unpooled req →
  Runtime_allocate true req s = (Ok h, s') →
  ∃ c p, held (<[i := mkWorker (Held h) (req, byte) rest]> ws) i (req, byte) rest s' h c (req_size req) p 0
         ∧ ∃ al, validate_request s req = Ok (al, rec_committed (rec (ctl_at s' c))).
Proof.
  intros Hb Hi Hu Hrun. pose proof (booked_allocate ws i req byte j rest s _ s' Hb Hi Hrun) as Hb'.
  cbn [handed fst] in Hb'. destruct (booked_host _ _ Hb) as [Hd Hok]. destruct (booked_host _ _ Hb') as [Hd' _].
  destruct (ready_allocate req s h s' hd Hu Hok Hd Hd' Hrun) as (c & p & Hr & _ & Hv).
  exists c, p. split; [|done]. constructor; [done| |].
  - apply list_lookup_insert_eq. by eapply lookup_lt_Some.
  - exists s'. split; [done|]. by apply quiet_touched.
Qed.
(** Releasing the handle: the books close, and the handle is empty. *)
Lemma booked_release ws i req byte rest s1 s h c :
  booked s1 ws → ws !! i = Some (mkWorker (Held h) (req, byte) rest) → h_ctl h = Some c → touched c 0 s1 s →
  booked (handle_release h s).2 (<[i := mkWorker Idle (req, byte) rest]> ws).
Proof.
  intros Hb Hw Hc Ht.
  pose proof (books_touched s0 jobs Hjobs s1 s ws i h c _ _ Hb Hw Hc Ht) as Hb'.
  pose proof (lookup_lt_Some _ _ _ Hw) as Hlt.
  pose proof (solo_release req byte rest h s (<[i := mkWorker (Unhand h) (req, byte) rest]> ws) i) as Hs.
  rewrite list_insert_insert_eq in Hs. apply (books_steps s0 jobs Hjobs _ _ Hb'), Hs. by apply list_lookup_insert_eq.
Qed.
Lemma handle_release_empty h c s : h_ctl h = Some c → h_valid h = true →
  h_ctl (handle_release h s).1.2 = None ∧ h_valid (handle_release h s).1.2 = false.
Proof. intros Hc Hv. unfold handle_release. rewrite Hc, Hv. cbn [negb]. by rewrite bind_run. Qed.

(** The rules for allocating and releasing. *)
Lemma runs_hold req byte j rest ws (i : nat) (q : Result nat → Main Z) s ls out Q :
  booked s ws → ws !! i = Some (mkWorker Idle j ((req, byte) :: rest)) → host_unpooled req →
  (∀ h s' c p, held (<[i := mkWorker (Held h) (req, byte) rest]> ws) i (req, byte) rest s' h c (req_size req) p 0 →
     Runtime_allocate true req s = (Ok h, s') →
     (∃ al, validate_request s req = Ok (al, rec_committed (rec (ctl_at s' c)))) →
     runs (q (Ok (length ls))) (mkProcess s' (ls ++ [THandle h]) out) Q) →
  (∀ e s', booked s' (<[i := mkWorker Stopped (req, byte) rest]> ws) → Runtime_allocate true req s = (Fail e, s') →
     runs (q (Fail e)) (mkProcess s' ls out) Q) →
  runs (main_bind (allocate req) q) (mkProcess s ls out) Q.
Proof.
  intros Hb Hi Hu Hok Hfail. apply runs_allocate; [intros h s' Hrun|intros e s' Hrun].
  - destruct (held_allocate ws i req byte j rest s h s' Hb Hi Hu Hrun) as (c & p & Hh & Hv). by eapply Hok.
  - apply Hfail; [|done]. by apply (booked_allocate ws i req byte j rest s (Fail e) s').
Qed.
Lemma runs_drop_booked v ws i req byte rest (q : unit → Main Z) s1 s ls out Q h c :
  ls !! v = Some (THandle h) → booked s1 ws → ws !! i = Some (mkWorker (Held h) (req, byte) rest) →
  h_ctl h = Some c → h_valid h = true → touched c 0 s1 s →
  (∀ h', h_ctl h' = None → h_valid h' = false →
     booked (handle_release h s).2 (<[i := mkWorker Idle (req, byte) rest]> ws) →
     runs (q tt) (mkProcess (handle_release h s).2 (<[v := THandle h']> ls) out) Q) →
  runs (main_bind (release v) q) (mkProcess s ls out) Q.
Proof.
  intros Hv Hb Hw Hc Hval Ht Hq. destruct (handle_release_empty h c s Hc Hval) as [He1 He2].
  apply (runs_release v (THandle h)); [done|]. cbn [release_token]. rewrite bind_run. cbn [ret fst snd].
  apply Hq; [done..|]. by eapply booked_release.
Qed.
Lemma runs_drop v ws i req byte rest (q : unit → Main Z) s ls out Q h c size p :
  ls !! v = Some (THandle h) → held ws i (req, byte) rest s h c size p 0 →
  (∀ h', h_ctl h' = None → h_valid h' = false →
     booked (handle_release h s).2 (<[i := mkWorker Idle (req, byte) rest]> ws) →
     runs (q tt) (mkProcess (handle_release h s).2 (<[v := THandle h']> ls) out) Q) →
  runs (main_bind (release v) q) (mkProcess s ls out) Q.
Proof.
  intros Hv [[[Hc Hval] _ _ _ _] Hw (s1 & Hb & Ht)]. by apply (runs_drop_booked v ws i req byte rest q s1 s ls out Q h c).
Qed.
(** When all workers are done, the registry is the one the program started with. *)
Lemma booked_done s ws : booked s ws → all_done (s, ws) = true → balanced s0 s.
Proof. apply (books_balanced s0 jobs (s, ws)). Qed.
End held.

Section stats.
Context {P : Platform}.
Lemma stats_ok s : ∃ v, (Runtime_stats true s).1 = Ok v ∧ st_counter v = telemetry s
  ∧ quiet s (Runtime_stats true s).2 ∧ same_ledger s (Runtime_stats true s).2.
Proof.
  pose proof (quiet_runtime_stats s : quiet s (Runtime_stats true s).2) as Hq.
  assert (same_ledger s (Runtime_stats true s).2) as Hl.
  { assert (preserves same_ledger (Runtime_stats true)) as Hp; [|by apply Hp].
    unfold Runtime_stats, guarded, runtime_stats, domains_info, domain_entry. preserves_tac. }
  revert Hq Hl. unfold Runtime_stats, guarded, runtime_stats. rewrite bind_run. cbn [get fst snd]. cbv zeta.
  rewrite bind_run. cbn [ret fst snd]. intros Hq Hl. eexists. by split_and!.
Qed.
Lemma runs_get_stats (q : Result RuntimeStats → Main Z) s ls out Q :
  (∀ v s', st_counter v = telemetry s → quiet s s' → same_ledger s s' →
     runs (q (Ok v)) (mkProcess s' ls out) Q) →
  runs (main_bind (on_runtime (Runtime_stats true)) q) (mkProcess s ls out) Q.
Proof.
  intros Hq. apply runs_call. destruct (stats_ok s) as (v & -> & Hv & Hqu & Hl). by apply Hq.
Qed.
Lemma traffic_ok_quiet s s' jobs : quiet s s' → same_ledger s s' → traffic_ok s jobs → traffic_ok s' jobs.
Proof.
  intros [[] Hc Hr] Hl. apply traffic_ok_same; try done. intros ns d. by rewrite Hl.
Qed.
Lemma gone_buffers s : registry_ s = ∅ → telemetry s active_buffers = 0.
Proof. intros Hr. cbn. by rewrite Hr. Qed.
End stats.

(** What a program prints at the end, and the code it returns. *)
Definition passed (name : string) (code : Z) (lines : list string) : Prop :=
  code = 0 ∧ last lines = Some ("[" +:+ name +:+ "] PASS").
Definition refused (name : string) (code : Z) (lines : list string) : Prop :=
  code = 1 ∧ ∃ what e, last lines = Some ("[" +:+ name +:+ "] " +:+ what +:+ "allocate failed: " +:+ e).
Definition passes_or_refused `{Platform} (name : string) (code : Z) (x : Process) : Prop :=
  passed name code (printed x) ∨ refused name code (printed x).

(** The program has taken [d] references to its handle. *)
Ltac calm_to d :=
  match goal with
  | Hh : held _ _ _ _ _ _ _ _ _ _ _ _, Hcalm : calm _ _ _ _ |- _ =>
      eapply (held_calm _ _ _ _ _ _ _ _ _ _ _ _ _ _ d) in Hh; [clear Hcalm|exact Hcalm|done]
  end; cbn [app length].
Ltac close_pass := left; split; [done|]; cbn [printed]; by rewrite last_snoc.
Ltac close_refused what := right; split; [done|]; exists what; eexists; cbn [printed]; by rewrite last_snoc.

Section examples.
Context {P : Platform} (seed : Z) (m : Machine).
Let fresh : RuntimeImpl := (RuntimeImpl_new RuntimeConfig_default seed m).1.

(** The requests of the programs are traffic on a fresh runtime. *)
Lemma one_worker req js : host_unpooled req → (∀ j, j ∈ js → j = (req, 0)) → (length js ≤ 2)%nat →
  traffic_ok fresh [js].
Proof.
  intros Hu Hj Hn. apply fresh_traffic_ok; [|done|].
  - intros l j ->%list_elem_of_singleton ->%Hj. exact Hu.
  - unfold sum_list, two64. cbn. lia.
Qed.
Lemma views_runs : runs views (mkProcess fresh [] []) (passes_or_refused "views").
Proof.
  destruct (fresh_host seed m) as [hd Hhost]. fold fresh in Hhost.
  set (req := host_request views_total).
  assert (traffic_ok fresh [[(req, 0)]]) as Hok
    by (apply (one_worker req); [by constructor|set_solver|cbn; lia]).
  unfold views. fold req.
  eapply (runs_hold fresh [[(req, 0)]] hd Hok Hhost req 0 _ [] _ 0%nat); [apply (books_start _ _ Hok)|done|by constructor|..];
    [intros h s1 c p Hh _ _|intros e s1 _ _]; cbn [app length].
  2: { apply runs_must_fail. close_refused ""%string. }
  apply runs_must. eapply runs_ask; [reflexivity|]. apply runs_print.
  eapply runs_view; [reflexivity|apply Hh|word..|]. intros va s2 Hpa Hca Hcalm. calm_to 1.
  eapply runs_view; [reflexivity|apply Hh|word..|]. intros vb s3 Hpb Hcb Hcalm. calm_to 2.
  apply runs_check; [done|]. cbn [value_or]. do 2 (eapply runs_view_data; [reflexivity|]).
  rewrite Hpa, Hpb. eapply runs_write; [apply Hh|]. intros s4 Ht Hr Hmem.
  eapply held_write in Hh; [|exact Ht|exact Hr]. clear Ht Hr.
  eapply runs_map; [reflexivity|apply Hh|]. intros vm s5 Hpm Hcm Hcalm. cbn [app length].
  pose proof (ca_machine _ _ _ _ Hcalm) as Hsame. calm_to 3.
  apply runs_must. eapply runs_map_data; [reflexivity|]. rewrite Hpm.
  assert (∀ a, mem (machine s5) a = if in_range p 2048 a then 165 else if in_range (p + 2048) 2048 a then 90
                                    else mem (machine s3) a) as Hbytes.
  { intros a. rewrite Hsame, Hmem. rewrite Z.add_0_r. by apply fill_halves. }
  apply runs_bytes_are.
  { intros i Hi. unfold views_half in *. by rewrite Hbytes, (proj2 (in_range_spec _ _ _)) by lia. }
  apply runs_bytes_are.
  { intros i Hi. unfold views_half, views_total in *.
    by rewrite Hbytes, (proj2 (in_range_false _ _ _)), (proj2 (in_range_spec _ _ _)) by lia. }
  eapply runs_unmap; [reflexivity|exact Hcm|apply Hh|done|]. intros t s6 Hcalm. cbn [list_insert]. calm_to 2. do 2 apply runs_print. apply runs_check; [done|].
  do 2 (eapply runs_local; [reflexivity|]). apply runs_print.
  eapply runs_unview; [reflexivity|exact Hca|apply Hh|done|]. intros ta s7 Hcalm. calm_to 1.
  eapply runs_unview; [reflexivity|exact Hcb|apply Hh|done|]. intros tb s8 Hcalm. calm_to 0.
  eapply runs_view_refused; [reflexivity|apply Hh|word..|]. intros e. apply runs_print. apply runs_check; [done|].
  eapply runs_release; [reflexivity|]. apply runs_print, runs_return. close_pass.
Qed.
Lemma stale_handle_runs : runs stale_handle (mkProcess fresh [] []) (passes_or_refused "stale_handle").
Proof.
  destruct (fresh_host seed m) as [hd Hhost]. fold fresh in Hhost.
  set (req := host_request 4096). set (jobs := [[(req, 0); (req, 0)]]).
  assert (traffic_ok fresh jobs) as Hok by (apply (one_worker req); [by constructor|set_solver|cbn; lia]).
  unfold stale_handle. fold req. cbv zeta.
  eapply (runs_hold fresh jobs hd Hok Hhost req 0 _ [(req, 0)] _ 0%nat);
    [apply (books_start _ _ Hok)|done|by constructor|..];
    [intros h s1 c p Hh _ _|intros e s1 _ _]; cbn [app length].
  2: { apply runs_must_fail. close_refused ""%string. }
  apply runs_must. eapply runs_handle; [reflexivity|]. apply runs_print.
  eapply (runs_drop fresh jobs Hok); [reflexivity|exact Hh|]. intros h0 Hc0 Hv0 Hb. clear Hh.
  apply runs_assoc. eapply runs_handle; [reflexivity|]. apply runs_pure, runs_check; [by rewrite Hv0|].
  eapply runs_map_empty; [reflexivity|done|]. intros e1. apply runs_print, runs_check; [done|].
  eapply runs_view_empty; [reflexivity|done|]. intros e2. apply runs_print, runs_check; [done|].
  eapply (runs_hold fresh jobs hd Hok Hhost req 0 _ [] _ 0%nat); [exact Hb|done|by constructor|..];
    [intros h2 s3 c2 p2 Hh _ _|intros e s3 _ _]; cbn [app length list_insert].
  2: { apply runs_must_fail. close_refused "second "%string. }
  apply runs_must. eapply runs_move; [reflexivity|]. cbn [app length list_insert].
  apply runs_assoc. eapply runs_handle; [reflexivity|]. apply runs_pure, runs_assoc.
  eapply runs_handle; [reflexivity|]. apply runs_pure, runs_print.
  apply runs_check; [by rewrite (held_valid _ _ _ _ _ _ _ _ _ _ _ _ Hh)|].
  eapply runs_map_empty; [reflexivity|done|]. intros e3. apply runs_print, runs_check; [done|].
  eapply runs_release; [reflexivity|]. apply runs_print, runs_return. close_pass.
Qed.
Lemma basic_host_runs : runs basic_host (mkProcess fresh [] []) (passes_or_refused "basic_host").
Proof.
  destruct (fresh_host seed m) as [hd Hhost]. fold fresh in Hhost.
  set (req := basic_host_request). set (jobs := [[(req, 0)]]).
  assert (traffic_ok fresh jobs) as Hok by (apply (one_worker req); [by constructor|set_solver|cbn; lia]).
  unfold basic_host. fold req. apply runs_get_stats. intros v0 s0 _ Hq0 Hl0.
  apply (traffic_ok_quiet fresh s0) in Hok; [|done..].
  rewrite <- (quiet_domain _ _ _ Hq0) in Hhost.
  assert (registry_ s0 = ∅) as Hreg by (rewrite (q_registry _ _ Hq0); apply fresh_cells).
  apply runs_check; [done|]. apply runs_print.
  eapply (runs_hold s0 jobs hd Hok Hhost req 0 _ [] _ 0%nat); [apply (books_start _ _ Hok)|done|by constructor|..];
    [intros h s1 c p Hh _ _|intros e s1 _ _]; cbn [app length].
  2: { apply runs_must_fail. close_refused ""%string. }
  apply runs_must. eapply runs_ask; [reflexivity|].
  rewrite (ready_handle_size s1 h c (req_size req) p 1) by apply Hh.
  assert (∃ n, n = req_size req ∧ is_u64 n ∧ 0 < n ∧ n < two64) as (n & Hn & Hn64 & Hn0 & Hn1)
    by (by eexists; split_and!; [done|word..]).
  rewrite <- Hn in *. clear Hn.
  eapply runs_ask; [reflexivity|]. apply runs_print.
  eapply runs_map; [reflexivity|apply Hh|]. intros bm s2 Hpm Hcm Hcalm. calm_to 1.
  apply runs_must. eapply runs_map_data; [reflexivity|]. rewrite Hpm.
  eapply runs_write; [apply Hh|]. intros s3 Ht Hr Hmem. eapply held_write in Hh; [|exact Ht|exact Hr]. clear Ht Hr.
  eapply runs_unmap; [reflexivity|exact Hcm|apply Hh|done|]. intros t s4 Hcalm. cbn [list_insert].
  pose proof (ca_machine _ _ _ _ Hcalm) as Hm4. calm_to 0.
  eapply runs_view; [reflexivity|apply Hh|done || lia..|]. intros v s5 Hpv Hcv Hcalm.
  pose proof (ca_machine _ _ _ _ Hcalm) as Hm5. calm_to 1.
  apply runs_must. eapply runs_view_data; [reflexivity|]. rewrite Hpv.
  apply runs_bytes_are.
  { intros i Hi. rewrite Hm5, Hm4, Hmem, fill_lookup, (proj2 (in_range_spec _ _ _)) by lia. f_equal. lia. }
  eapply runs_unview; [reflexivity|exact Hcv|apply Hh|done|]. intros t' s6 Hcalm. calm_to 0.
  apply runs_print, runs_check; [done|].
  eapply runs_checksum; [reflexivity|apply Hh|]. intros s7 Hcalm. pose proof (ca_machine _ _ _ _ Hcalm) as Hm7. calm_to 0.
  eapply runs_checksum; [reflexivity|apply Hh|]. intros s8 Hcalm. calm_to 0. rewrite Hm7.
  apply runs_check; [done|]. cbn [value_or]. apply runs_check; [apply Z.eqb_refl|]. apply runs_print.
  eapply runs_verify; [reflexivity|apply Hh|]. intros s9 Hcalm. calm_to 0.
  apply runs_print, runs_check; [done|].
  eapply (runs_drop s0 jobs Hok); [reflexivity|exact Hh|]. intros h' _ _ Hb.
  apply runs_get_stats. intros v1 s10 Hv1 _ _. apply runs_check; [done|]. cbv zeta. cbn [value_or]. rewrite Hv1.
  apply runs_print, runs_check.
  { rewrite gone_buffers; [done|]. by rewrite (ba_registry _ _ (booked_done _ _ _ _ Hb eq_refl)). }
  apply runs_print, runs_return. close_pass.
Qed.
End examples.

(** * Properties *)

Section theorems.
Context {P : Platform}.

(** What the process reports when the program is run to its end. *)
Definition reports (name : string) (body : Main Z) (seed : Z) (m : Machine) : Prop :=
  let x := run_main body seed m in passed name x.1.1 x.1.2 ∨ refused name x.1.1 x.1.2.
Lemma runs_reports name body seed m :
  runs body (mkProcess (RuntimeImpl_new RuntimeConfig_default seed m).1 [] []) (passes_or_refused name) →
  reports name body seed m.
Proof. done. Qed.

(** C13: the examples on host memory pass. examples/basic_host.cpp, views.cpp and
    stale_handle.cpp end, on every machine, in their PASS line with exit code 0, or in the
    line that an allocation failed with exit code 1: every pattern they write is read back
    through maps and views, the two halves of a buffer do not overlap, out-of-range views
    and uses of a released or moved-from handle are refused, checksums agree, and no
    buffer is active when they are done. *)
Theorem host_examples_pass (seed : Z) (m : Machine) :
  reports "basic_host" basic_host seed m ∧ reports "views" views seed m ∧ reports "stale_handle" stale_handle seed m.
Proof.
  split_and!; apply runs_reports; [apply basic_host_runs|apply views_runs|apply stale_handle_runs].
Qed.
End theorems.

Lemma host_examples_pass_witness :
  reports "stale_handle" stale_handle 7 sim_machine
  ∧ passed "stale_handle" (run_main stale_handle 7 sim_machine).1.1 (run_main stale_handle 7 sim_machine).1.2.
Proof. split; [apply (host_examples_pass 7 sim_machine)|split; by vm_compute]. Defined.
