(* ===== verification/Quotas.v ===== *)
(** examples/quota.cpp passes: with room for two requests, the second one is refused
    because of the quota of its namespace, and for no other reason. *)
From S2P Require Import Prelude Types CheckedMath Platform HostBackend Domain State Ledger Pool Lifecycle Runtime Handle Facade Frames Allocation Charges Release Telemetry Clients Shell Session Traffic Balance Books Examples Solo Passing Sim SimRuntime.

(** ** Counting rejections *)

Section rejections.
Context {P : Platform}.
Implicit Types s : RuntimeImpl.

(** No request is rejected for its quota. *)
Definition unrejected s s' : Prop := telem_ s' quota_rejections = telem_ s quota_rejections.
#[export] Instance unrejected_preorder : PreOrder unrejected.
Proof. split; [done|]. intros s1 s2 s3 H1 H2. unfold unrejected in *. congruence. Qed.
Lemma unrejected_modify f : (∀ s, telem_ (f s) = telem_ s) → preserves unrejected (modify f).
Proof. intros Hf s. unfold unrejected. cbn. by rewrite Hf. Qed.
Lemma unrejected_on_machine {A} (f : M Machine A) : preserves unrejected (on_machine f).
Proof. intros s. by rewrite on_machine_run. Qed.
Lemma unrejected_tick_by c n : c ≠ quota_rejections → preserves unrejected (tick_by c n).
Proof.
  intros Hc s. unfold unrejected. cbn. unfold set_counter. by rewrite decide_False by congruence.
Qed.
Lemma unrejected_tick c : c ≠ quota_rejections → preserves unrejected (tick c).
Proof. apply unrejected_tick_by. Qed.
Lemma unrejected_untick c : c ≠ quota_rejections → preserves unrejected (untick c).
Proof.
  intros Hc s. unfold untick. cbn. destruct (0 <? _); [|done]. unfold unrejected. cbn. unfold set_counter.
  by rewrite decide_False by congruence.
Qed.
Lemma unrejected_note e d : preserves unrejected (note e d).
Proof. by intros s. Qed.
Lemma unrejected_upd_ctl c f : preserves unrejected (upd_ctl c f).
Proof. by apply unrejected_modify. Qed.
Lemma unrejected_modify_ledger f : preserves unrejected (modify_ledger f).
Proof. by apply unrejected_modify. Qed.
Lemma unrejected_next_id : preserves unrejected next_id.
Proof. by intros s. Qed.
#[local] Hint Resolve unrejected_on_machine unrejected_note unrejected_upd_ctl unrejected_modify_ledger
  unrejected_next_id : frames.
Ltac unrejected_tac :=
  repeat first
    [ progress cbv zeta
    | apply unrejected_tick_by; discriminate | apply unrejected_tick; discriminate
    | apply unrejected_untick; discriminate
    | preserves_step
    | apply unrejected_modify; done
    | solve [eauto 2 with frames] ].

Lemma unrejected_cap_for d : preserves unrejected (cap_for d).
Proof. unfold cap_for, capacity_for. unrejected_tac. Qed.
Lemma unrejected_allocate_reserved dom req al n : preserves unrejected (allocate_reserved dom req al n).
Proof.
  unfold allocate_reserved, take_from_pool, fresh_backing, zero_backing, pool_take, commit_amount,
    unreserve_amount, checkout_amount, free_accounting, release_count, discard_with, now_epoch_ms.
  unrejected_tac.
Qed.
Lemma unrejected_release h : preserves unrejected (handle_release h).
Proof.
  unfold handle_release, drop_ref, finalize, finalize_record, dispose_backing, zero_on_release, pool_put,
    release_amount, free_accounting, release_count, discard_backing, discard_with.
  unrejected_tac.
Qed.
(** A reservation that is granted is not rejected. *)
Lemma granted_amount ns d n s : is_ok (reserve_amount ns d n s).1 = true → unrejected s (reserve_amount ns d n s).2.
Proof.
  unfold reserve_amount. destruct (n =? 0); [done|]. rewrite !bind_run. cbn [get fst snd]. cbv zeta.
  pose proof (unrejected_cap_for d s) as Hc. set (s1 := (cap_for d s).2) in *.
  destruct (_ && _); [done|]. destruct (_ && _); rewrite bind_run; [done|]. intros _. exact Hc.
Qed.
Lemma granted_count ns s : is_ok (reserve_count ns s).1 = true → unrejected s (reserve_count ns s).2.
Proof.
  unfold reserve_count. rewrite bind_run. cbn [get fst snd]. cbv zeta. by destruct (_ && _); rewrite bind_run.
Qed.
Lemma granted_allocate req s :
  is_ok (Runtime_allocate true req s).1 = true → unrejected s (Runtime_allocate true req s).2.
Proof.
  unfold Runtime_allocate, guarded. rewrite bind_run. cbn [get fst snd]. destruct (closed_ s); [done|].
  rewrite bind_run. unfold allocate_record. rewrite bind_run. cbn [get fst snd].
  destruct (closed_ s); [done|]. destruct (validate_request s req) as [[al n]|e]; [|by rewrite bind_run].
  rewrite bind_run. pose proof (granted_count (req_ns req) s) as H1.
  destruct (reserve_count _ s) as [[u|e] s1]; cbn [fst snd] in *; [|by rewrite bind_run].
  rewrite bind_run. pose proof (granted_amount (req_ns req) (req_domain req) n s1) as H2.
  destruct (reserve_amount _ _ _ s1) as [[u2|e] s2]; cbn [fst snd] in *; [|by rewrite !bind_run].
  destruct (domain s _) as [dom|]; [|done].
  pose proof (unrejected_allocate_reserved dom req al n s2) as H3.
  destruct (allocate_reserved dom req al n s2) as [[r|e] s3]; cbn [fst snd] in *; [|done].
  intros _. transitivity s3; [transitivity s2; [transitivity s1|]; auto|].
  match goal with |- unrejected _ (?m s3).2 => assert (preserves unrejected m) as Hp; [|apply Hp] end.
  unfold register_control, new_handle, retain. unrejected_tac.
Qed.

(** ** The refusal *)

(** The capacity does not depend on the ledger. *)
Lemma cap_for_ledger d s l : (cap_for d (set_ledger l s)).1 = (cap_for d s).1.
Proof.
  unfold cap_for, capacity_for. rewrite !bind_run. cbn [get fst snd].
  change (domain (set_ledger l s) d) with (domain s d). destruct (domain s d) as [dom|]; [|done].
  rewrite !bind_run, !on_machine_run. change (machine (set_ledger l s)) with (machine s). cbn [fst snd].
  destruct (IDomain.capacity dom (machine s)) as [[ci|e] m]; [|done].
  change (cfg (set_ledger l s)) with (cfg s). by destruct (_ =? 0).
Qed.
(** A request that passes the validation and the capacity check, but not the quota. *)
Lemma over_quota req s al n :
  closed_ s = false → validate_request s req = Ok (al, n) → n ≠ 0 →
  is_ok (reserve_count (req_ns req) s).1 = true →
  let l := ledger s in
  let total := u64 (committed l (req_ns req) (req_domain req) + reserved l (req_ns req) (req_domain req) + n) in
  total ≤ (cap_for (req_domain req) s).1 →
  0 < domain_quota l (req_ns req) (req_domain req) < total →
  ∃ e s', Runtime_allocate true req s = (Fail e, s') ∧ code e = ErrorCode.quota_exceeded
    ∧ telem_ s' quota_rejections = u64 (telem_ s quota_rejections + 1).
Proof.
  intros Hcl Hv Hn Hrc l total Hcap Hq. unfold Runtime_allocate, guarded. rewrite bind_run. cbn [get fst snd].
  rewrite Hcl, bind_run. unfold allocate_record. rewrite bind_run. cbn [get fst snd]. rewrite Hcl, Hv, bind_run.
  pose proof (granted_count (req_ns req) s Hrc) as H1.
  assert (∃ v, (reserve_count (req_ns req) s).2 = set_ledger (set_allocs (req_ns req) v l) s) as (v & Hs1).
  { revert Hrc. unfold reserve_count. rewrite bind_run. cbn [get fst snd]. cbv zeta.
    destruct (_ && _); rewrite bind_run; [done|]. intros _. by eexists. }
  destruct (reserve_count (req_ns req) s) as [[u|e] s1]; [|done]. cbn [fst snd] in *. subst s1.
  set (s1 := set_ledger _ s) in *. rewrite bind_run.
  assert ((reserve_amount (req_ns req) (req_domain req) n s1).1 = fail ErrorCode.quota_exceeded "reserve: quota exceeded"
    ∧ telem_ (reserve_amount (req_ns req) (req_domain req) n s1).2 quota_rejections
      = u64 (telem_ s quota_rejections + 1)) as [Hr Ht].
  { unfold reserve_amount. rewrite (proj2 (Z.eqb_neq n 0)), !bind_run by done. cbn [get fst snd]. cbv zeta.
    pose proof (unrejected_cap_for (req_domain req) s1) as Hu. pose proof (ledger_cap_for (req_domain req) s1) as Hl.
    assert ((cap_for (req_domain req) s1).1 = (cap_for (req_domain req) s).1) as -> by by apply cap_for_ledger.
    set (s2 := (cap_for (req_domain req) s1).2) in *. unfold same_ledger in Hl. rewrite Hl.
    cbn [s1 ledger set_ledger]. rewrite committed_set_allocs, reserved_set_allocs.
    change (domain_quota (set_allocs (req_ns req) v l)) with (domain_quota l). fold total.
    rewrite (proj2 (Z.ltb_ge _ _)), andb_false_r by done.
    rewrite (proj2 (Z.eqb_neq _ 0)), (proj2 (Z.ltb_lt _ total)) by lia. cbn [negb andb]. rewrite bind_run.
    cbn [ret fst snd]. split; [done|]. cbn. unfold set_counter. rewrite decide_True by done. unfold unrejected in Hu.
    by rewrite Hu. }
  destruct (reserve_amount _ _ n s1) as [r s2]. cbn [fst snd] in *. subst r. unfold fail.
  assert (∀ A (a : A), preserves unrejected (release_count (req_ns req) ;;; tick failed_allocations ;;;
    tick reservation_failures ;;; ret a)) as Hp by (intros; unfold release_count; unrejected_tac).
  specialize (Hp _ (rethrow (mkError ErrorCode.quota_exceeded "reserve: quota exceeded") : Result BufferRecord) s2).
  rewrite !bind_run in *. cbn [ret fst snd rethrow] in *. eexists _, _. split; [done|]. split; [done|].
  unfold unrejected in Hp. by rewrite Hp.
Qed.
End rejections.

(** ** The program *)

Section quota.
Context {P : Platform}.
Implicit Types s : RuntimeImpl.

#[local] Hint Resolve tidy_allocate_record tidy_register_control tidy_new_handle tidy_drop_ref : frames.
Lemma tidy_runtime_allocate req : preserves tidy (Runtime_allocate true req).
Proof. unfold Runtime_allocate, guarded. tidy_tac. Qed.
Lemma tidy_release h : preserves tidy (handle_release h).
Proof. unfold handle_release. tidy_tac. Qed.
Lemma tidy_stats : preserves tidy (Runtime_stats true).
Proof. unfold Runtime_stats, guarded, runtime_stats, domains_info, domain_entry. tidy_tac. Qed.
(** The page of the program, on an attached host domain. *)
Lemma validate_quota_request s hd : domain s MemoryDomain.HOST = Some (host_domain hd) →
  validate_request s quota_request = Ok (64, 4096).
Proof. intros Hd. unfold validate_request. change (req_domain quota_request) with MemoryDomain.HOST. by rewrite Hd. Qed.
(** The host domain reports its size, whatever the system does. *)
Lemma cap_for_host s s' hd : domain s MemoryDomain.HOST = Some (host_domain hd) →
  domain s' MemoryDomain.HOST = Some (host_domain hd) → cfg s' = cfg s →
  (cap_for MemoryDomain.HOST s').1 = (cap_for MemoryDomain.HOST s).1.
Proof.
  intros Hd Hd' Hc. unfold cap_for, capacity_for. rewrite !bind_run. cbn [get fst snd]. rewrite Hd, Hd'.
  rewrite !bind_run, !on_machine_run. cbn [host_domain IDomain.capacity host_capacity ret fst snd]. rewrite Hc.
  by destruct (config_cap (cfg s) MemoryDomain.HOST =? 0).
Qed.

Context (seed : Z) (m : Machine).
Let fresh : RuntimeImpl := (RuntimeImpl_new RuntimeConfig_default seed m).1.
Let jobs : list (list (AllocationRequest * Z)) := replicate 2 [(quota_request, 0)].
Lemma quota_traffic :
  let s0 := (Runtime_create_namespace true quota_namespace fresh).2 in
  traffic_ok s0 jobs ∧ cfg s0 = cfg fresh ∧ closed_ s0 = false ∧ machine s0 = machine fresh
  ∧ domain s0 MemoryDomain.HOST = domain fresh MemoryDomain.HOST ∧ nss_ (ledger s0) !! 2 = Some quota_namespace
  ∧ registry_ s0 = ∅ ∧ telem_ s0 = (λ _, 0)
  ∧ ∀ ns d, reserved (ledger s0) ns d = 0 ∧ committed (ledger s0) ns d = 0 ∧ allocs (ledger s0) ns = 0.
Proof.
  cbv zeta. assert (traffic_ok fresh jobs) as Hok.
  { apply fresh_traffic_ok; [|done|by vm_compute].
    intros l j [-> _]%elem_of_replicate ->%list_elem_of_singleton. by constructor. }
  pose proof (fresh_cells seed m : let s := fresh in _) as (F1 & F2 & F3 & F4 & F5 & F6).
  assert (nss_ (ledger fresh) = {[kDefaultNamespace := def_namespace]}) as Hns.
  { unfold fresh, RuntimeImpl_new. cbv zeta. by rewrite !bind_run. }
  unfold Runtime_create_namespace, guarded, create_namespace. rewrite bind_run. cbn [ret fst snd].
  split_and!; try done.
  - by apply (traffic_ok_same fresh).
  - cbn. rewrite Hns, map_size_singleton. apply lookup_insert_eq.
  - intros ns d. by destruct (F6 ns d) as (? & ? & ? & ?).
Qed.

(** When the first request is held, a second one exceeds the quota. *)
Lemma second_refused s0 s1 n h c hd j :
  domain s0 MemoryDomain.HOST = Some (host_domain hd) → nss_ (ledger s0) !! 2 = Some quota_namespace →
  closed_ s0 = false → (∀ ns d, reserved (ledger s0) ns d = 0 ∧ committed (ledger s0) ns d = 0 ∧ allocs (ledger s0) ns = 0) →
  8192 ≤ (cap_for MemoryDomain.HOST s0).1 →
  books s0 n (s1, [mkWorker (Held h) (quota_request, 0) []; mkWorker Idle j [(quota_request, 0)]]) →
  h_ctl h = Some c → rec_committed (rec (ctl_at s1 c)) = 4096 →
  ∃ e s2, Runtime_allocate true quota_request s1 = (Fail e, s2) ∧ code e = ErrorCode.quota_exceeded
    ∧ telem_ s2 quota_rejections = u64 (telem_ s1 quota_rejections + 1).
Proof.
  intros Hd Hns Hcl Hl Hcap Hb Hc Hrec.
  pose proof (bk_runs _ _ _ Hb) as [R1 R2 R3 _ _]. cbn [fst] in *.
  assert (domain s1 MemoryDomain.HOST = Some (host_domain hd)) as Hd1 by (by rewrite (domain_backends s0)).
  pose proof (bk_nss _ _ _ Hb) as Hns1. cbn [fst] in Hns1.
  destruct (Hl 2 MemoryDomain.HOST) as (L1 & L2 & _).
  pose proof (bk_reserved _ _ _ Hb 2 MemoryDomain.HOST) as B1.
  pose proof (bk_committed _ _ _ Hb 2 MemoryDomain.HOST) as B2.
  cbn [fst snd sum_list] in B1, B2. unfold share in B1, B2. cbn in B1, B2. rewrite Hc in B1, B2.
  cbn in B1, B2. rewrite Hrec, L2 in B2. rewrite L1 in B1.
  assert (reserved (ledger s1) 2 MemoryDomain.HOST = 0) as E1 by (rewrite B1; repeat case_decide; done).
  assert (committed (ledger s1) 2 MemoryDomain.HOST = 4096) as E2 by (rewrite B2; repeat case_decide; done).
  clear B1 B2.
  assert (domain_quota (ledger s1) 2 MemoryDomain.HOST = 4096) as E3 by (unfold domain_quota; by rewrite Hns1, Hns).
  rewrite <- (cap_for_host s0 s1 hd Hd Hd1 R1) in Hcap.
  assert (u64 (4096 + 0 + 4096) = 8192) as Hw by done.
  apply (over_quota quota_request s1 64 4096);
    change (req_ns quota_request) with 2; change (req_domain quota_request) with MemoryDomain.HOST.
  - congruence.
  - by apply (validate_quota_request s1 hd).
  - done.
  - unfold reserve_count. rewrite bind_run. cbn [get fst snd]. cbv zeta. by rewrite Hns1, Hns.
  - by rewrite E1, E2, Hw.
  - by rewrite E1, E2, E3, Hw.
Qed.

Let s0 : RuntimeImpl := (Runtime_create_namespace true quota_namespace fresh).2.
Let first h : Worker := mkWorker (Held h) (quota_request, 0) [].
Let second : Worker := mkWorker Stopped (quota_request, 0) [].
(** The two allocations, up to a refusal of the first one. *)
Lemma quota_allocations h s1 : 8192 ≤ (cap_for MemoryDomain.HOST fresh).1 →
  Runtime_allocate true quota_request s0 = (Ok h, s1) →
  ∃ c e s2, Runtime_allocate true quota_request s1 = (Fail e, s2) ∧ code e = ErrorCode.quota_exceeded
    ∧ h_ctl h = Some c ∧ h_valid h = true ∧ books s0 (length jobs) (s2, [first h; second])
    ∧ telem_ s2 quota_rejections = 1 ∧ telem_ s2 host_bytes = 0.
Proof.
  intros Hcap Hrun. destruct (fresh_host seed m) as [hd Hhost]. fold fresh in Hhost.
  destruct quota_traffic as (Hok & Hcfg & Hcl & _ & Hd & Hns & _ & Ht & Hl). fold s0 in Hok, Hcfg, Hcl, Hd, Hns, Ht, Hl.
  rewrite Hhost in Hd. rewrite <- (cap_for_host fresh s0 hd Hhost Hd Hcfg) in Hcap.
  pose proof (books_start s0 jobs Hok) as Hb.
  destruct (held_allocate s0 jobs hd Hok Hd _ 0%nat quota_request 0 _ [] s0 h s1 Hb eq_refl) as (c & p & Hh & al & Hv);
    [by constructor|done|].
  rewrite (validate_quota_request s0 hd Hd) in Hv. injection Hv as _ Hrec. symmetry in Hrec.
  pose proof (booked_allocate s0 jobs Hok _ 0%nat quota_request 0 _ [] s0 _ s1 Hb eq_refl Hrun) as Hb1.
  pose proof (he_ready _ _ _ _ _ _ _ _ _ _ _ _ Hh) as Hr. clear Hh. destruct (rd_handle _ _ _ _ _ _ Hr) as [Hc Hval].
  destruct (second_refused s0 s1 _ h c hd _ Hd Hns Hcl Hl Hcap Hb1 Hc Hrec) as (e & s2 & Hrun2 & He & Hq).
  pose proof (booked_allocate s0 jobs Hok _ 1%nat quota_request 0 _ [] s1 _ s2 Hb1 eq_refl Hrun2) as Hb2.
  exists c, e, s2. split_and!; try done.
  - pose proof (granted_allocate quota_request s0) as U1. rewrite Hrun in U1. specialize (U1 eq_refl). cbn [snd] in U1.
    unfold unrejected in U1. by rewrite Hq, U1, Ht.
  - pose proof (tidy_runtime_allocate quota_request s0) as T1. rewrite Hrun in T1. cbn [snd] in T1.
    pose proof (tidy_runtime_allocate quota_request s1) as T2. rewrite Hrun2 in T2. cbn [snd] in T2.
    by rewrite (td_gauge _ _ T2), (td_gauge _ _ T1), Ht.
Qed.
Lemma quota_runs : 8192 ≤ (cap_for MemoryDomain.HOST fresh).1 →
  runs quota (mkProcess fresh [] []) (passes_or_refused "quota").
Proof.
  intros Hcap. destruct quota_traffic as (Hok & _ & _ & _ & _ & _ & Hreg & _ & Hl). fold s0 in Hok, Hreg, Hl. unfold quota.
  apply runs_call. unfold Runtime_create_namespace at 1, guarded at 1, create_namespace at 1. rewrite bind_run. cbn [ret fst].
  fold s0. apply runs_must, runs_allocate; [intros h s1 Hrun|intros e s1 Hrun].
  2: { apply runs_must_fail. close_refused "first "%string. }
  destruct (quota_allocations h s1 Hcap Hrun) as (c & e & s2 & Hrun2 & He & Hc & Hval & Hb2 & Hone & Hzero).
  apply runs_must. eapply runs_ask; [reflexivity|]. apply runs_print.
  apply runs_allocate; rewrite Hrun2; [by intros|]. intros e' s2' [= <- <-].
  apply runs_print, runs_check; [done|]. apply runs_check; [by cbn [error]; rewrite He|].
  eapply (runs_drop_booked s0 jobs Hok _ _ 0%nat quota_request 0);
    [reflexivity|exact Hb2|reflexivity|exact Hc|exact Hval|by apply quiet_touched|].
  intros h' _ _ Hb3. pose proof (booked_done _ _ _ _ Hb3 eq_refl) as [_ Hcm _ _ Hreg3].
  rewrite <- (unrejected_release h s2) in Hone. rewrite <- (td_gauge _ _ (tidy_release h s2)) in Hzero by done.
  set (s3 := (handle_release h s2).2) in *. clearbody s3.
  unfold stats. apply runs_assoc, runs_get_stats. intros v s4 Hv _ _. apply runs_pure. cbv zeta. cbn [value_or]. rewrite Hv.
  change (telemetry s3 host_bytes) with (u64 (telem_ s3 host_bytes + domain_total (ledger s3) MemoryDomain.HOST)).
  change (telemetry s3 quota_rejections) with (telem_ s3 quota_rejections).
  rewrite Hzero, domain_total_zero, (gone_buffers s3), Hone;
    [|congruence|intros ns; rewrite Hcm; apply (Hl ns MemoryDomain.HOST)].
  apply runs_print, runs_check; [done|]. apply runs_check; [done|]. apply runs_print, runs_return. close_pass.
Qed.
End quota.

(** * Properties *)

(** C16: examples/quota.cpp passes on a host with room for its two requests, unless its
    first allocation is refused: the second request is rejected, with quota_exceeded and
    nothing else, the rejection is counted, and after the release no buffer is active and
    no host byte is charged. *)
Theorem quota_example_passes `{P : Platform} (seed : Z) (m : Machine) :
  8192 ≤ (cap_for MemoryDomain.HOST (RuntimeImpl_new RuntimeConfig_default seed m).1).1 →
  reports "quota" quota seed m.
Proof. intros Hcap. by apply runs_reports, quota_runs. Qed.

Lemma quota_example_passes_witness :
  8192 ≤ (cap_for MemoryDomain.HOST sim_runtime).1 ∧ reports "quota" quota 7 sim_machine
  ∧ passed "quota" (run_main quota 7 sim_machine).1.1 (run_main quota 7 sim_machine).1.2.
Proof.
  assert (8192 ≤ (cap_for MemoryDomain.HOST sim_runtime).1) as Hcap by by vm_compute.
  split; [done|]. split; [by apply (quota_example_passes 7 sim_machine)|split; by vm_compute].
Defined.
